(* ===== verification/_CoqProject ===== *)
-Q . S2P
Prelude.v
Text.v
Env.v
Clock.v
Numbers.v
Types.v
Url.v
Json.v
Validation.v
LinkRepository.v
LinkStore.v
LinkCommands.v
LinkLifecycle.v
Router.v
ClickEvents.v
UriMap.v
LinkJson.v
Server.v
LinkHandlers.v
RedirectHandlers.v
HttpServer.v
HttpInvariants.v
HttpBehaviour.v
RouteRegistry.v
Storage.v
LinkService.v
RedisCodec.v
RateLimiter.v
Analytics.v
Pipeline.v
Security.v
SecurityProps.v
ProgramOptions.v
LinkArgs.v
Cli.v
CliProps.v
SqlRows.v
SqlSessions.v
SqlRepository.v
SqlBackends.v
SqlProps.v
StorageFactory.v
StatsHandler.v
SqlClickEvents.v
RedisStores.v
TlsContext.v
Listener.v
Observability.v
Redaction.v
Migrations.v
LegacyHelpers.v
ApiReference.v
CacheAdapters.v
SqlPort.v
SqlPipeline.v
StaleCache.v
Printers.v
