(* ===== verification/Prelude.v ===== *)
(** * UrlShortener: a verification development

    UrlShortener is an HTTP service, written in C++, that stores short links
    (slug to target URL), redirects visitors, records click events and offers a
    REST API to manage the links. Paths below are relative to the repository;
    headers live in include/url_shortener/.

    ** The program and the files that model it

    - Prelude, Text, Env: byte strings, 64-bit integers, the state monad [ST]
      with its laws, the shared list and option lemmas, the hint database
      [shortener]; the string helpers of src/core/utils.cpp; the wall clock and
      the random generator as streams of readings ([Env]).
    - Clock: [formatTimestamp], [parseRfc3339Zulu], [isExpired]
      (src/core/utils.cpp) above [timegm], [gmtime_r], [std::put_time] and
      [std::get_time]. Time points are 64-bit nanosecond counts and wrap.
    - Types: [Link], [Campaign], [Stats], [ServerConfig] (core/types.hpp,
      core/config.hpp).
    - Url: [normalizeTargetUrl], [isPrivateHost],
      [normalizeAndValidateBaseDomain]. Json: the escaping functions and the
      field scanners. Validation: link status, tags, metadata, campaign. All
      three from src/core/utils.cpp.
    - LinkRepository: the two-index in-memory repository, the cache and the
      cache-aside functions of src/storage/link_repository.cpp.
    - LinkStore: [AppError], [Result], the port [ILinkStore] as a class of
      operations and its contract [LinkStoreSpec] as a class of laws over an
      abstract table of links; the adapter [LegacyLinkStore]
      (src/app/legacy_adapters.cpp) and the proof that it meets the contract.
    - LinkCommands: [LinkCommandService] (src/app/link_command_service.cpp),
      every command over any [ILinkStore]. LinkLifecycle: its theorems, proved
      against the contract only, and the refinement of the server's store to
      the table.
    - ClickEvents: the legacy bounded queue (src/analytics/click_event_queue.cpp),
      the in-memory click repository
      (src/storage/memory/in_memory_click_event_repository.cpp) and the
      statistics reader (src/app/legacy_adapters.cpp).
    - LinkJson: the JSON bodies (src/app/link_command_service.cpp).
    - UriMap: the legacy URI store and its file format
      (src/uri_map_singleton.cpp).
    - Router: path matching and dispatch (src/http/router.cpp), generic in the
      state of the handlers.
    - Server: the process-wide state as one record, metrics, request ids and
      response builders (src/http/request_handlers.cpp). LinkHandlers and
      RedirectHandlers: every handler of src/http/handlers/. HttpServer: the
      route table (src/http/router_builder.cpp), the route labels and the
      sessions (src/http/http_session.cpp). HttpInvariants and HttpBehaviour:
      the theorems about whole requests.
    - Numbers: [std::stoll] and [std::stoull] against [std::to_string].
    - Storage: the models and ports of storage/, their contracts as classes of
      laws, and src/storage/inmemory/. LinkService: src/core/link_service.cpp
      over any repository, cache and sink. RedisCodec: the text of a cached
      value (src/storage/redis/redis_cache_serialization.cpp). RateLimiter: the
      fixed-window limiter (src/storage/inmemory/in_memory_rate_limiter.cpp).
    - Analytics: sanitisation, hashing, validation and construction of click
      events. Pipeline: the bounded queue, the service, the worker thread and the
      retention job, as a step relation over the threads (src/analytics/).
    - Security: the services and repositories of src/security/ over the tables
      of src/storage/sql/migrations/005_auth_tables.sql as lists of rows with
      their key constraints, in a state and exception monad; SecurityProps: their
      theorems.
    - ProgramOptions: Boost.ProgramOptions as a class of one function and its
      documented laws, with a reference parser that meets them. LinkArgs: the
      flags of the [link] verbs (src/cli/link_command_args.cpp). Cli: environment
      variables, server flags, help texts, [parse] (src/cli_parser.cpp), the
      one-shot dispatch (src/cli/link_command_dispatch.cpp) and [main] up to the
      start of the server (src/main.cpp). CliProps: their theorems.
    - RouteRegistry: the documented routes (src/http/route_registry.cpp) and
      their agreement with the route table of HttpServer.
    - SqlRows: rows, the payload column and the row mapper
      (src/storage/sql/sql_metadata_row_mapper.cpp) and the error mappers; Boost's
      property tree is a class with its laws. SqlSessions: the dialects'
      statements as functions on the table [links] and the SQLite and PostgreSQL
      sessions (src/storage/sqlite/, src/storage/postgres/), where every statement
      may throw, before or after it takes effect; the drivers are a class. SqlRepository: [SqlMetadataRepository]
      over any session, the contract of a session and the abstract repository.
      SqlBackends: both sessions meet the contract. SqlProps: the theorems and an
      instance of every parameter.
    - StorageFactory: the storage configuration (src/config/storage_config.cpp)
      and the adapters it selects (src/composition/storage_factory.cpp).
    - SqlClickEvents: the SQL click repository
      (src/storage/sql/sql_click_event_repository.cpp). StatsHandler: the
      statistics handler (src/http/analytics_stats_handler.cpp).
    - RedisStores: the Redis cache and the Redis limiter (src/storage/redis/) over
      a class of servers that may lose or refuse any command; the limiter's script
      is translated over the server's counters.
    - TlsContext: [buildTlsContext] (src/http/http_server.cpp) and the checks of
      src/http/request_handlers.cpp, over a record of what the file system and
      OpenSSL answer. Listener: the server process, its accept handlers, sessions
      and signals as steps of an event loop (src/http/http_server.cpp,
      src/http/http_session.cpp, src/main.cpp).
    - Observability: the logger and the metric labels (src/observability/).
      Redaction: [redactSecretValue] with its regular expression as a matcher.
    - Migrations: src/storage/postgres/postgres_migration_runner.cpp.
    - LegacyHelpers: the helpers of src/http/request_handlers.cpp that the handlers
      have their own versions of, and their equality. CacheAdapters: the adapters of
      src/composition/storage_factory.cpp and Redis behind the cache port. SqlPort:
      the SQL repository behind the repository port, on both back ends. StaleCache:
      LinkService over Redis and a database that may fail. SqlPipeline: the
      analytics worker over the SQL click repository. Printers:
      the stream operators. ApiReference: tools/route_registry_dump.cpp.

    ** How the parts interact

    A session checks the limits, picks an action for the request through the
    route table and runs the handler. A link handler reads the body with the
    scanners of Json into a command, runs the command of LinkCommands on the
    server's store through the adapter and prints the view with LinkJson. A
    redirect handler reads the store through the cache, computes the status,
    updates the counters and emits click events. The server runs its
    [io_context] on one thread and every repository method holds its mutex for
    its whole body, so a request is one atomic step and a run is a sequence of
    steps ([http_step]).

    ** What the theorems show

    - Whole server: the invariant of every reachable state, the stability of a
      stored link, what following an active or an inactive link answers and
      changes, which handler a target reaches, refusals.
    - Command layer, over any store that meets the contract: creation is all or
      nothing and succeeds exactly under its conditions, the semantics of a
      patch, soft deletion and restoration, slugs are never reused, validity
      and identity of links over any sequence of commands.
    - Store: primary index, secondary index and cache refine one table, and
      answer every sequence of commands as the table does.
    - Router: the specificity-based selection equals its reference definition.
    - Text, URL, JSON and clock: normal forms, idempotence, round trips, and
      the exact set of inputs on which the code departs from them.
    - Analytics: aggregation partitions the selected events, bucket bounds, the
      bounded queue.
    - Storage and resolution: a cached [Resolve] is indistinguishable from reading
      the table while the deletions for its code take effect; paging is complete and ordered; the limiter allows exactly its
      limit per window.
    - Pipeline: order and completeness of persistence in every interleaving, and
      termination of the stopping worker with nothing left behind.
    - Security: when a token is accepted, what revocation and deactivation
      guarantee for ever after, who can change accounts, the password hash; any
      SQL statement may throw, with or without effect.
    - Command line: commands and flags round trip, parsed commands dispatch and
      report by exit code, precedence and ranges of the configuration.
    - SQL storage: under any faults of the database, lost acknowledgements included,
      the repository refines a table of records on both back ends, for the records
      and lists the theorems name; retries are bounded; the analytics worker
      over the click table loses and repeats nothing it reports as persisted, and
      aggregates equal the in-memory ones; accepted configurations
      build. The retry loop has [S max_retries] rounds of fuel, which
      RunWithRetry_bounded shows to be enough.
    - Process: the invariant of the event loop from boot, TLS contexts, reloads that
      are all or nothing, plain connections behind the redirect, termination of
      sessions.
    - Redis: the service over Redis and a failing database redirects only to targets
      the table has held for the code, and sees an update once its deletion in the
      cache is confirmed; the limiter never exceeds its limit under lost commands
      and replies.
    - Operations: passwords in the named forms and the client's fields do not reach
      the log; migrations run in one order and the way down drops what the way up
      made, and nothing else.

    ** Bounds

    [array_elements] and [scan_pairs] (Json) recurse with fuel equal to the
    length of the text; each round consumes a character, so the fuel is not
    exhausted; [scan_parameters] (RouteRegistry) is proved to need no more fuel
    than the length of the pattern. The slug loops run ten and twenty times because the code does;
    [replace_all] (Redaction) is proved to need no more fuel than the length of the text. Everything
    else is structural recursion. A counter of type [uint64_t] is kept modulo
    2^64 ([u64]) and a [system_clock] time point wraps at 64 bits ([wrap64]).

    ** Parameters

    HMAC-SHA256 (OpenSSL) and the iteration order of unordered maps are
    arguments ([Platform]), as are PBKDF2 and SHA-256 in Security; theorems
    quantify over them. Boost.ProgramOptions is the class [ProgramOptions].

    ** Not modelled

    Socket input and output, the TLS protocol and the memory management of
    sessions (Boost, OpenSSL): their outcomes are the events of Listener. Two
    threads in one repository method (the mutexes make a method one step). SOCI, hiredis,
    the database engines, Boost.PropertyTree and yaml-cpp are parameters with
    their documented laws; times survive the SQLite columns up to 2038, the range
    of the [int] its driver returns. Parsing of command lines other than
    [--name value] pairs is left to the option library: the theorems about
    parsed commands and about the configuration hold for every command line, the
    round trips for canonical ones. *)
From Stdlib Require Export Ascii ZArith Lia.
From stdpp Require Export base tactics list option strings gmap sorting fin_maps pretty.

Set Default Proof Using "Type".

(** ** Byte strings

    [std::string] is a list of 8-bit characters. Literals are written as Rocq
    strings and inserted by a coercion. *)
Abbreviation str := (list ascii).

Coercion String.list_ascii_of_string : string >-> list.

(** The double quote, which Rocq literals cannot spell plainly. *)
Definition dquote : ascii := "034"%char.
Definition backslash : ascii := "092"%char.

(** A literal written with single quotes where the C++ literal has double
    quotes: [json_text "{'id':"] is the C++ literal of the same JSON text. *)
Definition json_text (s : string) : str :=
  map (fun c => if bool_decide (c = "'"%char) then dquote else c) (String.list_ascii_of_string s).

(** Decimal rendering, as [std::to_string] and [operator<<] on integers. *)
Definition dec (z : Z) : str := String.list_ascii_of_string (pretty z).

(** ** Fixed-width integers *)
Definition u64 (z : Z) : Z := z mod 2 ^ 64.
Definition wrap64 (z : Z) : Z := (z + 2 ^ 63) mod 2 ^ 64 - 2 ^ 63.
Definition in_i64 (z : Z) : Prop := (- 2 ^ 63 ≤ z < 2 ^ 63)%Z.

(** ** State-passing computations *)
Definition ST (St A : Type) : Type := St → A * St.

#[export] Instance ST_ret {St} : MRet (ST St) := fun A a s => (a, s).
#[export] Instance ST_bind {St} : MBind (ST St) :=
  fun A B k m s => let '(a, s') := m s in k a s'.

Definition get_state {St} : ST St St := fun s => (s, s).
Definition gets {St A} (f : St → A) : ST St A := fun s => (f s, s).
Definition modify {St} (f : St → St) : ST St unit := fun s => (tt, f s).

(** Running a computation step by step. *)
Lemma ST_bind_eq {St A B} (m : ST St A) (k : A → ST St B) (s : St) :
  (m ≫= k) s = k (m s).1 (m s).2.
Proof. unfold mbind, ST_bind. by destruct (m s). Qed.

Lemma ST_ret_eq {St A} (a : A) (s : St) : (mret a : ST St A) s = (a, s).
Proof. done. Qed.

(** ** Automation *)
Create HintDb shortener.

(** Turns boolean tests of the code into the propositions they decide. *)
Ltac bool_simpl :=
  repeat match goal with
  | H : andb _ _ = true |- _ => apply andb_true_iff in H as [? ?]
  | H : orb _ _ = false |- _ => apply orb_false_iff in H as [? ?]
  | H : negb _ = true |- _ => apply negb_true_iff in H
  | H : negb _ = false |- _ => apply negb_false_iff in H
  | H : bool_decide _ = true |- _ => apply bool_decide_eq_true in H
  | H : bool_decide _ = false |- _ => apply bool_decide_eq_false in H
  | H : Nat.leb _ _ = true |- _ => apply Nat.leb_le in H
  | H : Nat.leb _ _ = false |- _ => apply Nat.leb_gt in H
  | H : Nat.ltb _ _ = true |- _ => apply Nat.ltb_lt in H
  | H : Nat.ltb _ _ = false |- _ => apply Nat.ltb_ge in H
  | H : Z.leb _ _ = true |- _ => apply Z.leb_le in H
  | H : Z.leb _ _ = false |- _ => apply Z.leb_gt in H
  | H : Z.ltb _ _ = true |- _ => apply Z.ltb_lt in H
  | H : Z.ltb _ _ = false |- _ => apply Z.ltb_ge in H
  end.

(** Case analysis on the scrutinees of the matches in the goal. *)
Ltac split_matches :=
  repeat (case_match; simplify_eq/=).

(** Exhausts the 256 values of a character. *)
Ltac all_chars c := destruct c as [[] [] [] [] [] [] [] []].

(** ** Generic list functions *)
Section list_functions.
Context {A : Type}.
Implicit Types (P : A → bool) (l : list A).

(** Index of the first element satisfying [P]. *)
Fixpoint find_if P l : option nat :=
  match l with
  | [] => None
  | x :: l' => if P x then Some 0 else S <$> find_if P l'
  end.

Fixpoint drop_while P l : list A :=
  match l with
  | [] => []
  | x :: l' => if P x then drop_while P l' else l
  end.

Lemma find_if_None P l : find_if P l = None ↔ Forall (fun x => P x = false) l.
Proof.
  induction l as [|x l IH]; simpl; [by split|].
  destruct (P x) eqn:E; [split; [done|inversion 1; congruence]|].
  rewrite fmap_None, IH. split; [by constructor|by inversion 1].
Qed.

Lemma find_if_Some P l i :
  find_if P l = Some i →
  ∃ x, l = take i l ++ x :: drop (S i) l ∧ P x = true ∧
       Forall (fun y => P y = false) (take i l) ∧ i < length l.
Proof.
  revert i. induction l as [|x l IH]; intros i; simpl; [done|].
  destruct (P x) eqn:E.
  - intros [= <-]. exists x. repeat split; auto; simpl; lia.
  - destruct (find_if P l) as [j|]; simpl; [|done]. intros [= <-].
    destruct (IH j eq_refl) as (y & Hl & Hy & Hall & Hlt). exists y. simpl.
    repeat split; auto; [by rewrite <- Hl|lia].
Qed.

Lemma find_if_first P l1 x l2 :
  Forall (fun y => P y = false) l1 → P x = true →
  find_if P (l1 ++ x :: l2) = Some (length l1).
Proof.
  intros H Hx. induction H as [|y l1 Hy _ IH]; simpl; [by rewrite Hx|].
  by rewrite Hy, IH.
Qed.

Lemma drop_while_suffix P l : ∃ k, l = k ++ drop_while P l ∧ Forall (fun x => P x = true) k.
Proof.
  induction l as [|x l (k & Hk & Hall)]; simpl; [by exists []|].
  destruct (P x) eqn:E; [|by exists []].
  exists (x :: k). simpl. split; [by rewrite <- Hk|by constructor].
Qed.

Lemma drop_while_head P l x l' : drop_while P l = x :: l' → P x = false.
Proof.
  induction l as [|y l IH]; simpl; [done|].
  destruct (P y) eqn:E; [done|]. by intros [= <- _].
Qed.

Lemma drop_while_id P l : (∀ x l', l = x :: l' → P x = false) → drop_while P l = l.
Proof. destruct l as [|x l]; simpl; [done|]. intros H. by rewrite (H x l eq_refl). Qed.

Lemma drop_while_app P k l :
  Forall (fun x => P x = true) k → drop_while P (k ++ l) = drop_while P l.
Proof. induction 1 as [|x k Hx _ IH]; simpl; [done|]. by rewrite Hx. Qed.

Lemma drop_while_nil P l : drop_while P l = [] ↔ Forall (fun x => P x = true) l.
Proof.
  induction l as [|x l IH]; simpl; [done|].
  destruct (P x) eqn:E; [rewrite IH; split; [by constructor|by inversion 1]|].
  split; [done|inversion 1; congruence].
Qed.

Lemma forallb_Forall P l : forallb P l = true ↔ Forall (fun x => P x = true) l.
Proof. rewrite forallb_forall, Forall_forall. by setoid_rewrite list_elem_of_In. Qed.
End list_functions.

(** Elements printed with a comma before each one but the first. *)
Fixpoint comma_separated (l : list str) : str :=
  match l with
  | [] => []
  | [x] => x
  | x :: l' => x ++ ","%char :: comma_separated l'
  end.

(** Prefix test and substring search. *)
Fixpoint starts_with (p s : str) : bool :=
  match p, s with
  | [], _ => true
  | a :: p', b :: s' => Ascii.eqb a b && starts_with p' s'
  | _ :: _, [] => false
  end.

Fixpoint find_str (p s : str) : option nat :=
  if starts_with p s then Some 0
  else match s with [] => None | _ :: s' => S <$> find_str p s' end.

Lemma starts_with_spec p s : starts_with p s = true ↔ p `prefix_of` s.
Proof.
  revert s. induction p as [|a p IH]; intros s; simpl.
  - split; [intros _; apply prefix_nil|done].
  - destruct s as [|b s]; [split; [done|]; by intros ?%prefix_nil_not|].
    rewrite andb_true_iff, Ascii.eqb_eq, IH. split.
    + intros [-> H]. by apply prefix_cons.
    + intros H. split; [by apply prefix_cons_inv_1 in H|by apply prefix_cons_inv_2 in H].
Qed.

Lemma starts_with_app p s : starts_with p (p ++ s) = true.
Proof. apply starts_with_spec. by apply prefix_app_r. Qed.

Lemma find_str_Some p s i :
  find_str p s = Some i → drop i s = p ++ drop (i + length p) s ∧ i ≤ length s.
Proof.
  revert i. induction s as [|c s IH]; intros i; simpl.
  - destruct (starts_with p []) eqn:E; [|done]. intros [= <-].
    apply starts_with_spec in E as [k Hk]. destruct p; [|done]. split; simpl; [done|lia].
  - destruct (starts_with p (c :: s)) eqn:E.
    + intros [= <-]. apply starts_with_spec in E as [k Hk]. split; [|lia].
      rewrite drop_0, Nat.add_0_l. rewrite Hk at 1. by rewrite Hk, drop_app_length.
    + destruct (find_str p s) as [j|]; simpl; [|done]. intros [= <-].
      destruct (IH j eq_refl). split; [done|lia].
Qed.

Lemma find_str_None p s k1 k2 : find_str p s = None → s ≠ k1 ++ p ++ k2.
Proof.
  revert k1. induction s as [|c s IH]; intros k1; simpl;
    destruct (starts_with _ _) eqn:E; try done; intros H Hs.
  - destruct k1; [|done]. simpl in Hs. destruct p; [|done]. done.
  - destruct k1 as [|a k1]; simpl in Hs.
    + rewrite Hs, starts_with_app in E. done.
    + destruct (find_str p s) eqn:E2; [done|]. injection Hs as -> Hs.
      by eapply IH.
Qed.
