(* ===== verification/Text.v ===== *)
(** * Text: the string helpers of src/core/utils.cpp

    Character classes of the C locale, [trim], [clampString], [hexEncode],
    slug generation and slug validation, with the facts the URL, JSON and tag
    components share. *)
From S2P Require Import Prelude.

(** ** Character classes ([<cctype>] in the C locale, and the regex classes) *)
Definition code (c : ascii) : N := N_of_ascii c.
Definition is_upper (c : ascii) : bool := (65 <=? code c)%N && (code c <=? 90)%N.
Definition is_lower (c : ascii) : bool := (97 <=? code c)%N && (code c <=? 122)%N.
Definition is_digit (c : ascii) : bool := (48 <=? code c)%N && (code c <=? 57)%N.
Definition is_alpha (c : ascii) : bool := is_upper c || is_lower c.
Definition is_alnum (c : ascii) : bool := is_alpha c || is_digit c.
Definition is_space (c : ascii) : bool := ((9 <=? code c)%N && (code c <=? 13)%N) || (code c =? 32)%N.
Definition to_lower (c : ascii) : ascii := if is_upper c then ascii_of_N (code c + 32) else c.

(** [std::transform] with [std::tolower] over a whole string. *)
Definition lower (s : str) : str := map to_lower s.

(** [find_first_of] and friends work on a set of characters. *)
Definition one_of (set : string) (c : ascii) : bool :=
  existsb (Ascii.eqb c) (String.list_ascii_of_string set).

Definition find_char (c : ascii) (s : str) : option nat := find_if (Ascii.eqb c) s.
Definition has_char (c : ascii) (s : str) : bool := existsb (Ascii.eqb c) s.

Lemma to_lower_idem c : to_lower (to_lower c) = to_lower c.
Proof. by all_chars c. Qed.

Lemma lower_idem s : lower (lower s) = lower s.
Proof. unfold lower. rewrite map_map. apply map_ext, to_lower_idem. Qed.

Lemma length_lower s : length (lower s) = length s.
Proof. apply length_map. Qed.

Lemma lower_app s1 s2 : lower (s1 ++ s2) = lower s1 ++ lower s2.
Proof. apply map_app. Qed.

(** Characters a test on the original also holds of its lower-case form. *)
Lemma lower_Forall (P : ascii → bool) s :
  (∀ c, P c = true → P (to_lower c) = true) →
  Forall (fun c => P c = true) s → Forall (fun c => P c = true) (lower s).
Proof. intros HP H. unfold lower. rewrite Forall_map. eapply Forall_impl; [exact H|]. simpl; auto. Qed.

Lemma has_char_false c s : has_char c s = false ↔ c ∉ s.
Proof.
  unfold has_char. induction s as [|d s IH]; simpl; [split; [intros _ H; inversion H|done]|].
  rewrite orb_false_iff, IH, not_elem_of_cons, Ascii.eqb_neq. done.
Qed.

Lemma has_char_true c s : has_char c s = true ↔ c ∈ s.
Proof.
  destruct (has_char c s) eqn:E; split; try done.
  - intros _. destruct (decide (c ∈ s)); [done|]. by apply has_char_false in n; congruence.
  - intros H. by apply has_char_false in E.
Qed.

Lemma find_char_None c s : find_char c s = None ↔ c ∉ s.
Proof.
  unfold find_char. rewrite find_if_None. split.
  - intros H Hin. apply Forall_forall with (x := c) in H; [|done].
    by rewrite Ascii.eqb_refl in H.
  - intros H. apply Forall_forall. intros d Hd. apply Ascii.eqb_neq. by intros ->.
Qed.

(** [find(c)] returned a position: the string splits there. *)
Lemma find_char_Some c s i :
  find_char c s = Some i → s = take i s ++ c :: drop (S i) s ∧ (c ∉ take i s) ∧ i < length s.
Proof.
  intros (d & Hs & Hd & Hall & Hi)%find_if_Some. apply Ascii.eqb_eq in Hd as <-.
  repeat split; [done| |done]. intros Hin.
  apply Forall_forall with (x := c) in Hall; [|done]. by rewrite Ascii.eqb_refl in Hall.
Qed.

Lemma find_char_first c s1 s2 : c ∉ s1 → find_char c (s1 ++ c :: s2) = Some (length s1).
Proof.
  intros H. apply find_if_first; [|apply Ascii.eqb_refl].
  apply Forall_forall. intros d Hd. apply Ascii.eqb_neq. by intros ->.
Qed.

(** ** [trim] *)
Definition is_trim_ws : ascii → bool :=
  fun c => Ascii.eqb c " " || Ascii.eqb c "009" || Ascii.eqb c "013" || Ascii.eqb c "010".

(** [find_first_not_of] and [find_last_not_of], then [substr]: the string with
    both runs of white space dropped. *)
Definition trim (value : str) : str :=
  match find_if (fun c => negb (is_trim_ws c)) value with
  | None => []
  | Some start =>
      match find_if (fun c => negb (is_trim_ws c)) (rev value) with
      | None => []
      | Some back =>
          let end_ := length value - 1 - back in
          take (end_ - start + 1) (drop start value)
      end
  end.

(** A string without white space at either end. *)
Definition trimmed (m : str) : Prop :=
  (∀ x r, m = x :: r → is_trim_ws x = false) ∧ (∀ x r, m = r ++ [x] → is_trim_ws x = false).

Lemma trim_blank s : Forall (fun c => is_trim_ws c = true) s → trim s = [].
Proof.
  intros H. unfold trim. rewrite (proj2 (find_if_None _ s)); [done|].
  eapply Forall_impl; [exact H|]. simpl. intros c ->. done.
Qed.

Lemma trim_unique a m b :
  Forall (fun c => is_trim_ws c = true) a → Forall (fun c => is_trim_ws c = true) b →
  m ≠ [] → trimmed m → trim (a ++ m ++ b) = m.
Proof.
  intros Ha Hb Hm [Hhd Htl].
  assert (Hneg : ∀ l, Forall (fun c => is_trim_ws c = true) l →
    Forall (fun c => negb (is_trim_ws c) = false) l).
  { intros l Hl. eapply Forall_impl; [exact Hl|]. simpl. intros c ->. done. }
  destruct m as [|x r]; [done|]. unfold trim.
  rewrite <- app_comm_cons, (find_if_first _ a x (r ++ b)); [|auto|by rewrite (Hhd x r)].
  destruct (exists_last (l := x :: r) ltac:(done)) as (r' & y & Hy).
  assert (Hrev : rev (a ++ x :: r ++ b) = rev b ++ y :: rev r' ++ rev a).
  { change (x :: r ++ b) with ((x :: r) ++ b). rewrite Hy, !rev_app_distr. simpl. by rewrite <- app_assoc. }
  rewrite Hrev, find_if_first;
    [|apply Hneg; by apply List.Forall_rev|by rewrite (Htl y r')].
  apply (f_equal length) in Hy as Hl. rewrite length_app in Hl. simpl in Hl.
  rewrite drop_app_length, length_app, length_rev. simpl. rewrite length_app.
  replace (length a + S (length r + length b) - 1 - length b - length a + 1) with (length (x :: r))
    by (simpl; lia).
  change (x :: r ++ b) with ((x :: r) ++ b). apply take_app_length.
Qed.

(** [trim] removes white space at both ends and nothing else. *)
Lemma trim_decomp s : ∃ a b,
  s = a ++ trim s ++ b ∧ trimmed (trim s) ∧
  Forall (fun c => is_trim_ws c = true) a ∧ Forall (fun c => is_trim_ws c = true) b.
Proof.
  destruct (drop_while_suffix is_trim_ws s) as (a & Hs & Ha).
  destruct (drop_while_suffix is_trim_ws (rev (drop_while is_trim_ws s))) as (b & Ht & Hb).
  set (t := drop_while is_trim_ws s) in *. set (m := rev (drop_while is_trim_ws (rev t))).
  assert (Hm : t = m ++ rev b).
  { apply (f_equal (@rev ascii)) in Ht. by rewrite rev_involutive, rev_app_distr in Ht. }
  apply List.Forall_rev in Hb. destruct (decide (m = [])) as [E|E].
  - assert (trim s = []) as ->.
    { apply trim_blank. rewrite Hs, Hm, E. by apply Forall_app. }
    exists s, []. simpl. rewrite app_nil_r. split_and!; [done|split| |done].
    + by intros ??.
    + by intros ? [].
    + rewrite Hs, Hm, E. by apply Forall_app.
  - assert (Hmt : trimmed m).
    { split.
      - intros x r Hx. apply (drop_while_head is_trim_ws s x (r ++ rev b)). fold t. by rewrite Hm, Hx.
      - intros x r Hx. apply (drop_while_head is_trim_ws (rev t) x (rev r)).
        rewrite <- (rev_involutive (drop_while _ _)). fold m. by rewrite Hx, rev_app_distr. }
    rewrite Hm in Hs. exists a, (rev b). rewrite Hs. rewrite trim_unique; auto.
Qed.

Lemma trim_trimmed s : trimmed s → trim s = s.
Proof.
  intros H. destruct s as [|c s]; [done|].
  rewrite <- (app_nil_r (c :: s)) at 1. by apply (trim_unique [] (c :: s) []).
Qed.

Lemma trim_idem s : trim (trim s) = trim s.
Proof. destruct (trim_decomp s) as (a & b & _ & H & _). by apply trim_trimmed. Qed.

Definition clampString (value : str) (max_len : nat) : str :=
  if length value <=? max_len then value else take max_len value.

Definition hex_digit (n : N) : ascii :=
  if (n <? 10)%N then ascii_of_N (48 + n) else ascii_of_N (87 + n).

(** Two lower-case hexadecimal digits per byte, zero filled. *)
Definition hexEncode (data : str) : str :=
  flat_map (fun c => [hex_digit (code c / 16); hex_digit (code c mod 16)]) data.

Definition isValidHttpUrl (url : str) : bool :=
  starts_with "http://" url || starts_with "https://" url.

(** ** Slugs *)
Definition is_slug_char (c : ascii) : bool := is_alnum c || Ascii.eqb c "_" || Ascii.eqb c "-".

(** [^[A-Za-z0-9][A-Za-z0-9_-]{2,63}$] *)
Definition isValidSlug (slug : str) : bool :=
  match slug with
  | [] => false
  | c :: rest =>
      is_alnum c && forallb is_slug_char rest && (2 <=? length rest) && (length rest <=? 63)
  end.

Definition reserved_slugs : list string :=
  ["api"; "health"; "metrics"; "admin"; "login"; "logout"; "r"; "preview"; "stats"].

Definition isReservedSlug (slug : str) : bool :=
  existsb (fun r => bool_decide (lower slug = String.list_ascii_of_string r)) reserved_slugs.

Definition slug_chars : str := "0123456789ABCDEFGHIJKLMNOPQRSTUVWXYZabcdefghijklmnopqrstuvwxyz".

(** ** [std::getline]

    The pieces [std::getline] returns one after the other: the text between
    delimiters, without an empty piece after the last one. *)
Fixpoint getlines (delim : ascii) (s : str) : list str :=
  match s with
  | [] => []
  | c :: s' =>
      if Ascii.eqb c delim then [] :: getlines delim s'
      else match getlines delim s' with
           | l :: rest => (c :: l) :: rest
           | [] => [[c]]
           end
  end.

Lemma getlines_piece delim l rest : (delim ∉ l) → getlines delim (l ++ delim :: rest) = l :: getlines delim rest.
Proof.
  induction l as [|c l IH]; simpl; [by rewrite Ascii.eqb_refl|]. intros [Hc Hl]%not_elem_of_cons.
  rewrite (proj2 (Ascii.eqb_neq c delim)) by congruence. by rewrite IH.
Qed.

Lemma getlines_last delim l : (delim ∉ l) → l ≠ [] → getlines delim l = [l].
Proof.
  induction l as [|c l IH]; simpl; [done|]. intros [Hc Hl]%not_elem_of_cons _.
  rewrite (proj2 (Ascii.eqb_neq c delim)) by congruence. destruct l; [done|]. by rewrite IH.
Qed.
