(* ===== verification/Env.v ===== *)
(** * Env: what a process reads from outside

    The wall clock and the random generator are streams: every call of
    [std::chrono::system_clock::now()] takes the next clock reading and every
    call of [dist(rng)] takes the next draw. Theorems quantify over the
    streams, so no reading is assumed to be related to another. *)
From S2P Require Import Prelude Text.

(** A time point counts nanoseconds since the epoch (the tick of
    [system_clock] in libstdc++). *)
Record Env := mkEnv {
  clock : nat → Z;
  ticks : nat;
  draws : nat → nat;
  drawn : nat;
}.

Definition system_now : ST Env Z :=
  fun e => (clock e (ticks e), mkEnv (clock e) (S (ticks e)) (draws e) (drawn e)).

(** One draw of the uniform distribution over [0, n-1]. *)
Definition draw_below (n : nat) : ST Env nat :=
  fun e => (draws e (drawn e) mod n, mkEnv (clock e) (ticks e) (draws e) (S (drawn e))).

(** ** [generateSlug] and [generateId] *)
Definition slug_char (i : nat) : ascii := nth i slug_chars "0"%char.
Arguments slug_char : simpl never.

Fixpoint generateSlug (length_ : nat) : ST Env str :=
  match length_ with
  | O => mret []
  | S n =>
      i ← draw_below (length slug_chars);
      rest ← generateSlug n;
      mret (slug_char i :: rest)
  end.

Definition generateId : ST Env str := generateSlug 20.

Lemma slug_char_alnum i : is_alnum (slug_char i) = true.
Proof.
  unfold slug_char. destruct (decide (i < length slug_chars)) as [Hi|Hi].
  - assert (Hall : Forall (fun c => is_alnum c = true) slug_chars) by (apply forallb_Forall; reflexivity).
    rewrite List.Forall_forall in Hall. by apply Hall, nth_In.
  - rewrite nth_overflow by lia. done.
Qed.

Lemma generateSlug_spec n e :
  length (generateSlug n e).1 = n ∧ Forall (fun c => is_alnum c = true) (generateSlug n e).1.
Proof.
  revert e. induction n as [|n IH]; intros e; simpl; [done|].
  unfold mbind, ST_bind. simpl. destruct (IH (draw_below (length slug_chars) e).2) as [IHl IHa].
  unfold draw_below in *. simpl in IHl, IHa. destruct (generateSlug n _) as [r e'] eqn:E.
  simpl in *. split; [by f_equal|]. constructor; [apply slug_char_alnum|done].
Qed.

(** Generation never touches the clock. *)
Lemma generateSlug_env n e :
  clock (generateSlug n e).2 = clock e ∧ ticks (generateSlug n e).2 = ticks e ∧
  draws (generateSlug n e).2 = draws e ∧ drawn (generateSlug n e).2 = drawn e + n.
Proof.
  revert e. induction n as [|n IH]; intros e; simpl; [auto with lia|].
  unfold mbind, ST_bind. simpl. specialize (IH (draw_below (length slug_chars) e).2). simpl in IH.
  destruct (generateSlug n _) as [r e'] eqn:E. simpl in *. intuition lia.
Qed.

(** An alphanumeric string of a supported length passes the slug syntax. *)
Lemma alnum_valid_slug s :
  3 ≤ length s ≤ 64 → Forall (fun c => is_alnum c = true) s → isValidSlug s = true.
Proof.
  intros Hl Ha. destruct s as [|c s]; simpl in Hl; [lia|].
  apply Forall_cons in Ha as [Hc Hs]. unfold isValidSlug.
  rewrite !andb_true_iff, !Nat.leb_le, forallb_Forall. split_and!; [done| |lia|lia].
  eapply Forall_impl; [exact Hs|]. intros d Hd. unfold is_slug_char. by rewrite Hd.
Qed.
