(* ===== verification/Clock.v ===== *)
(** * Clock: timestamps (the time helpers of src/core/utils.cpp)

    [formatTimestamp], [currentTimestamp], [parseRfc3339Zulu] and [isExpired].
    Below them are the standard-library calls they make: [gmtime_r], [timegm],
    [std::put_time] and [std::get_time] with the format
    [%Y-%m-%dT%H:%M:%SZ], as glibc and libstdc++ implement them. *)
From S2P Require Import Prelude Text Env.
#[local] Open Scope Z_scope.

(** Ticks of [system_clock] per second (nanoseconds). *)
Definition ticks_per_second : Z := 1000000000.

(** [std::tm]; [tm_year] counts from 1900 and [tm_mon] from 0. *)
Record tm := mkTm {
  tm_year : Z;
  tm_mon : Z;
  tm_mday : Z;
  tm_hour : Z;
  tm_min : Z;
  tm_sec : Z;
}.

(** ** Civil calendar *)
Definition days_from_civil (y m d : Z) : Z :=
  let y' := if m <=? 2 then y - 1 else y in
  let era := y' / 400 in
  let yoe := y' mod 400 in
  let mp := if m <=? 2 then m + 9 else m - 3 in
  let doy := (153 * mp + 2) / 5 + d - 1 in
  era * 146097 + (yoe * 365 + yoe / 4 - yoe / 100 + doy) - 719468.

(** Day of the March-based year and that year, by 400-, 100-, 4- and 1-year
    cycles. *)
Definition year_and_day (z : Z) : Z * Z :=
  let era := z / 146097 in
  let doe := z mod 146097 in
  let c := Z.min (doe / 36524) 3 in
  let doc := doe - 36524 * c in
  let q := doc / 1461 in
  let doq := doc mod 1461 in
  let a := Z.min (doq / 365) 3 in
  (400 * era + 100 * c + 4 * q + a, doq - 365 * a).

Definition civil_from_days (days : Z) : Z * Z * Z :=
  let '(y, doy) := year_and_day (days + 719468) in
  let mp := (5 * doy + 2) / 153 in
  let d := doy - (153 * mp + 2) / 5 + 1 in
  let m := if mp <? 10 then mp + 3 else mp - 9 in
  ((if m <=? 2 then y + 1 else y), m, d).

(** [timegm]: out-of-range days and seconds carry over. *)
Definition timegm_utc (t : tm) : Z :=
  days_from_civil (tm_year t + 1900) (tm_mon t + 1) (tm_mday t) * 86400
  + tm_hour t * 3600 + tm_min t * 60 + tm_sec t.

(** [gmtime_r]. *)
Definition gmtime_utc (secs : Z) : tm :=
  let '(y, m, d) := civil_from_days (secs / 86400) in
  let sod := secs mod 86400 in
  mkTm (y - 1900) (m - 1) d (sod / 3600) (sod mod 3600 / 60) (sod mod 60).

(** ** [std::put_time] *)
Definition digit_char (z : Z) : ascii := ascii_of_N (48 + Z.to_N z).
Definition two_digits (z : Z) : str := [digit_char (z / 10 mod 10); digit_char (z mod 10)].

Definition put_time (t : tm) : str :=
  dec (tm_year t + 1900) ++ "-"%char :: two_digits (tm_mon t + 1)
  ++ "-"%char :: two_digits (tm_mday t) ++ "T"%char :: two_digits (tm_hour t)
  ++ ":"%char :: two_digits (tm_min t) ++ ":"%char :: two_digits (tm_sec t) ++ ["Z"%char].

(** ** [std::get_time] *)
Definition digit_val (c : ascii) : Z := Z.of_N (code c) - 48.

(** [_M_extract_num]: up to [len] digits, stopping at a non-digit or as soon
    as the value exceeds [mx]. *)
Fixpoint extract_digits (mx : Z) (len : nat) (s : str) (read : nat) (value : Z) : nat * Z * str :=
  match len, s with
  | S len', c :: s' =>
      if is_digit c then
        let v := value * 10 + digit_val c in
        if mx <? v then (read, v, s) else extract_digits mx len' s' (S read) v
      else (read, value, s)
  | _, _ => (read, value, s)
  end.

Definition extract_num (mn mx : Z) (len : nat) (s : str) : option (Z * str) :=
  let '(read, value, s') := extract_digits mx len s 0 0 in
  if negb (Nat.eqb read 0) && (mn <=? value) && (value <=? mx) then Some (value, s') else None.

Inductive fmt_item := Fyear | Fmon | Fmday | Fhour | Fmin | Fsec | Flit (c : ascii).

Definition rfc3339_format : list fmt_item :=
  [Fyear; Flit "-"; Fmon; Flit "-"; Fmday; Flit "T"; Fhour; Flit ":"; Fmin; Flit ":"; Fsec; Flit "Z"].

Definition convert (item : fmt_item) (s : str) (t : tm) : option (tm * str) :=
  match item with
  | Fyear => '(v, r) ← extract_num 0 9999 4 s;
      Some (mkTm (v - 1900) (tm_mon t) (tm_mday t) (tm_hour t) (tm_min t) (tm_sec t), r)
  | Fmon => '(v, r) ← extract_num 1 12 2 s;
      Some (mkTm (tm_year t) (v - 1) (tm_mday t) (tm_hour t) (tm_min t) (tm_sec t), r)
  | Fmday =>
      let s := match s with c :: s' => if is_space c then s' else s | [] => s end in
      '(v, r) ← extract_num 1 31 2 s;
      Some (mkTm (tm_year t) (tm_mon t) v (tm_hour t) (tm_min t) (tm_sec t), r)
  | Fhour => '(v, r) ← extract_num 0 23 2 s;
      Some (mkTm (tm_year t) (tm_mon t) (tm_mday t) v (tm_min t) (tm_sec t), r)
  | Fmin => '(v, r) ← extract_num 0 59 2 s;
      Some (mkTm (tm_year t) (tm_mon t) (tm_mday t) (tm_hour t) v (tm_sec t), r)
  | Fsec => '(v, r) ← extract_num 0 60 2 s;
      Some (mkTm (tm_year t) (tm_mon t) (tm_mday t) (tm_hour t) (tm_min t) v, r)
  | Flit _ => None
  end.

(** The loop of [time_get::get]: [None] is failbit. A conversion that reaches
    the end of the input sets eofbit, which ends the loop without failbit. *)
Fixpoint get_time (fmt : list fmt_item) (s : str) (t : tm) : option tm :=
  match fmt with
  | [] => Some t
  | item :: fmt' =>
      match s with
      | [] => None
      | c :: s' =>
          match item with
          | Flit l => if Ascii.eqb (to_lower c) (to_lower l) then get_time fmt' s' t else None
          | _ =>
              match convert item s t with
              | None => None
              | Some (t', []) => Some t'
              | Some (t', s'') => get_time fmt' s'' t'
              end
          end
      end
  end.

(** ** The source's functions *)

(** [system_clock::to_time_t] truncates towards zero, [from_time_t] multiplies
    in a signed 64-bit representation. *)
Definition to_time_t (tp : Z) : Z := Z.quot tp ticks_per_second.
Definition from_time_t (secs : Z) : Z := wrap64 (secs * ticks_per_second).

Definition formatTimestamp (time_point : Z) : str :=
  put_time (gmtime_utc (to_time_t time_point)).

Definition currentTimestamp : ST Env str :=
  now ← system_now; mret (formatTimestamp now).

Definition parseRfc3339Zulu (value : str) : option Z :=
  t ← get_time rfc3339_format (drop_while is_space value) (mkTm 0 0 0 0 0 0);
  Some (from_time_t (timegm_utc t)).

Definition isExpired (expires_at : option str) : ST Env bool :=
  match expires_at with
  | None => mret false
  | Some e =>
      match parseRfc3339Zulu e with
      | None => mret false
      | Some ts => now ← system_now; mret (ts <=? now)
      end
  end.

(** ** The calendar round trip *)

(** Division and remainder by constants for [lia]. *)
#[local] Ltac Zify.zify_post_hook ::= Z.to_euclidean_division_equations.

Lemma year_and_day_spec z y doy :
  year_and_day z = (y, doy) →
  0 ≤ doy ≤ 365 ∧
  z = (y / 400) * 146097 + (y mod 400) * 365 + (y mod 400) / 4 - (y mod 400) / 100 + doy.
Proof.
  unfold year_and_day. intros [= <- <-].
  assert (He : z = 146097 * (z / 146097) + z mod 146097) by (apply Z.div_mod; lia).
  assert (Hb := Z.mod_pos_bound z 146097 ltac:(lia)).
  set (era := z / 146097) in *. set (doe := z mod 146097) in *. clearbody era doe.
  assert (Hc : 0 ≤ Z.min (doe / 36524) 3 ≤ 3 ∧ 0 ≤ doe - 36524 * Z.min (doe / 36524) 3 ≤ 36524) by lia.
  set (c := Z.min (doe / 36524) 3) in *. clearbody c.
  set (doc := doe - 36524 * c) in *. assert (Hdoc : doe = 36524 * c + doc) by lia. clearbody doc.
  assert (Hq : doc = 1461 * (doc / 1461) + doc mod 1461) by (apply Z.div_mod; lia).
  assert (Hqb := Z.mod_pos_bound doc 1461 ltac:(lia)).
  set (q := doc / 1461) in *. set (doq := doc mod 1461) in *. clearbody q doq.
  assert (Ha : 0 ≤ Z.min (doq / 365) 3 ≤ 3 ∧ 0 ≤ doq - 365 * Z.min (doq / 365) 3 ≤ 365) by lia.
  set (a := Z.min (doq / 365) 3) in *. clearbody a.
  assert (Hm : (400 * era + 100 * c + 4 * q + a) mod 400 = 100 * c + 4 * q + a).
  { symmetry. apply (Z.mod_unique _ _ era); lia. }
  assert (Hd : (400 * era + 100 * c + 4 * q + a) / 400 = era).
  { symmetry. apply (Z.div_unique _ _ era (100 * c + 4 * q + a)); lia. }
  rewrite Hm, Hd. split; lia.
Qed.

Lemma civil_from_days_spec z y m d :
  civil_from_days z = (y, m, d) → days_from_civil y m d = z ∧ 1 ≤ m ≤ 12 ∧ 1 ≤ d ≤ 31.
Proof.
  unfold civil_from_days. destruct (year_and_day (z + 719468)) as [y0 doy] eqn:E.
  apply year_and_day_spec in E as (Hdoy & Hz).
  assert (Hmp : 0 ≤ (5 * doy + 2) / 153 ≤ 11) by lia.
  assert (Hdd : 0 ≤ doy - (153 * ((5 * doy + 2) / 153) + 2) / 5 ≤ 30) by lia.
  set (mp := (5 * doy + 2) / 153) in *. clearbody mp. intros [= <- <- <-].
  unfold days_from_civil.
  destruct (Z.ltb_spec mp 10), (Z.leb_spec (mp + 3) 2); try lia.
  destruct (Z.leb_spec (mp - 9) 2); [|lia]. split; [|lia].
  replace (mp - 9 + 9) with mp by lia. replace (y0 + 1 - 1) with y0 by lia. lia.
Qed.

(** [timegm] undoes [gmtime_r]. *)
Lemma timegm_gmtime secs : timegm_utc (gmtime_utc secs) = secs.
Proof.
  unfold gmtime_utc, timegm_utc.
  destruct (civil_from_days (secs / 86400)) as [[y m] d] eqn:E.
  apply civil_from_days_spec in E as (Hd & _). simpl.
  replace (y - 1900 + 1900) with y by lia. replace (m - 1 + 1) with m by lia. rewrite Hd.
  pose proof (Z.div_mod secs 86400 ltac:(lia)). lia.
Qed.

(** ** Printing then parsing *)
Lemma digit_char_spec z :
  0 ≤ z ≤ 9 → is_digit (digit_char z) = true ∧ digit_val (digit_char z) = z.
Proof.
  intros H. assert (Hz : z = 0 ∨ z = 1 ∨ z = 2 ∨ z = 3 ∨ z = 4 ∨ z = 5 ∨ z = 6 ∨ z = 7 ∨ z = 8 ∨ z = 9)
    by lia.
  by repeat (destruct Hz as [->|Hz]); subst.
Qed.

(** Digits are read while their value stays within the bound. *)
Lemma extract_digits_step mx len z s read value :
  0 ≤ z ≤ 9 → value * 10 + z ≤ mx →
  extract_digits mx (S len) (digit_char z :: s) read value
  = extract_digits mx len s (S read) (value * 10 + z).
Proof.
  intros Hz Hmx. destruct (digit_char_spec z Hz) as [Hd Hv]. simpl. rewrite Hd, Hv.
  by rewrite (proj2 (Z.ltb_ge _ _) Hmx).
Qed.

Lemma extract_num_two mn mx v s :
  0 ≤ v ≤ 99 → mn ≤ v ≤ mx → extract_num mn mx 2 (two_digits v ++ s) = Some (v, s).
Proof.
  intros Hv Hr. unfold extract_num, two_digits. simpl app.
  rewrite !extract_digits_step by lia.
  replace ((0 * 10 + v / 10 mod 10) * 10 + v mod 10) with v by lia. simpl.
  by rewrite (proj2 (Z.leb_le _ _) (proj1 Hr)), (proj2 (Z.leb_le _ _) (proj2 Hr)).
Qed.

(** The years of the 64-bit nanosecond range have four digits. *)
Definition four_digits (y : Z) : str :=
  [digit_char (y / 1000 mod 10); digit_char (y / 100 mod 10); digit_char (y / 10 mod 10);
   digit_char (y mod 10)].

Lemma dec_four_digits y : 1600 ≤ y ≤ 2300 → dec y = four_digits y.
Proof.
  intros Hy.
  assert (Hall : forallb (fun n => bool_decide (dec (1600 + Z.of_nat n) = four_digits (1600 + Z.of_nat n)))
    (seq 0 701) = true) by (vm_compute; reflexivity).
  rewrite forallb_forall in Hall. specialize (Hall (Z.to_nat (y - 1600))).
  rewrite in_seq in Hall. specialize (Hall ltac:(lia)).
  apply bool_decide_eq_true in Hall. by replace (1600 + Z.of_nat (Z.to_nat (y - 1600))) with y in Hall by lia.
Qed.

Lemma extract_num_year y s :
  1600 ≤ y ≤ 2300 → extract_num 0 9999 4 (dec y ++ s) = Some (y, s).
Proof.
  intros Hy. rewrite dec_four_digits by done. unfold extract_num, four_digits. simpl app.
  rewrite !extract_digits_step by lia.
  replace ((((0 * 10 + y / 1000 mod 10) * 10 + y / 100 mod 10) * 10 + y / 10 mod 10) * 10 + y mod 10)
    with y by lia.
  simpl. by rewrite (proj2 (Z.leb_le 0 y)), (proj2 (Z.leb_le y 9999)) by lia.
Qed.

Record printable_tm (t : tm) : Prop := {
  pt_year : 1600 ≤ tm_year t + 1900 ≤ 2300;
  pt_mon : 0 ≤ tm_mon t ≤ 11;
  pt_mday : 1 ≤ tm_mday t ≤ 31;
  pt_hour : 0 ≤ tm_hour t ≤ 23;
  pt_min : 0 ≤ tm_min t ≤ 59;
  pt_sec : 0 ≤ tm_sec t ≤ 60;
}.

(** One conversion that does not reach the end of the input. *)
Lemma get_time_conv item fmt s t t' d r :
  (∀ l, item ≠ Flit l) → s ≠ [] → convert item s t = Some (t', d :: r) →
  get_time (item :: fmt) s t = get_time fmt (d :: r) t'.
Proof.
  intros Hi Hs Hc. destruct s as [|c s]; [done|]. simpl.
  destruct item; try (by rewrite Hc). by destruct (Hi c0).
Qed.

Lemma get_time_lit l fmt s t : get_time (Flit l :: fmt) (l :: s) t = get_time fmt s t.
Proof. simpl. by rewrite Ascii.eqb_refl. Qed.

Lemma skip_space_two_digits z (s : str) : 0 ≤ z ≤ 99 →
  match two_digits z ++ s with c :: s' => if is_space c then s' else two_digits z ++ s
  | [] => two_digits z ++ s end = two_digits z ++ s.
Proof.
  intros Hz. simpl. destruct (digit_char_spec (z / 10 mod 10) ltac:(lia)) as [Hd _].
  replace (is_space (digit_char (z / 10 mod 10))) with false; [done|].
  revert Hd. generalize (digit_char (z / 10 mod 10)). intros c. by all_chars c.
Qed.

(** [get_time] reads back what [put_time] wrote; what follows is not read. *)
Lemma get_put_time t t0 rest :
  printable_tm t → get_time rfc3339_format (put_time t ++ rest) t0 = Some t.
Proof.
  intros [Hy Hmo Hd Hh Hmi Hs]. unfold put_time, rfc3339_format.
  repeat (rewrite <- app_assoc || rewrite <- app_comm_cons).
  erewrite get_time_conv; [|done|by rewrite dec_four_digits|
    unfold convert; rewrite extract_num_year by done; reflexivity].
  rewrite get_time_lit.
  erewrite get_time_conv; [|done|done|unfold convert; rewrite extract_num_two by lia; reflexivity].
  rewrite get_time_lit.
  erewrite get_time_conv; [|done|done|
    unfold convert; rewrite skip_space_two_digits, extract_num_two by lia; reflexivity].
  rewrite get_time_lit.
  erewrite get_time_conv; [|done|done|unfold convert; rewrite extract_num_two by lia; reflexivity].
  rewrite get_time_lit.
  erewrite get_time_conv; [|done|done|unfold convert; rewrite extract_num_two by lia; reflexivity].
  rewrite get_time_lit.
  erewrite get_time_conv; [|done|done|unfold convert; rewrite extract_num_two by lia; reflexivity].
  rewrite get_time_lit. destruct t. simpl. f_equal. f_equal; lia.
Qed.

Lemma gmtime_printable secs :
  -9223372037 ≤ secs ≤ 9223372037 → printable_tm (gmtime_utc secs).
Proof.
  intros Hs. unfold gmtime_utc. destruct (civil_from_days (secs / 86400)) as [[y m] d] eqn:E.
  pose proof (civil_from_days_spec _ _ _ _ E) as (_ & Hm & Hd).
  unfold civil_from_days in E.
  destruct (year_and_day (secs / 86400 + 719468)) as [y0 doy] eqn:Ey.
  apply year_and_day_spec in Ey as (Hdoy & Hz).
  assert (Hy : 1650 ≤ y0 ≤ 2290).
  { assert (Hsd : -106752 ≤ secs / 86400 ≤ 106752) by lia. clear Hs E. lia. }
  clear Hz. split; simpl; try lia.
  injection E as <- _ _. destruct (_ <=? 2); lia.
Qed.

Lemma put_time_head t : printable_tm t → ∀ x r, put_time t = x :: r → is_space x = false.
Proof.
  intros [Hy _ _ _ _ _] x r. unfold put_time. rewrite dec_four_digits by done. simpl.
  intros [= <- _]. destruct (digit_char_spec ((tm_year t + 1900) / 1000 mod 10) ltac:(lia)) as [Hd _].
  revert Hd. generalize (digit_char ((tm_year t + 1900) / 1000 mod 10)). intros c. by all_chars c.
Qed.

Lemma wrap64_id z : in_i64 z → wrap64 z = z.
Proof. unfold in_i64, wrap64. intros H. rewrite Z.mod_small; lia. Qed.

Lemma parse_formatTimestamp tp :
  in_i64 tp → parseRfc3339Zulu (formatTimestamp tp) = Some (to_time_t tp * ticks_per_second).
Proof.
  intros Htp. unfold in_i64 in Htp. unfold parseRfc3339Zulu, formatTimestamp.
  assert (Hq : -9223372037 ≤ to_time_t tp ≤ 9223372037 ∧ in_i64 (to_time_t tp * ticks_per_second)).
  { unfold to_time_t, ticks_per_second, in_i64. lia. }
  pose proof (gmtime_printable _ (proj1 Hq)) as Hp.
  rewrite drop_while_id by (intros x r; by apply put_time_head).
  rewrite <- (app_nil_r (put_time _)), get_put_time by done. simpl.
  rewrite timegm_gmtime. unfold from_time_t. by rewrite wrap64_id by apply Hq.
Qed.

(** ** Properties *)

(** C39: a timestamp printed by [formatTimestamp] parses back to the same
    instant, truncated to whole seconds, for every time point the 64-bit
    clock can represent. *)
Theorem timestamp_roundtrip (tp : Z) :
  in_i64 tp → parseRfc3339Zulu (formatTimestamp tp) = Some (to_time_t tp * ticks_per_second).
Proof. apply parse_formatTimestamp. Qed.

Lemma timestamp_roundtrip_witness :
  parseRfc3339Zulu (formatTimestamp 1704164645123456789) = Some 1704164645000000000.
Proof. rewrite timestamp_roundtrip; [reflexivity|]. unfold in_i64. lia. Defined.

(** Expiry dates after the year 2262 overflow the nanosecond clock. The
    conversion wraps, so a link set to expire at the end of the year 9999 is
    already expired at every clock reading from 1970 on. *)
Theorem far_future_expiry_is_past (e : Env) :
  0 ≤ clock e (ticks e) → (isExpired (Some ("9999-12-31T23:59:59Z" : str)) e).1 = true.
Proof.
  intros H. unfold isExpired.
  assert (Hp : parseRfc3339Zulu "9999-12-31T23:59:59Z" = Some (-4852116232933722624))
    by (vm_compute; reflexivity).
  rewrite Hp. apply Z.leb_le. simpl. lia.
Qed.

Lemma far_future_expiry_is_past_witness :
  (isExpired (Some ("9999-12-31T23:59:59Z" : str)) (mkEnv (fun _ => 1704164645000000000) 0 (fun _ => 0%nat) 0)).1 = true.
Proof. apply far_future_expiry_is_past. simpl. lia. Defined.

(** [parseRfc3339Zulu] accepts truncated timestamps: a bare four-digit
    year, or a date cut after any field, parses; the missing fields are zero. *)
Theorem truncated_timestamp_accepted (y : Z) :
  1600 ≤ y ≤ 2300 →
  parseRfc3339Zulu (dec y) = Some (from_time_t (timegm_utc (mkTm (y - 1900) 0 0 0 0 0))).
Proof.
  intros Hy. unfold parseRfc3339Zulu.
  assert (Hx := extract_num_year y [] Hy). rewrite app_nil_r in Hx.
  rewrite drop_while_id.
  - destruct (dec y) as [|c s] eqn:Ed; [by rewrite dec_four_digits in Ed|].
    unfold rfc3339_format. cbn [get_time]. unfold convert. rewrite Hx. done.
  - intros x r. rewrite dec_four_digits by done. intros [= <- _].
    destruct (digit_char_spec (y / 1000 mod 10) ltac:(lia)) as [Hd _].
    revert Hd. generalize (digit_char (y / 1000 mod 10)). intros c. by all_chars c.
Qed.

Lemma truncated_timestamp_accepted_witness :
  parseRfc3339Zulu "2024" = Some 1703980800000000000.
Proof. apply (truncated_timestamp_accepted 2024). lia. Defined.
