(* ===== verification/Numbers.v ===== *)
(** * Numbers: decimal text

    [std::stoll] and [std::stoull], and the proof that they read back what
    [std::to_string] writes. *)
From S2P Require Import Prelude Text Clock.

(** Leading white space, an optional sign, decimal digits. The result is the
    value and the number of characters read; [None] is an exception (no digits,
    or the value is out of range). *)
Fixpoint leading_digits (s : str) : str :=
  match s with
  | c :: s' => if is_digit c then c :: leading_digits s' else []
  | [] => []
  end.

Definition decimal_value (digits : str) : Z :=
  foldl (fun acc c => acc * 10 + digit_val c)%Z 0%Z digits.

(** The sign and the text after it. *)
Definition read_sign (s : str) : bool * str :=
  match s with
  | c :: r => if Ascii.eqb c "-" then (true, r) else if Ascii.eqb c "+" then (false, r) else (false, s)
  | [] => (false, s)
  end.

Definition stoll (s : str) : option (Z * nat) :=
  let '(negative, body) := read_sign (drop_while is_space s) in
  let digits := leading_digits body in
  let value := (if (negative : bool) then - decimal_value digits else decimal_value digits)%Z in
  if bool_decide (digits = []) then None
  else if bool_decide (in_i64 value) then Some (value, length s - length body + length digits)
  else None.

(** [strtoull] accepts a minus sign and negates modulo 2^64. *)
Definition stoull (s : str) : option (Z * nat) :=
  let '(negative, body) := read_sign (drop_while is_space s) in
  let digits := leading_digits body in
  let value := decimal_value digits in
  if bool_decide (digits = []) then None
  else if (value <? 2 ^ 64)%Z
  then Some (if (negative : bool) then u64 (- value) else value, length s - length body + length digits)
  else None.

(** ** Printed numbers *)
Definition all_digits (s : str) : Prop := Forall (fun c => is_digit c = true) s.

Lemma digit_of_N d : (d < 10)%N → is_digit (pretty_N_char d) = true ∧ digit_val (pretty_N_char d) = Z.of_N d.
Proof.
  intros Hd. assert (d = 0 ∨ d = 1 ∨ d = 2 ∨ d = 3 ∨ d = 4 ∨ d = 5 ∨ d = 6 ∨ d = 7 ∨ d = 8 ∨ d = 9)%N as H by lia.
  by repeat destruct H as [->|H]; [..|subst d].
Qed.

Lemma decimal_value_snoc s c : decimal_value (s ++ [c]) = (decimal_value s * 10 + digit_val c)%Z.
Proof. unfold decimal_value. by rewrite foldl_app. Qed.

Lemma pretty_go_digits n acc :
  ∃ ds, String.list_ascii_of_string (pretty_N_go n acc) = ds ++ String.list_ascii_of_string acc ∧
        all_digits ds ∧ decimal_value ds = Z.of_N n ∧ ((0 < n)%N → ds ≠ []).
Proof.
  revert acc. induction (N.lt_wf_0 n) as [n _ IH]. intros acc.
  destruct (decide (0 < n)%N) as [Hn|Hn].
  - rewrite pretty_N_go_step by done.
    destruct (IH (n / 10)%N ltac:(by apply N.div_lt) (String (pretty_N_char (n mod 10)) acc)) as (ds & Hs & Hd & Hv & _).
    destruct (digit_of_N (n mod 10)%N ltac:(by apply N.mod_lt)) as [Hc Hcv].
    exists (ds ++ [pretty_N_char (n mod 10)]). split_and!.
    + rewrite Hs, <- app_assoc. done.
    + apply Forall_app. by repeat constructor.
    + rewrite decimal_value_snoc, Hv, Hcv. rewrite N2Z.inj_div, N2Z.inj_mod.
      pose proof (Z.div_mod (Z.of_N n) 10). simpl. lia.
    + intros _ [_ ?]%app_nil. done.
  - assert (n = 0%N) as -> by lia. exists []. rewrite pretty_N_go_0. split_and!; [done|constructor|done|lia].
Qed.

Lemma dec_N_digits (n : N) : all_digits (dec (Z.of_N n)) ∧ decimal_value (dec (Z.of_N n)) = Z.of_N n ∧ dec (Z.of_N n) ≠ [].
Proof.
  assert (Hd : dec (Z.of_N n) = String.list_ascii_of_string (pretty n)) by (by destruct n).
  rewrite Hd. unfold pretty, pretty_N. case_decide as Hz; [subst n; split_and!; [by repeat constructor|done|done]|].
  destruct (pretty_go_digits n (String.EmptyString)) as (ds & -> & H1 & H2 & H3). simpl. rewrite app_nil_r. split_and!; [done|done|].
  apply H3. lia.
Qed.

Lemma dec_digits z : (0 ≤ z)%Z → all_digits (dec z) ∧ decimal_value (dec z) = z ∧ dec z ≠ [].
Proof. intros Hz. rewrite <- (Z2N.id z) by done. apply dec_N_digits. Qed.

Lemma dec_neg z : (z < 0)%Z → dec z = "-"%char :: dec (- z).
Proof. by destruct z. Qed.

Lemma leading_digits_all s : all_digits s → leading_digits s = s.
Proof. induction 1 as [|c s Hc _ IH]; simpl; [done|]. by rewrite Hc, IH. Qed.

Lemma digit_not_sign c : is_digit c = true → is_space c = false ∧ Ascii.eqb c "-" = false ∧ Ascii.eqb c "+" = false.
Proof. by all_chars c. Qed.

Lemma read_digits s : all_digits s → s ≠ [] → drop_while is_space s = s ∧ read_sign s = (false, s).
Proof.
  intros Hs Hne. destruct Hs as [|c s Hc Hs]; [done|]. destruct (digit_not_sign c Hc) as (H1 & H2 & H3).
  simpl. by rewrite H1, H2, H3.
Qed.

Lemma stoll_dec z : in_i64 z → stoll (dec z) = Some (z, length (dec z)).
Proof.
  intros Hz. unfold stoll. destruct (decide (0 ≤ z)%Z) as [Hp|Hn].
  - destruct (dec_digits z Hp) as (Hd & Hv & Hne). destruct (read_digits _ Hd Hne) as [-> ->].
    rewrite leading_digits_all, Hv by done. rewrite bool_decide_eq_false_2, bool_decide_eq_true_2 by done.
    by rewrite Nat.sub_diag.
  - rewrite dec_neg by lia. destruct (dec_digits (- z) ltac:(lia)) as (Hd & Hv & Hne). simpl.
    rewrite leading_digits_all, Hv by done. rewrite Z.opp_involutive.
    rewrite bool_decide_eq_false_2, bool_decide_eq_true_2 by done. do 2 f_equal. destruct (length (dec (- z))); lia.
Qed.

Lemma stoull_dec z : (0 ≤ z < 2 ^ 64)%Z → stoull (dec z) = Some (z, length (dec z)).
Proof.
  intros Hz. unfold stoull. destruct (dec_digits z ltac:(lia)) as (Hd & Hv & Hne).
  destruct (read_digits _ Hd Hne) as [-> ->]. rewrite leading_digits_all, Hv by done.
  rewrite bool_decide_eq_false_2 by done. destruct (Z.ltb_spec z (2 ^ 64)); [|lia]. by rewrite Nat.sub_diag.
Qed.

#[export] Hint Rewrite stoll_dec stoull_dec using (unfold in_i64; lia) : shortener.
