(* ===== verification/Types.v ===== *)
(** * Types: domain types (include/url_shortener/core/types.hpp, config.hpp) *)
From S2P Require Import Prelude.

Inductive RedirectType := temporary | permanent.

(** [enum class LinkStatus]. *)
Inductive LinkStatus := active | disabled | expired | deleted.

#[export] Instance RedirectType_eq_dec : EqDecision RedirectType.
Proof. solve_decision. Defined.
#[export] Instance LinkStatus_eq_dec : EqDecision LinkStatus.
Proof. solve_decision. Defined.

(** [Link::Campaign]. *)
Record Campaign := mkCampaign {
  cp_name : option str;
  cp_source : option str;
  cp_medium : option str;
  cp_term : option str;
  cp_content : option str;
  cp_id : option str;
}.

(** [Link::Stats]; the counters are [uint64_t]. *)
Record Stats := mkStats {
  total_redirects : Z;
  redirects_24h : Z;
  redirects_7d : Z;
  last_accessed_at : option str;
}.

Definition empty_stats : Stats := mkStats 0 0 0 None.

Record Link := mkLink {
  id : str;
  slug : str;
  target_url : str;
  created_at : str;
  updated_at : str;
  expires_at : option str;
  deleted_at : option str;
  enabled : bool;
  tags : list str;
  metadata : gmap str str;
  campaign : option Campaign;
  stats : Stats;
  redirect_type : RedirectType;
}.

#[export] Instance Campaign_eq_dec : EqDecision Campaign.
Proof. solve_decision. Defined.
#[export] Instance Stats_eq_dec : EqDecision Stats.
Proof. solve_decision. Defined.
#[export] Instance Link_eq_dec : EqDecision Link.
Proof. solve_decision. Defined.

(** Field updates of a link held by value. *)
Definition set_expires_at (v : option str) (l : Link) : Link :=
  mkLink (id l) (slug l) (target_url l) (created_at l) (updated_at l) v (deleted_at l)
    (enabled l) (tags l) (metadata l) (campaign l) (stats l) (redirect_type l).
Definition set_deleted_at (v : option str) (l : Link) : Link :=
  mkLink (id l) (slug l) (target_url l) (created_at l) (updated_at l) (expires_at l) v
    (enabled l) (tags l) (metadata l) (campaign l) (stats l) (redirect_type l).
Definition set_updated_at (v : str) (l : Link) : Link :=
  mkLink (id l) (slug l) (target_url l) (created_at l) v (expires_at l) (deleted_at l)
    (enabled l) (tags l) (metadata l) (campaign l) (stats l) (redirect_type l).
Definition set_enabled (v : bool) (l : Link) : Link :=
  mkLink (id l) (slug l) (target_url l) (created_at l) (updated_at l) (expires_at l) (deleted_at l)
    v (tags l) (metadata l) (campaign l) (stats l) (redirect_type l).
Definition set_tags (v : list str) (l : Link) : Link :=
  mkLink (id l) (slug l) (target_url l) (created_at l) (updated_at l) (expires_at l) (deleted_at l)
    (enabled l) v (metadata l) (campaign l) (stats l) (redirect_type l).
Definition set_metadata (v : gmap str str) (l : Link) : Link :=
  mkLink (id l) (slug l) (target_url l) (created_at l) (updated_at l) (expires_at l) (deleted_at l)
    (enabled l) (tags l) v (campaign l) (stats l) (redirect_type l).
Definition set_campaign (v : option Campaign) (l : Link) : Link :=
  mkLink (id l) (slug l) (target_url l) (created_at l) (updated_at l) (expires_at l) (deleted_at l)
    (enabled l) (tags l) (metadata l) v (stats l) (redirect_type l).
Definition set_stats (v : Stats) (l : Link) : Link :=
  mkLink (id l) (slug l) (target_url l) (created_at l) (updated_at l) (expires_at l) (deleted_at l)
    (enabled l) (tags l) (metadata l) (campaign l) v (redirect_type l).

(** The fields of [ServerConfig] the modelled code reads. *)
Record ServerConfig := mkServerConfig {
  tls_port : Z;
  hsts_max_age : option Z;
  shortener_base_domain : str;
  shortener_default_redirect_type : str;
  shortener_default_expiry_seconds : option Z;
  shortener_generated_slug_length : nat;
  shortener_allow_private_targets : bool;
  analytics_enabled : bool;
  analytics_queue_capacity : N;
  analytics_client_hash_salt : str;
  request_id_max_length : nat;
  max_request_body_bytes : N;
  max_request_target_length : N;
  http_redirect_to_https : bool;
  tls_enabled : bool;
}.

Definition default_config : ServerConfig :=
  mkServerConfig 443 None "http://localhost:8000" "temporary" None 7 false true 1024%N
    "dev-analytics-salt" 64 65536%N 2048%N false false.
