(* ===== verification/Url.v ===== *)
(** * Url: target and base-domain normalisation (src/core/utils.cpp)

    [splitUrl], [isPrivateHost], [normalizeTargetUrl] and
    [normalizeAndValidateBaseDomain]. *)
From S2P Require Import Prelude Text Types.

Definition is_scheme_char (c : ascii) : bool := is_alnum c || one_of "+.-" c.
Definition is_authority_end (c : ascii) : bool := one_of "/?#" c.
(** Line terminators, which [.] of the ECMAScript grammar does not match. *)
Definition is_line_end (c : ascii) : bool := Ascii.eqb c "010" || Ascii.eqb c "013".

(** Position of the first [/], [?] or [#]; the whole length when there is none. *)
Definition authority_length (s : str) : nat :=
  default (length s) (find_if is_authority_end s).

(** The URL regex: a letter and scheme characters, a colon, two slashes, a
    non-empty run without [/?#], then anything but line terminators. A scheme
    never holds a colon, so the first colon ends it. *)
Definition splitUrl (input_url : str) : option (str * str) :=
  match find_char ":" input_url with
  | None => None
  | Some i =>
      let scheme := take i input_url in
      let after := drop (S i) input_url in
      match scheme with
      | [] => None
      | c :: cs =>
          if is_alpha c && forallb is_scheme_char cs && starts_with "//" after then
            let rest := drop 2 after in
            let n := authority_length rest in
            if (1 <=? n) && forallb (fun c => negb (is_line_end c)) (drop n rest)
            then Some (scheme, rest) else None
          else None
      end
  end.

(** The [effective_host] prefixes of private and link-local ranges. *)
Definition private_prefixes : list string :=
  ["127."; "10."; "192.168."; "169.254."; "172.16."; "172.17."; "172.18."; "172.19."; "172.20.";
   "172.21."; "172.22."; "172.23."; "172.24."; "172.25."; "172.26."; "172.27."; "172.28.";
   "172.29."; "172.30."; "172.31."; "fc"; "fd"; "fe80:"].

Definition is_any (names : list string) (s : str) : bool :=
  existsb (fun n => bool_decide (s = String.list_ascii_of_string n)) names.

(** The brackets of a bracketed IPv6 literal are dropped. *)
Definition strip_brackets (h : str) : str :=
  match h with
  | c :: _ =>
      if Ascii.eqb c "[" && bool_decide (last h = Some "]"%char)
      then take (length h - 2) (drop 1 h) else h
  | [] => h
  end.

Definition isPrivateHost (host : str) : bool :=
  let lower_host := lower host in
  if is_any ["localhost"; "::1"; "::"; "0.0.0.0"; "[::1]"; "[::]"] lower_host then true
  else if is_any ["internal"; "localhost.localdomain"] lower_host
       || bool_decide (is_Some (find_str ".internal" lower_host))
       || bool_decide (is_Some (find_str ".local" lower_host)) then true
  else
    let effective_host := strip_brackets lower_host in
    is_any ["localhost"; "::1"] effective_host
    || existsb (fun p => starts_with (String.list_ascii_of_string p) effective_host) private_prefixes.

(** [rest] splits at the first of [/?#] and its authority at the first colon. *)
Definition split_authority (authority : str) : str * option str :=
  match find_char ":" authority with
  | Some colon => (take colon authority, Some (drop (S colon) authority))
  | None => (authority, None)
  end.

Definition default_port (scheme port : str) : bool :=
  (bool_decide (scheme = "http") && bool_decide (port = "80"))
  || (bool_decide (scheme = "https") && bool_decide (port = "443")).

(** [port.reset()] for a default port; an empty port is not printed. *)
Definition render_port (scheme : str) (port : option str) : str :=
  match port with
  | Some p => if default_port scheme p then [] else if bool_decide (p = []) then [] else ":"%char :: p
  | None => []
  end.

Definition normalizeTargetUrl (input_url : str) (config : ServerConfig) : option str :=
  let trimmed := trim input_url in
  if bool_decide (trimmed = []) then None else
  match splitUrl trimmed with
  | None => None
  | Some (scheme0, rest) =>
      let scheme := lower scheme0 in
      if negb (bool_decide (scheme = "http")) && negb (bool_decide (scheme = "https")) then None else
      let host_end := authority_length rest in
      let authority := take host_end rest in
      let suffix := drop host_end rest in
      if has_char "@" authority then None else
      let '(host0, port) := split_authority authority in
      let host := lower host0 in
      if bool_decide (host = []) then None else
      if negb (shortener_allow_private_targets config) && isPrivateHost host then None else
      Some (scheme ++ "://" ++ host ++ render_port scheme port ++ suffix)
  end.

(** A thrown [std::runtime_error] is its message. *)
Definition normalizeAndValidateBaseDomain (raw_domain : str) : string + str :=
  let trimmed := trim raw_domain in
  if bool_decide (trimmed = []) then inl "SHORTENER_BASE_DOMAIN must not be empty" else
  match splitUrl trimmed with
  | None => inl "SHORTENER_BASE_DOMAIN must include http:// or https:// and a host"
  | Some (scheme0, rest) =>
      let scheme := lower scheme0 in
      if negb (bool_decide (scheme = "http")) && negb (bool_decide (scheme = "https"))
      then inl "SHORTENER_BASE_DOMAIN scheme must be http or https" else
      if has_char "@" rest then inl "SHORTENER_BASE_DOMAIN must not include userinfo" else
      if bool_decide (is_Some (find_if (one_of "?#") rest))
      then inl "SHORTENER_BASE_DOMAIN must not include path, query, or fragment" else
      let checked :=
        match find_char "/" rest with
        | Some slash =>
            if forallb (fun c => Ascii.eqb c "/") (drop slash rest) then inr (take slash rest)
            else inl "SHORTENER_BASE_DOMAIN must not include path, query, or fragment"
        | None => inr rest
        end in
      match checked with
      | inl e => inl e
      | inr authority =>
          if bool_decide (authority = []) then inl "SHORTENER_BASE_DOMAIN host is required"
          else inr (scheme ++ "://" ++ authority)
      end
  end.

(** ** Splitting lemmas *)
Lemma authority_length_spec s :
  Forall (fun c => is_authority_end c = false) (take (authority_length s) s) ∧
  (drop (authority_length s) s = [] ∨
   ∃ c r, drop (authority_length s) s = c :: r ∧ is_authority_end c = true).
Proof.
  unfold authority_length. destruct (find_if is_authority_end s) as [i|] eqn:E; simpl.
  - apply find_if_Some in E as (c & Hs & Hc & Hall & Hi). split; [done|]. right.
    exists c, (drop (S i) s). split; [|done]. rewrite Hs at 1.
    rewrite drop_app_length' by (rewrite length_take; lia). done.
  - apply find_if_None in E. rewrite take_ge, drop_ge by lia. auto.
Qed.

Lemma authority_length_app a b :
  Forall (fun c => is_authority_end c = false) a →
  (b = [] ∨ ∃ c r, b = c :: r ∧ is_authority_end c = true) →
  authority_length (a ++ b) = length a.
Proof.
  intros Ha [->|(c & r & -> & Hc)]; unfold authority_length.
  - rewrite app_nil_r, (proj2 (find_if_None _ a) Ha). done.
  - by rewrite find_if_first.
Qed.

Lemma scheme_no_colon c cs :
  is_alpha c = true → forallb is_scheme_char cs = true → (":"%char ∉ (c :: cs)).
Proof.
  intros Hc Hcs. apply not_elem_of_cons. split; [by intros <-|].
  intros Hin. apply forallb_Forall in Hcs.
  apply Forall_forall with (x := ":"%char) in Hcs; [done|done].
Qed.

Lemma splitUrl_Some u scheme rest :
  splitUrl u = Some (scheme, rest) →
  u = scheme ++ "://" ++ rest ∧ 1 ≤ authority_length rest ∧
  (∃ c cs, scheme = c :: cs ∧ is_alpha c = true ∧ forallb is_scheme_char cs = true) ∧
  forallb (fun c => negb (is_line_end c)) (drop (authority_length rest) rest) = true.
Proof.
  unfold splitUrl. destruct (find_char ":" u) as [i|] eqn:E; [|done].
  apply find_char_Some in E as (Hu & _ & _). destruct (take i u) as [|c cs] eqn:Et; [done|].
  case_match eqn:Ec; [|done]. case_match eqn:Ed; [|done]. intros [= <- <-]. bool_simpl.
  split_and!; [|done|eauto|done].
  rewrite Hu at 1. match goal with H : starts_with _ _ = true |- _ => apply starts_with_spec in H as [k ->] end.
  done.
Qed.

Lemma splitUrl_intro c cs rest :
  is_alpha c = true → forallb is_scheme_char cs = true → 1 ≤ authority_length rest →
  forallb (fun c => negb (is_line_end c)) (drop (authority_length rest) rest) = true →
  splitUrl ((c :: cs) ++ "://" ++ rest) = Some (c :: cs, rest).
Proof.
  intros Hc Hcs Hn Hl. unfold splitUrl.
  replace (("://" : str) ++ rest) with (":"%char :: ("//" : str) ++ rest) by done.
  rewrite find_char_first by (by apply scheme_no_colon).
  rewrite take_app_length, drop_app_ge, Nat.sub_succ_l, Nat.sub_diag by lia.
  cbn [drop]. rewrite drop_0, Hc, Hcs, (starts_with_app "//" rest). cbn [andb].
  replace (drop 2 (("//" : str) ++ rest)) with rest by done.
  rewrite Hl. by rewrite (proj2 (Nat.leb_le 1 _) Hn).
Qed.

Lemma splitUrl_http (scheme rest : str) :
  scheme = "http" ∨ scheme = "https" → 1 ≤ authority_length rest →
  forallb (fun c => negb (is_line_end c)) (drop (authority_length rest) rest) = true →
  splitUrl (scheme ++ "://" ++ rest) = Some (scheme, rest).
Proof.
  intros [->| ->] Hn Hl; [by apply (splitUrl_intro "h" "ttp" rest)|by apply (splitUrl_intro "h" "ttps" rest)].
Qed.

(** ** What a normalised target looks like *)
Definition canonical_target (config : ServerConfig) (v : str) : Prop :=
  ∃ scheme host port suffix,
    v = scheme ++ "://" ++ host ++ port ++ suffix ∧
    (scheme = "http" ∨ scheme = "https") ∧
    host ≠ [] ∧ lower host = host ∧
    Forall (fun c => negb (is_authority_end c || one_of ":@" c) = true) host ∧
    (port = [] ∨ ∃ p, port = ":"%char :: p ∧ p ≠ [] ∧ default_port scheme p = false ∧
       Forall (fun c => negb (is_authority_end c || one_of "@" c) = true) p) ∧
    (suffix = [] ∨ ∃ c r, suffix = c :: r ∧ is_authority_end c = true) ∧
    Forall (fun c => is_line_end c = false) suffix ∧
    (shortener_allow_private_targets config = false → isPrivateHost host = false).

(** Characters of a piece of an authority are neither its end nor an [@]. *)
Lemma authority_chars (a : str) (set : string) :
  Forall (fun c => is_authority_end c = false) a →
  Forall (fun c => one_of set c = false) a →
  Forall (fun c => negb (is_authority_end c || one_of set c) = true) a.
Proof.
  intros H1 H2. apply Forall_forall. intros c Hc.
  rewrite Forall_forall in H1, H2. by rewrite (H1 c Hc), (H2 c Hc).
Qed.

Lemma not_one_of_char (d : ascii) (s : str) :
  (d ∉ s) → Forall (fun c => one_of (String d EmptyString) c = false) s.
Proof.
  intros H. apply Forall_forall. intros c Hc. unfold one_of. simpl.
  rewrite orb_false_r. apply Ascii.eqb_neq. by intros ->.
Qed.

Lemma host_chars_lower h :
  Forall (fun c => negb (is_authority_end c || one_of ":@" c) = true) h →
  Forall (fun c => negb (is_authority_end c || one_of ":@" c) = true) (lower h).
Proof. apply lower_Forall. intros c. by all_chars c. Qed.

Lemma split_authority_spec a host port :
  split_authority a = (host, port) →
  Forall (fun c => is_authority_end c = false) a → has_char "@" a = false →
  Forall (fun c => negb (is_authority_end c || one_of ":@" c) = true) host ∧
  (∀ p, port = Some p → Forall (fun c => negb (is_authority_end c || one_of "@" c) = true) p).
Proof.
  intros Hs Ha Hat. apply has_char_false, not_one_of_char in Hat.
  assert (Hhost : ∀ h : str, (":"%char ∉ h) → Forall (fun c => is_authority_end c = false) h →
    Forall (fun c => one_of "@" c = false) h →
    Forall (fun c => negb (is_authority_end c || one_of ":@" c) = true) h).
  { intros h Hc He Ho. apply authority_chars; [done|].
    apply Forall_forall. intros c Hin. rewrite Forall_forall in Ho. specialize (Ho c Hin).
    unfold one_of in *. simpl in *. rewrite orb_false_r in *. rewrite Ho, orb_false_r.
    apply Ascii.eqb_neq. by intros ->. }
  unfold split_authority in Hs. destruct (find_char ":" a) as [i|] eqn:E; simplify_eq.
  - apply find_char_Some in E as (_ & Hn & _). split.
    + apply Hhost; [done|by apply Forall_take|by apply Forall_take].
    + intros p [= <-]. apply authority_chars; by apply Forall_drop.
  - apply find_char_None in E. split; [by apply Hhost|done].
Qed.

(** The one path through [normalizeTargetUrl] that accepts. *)
Lemma normalizeTargetUrl_inv u config v :
  normalizeTargetUrl u config = Some v →
  ∃ scheme0 rest host0 port, let n := authority_length rest in
    splitUrl (trim u) = Some (scheme0, rest) ∧
    (lower scheme0 = "http" ∨ lower scheme0 = "https") ∧
    has_char "@" (take n rest) = false ∧
    split_authority (take n rest) = (host0, port) ∧ lower host0 ≠ [] ∧
    (shortener_allow_private_targets config = false → isPrivateHost (lower host0) = false) ∧
    v = lower scheme0 ++ "://" ++ lower host0 ++ render_port (lower scheme0) port ++ drop n rest.
Proof.
  unfold normalizeTargetUrl. destruct (bool_decide (trim u = [])); [done|].
  destruct (splitUrl (trim u)) as [[scheme0 rest]|] eqn:Es; [|done].
  destruct (_ && _) eqn:Esch; [done|].
  destruct (has_char "@" (take (authority_length rest) rest)) eqn:Eat; [done|].
  destruct (split_authority _) as [host0 port] eqn:Ea.
  destruct (bool_decide (lower host0 = [])) eqn:Eh; [done|]. apply bool_decide_eq_false in Eh.
  destruct (negb (shortener_allow_private_targets config) && _) eqn:Ep; [done|]. intros [= <-].
  exists scheme0, rest, host0, port. split_and!; auto.
  - apply andb_false_iff in Esch as [H|H]; apply negb_false_iff, bool_decide_eq_true in H; auto.
  - intros Hcfg. by rewrite Hcfg in Ep.
Qed.

(** Every accepted target is an http(s) URL in canonical form, and its host is
    not a private one unless the configuration allows private targets. *)
Lemma normalizeTargetUrl_canonical u config v :
  normalizeTargetUrl u config = Some v → canonical_target config v.
Proof.
  intros (scheme0 & rest & host0 & port & Es & Hsch & Eat & Ea & Eh & Hpriv & ->)%normalizeTargetUrl_inv.
  apply splitUrl_Some in Es as (_ & _ & _ & Hline).
  destruct (authority_length_spec rest) as [Hauth Hsuf].
  destruct (split_authority_spec _ _ _ Ea Hauth Eat) as [Hhost Hport].
  exists (lower scheme0), (lower host0), (render_port (lower scheme0) port),
    (drop (authority_length rest) rest).
  split_and!; auto using lower_idem, host_chars_lower.
  - unfold render_port. destruct port as [p|]; [|auto]. destruct (default_port _ p) eqn:Ed; [auto|].
    destruct (bool_decide (p = [])) eqn:Ep; [auto|]. apply bool_decide_eq_false in Ep.
    right. exists p. split_and!; auto.
  - apply forallb_Forall in Hline. eapply Forall_impl; [exact Hline|].
    simpl. intros c Hc. by apply negb_true_iff in Hc.
Qed.

Lemma canonical_suffix_no_line (suffix : str) :
  Forall (fun c => is_line_end c = false) suffix →
  forallb (fun c => negb (is_line_end c)) suffix = true.
Proof.
  intros H. apply forallb_Forall. eapply Forall_impl; [exact H|]. by simpl; intros c ->.
Qed.

(** The authority of a canonical target reads back as its host and port. *)
Lemma split_authority_canonical (scheme host port : str) :
  Forall (fun c => negb (is_authority_end c || one_of ":@" c) = true) host →
  (port = [] ∨ ∃ p, port = ":"%char :: p ∧ p ≠ [] ∧ default_port scheme p = false ∧
     Forall (fun c => negb (is_authority_end c || one_of "@" c) = true) p) →
  (∃ port', split_authority (host ++ port) = (host, port') ∧ render_port scheme port' = port) ∧
  Forall (fun c => is_authority_end c = false) (host ++ port) ∧ has_char "@" (host ++ port) = false.
Proof.
  intros Hh Hp.
  assert (Hcolon : (":"%char ∉ host)).
  { intros Hin. rewrite Forall_forall in Hh. by specialize (Hh _ Hin). }
  assert (Hhat : ("@"%char ∉ host)).
  { intros Hin. rewrite Forall_forall in Hh. by specialize (Hh _ Hin). }
  assert (Hhe : Forall (fun c => is_authority_end c = false) host).
  { eapply Forall_impl; [exact Hh|]. simpl. intros c Hc. bool_simpl. done. }
  destruct Hp as [->|(p & -> & Hne & Hd & Hpc)].
  - rewrite app_nil_r. split_and!; [|done|by apply has_char_false].
    exists None. unfold split_authority. by rewrite (proj2 (find_char_None _ _) Hcolon).
  - split_and!.
    + exists (Some p). unfold split_authority, render_port. rewrite find_char_first by done.
      rewrite take_app_length, drop_app_ge, Nat.sub_succ_l, Nat.sub_diag by lia. simpl.
      rewrite drop_0, Hd, bool_decide_eq_false_2 by done. done.
    + apply Forall_app; split; [done|]. constructor; [done|].
      eapply Forall_impl; [exact Hpc|]. simpl. intros c Hc. bool_simpl. done.
    + apply has_char_false. rewrite elem_of_app, elem_of_cons. intros [?|[?|Hin]]; [done|done|].
      rewrite Forall_forall in Hpc. by specialize (Hpc _ Hin).
Qed.

(** A canonical target without surrounding white space is left unchanged. *)
Lemma normalizeTargetUrl_fixpoint config v :
  canonical_target config v → trimmed v → normalizeTargetUrl v config = Some v.
Proof.
  intros (scheme & host & port & suffix & Hv & Hsch & Hne & Hlow & Hh & Hp & Hs & Hl & Hpriv) Htr.
  destruct (split_authority_canonical scheme host port Hh Hp) as ((port' & Hsa & Hrp) & Hend & Hat).
  assert (Hlen : authority_length ((host ++ port) ++ suffix) = length (host ++ port))
    by (by apply authority_length_app).
  assert (Hsplit : splitUrl v = Some (scheme, (host ++ port) ++ suffix)).
  { rewrite Hv, (app_assoc host). apply splitUrl_http; [done| |]; rewrite Hlen.
    - destruct host; [done|simpl; lia].
    - rewrite drop_app_length. by apply canonical_suffix_no_line. }
  assert (Hlsch : lower scheme = scheme) by (by destruct Hsch as [->| ->]).
  unfold normalizeTargetUrl. rewrite (trim_trimmed v Htr).
  rewrite bool_decide_eq_false_2 by (destruct Hsch as [->| ->]; by rewrite Hv).
  rewrite Hsplit, Hlsch, Hlen, take_app_length, drop_app_length, Hat, Hsa, Hlow, Hrp.
  rewrite (bool_decide_eq_false_2 (host = [])) by done.
  replace (negb (bool_decide (scheme = "http")) && negb (bool_decide (scheme = "https"))) with false
    by (by destruct Hsch as [->| ->]).
  destruct (shortener_allow_private_targets config); simpl; [by rewrite Hv|].
  rewrite Hpriv by done. by rewrite Hv.
Qed.

(** ** Properties *)

(** White space inside the URL could end up at its end once a port is dropped;
    without any, the result has no surrounding white space. *)
Lemma no_ws_trimmed s : Forall (fun c => is_trim_ws c = false) s → trimmed s.
Proof.
  intros H. rewrite Forall_forall in H. split; intros x r ->; apply H; set_solver.
Qed.

Lemma normalizeTargetUrl_chars u config v :
  normalizeTargetUrl u config = Some v →
  Forall (fun c => is_trim_ws c = false) (trim u) → Forall (fun c => is_trim_ws c = false) v.
Proof.
  intros (scheme0 & rest & host0 & port & Es & _ & _ & Ea & _ & _ & ->)%normalizeTargetUrl_inv Hws.
  apply splitUrl_Some in Es as (Hu & _). rewrite Hu, !Forall_app in Hws.
  destruct Hws as (Hs & Hc & Hr).
  assert (Hlow : ∀ s : str, Forall (fun c => is_trim_ws c = false) s →
    Forall (fun c => is_trim_ws c = false) (lower s)).
  { intros s H. unfold lower. rewrite Forall_map. eapply Forall_impl; [exact H|].
    intros c. by all_chars c. }
  assert (Ha := Forall_take _ (authority_length rest) _ Hr).
  assert (Hhp : Forall (fun c => is_trim_ws c = false) host0 ∧
    ∀ p, port = Some p → Forall (fun c => is_trim_ws c = false) p).
  { unfold split_authority in Ea. destruct (find_char _ _) as [i|]; simplify_eq.
    - split; [by apply Forall_take|]. intros p [= <-]. by apply Forall_drop.
    - done. }
  apply Forall_app_2; [auto|]. apply Forall_app_2; [exact Hc|].
  apply Forall_app_2; [apply Hlow, (proj1 Hhp)|]. apply Forall_app_2; [|by apply Forall_drop].
  unfold render_port. destruct port as [p|]; [|done].
  destruct (default_port _ _); [done|]. destruct (bool_decide _); [done|].
  constructor; [done|]. by apply (proj2 Hhp).
Qed.

(** Every target URL that [normalizeTargetUrl] accepts is in canonical
    form: an http or https scheme in lower case, a non-empty lower-case host
    without userinfo, no default or empty port, and, unless the configuration
    allows private targets, a host that [isPrivateHost] does not flag. *)
Theorem normalizeTargetUrl_accepts_canonical (u v : str) (config : ServerConfig) :
  normalizeTargetUrl u config = Some v → canonical_target config v.
Proof. apply normalizeTargetUrl_canonical. Qed.

Lemma normalizeTargetUrl_accepts_canonical_witness :
  canonical_target default_config "https://example.com:8443/A".
Proof.
  apply (normalizeTargetUrl_accepts_canonical " HTTPS://Example.COM:8443/A "). vm_compute. reflexivity.
Defined.

(** Normalisation is idempotent: a normalised URL normalises to itself
    (for inputs whose trimmed text holds no white space). *)
Theorem normalizeTargetUrl_idempotent (u v : str) (config : ServerConfig) :
  Forall (fun c => is_trim_ws c = false) (trim u) →
  normalizeTargetUrl u config = Some v → normalizeTargetUrl v config = Some v.
Proof.
  intros Hws H. apply normalizeTargetUrl_fixpoint; [by eapply normalizeTargetUrl_canonical|].
  by eapply no_ws_trimmed, normalizeTargetUrl_chars.
Qed.

Lemma normalizeTargetUrl_idempotent_witness :
  normalizeTargetUrl "https://example.com/A" default_config = Some ("https://example.com/A" : str).
Proof.
  apply (normalizeTargetUrl_idempotent "HTTPS://Example.COM:443/A").
  - vm_compute. repeat constructor.
  - vm_compute. reflexivity.
Defined.

(** ** Bracketed IPv6 hosts

    The authority is cut at its first colon, so the host of a bracketed IPv6
    literal is only its first group with the opening bracket. *)
Definition is_hex_lower (c : ascii) : bool := is_digit c || ((97 <=? code c)%N && (code c <=? 102)%N).

Lemma find_str_first_char (p : ascii) (ps s : str) :
  (p ∉ s) → find_str (p :: ps) s = None.
Proof.
  induction s as [|c s IH]; simpl; [done|]. intros [Hne Hs]%not_elem_of_cons.
  destruct (Ascii.eqb_spec p c); [done|]. simpl. by rewrite IH.
Qed.

Lemma open_bracket_host_public (a : str) :
  Forall (fun c => is_hex_lower c = true) a → isPrivateHost ("["%char :: a) = false.
Proof.
  intros Ha. rewrite Forall_forall in Ha.
  assert (Hlow : lower a = a).
  { unfold lower. rewrite <- (map_id a) at 2. apply map_ext_in. intros c Hc%list_elem_of_In.
    specialize (Ha c Hc). revert Ha. by all_chars c. }
  assert (Hdot : ("."%char ∉ "["%char :: a)).
  { intros [?|Hin]%elem_of_cons; [done|]. by specialize (Ha _ Hin). }
  assert (Hcol : (":"%char ∉ a)) by (intros Hin; by specialize (Ha _ Hin)).
  assert (Hbr : last ("["%char :: a) ≠ Some "]"%char).
  { intros (r & Hr)%last_Some. destruct r as [|c r]; [done|]. injection Hr as <- Hr.
    assert (Hin : "]"%char ∈ a) by (rewrite Hr; set_solver). by specialize (Ha _ Hin). }
  unfold isPrivateHost. change (lower ("["%char :: a)) with ("["%char :: lower a). rewrite Hlow.
  assert (Hany : is_any ["localhost"; "::1"; "::"; "0.0.0.0"; "[::1]"; "[::]"] ("["%char :: a) = false).
  { unfold is_any. simpl. rewrite !orb_false_iff. split_and!; try done;
      apply bool_decide_eq_false_2; intros [= ->]; apply Hcol; set_solver. }
  rewrite Hany.
  replace (is_any ["internal"; "localhost.localdomain"] ("["%char :: a)) with false
    by done.
  rewrite (find_str_first_char "." "internal"), (find_str_first_char "." "local") by done. simpl.
  rewrite (bool_decide_eq_false_2 _ Hbr). done.
Qed.

(** The private-target policy does not cover bracketed IPv6 hosts. With
    the default configuration, which forbids private targets, every URL
    [http://[a:b]/] whose first group [a] is made of hexadecimal digits is
    accepted, although [isPrivateHost] flags the bracketed host itself, e.g.
    the loopback [::1] and the unique-local [fd00::1]. *)
Theorem normalizeTargetUrl_ipv6_bypass (a b : str) :
  Forall (fun c => is_hex_lower c = true) a →
  Forall (fun c => negb (is_authority_end c || one_of "@" c) && negb (is_trim_ws c) = true) b →
  shortener_allow_private_targets default_config = false ∧
  isPrivateHost "[::1]" = true ∧ isPrivateHost "[fd00::1]" = true ∧
  normalizeTargetUrl ("http://[" ++ a ++ ":" ++ b ++ "]/") default_config
    = Some ("http://[" ++ a ++ ":" ++ b ++ "]/").
Proof.
  intros Ha Hb. split_and!; [done|done|done|]. apply normalizeTargetUrl_fixpoint.
  - exists "http", ("["%char :: a), (":"%char :: b ++ "]"), "/". split_and!; auto; try done.
    + simpl. by rewrite <- app_assoc.
    + unfold lower. simpl. f_equal. rewrite <- (map_id a) at 2. apply map_ext_in.
      intros c Hc%list_elem_of_In. rewrite Forall_forall in Ha. specialize (Ha c Hc).
      revert Ha. by all_chars c.
    + constructor; [done|]. eapply Forall_impl; [exact Ha|]. intros c. by all_chars c.
    + right. exists (b ++ "]"). split_and!; auto.
      * by destruct b.
      * apply orb_false_iff. split; [|done]. apply bool_decide_eq_false_2.
        intros H%(f_equal last). change (last (b ++ ["]"%char]) = Some "0"%char) in H.
        by rewrite last_snoc in H.
      * apply Forall_app. split; [|by repeat constructor].
        eapply Forall_impl; [exact Hb|]. by intros c [? _]%andb_true_iff.
    + right. by exists "/"%char, [].
    + by repeat constructor.
    + intros _. by apply open_bracket_host_public.
  - apply no_ws_trimmed. rewrite !Forall_app. split_and!; try by (vm_compute; repeat constructor).
    + eapply Forall_impl; [exact Ha|]. intros c. by all_chars c.
    + eapply Forall_impl; [exact Hb|]. simpl. intros c Hc. bool_simpl. done.
Qed.

Lemma normalizeTargetUrl_ipv6_bypass_witness :
  normalizeTargetUrl "http://[::1]/" default_config = Some ("http://[::1]/" : str).
Proof.
  apply (normalizeTargetUrl_ipv6_bypass [] ":1"); vm_compute; repeat constructor.
Defined.
