(* ===== verification/Json.v ===== *)
(** * Json: the hand-written JSON helpers of src/core/utils.cpp

    Escaping, and the scanners that pull one field out of a request body
    without building a document. A position in the body is represented by the
    suffix that starts there. *)
From S2P Require Import Prelude Text.

(** ** Printing *)
Definition escape_char (c : ascii) : str :=
  if Ascii.eqb c backslash then [backslash; backslash]
  else if Ascii.eqb c dquote then [backslash; dquote]
  else if Ascii.eqb c "010" then [backslash; "n"%char]
  else if Ascii.eqb c "013" then [backslash; "r"%char]
  else if Ascii.eqb c "009" then [backslash; "t"%char]
  else [c].

Definition jsonEscape (input : str) : str := flat_map escape_char input.

Definition jsonString (value : str) : str := dquote :: jsonEscape value ++ [dquote].
#[global] Arguments jsonString : simpl never.

(** ** Locating a field *)
Definition json_key (field : str) : str := dquote :: field ++ [dquote].

(** The text after the colon that follows the first occurrence of the quoted
    name, with white space skipped. *)
Definition field_value (body field : str) : option str :=
  match find_str (json_key field) body with
  | None => None
  | Some key_pos =>
      let after := drop (key_pos + length (json_key field)) body in
      match find_char ":" after with
      | None => None
      | Some i => Some (drop_while is_space (drop (S i) after))
      end
  end.

Definition hasJsonField (body field : str) : bool :=
  bool_decide (is_Some (find_str (json_key field) body)).

(** The characters up to the closing quote; a backslash quotes the next one. *)
Fixpoint scan_string (s : str) (escape_next : bool) : option str :=
  match s with
  | [] => None
  | c :: s' =>
      if escape_next then cons c <$> scan_string s' false
      else if Ascii.eqb c backslash then scan_string s' true
      else if Ascii.eqb c dquote then Some []
      else cons c <$> scan_string s' false
  end.

Definition extractJsonStringField (body field : str) : option str :=
  match field_value body field with
  | Some (c :: s) => if Ascii.eqb c dquote then scan_string s false else None
  | _ => None
  end.

Definition extractJsonBoolField (body field : str) : option bool :=
  match field_value body field with
  | None => None
  | Some s =>
      if starts_with "true" s then Some true
      else if starts_with "false" s then Some false
      else None
  end.

(** The balanced text of an array or object, strings skipped. *)
Fixpoint scan_bracket (open close : ascii) (s : str) (depth : Z) (in_string escape : bool) : option str :=
  match s with
  | [] => None
  | c :: s' =>
      if in_string then
        if escape then cons c <$> scan_bracket open close s' depth true false
        else if Ascii.eqb c backslash then cons c <$> scan_bracket open close s' depth true true
        else if Ascii.eqb c dquote then cons c <$> scan_bracket open close s' depth false escape
        else cons c <$> scan_bracket open close s' depth true escape
      else if Ascii.eqb c dquote then cons c <$> scan_bracket open close s' depth true escape
      else if Ascii.eqb c open then cons c <$> scan_bracket open close s' (depth + 1) in_string escape
      else if Ascii.eqb c close then
        if (depth - 1 =? 0)%Z then Some [c]
        else cons c <$> scan_bracket open close s' (depth - 1) in_string escape
      else cons c <$> scan_bracket open close s' depth in_string escape
  end.

Definition extractJsonValueToken (body field : str) : option str :=
  match field_value body field with
  | Some (c :: s) =>
      if starts_with "null" (c :: s) then Some ("null" : str)
      else if Ascii.eqb c dquote then
        match find_str (json_key field) body with
        | Some key_pos => extractJsonStringField (drop key_pos body) field
        | None => None
        end
      else if Ascii.eqb c "[" then scan_bracket "[" "]" (c :: s) 0 false false
      else if Ascii.eqb c "{" then scan_bracket "{" "}" (c :: s) 0 false false
      else None
  | _ => None
  end.

(** ** Arrays of strings *)

(** One element: its value and what follows; the end of the input closes it. *)
Fixpoint scan_element (s : str) (escape : bool) : str * str :=
  match s with
  | [] => ([], [])
  | c :: s' =>
      if escape then let '(v, r) := scan_element s' false in (c :: v, r)
      else if Ascii.eqb c backslash then scan_element s' true
      else if Ascii.eqb c dquote then ([], s')
      else let '(v, r) := scan_element s' false in (c :: v, r)
  end.

Inductive scan_result (A : Type) := Parsed (a : A) | Rejected | OutOfFuel.
Arguments Parsed {A} _.
Arguments Rejected {A}.
Arguments OutOfFuel {A}.

(** The [while] loop over the text between the brackets; every round consumes
    at least the opening quote of an element, so the length is enough fuel. *)
Fixpoint array_elements (fuel : nat) (s : str) : scan_result (list str) :=
  match s with
  | [] => Parsed []
  | _ =>
      match fuel with
      | O => OutOfFuel
      | S fuel' =>
          match drop_while is_space s with
          | [] => Parsed []
          | c :: s1 =>
              if negb (Ascii.eqb c dquote) then Rejected
              else
                let '(value, s2) := scan_element s1 false in
                match drop_while is_space s2 with
                | [] => Parsed [value]
                | d :: s3 =>
                    if negb (Ascii.eqb d ",") then Rejected
                    else match array_elements fuel' s3 with
                         | Parsed out => Parsed (value :: out)
                         | r => r
                         end
                end
          end
      end
  end.

(** [raw] without its first and last character. *)
Definition inside (raw : str) : str := take (length raw - 2) (drop 1 raw).

Definition enclosed_by (open close : ascii) (raw : str) : bool :=
  (2 <=? length raw) && bool_decide (head raw = Some open) && bool_decide (last raw = Some close).

Definition extractJsonStringArrayField (body field : str) : option (list str) :=
  match extractJsonValueToken body field with
  | None => None
  | Some raw =>
      if bool_decide (raw = "null") then Some []
      else if negb (enclosed_by "[" "]" raw) then None
      else match array_elements (length (inside raw)) (inside raw) with
           | Parsed out => Some out
           | _ => None
           end
  end.

(** ** Flat objects of strings *)

(** Characters up to the next quote, and what follows that quote. *)
Definition upto_quote (s : str) : option (str * str) :=
  match find_char dquote s with
  | Some i => Some (take i s, drop (S i) s)
  | None => None
  end.

(** The pair regex at the current position: a quoted non-empty name, a colon,
    a quoted value, with optional white space around the colon. *)
Definition match_pair (s : str) : option (str * str * str) :=
  match s with
  | q :: s1 =>
      if negb (Ascii.eqb q dquote) then None else
      match upto_quote s1 with
      | Some (k, s2) =>
          if bool_decide (k = []) then None else
          match drop_while is_space s2 with
          | c :: s3 =>
              if negb (Ascii.eqb c ":") then None else
              match drop_while is_space s3 with
              | q2 :: s4 =>
                  if negb (Ascii.eqb q2 dquote) then None else
                  match upto_quote s4 with
                  | Some (v, s5) => Some (k, v, s5)
                  | None => None
                  end
              | [] => None
              end
          | [] => None
          end
      | None => None
      end
  | [] => None
  end.

(** Leftmost matches in turn: the pairs found and the text outside them. *)
Fixpoint scan_pairs (fuel : nat) (s : str) : list (str * str) * str :=
  match fuel, s with
  | S fuel', c :: s' =>
      match match_pair s with
      | Some (k, v, rest) => let '(ps, out) := scan_pairs fuel' rest in ((k, v) :: ps, out)
      | None => let '(ps, out) := scan_pairs fuel' s' in (ps, c :: out)
      end
  | _, _ => ([], s)
  end.

Definition extractJsonFlatObjectStringField (body field : str) : option (gmap str str) :=
  match extractJsonValueToken body field with
  | None => None
  | Some raw =>
      if bool_decide (raw = "null") then Some ∅
      else if negb (enclosed_by "{" "}" raw) then None
      else
        let '(pairs, without_pairs) := scan_pairs (length raw) raw in
        if forallb (fun c => is_space c || one_of "{}," c) without_pairs
        then Some (foldl (fun m '(k, v) => <[k := v]> m) ∅ pairs)
        else None
  end.

(** ** Scanning escaped text *)

(** What the scanners make of an escaped character: the letter of its escape,
    since they drop the backslash and keep the next character. *)
Definition scanned (c : ascii) : ascii :=
  if Ascii.eqb c "010" then "n"%char else if Ascii.eqb c "013" then "r"%char
  else if Ascii.eqb c "009" then "t"%char else c.

(** Characters whose escape is not undone. *)
Definition is_json_control (c : ascii) : bool := one_of "	
" c || Ascii.eqb c "013".

Lemma scan_string_char c s : scan_string (escape_char c ++ s) false = cons (scanned c) <$> scan_string s false.
Proof. by all_chars c. Qed.

Lemma scan_element_char c s :
  scan_element (escape_char c ++ s) false
  = (scanned c :: (scan_element s false).1, (scan_element s false).2).
Proof. by all_chars c; simpl; destruct (scan_element s false). Qed.

Lemma scan_bracket_char o cl c s d :
  scan_bracket o cl (escape_char c ++ s) d true false
  = app (escape_char c) <$> scan_bracket o cl s d true false.
Proof. by all_chars c; simpl; destruct (scan_bracket o cl s d true false). Qed.

Lemma scan_string_escaped v rest :
  scan_string (jsonEscape v ++ dquote :: rest) false = Some (map scanned v).
Proof.
  induction v as [|c v IH]; [done|]. unfold jsonEscape in *. simpl.
  by rewrite <- app_assoc, scan_string_char, IH.
Qed.

Lemma scan_element_escaped v rest :
  scan_element (jsonEscape v ++ dquote :: rest) false = (map scanned v, rest).
Proof.
  induction v as [|c v IH]; [done|]. unfold jsonEscape in *. simpl.
  by rewrite <- app_assoc, scan_element_char, IH.
Qed.

Lemma fmap_app_app (a b : str) (o : option str) : app a <$> (app b <$> o) = app (a ++ b) <$> o.
Proof. destruct o as [x|]; [|reflexivity]. simpl. by rewrite app_assoc. Qed.

Lemma fmap_cons_app c (b : str) (o : option str) : cons c <$> (app b <$> o) = app (c :: b) <$> o.
Proof. by destruct o. Qed.

Lemma scan_bracket_escaped o cl v s d :
  scan_bracket o cl (jsonEscape v ++ s) d true false
  = app (jsonEscape v) <$> scan_bracket o cl s d true false.
Proof.
  induction v as [|c v IH]; simpl; [by destruct (scan_bracket _ _ _ _ _ _)|].
  unfold jsonEscape in *. by rewrite <- app_assoc, scan_bracket_char, IH, fmap_app_app.
Qed.

(** A quoted string never disturbs the bracket depth. *)
Lemma scan_bracket_string o cl v s d :
  scan_bracket o cl (jsonString v ++ s) d false false
  = app (jsonString v) <$> scan_bracket o cl s d false false.
Proof.
  unfold jsonString. simpl. rewrite <- app_assoc, scan_bracket_escaped. simpl.
  destruct (scan_bracket _ _ _ _ _ _); [|reflexivity]. simpl. by rewrite <- app_assoc.
Qed.

Lemma scanned_id v : Forall (fun c => is_json_control c = false) v → map scanned v = v.
Proof.
  intros H. rewrite <- (map_id v) at 2. apply map_ext_in. intros c Hc%list_elem_of_In.
  rewrite Forall_forall in H. specialize (H c Hc). revert H. by all_chars c.
Qed.

Lemma scanned_id_iff v : map scanned v = v ↔ Forall (fun c => is_json_control c = false) v.
Proof.
  split; [|apply scanned_id]. induction v as [|c v IH]; simpl; [done|].
  intros [= Hc Hv]. constructor; [|auto]. revert Hc. by all_chars c.
Qed.

(** ** Fields *)
Lemma field_value_at pre field val :
  find_str (json_key field) (pre ++ json_key field ++ ":"%char :: val) = Some (length pre) →
  (∀ x r, val = x :: r → is_space x = false) →
  field_value (pre ++ json_key field ++ ":"%char :: val) field = Some val.
Proof.
  intros Hf Hv. unfold field_value. rewrite Hf.
  rewrite app_assoc, <- length_app, drop_app_length. simpl. by rewrite drop_0, drop_while_id.
Qed.

(** Every round of the array loop consumes input. *)
Lemma scan_element_length s e : length (scan_element s e).2 ≤ length s.
Proof.
  revert e. induction s as [|c s IH]; intros e; simpl; [lia|].
  pose proof (IH true). pose proof (IH false).
  split_matches; destruct (scan_element s false); simpl in *; lia.
Qed.

Lemma drop_while_length {A} (P : A → bool) l : length (drop_while P l) ≤ length l.
Proof.
  destruct (drop_while_suffix P l) as (k & Hl & _). rewrite Hl at 2. rewrite length_app. lia.
Qed.

(** The fuel of the array loop never runs out. *)
Lemma array_elements_total fuel s : length s ≤ fuel → array_elements fuel s ≠ OutOfFuel.
Proof.
  revert s. induction fuel as [|fuel IH]; intros s Hs; destruct s as [|c0 s0]; try done; [simpl in Hs; lia|].
  cbn [array_elements]. pose proof (drop_while_length is_space (c0 :: s0)) as H1.
  destruct (drop_while is_space (c0 :: s0)) as [|c s1]; [done|]. destruct (negb _); [done|].
  pose proof (scan_element_length s1 false) as H2. destruct (scan_element s1 false) as [v s2].
  pose proof (drop_while_length is_space s2) as H3. destruct (drop_while is_space s2) as [|d s3]; [done|].
  destruct (negb _); [done|]. simpl in *. specialize (IH s3 ltac:(lia)).
  by destruct (array_elements fuel s3).
Qed.

(** ** Round trip of string arrays *)
Definition json_array (l : list str) : str := "["%char :: comma_separated (map jsonString l) ++ ["]"%char].

Lemma scan_bracket_elements l s d :
  (d ≠ 0)%Z →
  scan_bracket "[" "]" (comma_separated (map jsonString l) ++ s) d false false
  = app (comma_separated (map jsonString l)) <$> scan_bracket "[" "]" s d false false.
Proof.
  intros Hd. induction l as [|x [|y l] IH]; [simpl; by destruct (scan_bracket _ _ s _ _ _)|apply scan_bracket_string|].
  change (comma_separated (map jsonString (x :: y :: l)))
    with (jsonString x ++ ","%char :: comma_separated (map jsonString (y :: l))).
  rewrite <- app_assoc, scan_bracket_string, <- app_comm_cons.
  assert (Hcomma : ∀ t, scan_bracket "[" "]" (","%char :: t) d false false
    = cons ","%char <$> scan_bracket "[" "]" t d false false) by reflexivity.
  by rewrite Hcomma, IH, fmap_cons_app, fmap_app_app.
Qed.

Lemma array_elements_cons fuel x rest :
  array_elements (S fuel) (jsonString x ++ ","%char :: rest)
  = match array_elements fuel rest with
    | Parsed out => Parsed (map scanned x :: out)
    | r => r
    end.
Proof. unfold jsonString. simpl. rewrite <- app_assoc. simpl. by rewrite scan_element_escaped. Qed.

Lemma array_elements_print fuel l :
  length (comma_separated (map jsonString l)) ≤ fuel →
  array_elements fuel (comma_separated (map jsonString l)) = Parsed (map (map scanned) l).
Proof.
  revert fuel. induction l as [|x l IH]; intros fuel Hf; [by destruct fuel|].
  destruct fuel as [|fuel]; [destruct l; simpl in Hf; lia|].
  destruct l as [|y l].
  - unfold jsonString. simpl. by rewrite scan_element_escaped.
  - change (comma_separated (map jsonString (x :: y :: l)))
      with (jsonString x ++ ","%char :: comma_separated (map jsonString (y :: l))) in *.
    rewrite array_elements_cons, IH; [done|]. rewrite length_app in Hf. simpl length in *. lia.
Qed.

Lemma inside_array l : inside (json_array l) = comma_separated (map jsonString l).
Proof.
  unfold inside, json_array. simpl. rewrite drop_0, length_app. simpl.
  by rewrite take_app_length' by lia.
Qed.

Lemma enclosed_array l : enclosed_by "[" "]" (json_array l) = true.
Proof.
  unfold enclosed_by, json_array. rewrite !andb_true_iff, Nat.leb_le. split_and!.
  - simpl. rewrite length_app. simpl. lia.
  - by apply bool_decide_eq_true_2.
  - apply bool_decide_eq_true_2. by rewrite app_comm_cons, last_snoc.
Qed.

Lemma scan_bracket_array l rest :
  scan_bracket "[" "]" (json_array l ++ rest) 0 false false = Some (json_array l).
Proof.
  unfold json_array. rewrite <- app_comm_cons, <- app_assoc.
  assert (Hopen : ∀ t, scan_bracket "[" "]" ("["%char :: t) 0 false false
    = cons "["%char <$> scan_bracket "[" "]" t 1 false false) by reflexivity.
  by rewrite Hopen, scan_bracket_elements.
Qed.

Lemma value_token_array pre field l rest :
  find_str (json_key field) (pre ++ json_key field ++ ":"%char :: json_array l ++ rest) = Some (length pre) →
  extractJsonValueToken (pre ++ json_key field ++ ":"%char :: json_array l ++ rest) field
  = Some (json_array l).
Proof.
  intros Hf. unfold extractJsonValueToken.
  rewrite (field_value_at pre field _ Hf) by (by intros x r [= <- _]).
  assert (Es : ∃ s, json_array l ++ rest = "["%char :: s) by (eexists; reflexivity).
  destruct Es as [s Es]. rewrite Es. cbn -[scan_bracket]. rewrite <- Es. apply scan_bracket_array.
Qed.

(** ** Properties *)

(** A string field printed with [jsonString] and found at its key is read
    back as the value with every newline, carriage return and tab replaced by
    the letter of its escape; so it is read back unchanged exactly when it
    holds none of these characters. *)
Theorem json_string_field_roundtrip (pre field v rest : str) :
  find_str (json_key field) (pre ++ json_key field ++ ":"%char :: jsonString v ++ rest) = Some (length pre) →
  extractJsonStringField (pre ++ json_key field ++ ":"%char :: jsonString v ++ rest) field
    = Some (map scanned v) ∧
  (extractJsonStringField (pre ++ json_key field ++ ":"%char :: jsonString v ++ rest) field = Some v
   ↔ Forall (fun c => is_json_control c = false) v).
Proof.
  intros Hf.
  assert (H : extractJsonStringField (pre ++ json_key field ++ ":"%char :: jsonString v ++ rest) field
    = Some (map scanned v)).
  { unfold extractJsonStringField. rewrite (field_value_at pre field _ Hf) by (by intros x r [= <- _]).
    unfold jsonString. simpl. rewrite <- app_assoc. apply scan_string_escaped. }
  split; [done|]. rewrite H, <- scanned_id_iff. split; [by intros [= ->]|by intros ->].
Qed.

Lemma json_string_field_roundtrip_witness :
  extractJsonStringField (json_text "{'url':'http://a.b/c'}") "url" = Some ("http://a.b/c" : str).
Proof.
  pose proof (json_string_field_roundtrip ["{"%char] "url" "http://a.b/c" ["}"%char]) as H.
  apply H; [reflexivity|]. vm_compute. repeat constructor.
Defined.

(** A list of strings printed as a JSON array is read back element by
    element by [extractJsonStringArrayField], whatever brackets, commas,
    quotes and backslashes the elements hold (line breaks and tabs aside), and
    whatever follows the array. *)
Theorem json_string_array_roundtrip (pre field rest : str) (l : list str) :
  find_str (json_key field) (pre ++ json_key field ++ ":"%char :: json_array l ++ rest) = Some (length pre) →
  Forall (Forall (fun c => is_json_control c = false)) l →
  extractJsonStringArrayField (pre ++ json_key field ++ ":"%char :: json_array l ++ rest) field = Some l.
Proof.
  intros Hf Hl. unfold extractJsonStringArrayField. rewrite value_token_array by done.
  rewrite bool_decide_eq_false_2, enclosed_array by done. cbn [negb].
  rewrite inside_array, array_elements_print by done. f_equal.
  clear Hf. induction Hl as [|x l Hx _ IH]; simpl; [done|]. by rewrite scanned_id, IH.
Qed.

Lemma json_string_array_roundtrip_witness :
  extractJsonStringArrayField (json_text "{'tags':['a]b','c,d'],'x':1}") "tags"
  = Some ["a]b" : str; "c,d" : str].
Proof.
  apply (json_string_array_roundtrip ["{"%char] "tags" (json_text ",'x':1}") ["a]b" : str; "c,d" : str]);
    [reflexivity|]. vm_compute. repeat constructor.
Defined.

(** Fields are located by the first textual occurrence of their quoted
    name, also inside values. A tag named [slug] in a body without a slug
    field makes the scanner return the value of the next field, here the URL,
    as the slug. *)
Theorem field_name_inside_value_is_taken_for_key (v : str) :
  extractJsonStringField (json_text "{'tags':['slug'],'url':" ++ jsonString v ++ "}") "slug"
  = Some (map scanned v).
Proof.
  unfold extractJsonStringField, field_value.
  replace (find_str _ _) with (Some 9) by reflexivity. simpl.
  unfold jsonString. simpl. rewrite <- app_assoc. apply scan_string_escaped.
Qed.
