(* ===== verification/Validation.v ===== *)
(** * Validation: link state and field limits (src/core/utils.cpp)

    [resolveLinkStatus], [redirectStatusFor], the enum conversions and the
    checks on tags, metadata and campaigns. *)
From S2P Require Import Prelude Text Env Clock Types.

(** ** Enum conversions *)
Definition parseRedirectType (value : str) : option RedirectType :=
  if bool_decide (value = "temporary") then Some temporary
  else if bool_decide (value = "permanent") then Some permanent
  else None.

Definition redirectTypeToString (value : RedirectType) : str :=
  match value with permanent => "permanent" | temporary => "temporary" end.

Definition linkStatusToString (status : LinkStatus) : str :=
  match status with
  | deleted => "deleted"
  | disabled => "disabled"
  | expired => "expired"
  | active => "active"
  end.

Lemma parse_print_redirect_type t : parseRedirectType (redirectTypeToString t) = Some t.
Proof. by destruct t. Qed.

(** ** Link state *)
Definition resolveLinkStatus (link : Link) : ST Env LinkStatus :=
  if bool_decide (is_Some (deleted_at link)) then mret deleted
  else if negb (enabled link) then mret disabled
  else
    x ← isExpired (expires_at link);
    mret (if (x : bool) then expired else active).

(** The state as a function of one clock reading. *)
Definition link_status_at (now : Z) (link : Link) : LinkStatus :=
  match deleted_at link with
  | Some _ => deleted
  | None =>
      if negb (enabled link) then disabled
      else match expires_at link with
           | Some e =>
               match parseRfc3339Zulu e with
               | Some ts => if (ts <=? now)%Z then expired else active
               | None => active
               end
           | None => active
           end
  end.

Lemma resolveLinkStatus_at link e :
  (resolveLinkStatus link e).1 = link_status_at (clock e (ticks e)) link.
Proof.
  unfold resolveLinkStatus, link_status_at, isExpired.
  destruct (deleted_at link); simpl; [done|]. destruct (enabled link); simpl; [|done].
  destruct (expires_at link) as [x|]; simpl; [|done].
  unfold mbind, ST_bind. destruct (parseRfc3339Zulu x); done.
Qed.

(** Reading the state moves the clock at most one reading forward. *)
Lemma resolveLinkStatus_env link e :
  clock (resolveLinkStatus link e).2 = clock e ∧
  draws (resolveLinkStatus link e).2 = draws e ∧ drawn (resolveLinkStatus link e).2 = drawn e.
Proof.
  unfold resolveLinkStatus, isExpired. destruct (bool_decide _); [done|].
  destruct (negb _); [done|]. destruct (expires_at link) as [x|]; simpl; [|done].
  unfold mbind, ST_bind. destruct (parseRfc3339Zulu x); done.
Qed.

Definition redirectStatusFor (link : Link) : Z :=
  match redirect_type link with permanent => 301 | temporary => 302 end.

(** ** Field limits *)
Definition is_tag_char (c : ascii) : bool :=
  is_alnum c || Ascii.eqb c ":" || Ascii.eqb c "-" || Ascii.eqb c "_".

Fixpoint normalize_tags (seen : gset str) (tags : list str) : option (list str) :=
  match tags with
  | [] => Some []
  | raw_tag :: tags' =>
      let tag := trim raw_tag in
      if bool_decide (tag = []) then None
      else if 32 <? length tag then None
      else if negb (forallb is_tag_char tag) then None
      else if bool_decide (tag ∈ seen) then normalize_tags seen tags'
      else cons tag <$> normalize_tags ({[ tag ]} ∪ seen) tags'
  end.

(** [None] is [false] with the argument unchanged; [Some out] is [true] with
    the argument replaced by [out]. *)
Definition validateTags (tags : list str) : option (list str) :=
  if 20 <? length tags then None else normalize_tags ∅ tags.

Definition validateMetadata (metadata : gmap str str) : bool :=
  if 50 <? size metadata then false
  else forallb (fun '(k, v) => negb (bool_decide (k = []) || (64 <? length k) || (512 <? length v)))
         (map_to_list metadata).

Definition validateCampaignField (field : option str) : bool :=
  match field with None => true | Some f => length f <=? 128 end.

Definition validateCampaign (campaign : option Campaign) : bool :=
  match campaign with
  | None => true
  | Some c =>
      validateCampaignField (cp_name c) && validateCampaignField (cp_source c)
      && validateCampaignField (cp_medium c) && validateCampaignField (cp_term c)
      && validateCampaignField (cp_content c) && validateCampaignField (cp_id c)
  end.

(** ** Tags *)
Definition valid_tag (t : str) : Prop :=
  t ≠ [] ∧ length t ≤ 32 ∧ Forall (fun c => is_tag_char c = true) t ∧ trim t = t.

Lemma normalize_tags_spec seen l out :
  normalize_tags seen l = Some out →
  NoDup out ∧ Forall valid_tag out ∧ Forall (fun t => t ∉ seen) out ∧ length out ≤ length l ∧
  (∀ t, t ∈ out ↔ (t ∉ seen) ∧ t ∈ map trim l).
Proof.
  revert seen out. induction l as [|raw l IH]; intros seen out; simpl.
  - intros [= <-]. split_and!; [apply NoDup_nil_2|apply Forall_nil_2|apply Forall_nil_2|done|set_solver].
  - destruct (bool_decide (trim raw = [])) eqn:E1; [done|].
    destruct (32 <? length (trim raw)) eqn:E2; [done|].
    destruct (forallb is_tag_char (trim raw)) eqn:E3; [|done]. simpl.
    apply bool_decide_eq_false in E1. apply Nat.ltb_ge in E2. apply forallb_Forall in E3.
    destruct (bool_decide (trim raw ∈ seen)) eqn:E4.
    + apply bool_decide_eq_true in E4. intros H.
      destruct (IH _ _ H) as (? & ? & ? & ? & Hin). split_and!; [done|done|done|lia|].
      intros t. rewrite Hin. set_solver.
    + apply bool_decide_eq_false in E4.
      destruct (normalize_tags ({[trim raw]} ∪ seen) l) as [o|] eqn:E; [|done].
      intros [= <-]. destruct (IH _ _ E) as (Hnd & Hv & Hns & Hl & Hin). split_and!.
      * apply NoDup_cons. split; [|done]. rewrite Hin. set_solver.
      * constructor; [|done]. repeat split; [done|done|done|apply trim_idem].
      * constructor; [done|]. eapply Forall_impl; [exact Hns|]. set_solver.
      * simpl. lia.
      * intros t. rewrite elem_of_cons, Hin. destruct (decide (t = trim raw)) as [->|]; set_solver.
Qed.

Lemma normalize_tags_fixpoint seen l :
  NoDup l → Forall valid_tag l → Forall (fun t => t ∉ seen) l → normalize_tags seen l = Some l.
Proof.
  revert seen. induction l as [|t l IH]; intros seen; [done|].
  intros [Hnt Hnd]%NoDup_cons [(Hne & Hl & Hc & Ht) Hv]%Forall_cons [Hs Hss]%Forall_cons. simpl.
  rewrite Ht, bool_decide_eq_false_2 by done.
  rewrite (proj2 (Nat.ltb_ge _ _) Hl), (proj2 (forallb_Forall _ _) Hc). simpl.
  rewrite bool_decide_eq_false_2 by done. rewrite IH; [done|done|done|].
  apply Forall_forall. rewrite Forall_forall in Hss. intros u Hu.
  specialize (Hss u Hu). set_solver.
Qed.

(** Validation is idempotent. *)
Lemma validateTags_fixpoint l out : validateTags l = Some out → validateTags out = Some out.
Proof.
  unfold validateTags. destruct (20 <? length l) eqn:El; [done|]. apply Nat.ltb_ge in El.
  intros H. destruct (normalize_tags_spec _ _ _ H) as (Hnd & Hv & _ & Hlen & Hin).
  rewrite (proj2 (Nat.ltb_ge _ _)) by lia. apply normalize_tags_fixpoint; [done|done|].
  apply Forall_forall. set_solver.
Qed.

(** Accepted tags are normalised: at most 20, pairwise distinct, each
    trimmed, non-empty, at most 32 characters of the allowed alphabet, exactly
    the trimmed input tags; and validating them again changes nothing. *)
Theorem validateTags_normal_form (l out : list str) :
  validateTags l = Some out →
  NoDup out ∧ Forall valid_tag out ∧ length out ≤ 20 ∧
  (∀ t, t ∈ out ↔ t ∈ map trim l) ∧ validateTags out = Some out.
Proof.
  intros Hl. pose proof (validateTags_fixpoint _ _ Hl) as Hf. unfold validateTags in Hl.
  destruct (20 <? length l) eqn:El; [done|]. apply Nat.ltb_ge in El.
  destruct (normalize_tags_spec _ _ _ Hl) as (Hnd & Hv & _ & Hlen & Hin).
  split_and!; [done|done|lia|set_solver|done].
Qed.

Lemma validateTags_normal_form_witness :
  validateTags [" a " : str; "b" : str; "a" : str] = Some ["a" : str; "b" : str] ∧
  validateTags ["a" : str; "b" : str] = Some ["a" : str; "b" : str].
Proof.
  split; [vm_compute; reflexivity|].
  apply (validateTags_normal_form [" a " : str; "b" : str; "a" : str]). vm_compute. reflexivity.
Defined.
