(* ===== verification/LinkRepository.v ===== *)
(** * LinkRepository: the link store of the HTTP server (src/storage/link_repository.cpp)

    [InMemoryMetadataRepository], [InMemoryLinkCacheStore] and the cache-aside
    functions [getLinkForRead] and [updateLinkAndInvalidateCache] over the two
    process-wide singletons. Each method holds its mutex for its whole body, so
    a method is one atomic step. *)
From S2P Require Import Prelude Types.

Module RepoError.
Inductive t := not_found | already_exists | transient_failure | permanent_failure.

#[global] Instance t_eq_dec : EqDecision t.
Proof. solve_decision. Defined.
End RepoError.

(** ** [InMemoryMetadataRepository] *)
Record Repo := mkRepo {
  by_id : gmap str Link;
  slug_to_id : gmap str str;
}.

(** The second component is what [*error] holds after a failure. *)
Definition repo_create (link : Link) (r : Repo) : (bool * option RepoError.t) * Repo :=
  if bool_decide (is_Some (slug_to_id r !! slug link)) || bool_decide (is_Some (by_id r !! id link))
  then ((false, Some RepoError.already_exists), r)
  else ((true, None), mkRepo (<[id link := link]> (by_id r)) (<[slug link := id link]> (slug_to_id r))).

Definition getBySlug (s : str) (r : Repo) : option Link :=
  match slug_to_id r !! s with
  | Some i => by_id r !! i
  | None => None
  end.

Definition getById (i : str) (r : Repo) : option Link := by_id r !! i.

Definition repo_slugExists (s : str) (r : Repo) : bool := bool_decide (is_Some (slug_to_id r !! s)).

Definition repo_update (link : Link) (r : Repo) : (bool * option RepoError.t) * Repo :=
  match by_id r !! id link with
  | None => ((false, Some RepoError.not_found), r)
  | Some _ => ((true, None), mkRepo (<[id link := link]> (by_id r)) (slug_to_id r))
  end.

(** ** [InMemoryLinkCacheStore] *)
Definition cache_get (s : str) (c : gmap str Link) : option Link := c !! s.
Definition cache_set (s : str) (l : Link) (c : gmap str Link) : gmap str Link := <[s := l]> c.
Definition cache_erase (s : str) (c : gmap str Link) : gmap str Link := delete s c.

(** ** The two singletons together *)
Record LinkStorage := mkLinkStorage {
  repo : Repo;
  cache : gmap str Link;
}.

Definition empty_storage : LinkStorage := mkLinkStorage (mkRepo ∅ ∅) ∅.

Definition getLinkForRead (s : str) : ST LinkStorage (option Link) := fun st =>
  match cache_get s (cache st) with
  | Some l => (Some l, st)
  | None =>
      match getBySlug s (repo st) with
      | Some l => (Some l, mkLinkStorage (repo st) (cache_set s l (cache st)))
      | None => (None, st)
      end
  end.

Definition updateLinkAndInvalidateCache (link : Link) : ST LinkStorage bool := fun st =>
  let '((ok, _), r) := repo_update link (repo st) in
  if ok then (true, mkLinkStorage r (cache_erase (slug link) (cache st)))
  else (false, mkLinkStorage r (cache st)).

(** ** Invariant

    The secondary index and the primary index describe the same links, and the
    cache only holds links the repository would return. *)
Record repo_wf (r : Repo) : Prop := {
  wf_index : ∀ s i, slug_to_id r !! s = Some i → ∃ l, by_id r !! i = Some l ∧ slug l = s ∧ id l = i;
  wf_links : ∀ i l, by_id r !! i = Some l → id l = i ∧ slug_to_id r !! slug l = Some i;
}.

Record storage_wf (st : LinkStorage) : Prop := {
  wf_repo : repo_wf (repo st);
  wf_cache : ∀ s l, cache st !! s = Some l → getBySlug s (repo st) = Some l;
}.

Lemma empty_storage_wf : storage_wf empty_storage.
Proof. repeat split; intros; simplify_map_eq. Qed.

Section repo_lemmas.
Context (r : Repo) (Hwf : repo_wf r).

Lemma getBySlug_slug s l : getBySlug s r = Some l → slug l = s.
Proof using Hwf.
  unfold getBySlug. destruct (slug_to_id r !! s) as [i|] eqn:E; [|done].
  destruct (wf_index _ Hwf _ _ E) as (l' & Hl & Hs & _). congruence.
Qed.

Lemma getBySlug_id s l : getBySlug s r = Some l → by_id r !! id l = Some l.
Proof using Hwf.
  unfold getBySlug. destruct (slug_to_id r !! s) as [i|] eqn:E; [|done].
  intros Hl. by destruct (wf_links _ Hwf _ _ Hl) as [-> _].
Qed.

Lemma by_id_getBySlug i l : by_id r !! i = Some l → getBySlug (slug l) r = Some l.
Proof using Hwf.
  intros Hl. destruct (wf_links _ Hwf _ _ Hl) as [_ Hs]. unfold getBySlug. by rewrite Hs.
Qed.

Lemma slugExists_getBySlug s : repo_slugExists s r = bool_decide (is_Some (getBySlug s r)).
Proof using Hwf.
  unfold repo_slugExists, getBySlug. apply bool_decide_ext.
  destruct (slug_to_id r !! s) as [i|] eqn:E; [|done].
  destruct (wf_index _ Hwf _ _ E) as (l & Hl & _). rewrite Hl. split; eauto.
Qed.

(** A failed or successful creation keeps the indexes consistent. *)
Lemma repo_create_wf link : repo_wf (repo_create link r).2.
Proof using Hwf.
  unfold repo_create. destruct (_ || _) eqn:E; [done|]. bool_simpl. simpl.
  match goal with H : ¬ is_Some (slug_to_id _ !! _) |- _ => apply eq_None_not_Some in H; rename H into Hs end.
  match goal with H : ¬ is_Some (by_id _ !! _) |- _ => apply eq_None_not_Some in H; rename H into Hi end.
  split; simpl.
  - intros s i. rewrite lookup_insert. case_decide as Hc.
    + subst. intros [= <-]. exists link. by rewrite lookup_insert_eq.
    + intros H. destruct (wf_index _ Hwf _ _ H) as (l & Hl & ? & ?).
      exists l. rewrite lookup_insert_ne by congruence. done.
  - intros i l. rewrite lookup_insert. case_decide as Hc.
    + subst. intros [= <-]. by rewrite lookup_insert_eq.
    + intros H. destruct (wf_links _ Hwf _ _ H) as [? Hl].
      rewrite lookup_insert_ne by congruence. done.
Qed.

(** An update that keeps the slug of the stored link keeps the indexes
    consistent. *)
Lemma repo_update_wf link :
  (∀ old, by_id r !! id link = Some old → slug link = slug old) → repo_wf (repo_update link r).2.
Proof using Hwf.
  intros Hslug. unfold repo_update. destruct (by_id r !! id link) as [old|] eqn:E; [|done].
  specialize (Hslug old eq_refl). simpl. destruct (wf_links _ Hwf _ _ E) as [Hid Hold]. split; simpl.
  - intros s i H. destruct (wf_index _ Hwf _ _ H) as (l & Hl & Hs & Hi).
    rewrite lookup_insert. case_decide as Hc; [|by exists l].
    exists link. simplify_eq. split_and!; congruence.
  - intros i l. rewrite lookup_insert. case_decide as Hc; [|by apply (wf_links _ Hwf)].
    subst. intros [= <-]. by rewrite Hslug.
Qed.
End repo_lemmas.

(** ** Cache-aside reads and writes *)
Lemma getLinkForRead_spec st s :
  storage_wf st →
  (getLinkForRead s st).1 = getBySlug s (repo st) ∧
  repo (getLinkForRead s st).2 = repo st ∧ storage_wf (getLinkForRead s st).2.
Proof.
  intros Hwf. unfold getLinkForRead, cache_get, cache_set.
  destruct (cache st !! s) as [l|] eqn:Ec; simpl.
  - split_and!; [|done|done]. by rewrite (wf_cache _ Hwf _ _ Ec).
  - destruct (getBySlug s (repo st)) as [l|] eqn:Eg; simpl; [|done].
    split_and!; [done|done|]. split; simpl; [apply Hwf|].
    intros s' l'. rewrite lookup_insert. case_decide; [|by apply Hwf]. subst. by intros [= <-].
Qed.

(** The repository entry of one slug after an update of a stored link. *)
Lemma getBySlug_update r link old s :
  repo_wf r → by_id r !! id link = Some old → slug link = slug old →
  getBySlug s (repo_update link r).2 = if decide (s = slug link) then Some link else getBySlug s r.
Proof.
  intros Hwf Hold Hslug. destruct (wf_links _ Hwf _ _ Hold) as [Hid Hidx].
  unfold repo_update. rewrite Hold. unfold getBySlug. simpl. case_decide as Hc.
  - subst s. rewrite Hslug, Hidx. by rewrite lookup_insert_eq.
  - destruct (slug_to_id r !! s) as [i|] eqn:E; [|done]. rewrite lookup_insert_ne; [done|].
    intros <-. destruct (wf_index _ Hwf _ _ E) as (l & Hl & Hs & _). congruence.
Qed.

Lemma getBySlug_create r link s :
  repo_wf r → (repo_create link r).1.1 = true →
  getBySlug s (repo_create link r).2 = if decide (s = slug link) then Some link else getBySlug s r.
Proof.
  intros Hwf. unfold repo_create. destruct (_ || _) eqn:E; [done|]. intros _. bool_simpl.
  match goal with H : ¬ is_Some (by_id _ !! _) |- _ => apply eq_None_not_Some in H; rename H into Hi end.
  unfold getBySlug. simpl. case_decide as Hc.
  - subst s. by rewrite !lookup_insert_eq.
  - rewrite lookup_insert_ne by congruence. destruct (slug_to_id r !! s) as [i|] eqn:Es; [|done].
    rewrite lookup_insert_ne; [done|]. intros <-. destruct (wf_index _ Hwf _ _ Es) as (l & Hl & _). congruence.
Qed.

Lemma update_invalidate_spec st link old :
  storage_wf st → by_id (repo st) !! id link = Some old → slug link = slug old →
  (updateLinkAndInvalidateCache link st).1 = true ∧
  storage_wf (updateLinkAndInvalidateCache link st).2 ∧
  ∀ s, getBySlug s (repo (updateLinkAndInvalidateCache link st).2)
       = if decide (s = slug link) then Some link else getBySlug s (repo st).
Proof.
  intros Hwf Hold Hslug. unfold updateLinkAndInvalidateCache.
  assert (Hok : (repo_update link (repo st)).1.1 = true) by (unfold repo_update; by rewrite Hold).
  pose proof (repo_update_wf _ (wf_repo _ Hwf) link) as Hwf'.
  assert (Hg : ∀ s, getBySlug s (repo_update link (repo st)).2
    = if decide (s = slug link) then Some link else getBySlug s (repo st))
    by (intros s; by apply (getBySlug_update _ _ old); [apply Hwf|..]).
  destruct (repo_update link (repo st)) as [[ok err] r]. simpl in *. subst ok. simpl.
  split_and!; [done| |done]. split; simpl; [apply Hwf'; congruence|].
  intros s l. unfold cache_erase. rewrite lookup_delete. case_decide; [done|].
  intros Hc. rewrite Hg, decide_False by done. by apply Hwf.
Qed.

Lemma update_missing_spec st link :
  storage_wf st → by_id (repo st) !! id link = None →
  updateLinkAndInvalidateCache link st = (false, st).
Proof.
  intros _ H. unfold updateLinkAndInvalidateCache, repo_update. rewrite H. by destruct st.
Qed.
