(* ===== verification/LinkStore.v ===== *)
(** * LinkStore: the store port of the command layer

    [AppError] and [Result] (app/app_error.hpp), the port [ILinkStore]
    (app/link_command_service.hpp) as a class of operations, the contract the
    command layer relies on as a class of laws over an abstract table of links
    keyed by slug, and the adapter [LegacyLinkStore] (app/legacy_adapters.cpp)
    with the proof that it meets the contract. *)
From S2P Require Import Prelude Types LinkRepository.

Module AppErrorCode.
Inductive t :=
  | none | invalid_url | invalid_slug | reserved_slug | slug_conflict | invalid_field
  | not_found | storage_failure | internal.

#[global] Instance t_eq_dec : EqDecision t.
Proof. solve_decision. Defined.
End AppErrorCode.

Record AppError := mkAppError {
  err_code : AppErrorCode.t;
  err_detail : str;
}.

Definition no_error : AppError := mkAppError AppErrorCode.none [].

Record Result (T : Type) := mkResult {
  res_value : option T;
  res_error : AppError;
}.
Arguments mkResult {T} _ _.
Arguments res_value {T} _.
Arguments res_error {T} _.

(** [Result::ok]. *)
Definition ok {T} (r : Result T) : bool := bool_decide (err_code (res_error r) = AppErrorCode.none).

Definition success {T} (v : T) : Result T := mkResult (Some v) no_error.
Definition failure {T} (code : AppErrorCode.t) (detail : string) : Result T :=
  mkResult None (mkAppError code detail).

(** ** The port

    A fallible operation returns its result and what the out-parameter
    [AppError*], initially [none], holds afterwards. *)
Class ILinkStore (St : Type) := {
  store_create : Link → ST St (bool * AppError);
  store_findBySlug : str → ST St (option Link);
  store_findById : str → ST St (option Link);
  store_slugExists : str → ST St bool;
  store_invalidateCache : str → ST St unit;
  store_update : Link → ST St (bool * AppError);
}.

(** ** The contract *)

(** Links are filed under their slug and no two share an id. *)
Record table_wf (t : gmap str Link) : Prop := {
  tw_slug : ∀ s l, t !! s = Some l → slug l = s;
  tw_id : ∀ s1 s2 l1 l2, t !! s1 = Some l1 → t !! s2 = Some l2 → id l1 = id l2 → s1 = s2;
}.

(** Neither the slug nor the id of a new link is taken. *)
Definition fresh_in (t : gmap str Link) (l : Link) : Prop :=
  t !! slug l = None ∧ map_Forall (fun _ l' => id l' ≠ id l) t.

#[export] Instance fresh_in_dec t l : Decision (fresh_in t l).
Proof. unfold fresh_in. apply _. Defined.

Class LinkStoreSpec (St : Type) `{ILinkStore St} := {
  store_ok : St → Prop;
  links : St → gmap str Link;
  links_wf st : store_ok st → table_wf (links st);
  findBySlug_spec st s : store_ok st →
    (store_findBySlug s st).1 = links st !! s ∧
    store_ok (store_findBySlug s st).2 ∧ links (store_findBySlug s st).2 = links st;
  findById_spec st i : store_ok st →
    (∀ l, (store_findById i st).1 = Some l ↔ links st !! slug l = Some l ∧ id l = i) ∧
    store_ok (store_findById i st).2 ∧ links (store_findById i st).2 = links st;
  slugExists_spec st s : store_ok st →
    store_slugExists s st = (bool_decide (is_Some (links st !! s)), st);
  invalidate_spec st s : store_ok st →
    store_ok (store_invalidateCache s st).2 ∧ links (store_invalidateCache s st).2 = links st;
  create_spec st l : store_ok st →
    store_ok (store_create l st).2 ∧
    if decide (fresh_in (links st) l)
    then (store_create l st).1.1 = true ∧ links (store_create l st).2 = <[slug l := l]> (links st)
    else (store_create l st).1.1 = false ∧ links (store_create l st).2 = links st ∧
         (store_create l st).1.2 = mkAppError AppErrorCode.slug_conflict "slug already in use";
  update_spec st l old : store_ok st →
    links st !! slug l = Some old → id old = id l →
    (store_update l st).1.1 = true ∧ store_ok (store_update l st).2 ∧
    links (store_update l st).2 = <[slug l := l]> (links st);
}.

(** ** [LegacyLinkStore] *)
Definition legacy_create (link : Link) : ST LinkStorage (bool * AppError) := fun st =>
  let '((created, repo_error), r) := repo_create link (repo st) in
  let st' := mkLinkStorage r (cache st) in
  if created then ((true, no_error), st')
  else ((false,
         if bool_decide (repo_error = Some RepoError.already_exists)
         then mkAppError AppErrorCode.slug_conflict "slug already in use"
         else mkAppError AppErrorCode.storage_failure "repository failure"), st').

Definition legacy_update (link : Link) : ST LinkStorage (bool * AppError) := fun st =>
  let '(updated, st') := updateLinkAndInvalidateCache link st in
  if updated then ((true, no_error), st')
  else ((false, mkAppError AppErrorCode.storage_failure "repository failure"), st').

#[export] Instance LegacyLinkStore : ILinkStore LinkStorage := {
  store_create := legacy_create;
  store_findBySlug := getLinkForRead;
  store_findById := fun i st => (getById i (repo st), st);
  store_slugExists := fun s st => (repo_slugExists s (repo st), st);
  store_invalidateCache := fun s st => (tt, mkLinkStorage (repo st) (cache_erase s (cache st)));
  store_update := legacy_update;
}.

(** The abstract table: the link each slug resolves to. *)
Definition repo_links (r : Repo) : gmap str Link :=
  map_imap (fun _ i => by_id r !! i) (slug_to_id r).

Lemma lookup_repo_links r s : repo_links r !! s = getBySlug s r.
Proof. unfold repo_links, getBySlug. rewrite map_lookup_imap. by destruct (slug_to_id r !! s). Qed.

Lemma repo_links_wf r : repo_wf r → table_wf (repo_links r).
Proof.
  intros Hwf. split.
  - intros s l. rewrite lookup_repo_links. by apply getBySlug_slug.
  - intros s1 s2 l1 l2. rewrite !lookup_repo_links. intros H1 H2 Hid.
    apply (getBySlug_slug r Hwf) in H1 as Hs1. apply (getBySlug_slug r Hwf) in H2 as Hs2.
    apply (getBySlug_id r Hwf) in H1, H2. congruence.
Qed.

Lemma repo_create_fresh r l :
  repo_wf r → (repo_create l r).1 = if decide (fresh_in (repo_links r) l) then (true, None)
                                    else (false, Some RepoError.already_exists).
Proof.
  intros Hwf. unfold repo_create. destruct (_ || _) eqn:E; simpl.
  - rewrite decide_False; [done|]. intros [Hs Hi]. rewrite lookup_repo_links in Hs.
    apply orb_true_iff in E as [E|E]; apply bool_decide_eq_true in E as [x Hx].
    + destruct (wf_index _ Hwf _ _ Hx) as (l' & Hl' & _). unfold getBySlug in Hs. rewrite Hx in Hs. congruence.
    + destruct (wf_links _ Hwf _ _ Hx) as [Hid _]. apply (by_id_getBySlug r Hwf) in Hx as Hg.
      rewrite <- lookup_repo_links in Hg. by apply (map_Forall_lookup_1 _ _ _ _ Hi) in Hg.
  - bool_simpl. rewrite decide_True; [done|]. split.
    + rewrite lookup_repo_links. unfold getBySlug.
      by match goal with H : ¬ is_Some (slug_to_id _ !! _) |- _ => apply eq_None_not_Some in H as -> end.
    + intros s l'. rewrite lookup_repo_links. intros Hl%(getBySlug_id r Hwf) Hid.
      rewrite Hid in Hl. eauto.
Qed.

Lemma repo_links_create r l :
  repo_wf r → (repo_create l r).1.1 = true →
  repo_links (repo_create l r).2 = <[slug l := l]> (repo_links r).
Proof.
  intros Hwf Hok. apply map_eq. intros s. rewrite lookup_repo_links, getBySlug_create by done.
  rewrite lookup_insert, lookup_repo_links. repeat case_decide; congruence.
Qed.

Lemma repo_create_unchanged r l : (repo_create l r).1.1 = false → (repo_create l r).2 = r.
Proof. unfold repo_create. by destruct (_ || _). Qed.

(** The adapter's creation, against the abstract table. *)
Lemma legacy_create_spec st l :
  storage_wf st →
  storage_wf (legacy_create l st).2 ∧
  if decide (fresh_in (repo_links (repo st)) l)
  then (legacy_create l st).1.1 = true ∧
       repo_links (repo (legacy_create l st).2) = <[slug l := l]> (repo_links (repo st))
  else (legacy_create l st).1.1 = false ∧
       repo_links (repo (legacy_create l st).2) = repo_links (repo st) ∧
       (legacy_create l st).1.2 = mkAppError AppErrorCode.slug_conflict "slug already in use".
Proof.
  intros Hwf. pose proof (wf_repo _ Hwf) as Hr.
  pose proof (repo_create_fresh _ l Hr) as Hf. pose proof (repo_create_wf _ Hr l) as Hw.
  pose proof (repo_links_create _ l Hr) as Hl. pose proof (repo_create_unchanged (repo st) l) as Hu.
  pose proof (fun s => getBySlug_create (repo st) l s Hr) as Hg.
  unfold legacy_create. destruct (repo_create l (repo st)) as [[created err] r']. simpl in *.
  destruct (decide (fresh_in _ _)) as [[Hfs _]|]; simplify_eq; simpl.
  - split; [|auto]. split; simpl; [done|]. intros s l' Hc. rewrite Hg by done. case_decide.
    + subst. rewrite lookup_repo_links in Hfs. apply Hwf in Hc. congruence.
    + by apply Hwf.
  - rewrite Hu by done. split; [|done]. split; simpl; apply Hwf.
Qed.

(** The adapter's update of a stored link, against the abstract table. *)
Lemma legacy_update_spec st l old :
  storage_wf st → repo_links (repo st) !! slug l = Some old → id old = id l →
  (legacy_update l st).1.1 = true ∧ storage_wf (legacy_update l st).2 ∧
  repo_links (repo (legacy_update l st).2) = <[slug l := l]> (repo_links (repo st)).
Proof.
  intros Hwf Hold Hid. rewrite lookup_repo_links in Hold. pose proof (wf_repo _ Hwf) as Hr.
  pose proof (getBySlug_slug _ Hr _ _ Hold) as Hs. apply (getBySlug_id _ Hr) in Hold. rewrite Hid in Hold.
  destruct (update_invalidate_spec st l old Hwf Hold ltac:(done)) as (Hok & Hw & Hg).
  unfold legacy_update. destruct (updateLinkAndInvalidateCache l st) as [updated st'].
  simpl in *. subst updated. simpl. split_and!; [done|done|].
  apply map_eq. intros s. rewrite lookup_repo_links, Hg, lookup_insert, lookup_repo_links.
  repeat case_decide; congruence.
Qed.

(** [LegacyLinkStore] implements the contract. *)
#[export] Program Instance LegacyLinkStoreSpec : LinkStoreSpec LinkStorage := {
  store_ok := storage_wf;
  links := fun st => repo_links (repo st);
}.
Next Obligation. intros st Hwf. apply repo_links_wf, Hwf. Qed.
Next Obligation.
  intros st s Hwf. destruct (getLinkForRead_spec st s Hwf) as (H1 & H2 & H3). simpl.
  by rewrite H2, lookup_repo_links.
Qed.
Next Obligation.
  intros st i Hwf. simpl. split; [|done]. intros l. unfold getById. rewrite lookup_repo_links. split.
  - intros Hl. destruct (wf_links _ (wf_repo _ Hwf) _ _ Hl) as [Hid _]. split; [|done].
    by apply (by_id_getBySlug _ (wf_repo _ Hwf) i).
  - intros [Hg <-]. by apply (getBySlug_id _ (wf_repo _ Hwf)) in Hg.
Qed.
Next Obligation.
  intros st s Hwf. simpl. rewrite (slugExists_getBySlug _ (wf_repo _ Hwf)). by rewrite lookup_repo_links.
Qed.
Next Obligation.
  intros st s Hwf. simpl. split; [|done]. split; simpl; [apply Hwf|].
  unfold cache_erase. intros s' l. rewrite lookup_delete. case_decide; [done|]. apply Hwf.
Qed.
Next Obligation. intros st l Hwf. by apply legacy_create_spec. Qed.
Next Obligation. intros st l old Hwf Hl Hid. by apply (legacy_update_spec st l old). Qed.
