(* ===== verification/LinkCommands.v ===== *)
(** * LinkCommands: [LinkCommandService] (src/app/link_command_service.cpp)

    The commands of the application layer over any store that implements
    [ILinkStore]. A command reads the clock and the random generator, so its
    state is the environment together with the store. *)
From S2P Require Import Prelude Text Env Clock Types Url Validation LinkStore.

(** ** Command and view types (app/link_command_service.hpp) *)
Record CreateLinkCommand := mkCreateLinkCommand {
  cl_target_url : str;
  cl_slug : option str;
  cl_redirect_type : option RedirectType;
  cl_expires_at : option str;
  cl_enabled : option bool;
  cl_tags : list str;
  cl_metadata : gmap str str;
  cl_campaign : option Campaign;
}.

Inductive GetLinkBy := by_slug (value : str) | by_link_id (value : str).

(** The outer option says whether the field is present, the inner one is its
    value, [None] meaning an explicit null. *)
Record UpdateLinkCommand := mkUpdateLinkCommand {
  ul_slug : str;
  ul_enabled : option bool;
  ul_expires_at : option (option str);
  ul_tags : option (list str);
  ul_metadata : option (gmap str str);
  ul_campaign : option (option Campaign);
}.

Record LinkView := mkLinkView {
  lv_id : str;
  lv_slug : str;
  lv_target_url : str;
  lv_short_url : str;
  lv_created_at : str;
  lv_updated_at : str;
  lv_expires_at : option str;
  lv_deleted_at : option str;
  lv_enabled : bool;
  lv_tags : list str;
  lv_metadata : gmap str str;
  lv_campaign : option Campaign;
  lv_stats : Stats;
  lv_redirect_type : RedirectType;
  lv_status : LinkStatus;
}.

(** ** Lifting the two halves of the state *)
Definition on_env {St A} (m : ST Env A) : ST (Env * St) A :=
  fun w => let '(a, e) := m w.1 in (a, (e, w.2)).
Definition on_store {St A} (m : ST St A) : ST (Env * St) A :=
  fun w => let '(a, s) := m w.2 in (a, (w.1, s)).

(** Trailing slashes of the base domain are dropped. *)
Definition shortUrlFor (config : ServerConfig) (slug : str) : str :=
  rev (drop_while (fun c => Ascii.eqb c "/") (rev (shortener_base_domain config))) ++ "/" ++ slug.

(** A view of a link whose state has been resolved. *)
Definition view_of (config : ServerConfig) (link : Link) (status : LinkStatus) : LinkView :=
  mkLinkView (id link) (slug link) (target_url link) (shortUrlFor config (slug link))
    (created_at link) (updated_at link) (expires_at link) (deleted_at link) (enabled link)
    (tags link) (metadata link) (campaign link) (stats link) (redirect_type link) status.

Definition is_present {A} (o : option A) : bool := match o with Some _ => true | None => false end.

Section service.
Context {St : Type} `{ILinkStore St} (config : ServerConfig).

Definition toView (link : Link) : ST (Env * St) LinkView :=
  status ← on_env (resolveLinkStatus link);
  mret (view_of config link status).

(** The generation loop: at most [attempts] candidates are drawn. *)
Fixpoint generate_free_slug (attempts : nat) : ST (Env * St) (Result str) :=
  match attempts with
  | O => mret (failure AppErrorCode.internal "unable to generate a unique slug")
  | S n =>
      candidate ← on_env (generateSlug (shortener_generated_slug_length config));
      taken ← on_store (store_slugExists candidate);
      if negb taken && negb (isReservedSlug candidate) then mret (success candidate)
      else generate_free_slug n
  end.

Definition chooseSlug (command : CreateLinkCommand) : ST (Env * St) (Result str) :=
  match cl_slug command with
  | Some s =>
      if negb (isValidSlug s) then mret (failure AppErrorCode.invalid_slug "slug format is invalid")
      else if isReservedSlug s then mret (failure AppErrorCode.reserved_slug "slug is reserved")
      else
        taken ← on_store (store_slugExists s);
        if (taken : bool) then mret (failure AppErrorCode.slug_conflict "slug already in use")
        else mret (success s)
  | None => generate_free_slug 10
  end.

(** The redirect type of a new link. *)
Definition chosen_redirect_type (command : CreateLinkCommand) : RedirectType :=
  match cl_redirect_type command with
  | Some t => t
  | None => default temporary (parseRedirectType (shortener_default_redirect_type config))
  end.

(** The expiry of a new link; the configured default counts from now. *)
Definition chosen_expiry (command : CreateLinkCommand) : ST (Env * St) (option str) :=
  match cl_expires_at command, shortener_default_expiry_seconds config with
  | None, Some secs =>
      now ← on_env system_now;
      mret (Some (formatTimestamp (now + secs * ticks_per_second)))
  | expires_at, _ => mret expires_at
  end.

(** The insertion [CreateLink] ends with. *)
Definition insert_link (link : Link) : ST (Env * St) (Result LinkView) :=
  outcome ← on_store (store_create link);
  if (outcome.1 : bool) then
    on_store (store_invalidateCache (slug link));;
    view ← toView link;
    mret (success view)
  else
    mret (mkResult None
      (if bool_decide (err_code outcome.2 = AppErrorCode.none)
       then mkAppError AppErrorCode.slug_conflict "slug already in use"
       else outcome.2)).

Definition CreateLink (command : CreateLinkCommand) : ST (Env * St) (Result LinkView) :=
  match normalizeTargetUrl (cl_target_url command) config with
  | None => mret (failure AppErrorCode.invalid_url "url must be an absolute http/https URL")
  | Some normalized_url =>
      chosen ← chooseSlug command;
      match ok chosen, res_value chosen with
      | true, Some new_slug =>
          if is_present (cl_expires_at command)
             && negb (is_present (cl_expires_at command ≫= parseRfc3339Zulu))
          then mret (failure AppErrorCode.invalid_field "expires_at must be RFC3339 UTC")
          else
            expiry ← chosen_expiry command;
            match validateTags (cl_tags command) with
            | None => mret (failure AppErrorCode.invalid_field "tags violate constraints")
            | Some new_tags =>
                if negb (validateMetadata (cl_metadata command))
                then mret (failure AppErrorCode.invalid_field "metadata must be flat object with limits")
                else if negb (validateCampaign (cl_campaign command))
                then mret (failure AppErrorCode.invalid_field "campaign must be valid object")
                else
                  new_id ← on_env generateId;
                  now ← on_env currentTimestamp;
                  let link := mkLink new_id new_slug normalized_url now now expiry None
                    (default true (cl_enabled command)) new_tags (cl_metadata command)
                    (cl_campaign command) empty_stats (chosen_redirect_type command) in
                  insert_link link
            end
      | _, _ => mret (mkResult None (res_error chosen))
      end
  end.

Definition lookup_link (query : GetLinkBy) : ST (Env * St) (option Link) :=
  match query with
  | by_link_id v => on_store (store_findById v)
  | by_slug v => on_store (store_findBySlug v)
  end.

Definition GetLink (query : GetLinkBy) : ST (Env * St) (Result LinkView) :=
  found ← lookup_link query;
  match found with
  | None => mret (failure AppErrorCode.not_found "Link not found")
  | Some link => view ← toView link; mret (success view)
  end.

Definition PreviewLink (query : GetLinkBy) : ST (Env * St) (Result LinkView) :=
  found ← lookup_link query;
  match found with
  | None => mret (failure AppErrorCode.not_found "Link not found")
  | Some link => view ← toView link; mret (success view)
  end.

(** The write-back every mutating command ends with. *)
Definition persist (link : Link) : ST (Env * St) (Result LinkView) :=
  outcome ← on_store (store_update link);
  if (outcome.1 : bool) then (view ← toView link; mret (success view))
  else mret (mkResult None
    (if bool_decide (err_code outcome.2 = AppErrorCode.none)
     then mkAppError AppErrorCode.storage_failure "failed to persist link update"
     else outcome.2)).

(** The field updates of [UpdateLink], in the order of the source; the first
    invalid field aborts. *)
Definition apply_update (command : UpdateLinkCommand) (link : Link) : string + Link :=
  let link := match ul_enabled command with Some b => set_enabled b link | None => link end in
  match
    match ul_expires_at command with
    | None => Some link
    | Some None => Some (set_expires_at None link)
    | Some (Some v) =>
        if is_present (parseRfc3339Zulu v) then Some (set_expires_at (Some v) link) else None
    end
  with
  | None => inl "expires_at must be RFC3339 UTC or null"
  | Some link =>
      match
        match ul_tags command with
        | None => Some link
        | Some t => (fun n => set_tags n link) <$> validateTags t
        end
      with
      | None => inl "tags violate constraints"
      | Some link =>
          match
            match ul_metadata command with
            | None => Some link
            | Some m => if validateMetadata m then Some (set_metadata m link) else None
            end
          with
          | None => inl "metadata must be flat object with string values"
          | Some link =>
              match ul_campaign command with
              | None => inr link
              | Some None => inr (set_campaign None link)
              | Some (Some c) =>
                  if validateCampaign (Some c) then inr (set_campaign (Some c) link)
                  else inl "campaign fields exceed limits"
              end
          end
      end
  end.

Definition UpdateLink (command : UpdateLinkCommand) : ST (Env * St) (Result LinkView) :=
  found ← on_store (store_findBySlug (ul_slug command));
  match found with
  | None => mret (failure AppErrorCode.not_found "Link not found")
  | Some link =>
      match apply_update command link with
      | inl detail => mret (failure AppErrorCode.invalid_field detail)
      | inr link => now ← on_env currentTimestamp; persist (set_updated_at now link)
      end
  end.

Definition DeleteLink (s : str) : ST (Env * St) (Result LinkView) :=
  found ← on_store (store_findBySlug s);
  match found with
  | None => mret (failure AppErrorCode.not_found "Link not found")
  | Some link =>
      now ← on_env currentTimestamp;
      persist (set_updated_at now (set_deleted_at (Some now) link))
  end.

Definition SetLinkEnabled (s : str) (value : bool) : ST (Env * St) (Result LinkView) :=
  found ← on_store (store_findBySlug s);
  match found with
  | None => mret (failure AppErrorCode.not_found "Link not found")
  | Some link =>
      now ← on_env currentTimestamp;
      persist (set_updated_at now (set_enabled value link))
  end.

Definition RestoreLink (s : str) : ST (Env * St) (Result LinkView) :=
  found ← on_store (store_findBySlug s);
  match found with
  | None => mret (failure AppErrorCode.not_found "Link not found")
  | Some link =>
      now ← on_env currentTimestamp;
      persist (set_updated_at now (set_deleted_at None link))
  end.
End service.

(** Conversion never needs to look inside the functions the commands call. *)
#[local] Opaque validateTags validateMetadata validateCampaign normalizeTargetUrl parseRfc3339Zulu
  generateSlug generateId isValidSlug isReservedSlug.

(** ** Running the commands *)
Lemma on_env_eq {St A} (m : ST Env A) (w : Env * St) :
  on_env m w = ((m w.1).1, ((m w.1).2, w.2)).
Proof. unfold on_env. by destruct (m w.1). Qed.

Lemma on_store_eq {St A} (m : ST St A) (w : Env * St) :
  on_store m w = ((m w.2).1, (w.1, (m w.2).2)).
Proof. unfold on_store. by destruct (m w.2). Qed.

Lemma on_env_bind {St A B} (m : ST Env A) (k : A → ST (Env * St) B) e (st : St) :
  (on_env m ≫= k) (e, st) = k (m e).1 ((m e).2, st).
Proof. by rewrite ST_bind_eq, on_env_eq. Qed.

(** Evaluates the binds at the head of a command. *)
Ltac st_step :=
  repeat first [ rewrite ST_bind_eq | rewrite on_env_eq | rewrite on_store_eq | rewrite ST_ret_eq ];
  cbn [fst snd].

Section service_lemmas.
Context {St : Type} `{LinkStoreSpec St} (config : ServerConfig).
Implicit Types (w : Env * St) (l link : Link).

Lemma toView_eq link w :
  toView config link w
  = (view_of config link (link_status_at (clock w.1 (ticks w.1)) link),
     ((resolveLinkStatus link w.1).2, w.2)).
Proof. unfold toView. st_step. by rewrite resolveLinkStatus_at. Qed.

(** Writing back a link that is stored under the same slug and id succeeds
    and changes that entry only. *)
Lemma persist_spec l old w :
  store_ok w.2 → links w.2 !! slug l = Some old → id old = id l →
  (persist config l w).1 = success (view_of config l (link_status_at (clock w.1 (ticks w.1)) l)) ∧
  store_ok (persist config l w).2.2 ∧
  links (persist config l w).2.2 = <[slug l := l]> (links w.2).
Proof.
  intros Hok Hl Hid. destruct (update_spec _ _ _ Hok Hl Hid) as (Hu & Hok' & Hlinks).
  unfold persist. st_step. rewrite Hu. st_step. by rewrite toView_eq.
Qed.

(** The shape of every mutating command: load a link by slug, change it or
    reject the change, stamp it and write it back. *)
Definition load_modify_store (s : str) (f : Link → string + Link) (g : str → Link → Link)
    : ST (Env * St) (Result LinkView) :=
  found ← on_store (store_findBySlug s);
  match found with
  | None => mret (failure AppErrorCode.not_found "Link not found")
  | Some link =>
      match f link with
      | inl detail => mret (failure AppErrorCode.invalid_field detail)
      | inr link => now ← on_env currentTimestamp; persist config (g now link)
      end
  end.

(** What such a command does to the table and what it answers. *)
Definition modify_outcome (s : str) (f : Link → string + Link) (g : str → Link → Link)
    (w : Env * St) (r : Result LinkView * (Env * St)) : Prop :=
  store_ok r.2.2 ∧
  match links w.2 !! s with
  | None => r.1 = failure AppErrorCode.not_found "Link not found" ∧ links r.2.2 = links w.2
  | Some l =>
      match f l with
      | inl detail => r.1 = failure AppErrorCode.invalid_field detail ∧ links r.2.2 = links w.2
      | inr l' =>
          let l'' := g (formatTimestamp (clock w.1 (ticks w.1))) l' in
          links r.2.2 = <[s := l'']> (links w.2) ∧
          r.1 = success (view_of config l'' (link_status_at (clock w.1 (S (ticks w.1))) l''))
      end
  end.

Lemma load_modify_store_spec s f g w :
  store_ok w.2 →
  (∀ l l', f l = inr l' → slug l' = slug l ∧ id l' = id l) →
  (∀ now l, slug (g now l) = slug l ∧ id (g now l) = id l) →
  modify_outcome s f g w (load_modify_store s f g w).
Proof.
  intros Hok Hf Hg. destruct (findBySlug_spec _ s Hok) as (Hr & Hok1 & Hl1).
  unfold load_modify_store, modify_outcome. st_step. rewrite Hr.
  destruct (links w.2 !! s) as [l|] eqn:El; st_step; [|done].
  destruct (f l) as [d|l'] eqn:Ef; st_step; [done|].
  assert (Hsl : slug l = s) by (by eapply (tw_slug _ (links_wf _ Hok))).
  destruct (Hf _ _ Ef) as [Hfs Hfi].
  destruct (Hg (formatTimestamp (clock w.1 (ticks w.1))) l') as [Hgs Hgi].
  unfold currentTimestamp. st_step. set (l'' := g _ l') in *.
  edestruct (persist_spec l'' l ((system_now w.1).2, (store_findBySlug s w.2).2)) as (Hv & Hok2 & Hl2);
    [done|simpl; by rewrite Hl1, Hgs, Hfs, Hsl|congruence|].
  cbn [fst snd] in Hl2 |- *. rewrite Hl2, Hl1, Hgs, Hfs, Hsl. by rewrite Hv.
Qed.
End service_lemmas.

(** ** Choosing a slug *)
Section create_lemmas.
Context {St : Type} `{LinkStoreSpec St} (config : ServerConfig).
Implicit Types (w : Env * St).

(** The candidate drawn in round [k] of the generation loop. *)
Fixpoint env_after (k : nat) (e : Env) : Env :=
  match k with
  | O => e
  | S k' => env_after k' (generateSlug (shortener_generated_slug_length config) e).2
  end.
Definition candidate (k : nat) (e : Env) : str :=
  (generateSlug (shortener_generated_slug_length config) (env_after k e)).1.

(** A candidate is usable when it is neither stored nor reserved. *)
Definition usable (st : St) (c : str) : bool :=
  negb (bool_decide (is_Some (links st !! c))) && negb (isReservedSlug c).

(** The loop returns the first usable candidate of its [n] rounds, or fails
    with an internal error when there is none; the store is unchanged. *)
Lemma generate_free_slug_spec n w :
  store_ok w.2 →
  (generate_free_slug config n w).2.2 = w.2 ∧
  ((∃ k, k < n ∧ usable w.2 (candidate k w.1) = true ∧
         (∀ j, j < k → usable w.2 (candidate j w.1) = false) ∧
         (generate_free_slug config n w).1 = success (candidate k w.1)) ∨
   ((∀ j, j < n → usable w.2 (candidate j w.1) = false) ∧
    (generate_free_slug config n w).1
      = failure AppErrorCode.internal "unable to generate a unique slug")).
Proof.
  revert w. induction n as [|n IH]; intros w Hok; cbn [generate_free_slug].
  { split; [done|]. right. split; [lia|done]. }
  st_step. rewrite slugExists_spec by done. cbn [fst snd].
  fold (usable w.2 (generateSlug (shortener_generated_slug_length config) w.1).1).
  destruct (usable w.2 _) eqn:Eu; st_step.
  - split; [done|]. left. exists 0. split_and!; [lia|done|lia|done].
  - set (w' := ((generateSlug (shortener_generated_slug_length config) w.1).2, w.2)).
    destruct (IH w' Hok) as (Hst & [(k & Hk & Huk & Hj & Hr)|(Hj & Hr)]); (split; [done|]).
    + left. exists (S k). split_and!; [lia|done| |done].
      intros [|j] Hlt; [done|]. apply (Hj j). lia.
    + right. split; [|done]. intros [|j] Hlt; [done|]. apply (Hj j). lia.
Qed.

Lemma chooseSlug_spec command w :
  store_ok w.2 →
  (chooseSlug config command w).2.2 = w.2 ∧
  ((∃ s, (chooseSlug config command w).1 = success s ∧ usable w.2 s = true ∧
      match cl_slug command with
      | Some s' => s = s' ∧ isValidSlug s = true
      | None => ∃ k, k < 10 ∧ s = candidate k w.1
      end) ∨
   (res_value (chooseSlug config command w).1 = None ∧ ok (chooseSlug config command w).1 = false)).
Proof.
  intros Hok. unfold chooseSlug. destruct (cl_slug command) as [s|].
  - destruct (isValidSlug s) eqn:Ev; [|simpl; auto]. cbn [negb].
    destruct (isReservedSlug s) eqn:Er; [simpl; auto|]. st_step. rewrite slugExists_spec by done. cbn [fst snd].
    destruct (bool_decide _) eqn:Ed; st_step; [simpl; auto|]. split; [done|]. left. exists s.
    unfold usable. by rewrite Ed, Er.
  - destruct (generate_free_slug_spec 10 w Hok) as (Hst & [(k & Hk & Hu & _ & Hr)|(_ & Hr)]); (split; [done|]).
    + left. exists (candidate k w.1). rewrite Hr. eauto.
    + right. by rewrite Hr.
Qed.

(** The expiry of a new link: the one given, else the configured default
    counted from a clock reading, else none. *)
Definition expiry_chosen (command : CreateLinkCommand) (expiry : option str) : Prop :=
  match cl_expires_at command, shortener_default_expiry_seconds config with
  | Some v, _ => expiry = Some v
  | None, Some secs => ∃ now, expiry = Some (formatTimestamp (now + secs * ticks_per_second))
  | None, None => expiry = None
  end.

(** What a successful creation stores. *)
Definition created_link (command : CreateLinkCommand) (t : gmap str Link) (l : Link) : Prop :=
  normalizeTargetUrl (cl_target_url command) config = Some (target_url l) ∧
  fresh_in t l ∧ isReservedSlug (slug l) = false ∧
  (∀ s, cl_slug command = Some s → slug l = s ∧ isValidSlug s = true) ∧
  (cl_slug command = None →
     length (slug l) = shortener_generated_slug_length config ∧
     Forall (fun c => is_alnum c = true) (slug l)) ∧
  validateTags (cl_tags command) = Some (tags l) ∧
  metadata l = cl_metadata command ∧ validateMetadata (metadata l) = true ∧
  campaign l = cl_campaign command ∧ validateCampaign (campaign l) = true ∧
  expiry_chosen command (expires_at l) ∧
  (∀ v, cl_expires_at command = Some v → is_Some (parseRfc3339Zulu v)) ∧
  deleted_at l = None ∧ enabled l = default true (cl_enabled command) ∧
  redirect_type l = chosen_redirect_type config command ∧
  stats l = empty_stats ∧ updated_at l = created_at l.

Lemma chosen_expiry_spec command w :
  (chosen_expiry config command w).2.2 = w.2 ∧ expiry_chosen command (chosen_expiry config command w).1.
Proof.
  unfold chosen_expiry, expiry_chosen. destruct (cl_expires_at command); [done|].
  destruct (shortener_default_expiry_seconds config); [|done]. by st_step; eauto.
Qed.

(** A command either succeeded on a new link or failed without effect. *)
Definition create_outcome (command : CreateLinkCommand) (w : Env * St)
    (r : Result LinkView * (Env * St)) : Prop :=
  store_ok r.2.2 ∧
  ((∃ l status, created_link command (links w.2) l ∧ links r.2.2 = <[slug l := l]> (links w.2) ∧
      r.1 = success (view_of config l status)) ∨
   (ok r.1 = false ∧ res_value r.1 = None ∧ links r.2.2 = links w.2)).

Lemma create_failed command w (code : AppErrorCode.t) detail e :
  store_ok w.2 → code ≠ AppErrorCode.none →
  create_outcome command w (mkResult None (mkAppError code detail), (e, w.2)).
Proof.
  intros Hok Hc. split; [done|]. right. split_and!; [|done|done].
  unfold ok. simpl. by apply bool_decide_eq_false_2.
Qed.

(** The tail of [CreateLink]: the insertion of the assembled link. *)
Lemma create_insert_spec command w e l :
  store_ok w.2 → (fresh_in (links w.2) l → created_link command (links w.2) l) →
  create_outcome command w (insert_link config l (e, w.2)).
Proof.
  intros Hok Hl. destruct (create_spec _ l Hok) as [Hok' Hcase]. unfold insert_link. st_step.
  destruct (decide (fresh_in (links w.2) l)) as [Hfresh|].
  - destruct Hcase as [Hc Hlinks]. rewrite Hc. st_step. rewrite toView_eq. cbn [fst snd].
    destruct (invalidate_spec _ (slug l) Hok') as [Hok2 Hlinks2].
    split; [done|]. left. eexists l, _. split_and!; [auto|by rewrite <- Hlinks|done].
  - destruct Hcase as (Hc & Hlinks & He). rewrite Hc. st_step. rewrite He. simpl. split; [done|].
    by right.
Qed.

Lemma generated_slug_chars k e :
  length (candidate k e) = shortener_generated_slug_length config ∧
  Forall (fun c => is_alnum c = true) (candidate k e).
Proof. apply generateSlug_spec. Qed.

(** The link [CreateLink] assembles once every check has passed. *)
Lemma assembled_link_ok command e t i s url now expiry ts :
  normalizeTargetUrl (cl_target_url command) config = Some url →
  isReservedSlug s = false →
  match cl_slug command with
  | Some s' => s = s' ∧ isValidSlug s = true
  | None => ∃ k, k < 10 ∧ s = candidate k e
  end →
  is_present (cl_expires_at command) && negb (is_present (cl_expires_at command ≫= parseRfc3339Zulu)) = false →
  expiry_chosen command expiry →
  validateTags (cl_tags command) = Some ts →
  validateMetadata (cl_metadata command) = true →
  validateCampaign (cl_campaign command) = true →
  let l := mkLink i s url now now expiry None (default true (cl_enabled command)) ts
    (cl_metadata command) (cl_campaign command) empty_stats (chosen_redirect_type config command) in
  fresh_in t l → created_link command t l.
Proof.
  intros Hurl Hr Hs Hx Hexp Ht Hm Hc l Hfresh. split_and!; try done.
  - intros s' Hs'. rewrite Hs' in Hs. destruct Hs as [-> ?]. auto.
  - intros Hn. rewrite Hn in Hs. destruct Hs as (k & _ & ->). apply generated_slug_chars.
  - intros v Hv. rewrite Hv in Hx. cbn [mbind option_bind] in Hx.
    destruct (parseRfc3339Zulu v); [eauto|done].
Qed.

Lemma CreateLink_spec command w :
  store_ok w.2 → create_outcome command w (CreateLink config command w).
Proof.
  intros Hok. unfold CreateLink.
  destruct (normalizeTargetUrl _ config) as [url|] eqn:Eurl; [|by destruct w; apply create_failed].
  rewrite ST_bind_eq. destruct (chooseSlug_spec command w Hok) as (Hst & Hcase).
  destruct (chooseSlug config command w) as [chosen [e1 st1]]. cbn [fst snd] in Hst, Hcase |- *. subst st1.
  destruct Hcase as [(s & -> & Hu & Hs)|(Hv & Ho)].
  2: { rewrite Ho. destruct chosen as [v [code detail]]. apply create_failed; [done|].
       unfold ok in Ho. by apply bool_decide_eq_false in Ho. }
  change (ok (success s)) with true. cbn [res_value success]. destruct (is_present (cl_expires_at command) && _) eqn:Ex;
    [by apply create_failed|].
  rewrite ST_bind_eq. destruct (chosen_expiry_spec command (e1, w.2)) as [Hst Hexp].
  destruct (chosen_expiry config command (e1, w.2)) as [expiry [e2 st2]]. cbn [fst snd] in Hst, Hexp |- *. subst st2.
  destruct (validateTags (cl_tags command)) as [ts|] eqn:Et; [|by apply create_failed].
  destruct (validateMetadata (cl_metadata command)) eqn:Em; [|by apply create_failed].
  destruct (validateCampaign (cl_campaign command)) eqn:Ec; [|by apply create_failed]. cbn [negb].
  rewrite !on_env_bind.
  apply create_insert_spec; [done|]. apply assembled_link_ok with w.1; try done.
  unfold usable in Hu. by bool_simpl.
Qed.
End create_lemmas.
