(* ===== verification/LinkLifecycle.v ===== *)
(** * LinkLifecycle: what sequences of link commands do

    The theorems about [LinkCommandService] (src/app/link_command_service.cpp)
    proved against the store contract: the outcome of each command on the
    abstract table of links, the invariant of every reachable table, the
    stability of a link's identity, and the independence of the answers from
    the store behind the port. *)
From stdpp Require Import relations.
From S2P Require Import Prelude Text Env Clock Types Url Validation LinkRepository LinkStore LinkCommands.

#[local] Opaque validateTags validateMetadata validateCampaign normalizeTargetUrl parseRfc3339Zulu.

(** ** The commands as data *)
Inductive Command :=
  | CCreate (c : CreateLinkCommand)
  | CGet (q : GetLinkBy)
  | CPreview (q : GetLinkBy)
  | CUpdate (c : UpdateLinkCommand)
  | CDelete (s : str)
  | CSetEnabled (s : str) (b : bool)
  | CRestore (s : str).

Definition run_command {St} `{ILinkStore St} (config : ServerConfig) (c : Command)
    : ST (Env * St) (Result LinkView) :=
  match c with
  | CCreate c => CreateLink config c
  | CGet q => GetLink config q
  | CPreview q => PreviewLink config q
  | CUpdate c => UpdateLink config c
  | CDelete s => DeleteLink config s
  | CSetEnabled s b => SetLinkEnabled config s b
  | CRestore s => RestoreLink config s
  end.

Fixpoint run_commands {St} `{ILinkStore St} (config : ServerConfig) (cs : list Command)
    : ST (Env * St) (list (Result LinkView)) :=
  match cs with
  | [] => mret []
  | c :: cs =>
      r ← run_command config c;
      rs ← run_commands config cs;
      mret (r :: rs)
  end.

(** ** What an update leaves alone *)
Lemma apply_update_frame command l l' :
  apply_update command l = inr l' →
  id l' = id l ∧ slug l' = slug l ∧ target_url l' = target_url l ∧ created_at l' = created_at l ∧
  deleted_at l' = deleted_at l ∧ stats l' = stats l ∧ redirect_type l' = redirect_type l ∧
  enabled l' = default (enabled l) (ul_enabled command) ∧
  expires_at l' = default (expires_at l) (ul_expires_at command) ∧
  metadata l' = default (metadata l) (ul_metadata command) ∧
  campaign l' = default (campaign l) (ul_campaign command) ∧
  match ul_tags command with
  | None => tags l' = tags l
  | Some t => validateTags t = Some (tags l')
  end ∧
  (∀ v, ul_expires_at command = Some (Some v) → is_Some (parseRfc3339Zulu v)) ∧
  (∀ m, ul_metadata command = Some m → validateMetadata m = true) ∧
  (∀ c, ul_campaign command = Some c → validateCampaign c = true).
Proof.
  unfold apply_update. destruct l, command as [s b x t m c]; simpl.
  destruct b; destruct x as [[x|]|]; try (destruct (parseRfc3339Zulu x) eqn:?); simpl;
    try done; destruct t as [t|]; try (destruct (validateTags t) eqn:?); simpl;
    try done; destruct m as [m|]; try (destruct (validateMetadata m) eqn:?); simpl;
    try done; destruct c as [[c|]|]; simpl; try case_match; intros; simplify_eq/=;
    split_and!; intros; simplify_eq; eauto.
Qed.

(** A patch is invalid when one of the fields it carries is. *)
Definition patch_invalid (command : UpdateLinkCommand) : Prop :=
  (∃ v, ul_expires_at command = Some (Some v) ∧ parseRfc3339Zulu v = None) ∨
  (∃ t, ul_tags command = Some t ∧ validateTags t = None) ∨
  (∃ m, ul_metadata command = Some m ∧ validateMetadata m = false) ∨
  (∃ c, ul_campaign command = Some (Some c) ∧ validateCampaign (Some c) = false).

Lemma apply_update_invalid command l d : apply_update command l = inl d → patch_invalid command.
Proof.
  unfold apply_update, patch_invalid. destruct command as [s b x t m c]; simpl.
  destruct x as [[x|]|]; try (destruct (parseRfc3339Zulu x) eqn:?); simpl; [| eauto 6 | |];
    (destruct t as [t|]; [destruct (validateTags t) eqn:?; simpl; [|eauto 7]|];
    (destruct m as [m|]; [destruct (validateMetadata m) eqn:?; simpl; [|eauto 8]|];
    (destruct c as [[c|]|]; [destruct (validateCampaign (Some c)) eqn:?; [done|eauto 9]|done|done]))).
Qed.

Lemma apply_update_valid command l l' : apply_update command l = inr l' → ¬ patch_invalid command.
Proof.
  intros (_ & _ & _ & _ & _ & _ & _ & _ & _ & _ & _ & Ht & Hx & Hm & Hc)%apply_update_frame.
  intros [(v & Hv & Hp)|[(t & Et & Hp)|[(m & Em & Hp)|(c & Ec & Hp)]]].
  - apply Hx in Hv. rewrite Hp in Hv. by destruct Hv.
  - rewrite Et in Ht. congruence.
  - apply Hm in Em. congruence.
  - apply Hc in Ec. congruence.
Qed.

(** ** The mutating commands on the table *)
Section commands.
Context {St : Type} `{LinkStoreSpec St} (config : ServerConfig).
Implicit Types (w : Env * St).

Lemma UpdateLink_outcome command w :
  store_ok w.2 →
  modify_outcome config (ul_slug command) (apply_update command) set_updated_at w (UpdateLink config command w).
Proof.
  intros Hok. apply (load_modify_store_spec config (ul_slug command) (apply_update command) set_updated_at); [done| |done].
  intros l l' Hf. apply apply_update_frame in Hf. naive_solver.
Qed.

Definition stamp_deleted (now : str) (l : Link) : Link := set_updated_at now (set_deleted_at (Some now) l).
Definition stamp_enabled (b : bool) (now : str) (l : Link) : Link := set_updated_at now (set_enabled b l).
Definition stamp_restored (now : str) (l : Link) : Link := set_updated_at now (set_deleted_at None l).

Lemma DeleteLink_outcome s w :
  store_ok w.2 → modify_outcome config s inr stamp_deleted w (DeleteLink config s w).
Proof. intros Hok. apply (load_modify_store_spec config s inr stamp_deleted); [done| |done]. by intros l l' [= ->]. Qed.

Lemma SetLinkEnabled_outcome s b w :
  store_ok w.2 → modify_outcome config s inr (stamp_enabled b) w (SetLinkEnabled config s b w).
Proof. intros Hok. apply (load_modify_store_spec config s inr (stamp_enabled b)); [done| |done]. by intros l l' [= ->]. Qed.

Lemma RestoreLink_outcome s w :
  store_ok w.2 → modify_outcome config s inr stamp_restored w (RestoreLink config s w).
Proof. intros Hok. apply (load_modify_store_spec config s inr stamp_restored); [done| |done]. by intros l l' [= ->]. Qed.

(** Looking a link up never changes the table. *)
Lemma lookup_link_spec q w :
  store_ok w.2 →
  (lookup_link q w).2.1 = w.1 ∧ store_ok (lookup_link q w).2.2 ∧ links (lookup_link q w).2.2 = links w.2 ∧
  match q with
  | by_slug s => (lookup_link q w).1 = links w.2 !! s
  | by_link_id i => ∀ l, (lookup_link q w).1 = Some l ↔ links w.2 !! slug l = Some l ∧ id l = i
  end.
Proof.
  intros Hok. unfold lookup_link. destruct q as [s|i]; st_step.
  - destruct (findBySlug_spec _ s Hok) as (Hr & Hok' & Hl). done.
  - destruct (findById_spec _ i Hok) as (Hr & Hok' & Hl). done.
Qed.

(** C9: [CreateLink] either stores exactly one new link, assembled from the
    validated fields of the command under a fresh slug and id, and answers with
    its view, or answers an error and stores nothing. *)
Theorem CreateLink_all_or_nothing command w :
  store_ok w.2 →
  let r := CreateLink config command w in
  store_ok r.2.2 ∧
  ((∃ l status, created_link config command (links w.2) l ∧
      links r.2.2 = <[slug l := l]> (links w.2) ∧ r.1 = success (view_of config l status)) ∨
   (ok r.1 = false ∧ res_value r.1 = None ∧ links r.2.2 = links w.2)).
Proof. apply CreateLink_spec. Qed.

Lemma insert_link_ok l e st :
  store_ok st → ok (insert_link config l (e, st)).1 = bool_decide (fresh_in (links st) l).
Proof.
  intros Hok. destruct (create_spec _ l Hok) as [Hok' Hcase]. unfold insert_link. st_step.
  destruct (decide (fresh_in (links st) l)) as [Hf|Hf].
  - destruct Hcase as [-> _]. rewrite bool_decide_eq_true_2 by done. st_step. by rewrite toView_eq.
  - destruct Hcase as (-> & _ & ->). by rewrite (bool_decide_eq_false_2 (fresh_in _ _)).
Qed.

Lemma chooseSlug_custom command w s :
  store_ok w.2 → cl_slug command = Some s →
  chooseSlug config command w =
    (if negb (isValidSlug s) then failure AppErrorCode.invalid_slug "slug format is invalid"
     else if isReservedSlug s then failure AppErrorCode.reserved_slug "slug is reserved"
     else if bool_decide (is_Some (links w.2 !! s))
     then failure AppErrorCode.slug_conflict "slug already in use" else success s, w).
Proof.
  intros Hok Hs. unfold chooseSlug. rewrite Hs. destruct (isValidSlug s); [|done].
  destruct (isReservedSlug s); [done|]. cbn [negb]. st_step. rewrite slugExists_spec by done. destruct w as [e st].
  cbn [fst snd]. by destruct (bool_decide _).
Qed.

(** C10: creation under a chosen slug succeeds exactly when the target
    normalises, the slug is well-formed, not reserved and not stored, a given
    expiry parses, tags, metadata and campaign are within their limits, and the
    drawn id is not in use. *)
Theorem CreateLink_succeeds_iff command w s :
  store_ok w.2 → cl_slug command = Some s →
  (ok (CreateLink config command w).1 = true ↔
   is_Some (normalizeTargetUrl (cl_target_url command) config) ∧
   isValidSlug s = true ∧ isReservedSlug s = false ∧ links w.2 !! s = None ∧
   (∀ v, cl_expires_at command = Some v → is_Some (parseRfc3339Zulu v)) ∧
   is_Some (validateTags (cl_tags command)) ∧
   validateMetadata (cl_metadata command) = true ∧ validateCampaign (cl_campaign command) = true ∧
   map_Forall (fun _ l => id l ≠ (generateId (chosen_expiry config command w).2.1).1) (links w.2)).
Proof.
  intros Hok Hs. unfold CreateLink.
  destruct (normalizeTargetUrl _ config) as [url|]; [|by split; [|intros [[] _]]].
  rewrite ST_bind_eq, (chooseSlug_custom command w s Hok Hs). cbn [fst snd].
  destruct (isValidSlug s); [|by split; [|intros (_ & ? & _)]].
  destruct (isReservedSlug s); [by split; [|intros (_ & _ & ? & _)]|]. cbn [negb].
  destruct (links w.2 !! s) as [l0|] eqn:El.
  { rewrite (bool_decide_eq_true_2 (is_Some (Some l0))) by eauto.
    split; [done|]. by intros (_ & _ & _ & ? & _). }
  rewrite (bool_decide_eq_false_2 (is_Some (@None Link))) by apply is_Some_None.
  rewrite (eq_refl : ok (success s) = true). cbn [res_value success].
  destruct (is_present (cl_expires_at command) && _) eqn:Ex.
  { split; [done|]. intros (_ & _ & _ & _ & Hx & _). destruct (cl_expires_at command) as [v|]; [|done].
    destruct (Hx v eq_refl) as [t Ht]. cbn [mbind option_bind] in Ex. by rewrite Ht in Ex. }
  rewrite ST_bind_eq. destruct (chosen_expiry_spec config command w) as [Hst _].
  destruct (chosen_expiry config command w) as [expiry [e2 st2]]. cbn [fst snd] in Hst |- *. subst st2.
  destruct (validateTags (cl_tags command)) as [ts|]; [|by split; [|intros (_ & _ & _ & _ & _ & [] & _)]].
  destruct (validateMetadata (cl_metadata command)); [|by split; [|intros (_ & _ & _ & _ & _ & _ & ? & _)]].
  destruct (validateCampaign (cl_campaign command)); [|by split; [|intros (_ & _ & _ & _ & _ & _ & _ & ? & _)]].
  cbn [negb].
  rewrite !on_env_bind, insert_link_ok, bool_decide_eq_true by done. unfold fresh_in. cbn [slug id].
  split; [|by intros (_ & _ & _ & _ & _ & _ & _ & _ & ?)]. intros [_ Hid]. split_and!; try (done || by eexists).
  intros v Hv. rewrite Hv in Ex. cbn [mbind option_bind] in Ex. destruct (parseRfc3339Zulu v); [by eexists|done].
Qed.

(** Without a slug in the command, [CreateLink] draws at most ten
    candidates and takes the first one that is neither stored nor reserved; only
    when all ten are unusable does it give up, with an internal error and the
    store untouched. *)
Theorem chooseSlug_takes_first_usable command w :
  store_ok w.2 → cl_slug command = None →
  let r := chooseSlug config command w in
  r.2.2 = w.2 ∧
  ((∃ k, k < 10 ∧ usable w.2 (candidate config k w.1) = true ∧
      (∀ j, j < k → usable w.2 (candidate config j w.1) = false) ∧
      r.1 = success (candidate config k w.1)) ∨
   ((∀ j, j < 10 → usable w.2 (candidate config j w.1) = false) ∧
    r.1 = failure AppErrorCode.internal "unable to generate a unique slug")).
Proof.
  intros Hok Hn. unfold chooseSlug. rewrite Hn. by apply (generate_free_slug_spec config 10 w).
Qed.

(** C11: a PATCH of a stored link is rejected as [invalid_field] when a field it
    carries is invalid (an expiry that does not parse, tags, metadata or a campaign
    outside their limits), and then changes nothing. Otherwise, and only then, it
    succeeds and replaces exactly the fields it carries: identity, target, redirect
    type, deletion mark and counters are kept, absent fields are kept, an explicit
    null clears, tags are stored normalised, no other link changes, and the answer
    shows the new link. *)
Theorem UpdateLink_patch_semantics command w l :
  store_ok w.2 → links w.2 !! ul_slug command = Some l →
  let r := UpdateLink config command w in
  store_ok r.2.2 ∧
  ((∃ l', ¬ patch_invalid command ∧
      links r.2.2 = <[ul_slug command := l']> (links w.2) ∧ ok r.1 = true ∧
      (∃ status, res_value r.1 = Some (view_of config l' status)) ∧
      updated_at l' = formatTimestamp (clock w.1 (ticks w.1)) ∧
      id l' = id l ∧ slug l' = slug l ∧ target_url l' = target_url l ∧
      created_at l' = created_at l ∧ deleted_at l' = deleted_at l ∧
      stats l' = stats l ∧ redirect_type l' = redirect_type l ∧
      enabled l' = default (enabled l) (ul_enabled command) ∧
      expires_at l' = default (expires_at l) (ul_expires_at command) ∧
      metadata l' = default (metadata l) (ul_metadata command) ∧
      campaign l' = default (campaign l) (ul_campaign command) ∧
      match ul_tags command with
      | None => tags l' = tags l
      | Some t => validateTags t = Some (tags l')
      end) ∨
   (err_code (res_error r.1) = AppErrorCode.invalid_field ∧ patch_invalid command ∧
    links r.2.2 = links w.2)).
Proof.
  intros Hok Hl r. destruct (UpdateLink_outcome command w Hok) as [Hok' Hcase]. split; [done|].
  rewrite Hl in Hcase. destruct (apply_update command l) as [d|l'] eqn:Eu.
  - right. destruct Hcase as [Hr Hlinks]. subst r. rewrite Hr. split_and!; [done| |done].
    by eapply apply_update_invalid.
  - left. destruct Hcase as [Hlinks Hr]. eexists. split; [by eapply apply_update_valid|]. split; [exact Hlinks|].
    subst r. rewrite Hr. split; [done|]. split; [by eexists|]. apply apply_update_frame in Eu. simpl. naive_solver.
Qed.

(** Deletion is soft and reversible: deleting a live link marks it
    deleted in place and shows it as deleted; restoring it then gives back the
    link it was, but for the time of the last update. No other link changes. *)
Theorem delete_then_restore s w l :
  store_ok w.2 → links w.2 !! s = Some l → deleted_at l = None →
  let r1 := DeleteLink config s w in
  let r2 := RestoreLink config s r1.2 in
  let now1 := formatTimestamp (clock w.1 (ticks w.1)) in
  ok r1.1 = true ∧ lv_status <$> res_value r1.1 = Some deleted ∧
  links r1.2.2 = <[s := set_updated_at now1 (set_deleted_at (Some now1) l)]> (links w.2) ∧
  ok r2.1 = true ∧
  ∃ now2, links r2.2.2 = <[s := set_updated_at now2 l]> (links w.2).
Proof.
  intros Hok Hl Hd r1 r2 now1. destruct (DeleteLink_outcome s w Hok) as [Hok1 H1].
  rewrite Hl in H1. destruct H1 as [Hl1 Hr1]. fold now1 r1 in Hok1, Hl1, Hr1.
  destruct (RestoreLink_outcome s r1.2 Hok1) as [Hok2 H2]. rewrite Hl1, lookup_insert_eq in H2.
  destruct H2 as [Hl2 Hr2]. fold r2 in Hok2, Hl2, Hr2. rewrite Hr1, Hr2. split_and!; try done.
  eexists. rewrite Hl2, insert_insert_eq. f_equal. unfold stamp_deleted, stamp_restored.
  destruct l; simpl in *; by rewrite Hd.
Qed.

(** A slug is never reused: once its link is deleted, creating another
    link under the same slug is refused as a conflict and changes nothing. *)
Theorem deleted_slug_stays_taken s w l command :
  store_ok w.2 → links w.2 !! s = Some l →
  cl_slug command = Some s → isValidSlug s = true → isReservedSlug s = false →
  is_Some (normalizeTargetUrl (cl_target_url command) config) →
  let w1 := (DeleteLink config s w).2 in
  let r := CreateLink config command w1 in
  r.1 = failure AppErrorCode.slug_conflict "slug already in use" ∧ r.2 = w1.
Proof.
  intros Hok Hl Hs Hv Hr [url Hurl] w1. destruct (DeleteLink_outcome s w Hok) as [Hok1 H1].
  rewrite Hl in H1. destruct H1 as [Hl1 _]. fold w1 in Hok1, Hl1.
  unfold CreateLink, chooseSlug. rewrite Hurl, Hs, Hv, Hr. cbn [negb].
  rewrite !ST_bind_eq, on_store_eq, slugExists_spec by done.
  rewrite Hl1, lookup_insert_eq, bool_decide_eq_true_2 by eauto. by destruct w1.
Qed.

(** A command that names an absent slug answers [not_found] and leaves the
    table alone. *)
Theorem missing_slug_not_found s w c :
  store_ok w.2 → links w.2 !! s = None →
  c ∈ [CGet (by_slug s); CPreview (by_slug s); CDelete s; CRestore s; CSetEnabled s true; CSetEnabled s false] →
  let r := run_command config c w in
  r.1 = failure AppErrorCode.not_found "Link not found" ∧ store_ok r.2.2 ∧ links r.2.2 = links w.2.
Proof.
  intros Hok Hn Hc.
  pose proof (DeleteLink_outcome s w Hok) as Hd. pose proof (RestoreLink_outcome s w Hok) as Hr.
  pose proof (SetLinkEnabled_outcome s true w Hok) as He1.
  pose proof (SetLinkEnabled_outcome s false w Hok) as He2.
  destruct (lookup_link_spec (by_slug s) w Hok) as (_ & Hok' & Hl' & Hlk).
  unfold modify_outcome in *. rewrite Hn in *.
  rewrite !elem_of_cons, elem_of_nil in Hc. destruct_or?; try done; subst c; simpl; try naive_solver;
    unfold GetLink, PreviewLink; rewrite ST_bind_eq, Hlk; done.
Qed.
End commands.

(** ** Reachable tables *)

(** One command is one step; the environment between commands is part of the
    streams. *)
Inductive command_step {St} `{ILinkStore St} (config : ServerConfig) : relation (Env * St) :=
  | command_step_intro c w : command_step config w (run_command config c w).2.

(** What holds of every stored link. *)
(** The form of a generated slug, whatever length is configured. *)
Definition generated_slug (config : ServerConfig) (s : str) : Prop :=
  length s = shortener_generated_slug_length config ∧ Forall (fun c => is_alnum c = true) s.

Record link_ok (config : ServerConfig) (l : Link) : Prop := {
  lo_target : canonical_target config (target_url l);
  lo_slug : isValidSlug (slug l) = true ∨ generated_slug config (slug l);
  lo_reserved : isReservedSlug (slug l) = false;
  lo_tags : validateTags (tags l) = Some (tags l);
  lo_metadata : validateMetadata (metadata l) = true;
  lo_campaign : validateCampaign (campaign l) = true;
  lo_expiry : ∀ e, shortener_default_expiry_seconds config = None →
    expires_at l = Some e → is_Some (parseRfc3339Zulu e);
}.

(** The fields that no command may change. *)
Definition same_identity (l l' : Link) : Prop :=
  id l' = id l ∧ slug l' = slug l ∧ target_url l' = target_url l ∧ created_at l' = created_at l ∧
  redirect_type l' = redirect_type l ∧ stats l' = stats l.

#[export] Instance same_identity_preorder : PreOrder same_identity.
Proof. unfold same_identity. split; [by intros l|intros l1 l2 l3; intuition congruence]. Qed.

(** Every link of [t] is still in [t'] under its slug, with its identity. *)
Definition table_grows (t t' : gmap str Link) : Prop :=
  ∀ s l, t !! s = Some l → ∃ l', t' !! s = Some l' ∧ same_identity l l'.

#[export] Instance table_grows_preorder : PreOrder table_grows.
Proof.
  split.
  - intros t s l Hl. by exists l.
  - intros t1 t2 t3 H12 H23 s l Hl. destruct (H12 s l Hl) as (l2 & Hl2 & Hi).
    destruct (H23 s l2 Hl2) as (l3 & Hl3 & Hi'). exists l3. split; [done|]. by etrans.
Qed.

Section reachability.
Context {St : Type} `{LinkStoreSpec St} (config : ServerConfig).
Implicit Types (w : Env * St).

(** With a length in the range of valid slugs, generated slugs are valid as well. *)
Lemma link_ok_slug l : 3 ≤ shortener_generated_slug_length config ≤ 64 → link_ok config l → isValidSlug (slug l) = true.
Proof. intros Hn Hl. destruct (lo_slug _ _ Hl) as [?|[Hlen Ha]]; [done|]. apply alnum_valid_slug; [lia|done]. Qed.

Lemma links_ok_slugs (t : gmap str Link) :
  map_Forall (fun _ => link_ok config) t → 3 ≤ shortener_generated_slug_length config ≤ 64 →
  map_Forall (fun _ l => isValidSlug (slug l) = true) t.
Proof. intros Ht Hn s l Hl. by eapply link_ok_slug, Ht. Qed.

Lemma created_link_ok command t l :
  created_link config command t l → link_ok config l.
Proof.
  intros (Hurl & _ & Hr & Hs & Hg & Ht & Hm & Hvm & Hc & Hvc & Hx & Hp & _).
  split; try congruence.
  - by eapply normalizeTargetUrl_canonical.
  - destruct (cl_slug command) as [s|]; [left; by destruct (Hs s) as [-> ?]|right; by apply Hg].
  - by eapply validateTags_fixpoint.
  - intros e Hnone He. unfold expiry_chosen in Hx. rewrite Hnone in Hx.
    destruct (cl_expires_at command); [|congruence]. apply Hp. congruence.
Qed.

(** A step from [w] to [w'] keeps the store consistent, loses no link and
    keeps stored links valid. *)
Definition good_step w w' : Prop :=
  store_ok w'.2 ∧ table_grows (links w.2) (links w'.2) ∧
  (map_Forall (fun _ => link_ok config) (links w.2) → map_Forall (fun _ => link_ok config) (links w'.2)).

Lemma good_step_same w w' : store_ok w'.2 → links w'.2 = links w.2 → good_step w w'.
Proof. intros Hok Hl. unfold good_step. by rewrite Hl. Qed.

Lemma modify_outcome_good s f g w r :
  (∀ l l' now, f l = inr l' →
     same_identity l (g now l') ∧ (link_ok config l → link_ok config (g now l'))) →
  modify_outcome config s f g w r → good_step w r.2.
Proof.
  intros Hfg [Hok Hcase]. destruct (links w.2 !! s) as [l|] eqn:El; [|by destruct Hcase; apply good_step_same].
  destruct (f l) as [d|l'] eqn:Ef; [by destruct Hcase; apply good_step_same|]. destruct Hcase as [Hl _].
  destruct (Hfg _ _ (formatTimestamp (clock w.1 (ticks w.1))) Ef) as [Hid Hlo].
  unfold good_step. rewrite Hl. split_and!; [done| |].
  - intros s' l0 Hs'. rewrite lookup_insert. case_decide; [|by exists l0]. subst s'.
    eexists. split; [done|]. congruence.
  - intros Hall. apply map_Forall_insert_2; [|done]. apply Hlo. by eapply Hall.
Qed.

Lemma stamp_good f :
  (∀ l, same_identity l (f l)) →
  (∀ l, tags (f l) = tags l ∧ metadata (f l) = metadata l ∧ campaign (f l) = campaign l ∧
        expires_at (f l) = expires_at l) →
  ∀ l, same_identity l (f l) ∧ (link_ok config l → link_ok config (f l)).
Proof.
  intros Hi Hf l. split; [done|]. destruct (Hi l) as (_ & Hs & Ht & _).
  destruct (Hf l) as (H1 & H2 & H3 & H4). intros []. split; try congruence. rewrite H4. done.
Qed.

Lemma update_good command l l' now :
  apply_update command l = inr l' →
  same_identity l (set_updated_at now l') ∧ (link_ok config l → link_ok config (set_updated_at now l')).
Proof.
  intros Hu. destruct (apply_update_frame _ _ _ Hu)
    as (Hi & Hs & Ht & Hc & _ & Hst & Hr & _ & Hx & Hm & Hca & Htg & Hxv & Hmv & Hcv).
  split; [by unfold same_identity|]. intros []. split; simpl; try congruence.
  - destruct (ul_tags command); [by eapply validateTags_fixpoint|congruence].
  - rewrite Hm. destruct (ul_metadata command); auto.
  - rewrite Hca. destruct (ul_campaign command); auto.
  - intros e Hn. rewrite Hx. destruct (ul_expires_at command) as [[v|]|]; simpl; [|done|auto].
    intros [= <-]. auto.
Qed.

Lemma create_good command w :
  store_ok w.2 → good_step w (CreateLink config command w).2.
Proof.
  intros Hok. destruct (CreateLink_spec config command w Hok) as [Hok' [(l & st & Hc & Hl & _)|(_ & _ & Hl)]];
    [|by apply good_step_same].
  unfold good_step. rewrite Hl. split_and!; [done| |].
  - intros s l0 Hs. destruct Hc as (_ & [Hf _] & _). rewrite lookup_insert_ne by congruence. by exists l0.
  - intros Hall. apply map_Forall_insert_2; [|done]. by eapply created_link_ok.
Qed.

Lemma read_good q w : store_ok w.2 → good_step w (GetLink config q w).2.
Proof.
  intros Hok. destruct (lookup_link_spec q w Hok) as (He & Hok' & Hl & _).
  unfold GetLink. rewrite ST_bind_eq. destruct (lookup_link q w).1 as [l|]; [|by apply good_step_same].
  rewrite ST_bind_eq, toView_eq. by apply good_step_same.
Qed.

Lemma run_command_good c w : store_ok w.2 → good_step w (run_command config c w).2.
Proof.
  intros Hok. destruct c as [c|q|q|c|s|s b|s]; simpl.
  - by apply create_good.
  - by apply read_good.
  - by apply read_good.
  - eapply modify_outcome_good; [|by apply UpdateLink_outcome]. intros; by apply update_good with c.
  - eapply modify_outcome_good; [|by apply DeleteLink_outcome].
    intros l l' now [= <-]. by apply (stamp_good (stamp_deleted now)).
  - eapply modify_outcome_good; [|by apply SetLinkEnabled_outcome].
    intros l l' now [= <-]. by apply (stamp_good (stamp_enabled b now)).
  - eapply modify_outcome_good; [|by apply RestoreLink_outcome].
    intros l l' now [= <-]. by apply (stamp_good (stamp_restored now)).
Qed.

(** C12: the invariant of the service. However commands are sequenced, the
    store stays consistent and every stored link stays valid: canonical target,
    unreserved slug, normalised tags, metadata and campaign within their limits and,
    unless a default expiry is configured, an expiry that parses. Its slug is
    well-formed, or it was generated: letters and digits, as many as configured.
    Any length can be configured; when it is between 3 and 64, every slug is
    well-formed. *)
Theorem reachable_links_valid w w' :
  rtc (command_step config) w w' →
  store_ok w.2 → map_Forall (fun _ => link_ok config) (links w.2) →
  store_ok w'.2 ∧ table_wf (links w'.2) ∧ map_Forall (fun _ => link_ok config) (links w'.2) ∧
  (3 ≤ shortener_generated_slug_length config ≤ 64 →
   map_Forall (fun _ l => isValidSlug (slug l) = true) (links w'.2)).
Proof.
  intros Hsteps. induction Hsteps as [w|w w1 w' [c w0] _ IH]; intros Hok Hall.
  - split_and!; [done|by apply links_wf|done|by apply links_ok_slugs].
  - destruct (run_command_good c w0 Hok) as (Hok1 & _ & Hv). by apply IH; [|apply Hv].
Qed.

(** A slug resolves to the same link for ever: no sequence of commands
    removes a stored slug or changes the id, target, creation time or redirect
    type behind it. *)
Theorem reachable_identity_stable w w' s l :
  rtc (command_step config) w w' → store_ok w.2 → links w.2 !! s = Some l →
  ∃ l', links w'.2 !! s = Some l' ∧ same_identity l l'.
Proof.
  intros Hsteps Hok. revert s l. change (table_grows (links w.2) (links w'.2)).
  induction Hsteps as [w|w w1 w' [c w0] _ IH]; [done|].
  destruct (run_command_good c w0 Hok) as (Hok1 & Hg & _). etrans; [exact Hg|]. by apply IH.
Qed.
End reachability.

(** ** The store behind the port does not matter

    Two stores that satisfy the contract and hold the same table answer every
    sequence of commands alike. *)
Section independence.
Context {S1 S2 : Type} `{LinkStoreSpec S1} `{LinkStoreSpec S2} (config : ServerConfig).

Definition same_world (w1 : Env * S1) (w2 : Env * S2) : Prop :=
  w1.1 = w2.1 ∧ store_ok w1.2 ∧ store_ok w2.2 ∧ links w1.2 = links w2.2.

(** Same answer, and same worlds afterwards. *)
Definition agree {A} (r1 : A * (Env * S1)) (r2 : A * (Env * S2)) : Prop :=
  r1.1 = r2.1 ∧ same_world r1.2 r2.2.

Definition simulates {A} (m1 : ST (Env * S1) A) (m2 : ST (Env * S2) A) : Prop :=
  ∀ w1 w2, same_world w1 w2 → agree (m1 w1) (m2 w2).

Lemma simulates_ret {A} (a : A) : simulates (mret a) (mret a).
Proof. by intros w1 w2 Hw. Qed.

Lemma simulates_bind {A B} (m1 : ST _ A) (m2 : ST _ A) (k1 : A → ST _ B) (k2 : A → ST _ B) :
  simulates m1 m2 → (∀ a, simulates (k1 a) (k2 a)) → simulates (m1 ≫= k1) (m2 ≫= k2).
Proof.
  intros Hm Hk w1 w2 Hw. rewrite !ST_bind_eq. destruct (Hm w1 w2 Hw) as [-> Hw']. by apply Hk.
Qed.

Lemma simulates_env {A} (m : ST Env A) : simulates (on_env m) (on_env m).
Proof.
  intros w1 w2 (He & Hw). rewrite !on_env_eq, He. split; [done|]. split; [done|exact Hw].
Qed.

Local Ltac worlds :=
  unfold agree, same_world; cbn [fst snd]; split_and!; try done; try congruence.

Lemma simulates_findBySlug s : simulates (on_store (store_findBySlug s)) (on_store (store_findBySlug s)).
Proof.
  intros w1 w2 (He & Hok1 & Hok2 & Hl). rewrite !on_store_eq.
  destruct (findBySlug_spec _ s Hok1) as (Hr1 & Hk1 & Hl1).
  destruct (findBySlug_spec _ s Hok2) as (Hr2 & Hk2 & Hl2).
  worlds.
Qed.

Lemma simulates_findById i : simulates (on_store (store_findById i)) (on_store (store_findById i)).
Proof.
  intros w1 w2 (He & Hok1 & Hok2 & Hl). rewrite !on_store_eq.
  destruct (findById_spec _ i Hok1) as (Hr1 & Hk1 & Hl1).
  destruct (findById_spec _ i Hok2) as (Hr2 & Hk2 & Hl2).
  worlds. apply option_eq. intros l. by rewrite Hr1, Hr2, Hl.
Qed.

Lemma simulates_slugExists s : simulates (on_store (store_slugExists s)) (on_store (store_slugExists s)).
Proof.
  intros w1 w2 (He & Hok1 & Hok2 & Hl). rewrite !on_store_eq, !slugExists_spec by done.
  worlds. by rewrite Hl.
Qed.

Lemma simulates_invalidate s :
  simulates (on_store (store_invalidateCache s)) (on_store (store_invalidateCache s)).
Proof.
  intros w1 w2 (He & Hok1 & Hok2 & Hl). rewrite !on_store_eq.
  destruct (invalidate_spec _ s Hok1) as [Hk1 Hl1]. destruct (invalidate_spec _ s Hok2) as [Hk2 Hl2].
  worlds. by destruct (store_invalidateCache s w1.2).1, (store_invalidateCache s w2.2).1.
Qed.

Lemma simulates_view l : simulates (toView config l) (toView config l).
Proof. apply simulates_bind; [apply simulates_env|]. intros a. apply simulates_ret. Qed.

Lemma simulates_insert l : simulates (insert_link config l) (insert_link config l).
Proof.
  intros w1 w2 (He & Hok1 & Hok2 & Hl). unfold insert_link. rewrite !ST_bind_eq, !on_store_eq. cbn [fst snd].
  destruct (create_spec _ l Hok1) as [Hk1 Hc1]. destruct (create_spec _ l Hok2) as [Hk2 Hc2].
  rewrite Hl in Hc1. destruct (decide (fresh_in (links w2.2) l)).
  - destruct Hc1 as [-> Hl1], Hc2 as [-> Hl2].
    apply (simulates_bind _ _ _ _ (simulates_invalidate (slug l))); [|worlds].
    intros _. apply simulates_bind; [apply simulates_view|]. intros v. apply simulates_ret.
  - destruct Hc1 as (-> & Hl1 & ->), Hc2 as (-> & Hl2 & ->). apply simulates_ret. worlds.
Qed.

Lemma simulates_persist l old w1 w2 :
  same_world w1 w2 → links w1.2 !! slug l = Some old → id old = id l →
  agree (persist config l w1) (persist config l w2).
Proof.
  intros (He & Hok1 & Hok2 & Hl) Hold Hid. unfold persist. rewrite !ST_bind_eq, !on_store_eq. cbn [fst snd].
  destruct (update_spec _ _ _ Hok1 Hold Hid) as (-> & Hk1 & Hl1). rewrite Hl in Hold.
  destruct (update_spec _ _ _ Hok2 Hold Hid) as (-> & Hk2 & Hl2).
  apply (simulates_bind _ _ _ _ (simulates_view l)); [|worlds]. intros v. apply simulates_ret.
Qed.

Lemma simulates_modify s f g :
  (∀ l l', f l = inr l' → slug l' = slug l ∧ id l' = id l) →
  (∀ now l, slug (g now l) = slug l ∧ id (g now l) = id l) →
  simulates (load_modify_store config s f g) (load_modify_store config s f g).
Proof.
  intros Hf Hg w1 w2 Hw. unfold load_modify_store. rewrite !ST_bind_eq.
  destruct (simulates_findBySlug s w1 w2 Hw) as [Hr Hw']. rewrite <- Hr.
  destruct Hw as (He & Hok1 & Hok2 & Hl). destruct (findBySlug_spec _ s Hok1) as (Hf1 & _ & Hl1).
  assert (Hf1' : (on_store (store_findBySlug s) w1).1 = links w1.2 !! s) by (by rewrite on_store_eq).
  rewrite Hf1'.
  destruct (links w1.2 !! s) as [l|] eqn:El; [|by apply simulates_ret].
  destruct (f l) as [d|l'] eqn:Ef; [by apply simulates_ret|].
  rewrite !ST_bind_eq. destruct (simulates_env currentTimestamp _ _ Hw') as [<- Hw''].
  destruct (Hf _ _ Ef) as [Hfs Hfi].
  set (now := (on_env currentTimestamp _).1). destruct (Hg now l') as [Hgs Hgi].
  eapply simulates_persist with l; [done| |congruence].
  rewrite on_env_eq, on_store_eq. cbn [fst snd]. rewrite Hl1, Hgs, Hfs.
  by rewrite (tw_slug _ (links_wf _ Hok1) _ _ El).
Qed.

Lemma simulates_generate n : simulates (generate_free_slug config n) (generate_free_slug config n).
Proof.
  induction n as [|n IH]; [apply simulates_ret|].
  apply simulates_bind; [apply simulates_env|]. intros c.
  apply simulates_bind; [apply simulates_slugExists|]. intros taken.
  destruct (negb taken && _); [apply simulates_ret|exact IH].
Qed.

Lemma simulates_choose command : simulates (chooseSlug config command) (chooseSlug config command).
Proof.
  unfold chooseSlug. destruct (cl_slug command) as [s|]; [|apply simulates_generate].
  destruct (negb _); [apply simulates_ret|]. destruct (isReservedSlug s); [apply simulates_ret|].
  apply simulates_bind; [apply simulates_slugExists|]. intros []; apply simulates_ret.
Qed.

Lemma simulates_expiry command : simulates (chosen_expiry config command) (chosen_expiry config command).
Proof.
  unfold chosen_expiry. destruct (cl_expires_at command), (shortener_default_expiry_seconds config);
    try apply simulates_ret.
  apply simulates_bind; [apply simulates_env|]. intros now. apply simulates_ret.
Qed.

Lemma simulates_create command : simulates (CreateLink config command) (CreateLink config command).
Proof.
  unfold CreateLink. destruct (normalizeTargetUrl _ config) as [url|]; [|apply simulates_ret].
  apply simulates_bind; [apply simulates_choose|]. intros chosen.
  destruct (ok chosen); [|apply simulates_ret]. destruct (res_value chosen) as [s|]; [|apply simulates_ret].
  destruct (_ && _); [apply simulates_ret|].
  apply simulates_bind; [apply simulates_expiry|]. intros expiry.
  destruct (validateTags _); [|apply simulates_ret].
  destruct (negb (validateMetadata _)); [apply simulates_ret|].
  destruct (negb (validateCampaign _)); [apply simulates_ret|].
  apply simulates_bind; [apply simulates_env|]. intros i.
  apply simulates_bind; [apply simulates_env|]. intros now. apply simulates_insert.
Qed.

Lemma simulates_get q : simulates (GetLink config q) (GetLink config q).
Proof.
  apply simulates_bind.
  - destruct q; [apply simulates_findBySlug|apply simulates_findById].
  - intros [l|]; [|apply simulates_ret].
    apply simulates_bind; [apply simulates_view|]. intros v. apply simulates_ret.
Qed.

Lemma simulates_command c : simulates (run_command config c) (run_command config c).
Proof.
  destruct c as [c|q|q|c|s|s b|s]; simpl.
  - apply simulates_create.
  - apply simulates_get.
  - apply simulates_get.
  - apply (simulates_modify (ul_slug c) (apply_update c) set_updated_at); [|done].
    intros l l' Hf. apply apply_update_frame in Hf. naive_solver.
  - apply (simulates_modify s inr stamp_deleted); [|done]. by intros l l' [= ->].
  - apply (simulates_modify s inr (stamp_enabled b)); [|done]. by intros l l' [= ->].
  - apply (simulates_modify s inr stamp_restored); [|done]. by intros l l' [= ->].
Qed.

Lemma simulates_commands cs : simulates (run_commands config cs) (run_commands config cs).
Proof.
  induction cs as [|c cs IH]; [apply simulates_ret|].
  apply simulates_bind; [apply simulates_command|]. intros r.
  apply simulates_bind; [exact IH|]. intros rs. apply simulates_ret.
Qed.
End independence.

(** ** The specification store: the table itself *)
Definition find_id (i : str) (t : gmap str Link) : option Link :=
  snd <$> List.find (fun kv => bool_decide (id kv.2 = i)) (map_to_list t).

#[export] Instance TableStore : ILinkStore (gmap str Link) := {
  store_create := fun l t =>
    if decide (fresh_in t l) then ((true, no_error), <[slug l := l]> t)
    else ((false, mkAppError AppErrorCode.slug_conflict "slug already in use"), t);
  store_findBySlug := fun s t => (t !! s, t);
  store_findById := fun i t => (find_id i t, t);
  store_slugExists := fun s t => (bool_decide (is_Some (t !! s)), t);
  store_invalidateCache := fun _ t => (tt, t);
  store_update := fun l t => ((true, no_error), <[slug l := l]> t);
}.

Lemma find_id_spec i t l : table_wf t → find_id i t = Some l ↔ t !! slug l = Some l ∧ id l = i.
Proof.
  intros Hwf. unfold find_id. split.
  - intros ([k l'] & Hf & ->)%fmap_Some. apply find_some in Hf as [Hin Hi].
    apply bool_decide_eq_true in Hi. apply list_elem_of_In, elem_of_map_to_list in Hin. simpl in *.
    by rewrite (tw_slug _ Hwf _ _ Hin).
  - intros [Hl Hi]. destruct (List.find _ _) as [[k l']|] eqn:Ef.
    + apply find_some in Ef as [Hin Hi']. apply bool_decide_eq_true in Hi'.
      apply list_elem_of_In, elem_of_map_to_list in Hin. simpl in *.
      assert (k = slug l) as -> by (eapply (tw_id _ Hwf); eauto; congruence). congruence.
    + eapply find_none in Ef; [|by apply list_elem_of_In, elem_of_map_to_list].
      apply bool_decide_eq_false in Ef. done.
Qed.

Lemma table_wf_insert t l :
  table_wf t → (fresh_in t l ∨ ∃ old, t !! slug l = Some old ∧ id old = id l) → table_wf (<[slug l := l]> t).
Proof.
  intros Hwf Hl. split.
  - intros s l'. rewrite lookup_insert. case_decide; [by intros [= <-]|]. apply Hwf.
  - assert (Hne : ∀ s l', t !! s = Some l' → id l' = id l → s = slug l).
    { intros s l' Hs Hi. destruct Hl as [[_ Hf]|(old & Hold & Hi')].
      - by destruct (map_Forall_lookup_1 _ _ _ _ Hf Hs).
      - eapply (tw_id _ Hwf); eauto. congruence. }
    intros s1 s2 l1 l2. rewrite !lookup_insert. repeat case_decide; intros; simplify_eq; eauto.
    + symmetry. eauto.
    + eapply (tw_id _ Hwf); eauto.
Qed.

#[export] Program Instance TableStoreSpec : LinkStoreSpec (gmap str Link) := {
  store_ok := table_wf;
  links := fun t => t;
}.
Next Obligation. done. Qed.
Next Obligation. done. Qed.
Next Obligation. intros t i Hwf. split; [|done]. intros l. by apply find_id_spec. Qed.
Next Obligation. done. Qed.
Next Obligation. done. Qed.
Next Obligation.
  intros t l Hwf. simpl. destruct (decide (fresh_in t l)); [|done].
  split; [|done]. apply table_wf_insert; auto.
Qed.
Next Obligation. intros t l old Hwf Hl Hi. split_and!; try done. simpl. apply table_wf_insert; eauto. Qed.

(** C3: refinement. The HTTP server's store (primary and secondary index plus
    the look-aside cache) answers every sequence of commands exactly as a plain
    table from slugs to links would, and holds that table afterwards: the cache is
    never visible. *)
Theorem legacy_store_refines_table config cs e (st : LinkStorage) :
  storage_wf st →
  let concrete := run_commands config cs (e, st) in
  let abstract := run_commands config cs (e, repo_links (repo st)) in
  concrete.1 = abstract.1 ∧ concrete.2.1 = abstract.2.1 ∧
  storage_wf concrete.2.2 ∧ repo_links (repo concrete.2.2) = abstract.2.2.
Proof.
  intros Hwf. edestruct (simulates_commands (S1 := LinkStorage) (S2 := gmap str Link) config cs
    (e, st) (e, repo_links (repo st))) as (Hr & He & Hok & _ & Hl).
  - split_and!; try done. simpl. apply repo_links_wf, Hwf.
  - done.
Qed.

(** ** Instances on a concrete store

    An environment with a constant clock and draws, and the storage of the
    server after one creation. *)
Definition demo_env : Env := mkEnv (fun _ => 1704164645000000000%Z) 0 (fun i => i) 0.
Definition demo_create : CreateLinkCommand :=
  mkCreateLinkCommand "https://Example.com:443/a" (Some ("demo" : str)) None None None
    [" x " : str; "x" : str] ∅ None.
Definition demo_patch : UpdateLinkCommand :=
  mkUpdateLinkCommand "demo" (Some false) (Some None) None None None.
Definition demo_world : Env * LinkStorage :=
  (run_command default_config (CCreate demo_create) (demo_env, empty_storage)).2.
Definition demo_link : Link :=
  mkLink "0123456789ABCDEFGHIJ" "demo" "https://example.com/a" "2024-01-02T03:04:05Z" "2024-01-02T03:04:05Z"
    None None true ["x" : str] ∅ None empty_stats temporary.

Lemma empty_ok : store_ok (St := LinkStorage) empty_storage.
Proof. apply empty_storage_wf. Qed.

Lemma demo_ok : store_ok demo_world.2.
Proof. exact (proj1 (CreateLink_spec default_config demo_create (demo_env, empty_storage) empty_ok)). Qed.

Lemma demo_link_stored : links demo_world.2 !! ("demo" : str) = Some demo_link.
Proof. vm_compute. reflexivity. Qed.

Lemma CreateLink_all_or_nothing_witness :
  let r := CreateLink default_config demo_create (demo_env, empty_storage) in
  store_ok r.2.2 ∧
  ((∃ l status, created_link default_config demo_create (links empty_storage) l ∧
      links r.2.2 = <[slug l := l]> (links empty_storage) ∧ r.1 = success (view_of default_config l status)) ∨
   (ok r.1 = false ∧ res_value r.1 = None ∧ links r.2.2 = links empty_storage)).
Proof. apply (CreateLink_all_or_nothing default_config demo_create (demo_env, empty_storage)), empty_ok. Defined.

Lemma CreateLink_succeeds_iff_witness :
  links empty_storage !! ("demo" : str) = None ∧ isReservedSlug "demo" = false.
Proof.
  destruct (proj1 (CreateLink_succeeds_iff default_config demo_create (demo_env, empty_storage) "demo" empty_ok
    ltac:(reflexivity)) ltac:(vm_compute; reflexivity)) as (_ & _ & Hr & Hl & _). auto.
Defined.

Lemma chooseSlug_takes_first_usable_witness :
  let command := mkCreateLinkCommand "https://example.com/" None None None None [] ∅ None in
  (chooseSlug default_config command demo_world).2.2 = demo_world.2.
Proof. apply chooseSlug_takes_first_usable; [apply demo_ok|reflexivity]. Defined.

(** Metadata with an empty key. *)
Definition demo_bad_patch : UpdateLinkCommand :=
  mkUpdateLinkCommand "demo" None None None (Some {[ ([] : str) := ("v" : str) ]}) None.

Lemma UpdateLink_patch_semantics_witness :
  ok (UpdateLink default_config demo_patch demo_world).1 = true ∧
  err_code (res_error (UpdateLink default_config demo_bad_patch demo_world).1) = AppErrorCode.invalid_field ∧
  links (UpdateLink default_config demo_bad_patch demo_world).2.2 = links demo_world.2.
Proof.
  split; [vm_compute; reflexivity|].
  destruct (UpdateLink_patch_semantics default_config demo_bad_patch demo_world demo_link demo_ok demo_link_stored)
    as [_ [(l' & _ & _ & Hok & _)|(He & _ & Hl)]]; [vm_compute in Hok; discriminate|exact (conj He Hl)].
Defined.

Lemma delete_then_restore_witness :
  let r1 := DeleteLink default_config "demo" demo_world in
  ok r1.1 = true ∧ lv_status <$> res_value r1.1 = Some deleted.
Proof.
  destruct (delete_then_restore default_config "demo" demo_world demo_link demo_ok demo_link_stored
    ltac:(reflexivity)) as (H1 & H2 & _). auto.
Defined.

Lemma deleted_slug_stays_taken_witness :
  (CreateLink default_config demo_create (DeleteLink default_config "demo" demo_world).2).1
  = failure AppErrorCode.slug_conflict "slug already in use".
Proof.
  apply (deleted_slug_stays_taken default_config "demo" demo_world demo_link demo_create demo_ok demo_link_stored);
    [reflexivity|vm_compute; reflexivity|vm_compute; reflexivity|].
  exists ("https://example.com/a" : str). vm_compute. reflexivity.
Defined.

Lemma missing_slug_not_found_witness :
  (run_command default_config (CDelete "nope") demo_world).1
  = failure AppErrorCode.not_found "Link not found".
Proof.
  apply (missing_slug_not_found default_config "nope" demo_world (CDelete "nope") demo_ok);
    [vm_compute; reflexivity|]. set_solver.
Defined.

Lemma reachable_links_valid_witness :
  map_Forall (fun _ => link_ok default_config) (links demo_world.2).
Proof.
  apply (reachable_links_valid default_config (demo_env, empty_storage) demo_world); [|apply empty_ok|].
  - apply rtc_once. apply (command_step_intro default_config (CCreate demo_create)).
  - intros s l Hl. vm_compute in Hl. discriminate.
Defined.

(** A configured length of two is accepted, and creation then stores a slug that
    is not well-formed. *)
Lemma short_generated_slug_stored :
  let config := mkServerConfig 443 None "http://localhost:8000" "temporary" None 2 false true 1024%N
    "dev-analytics-salt" 64 65536%N 2048%N false false in
  let command := mkCreateLinkCommand "https://example.com/a" None None None None [] ∅ None in
  let r := CreateLink config command (demo_env, empty_storage) in
  ok r.1 = true ∧ map (fun kl => isValidSlug kl.1) (map_to_list (links r.2.2)) = [false].
Proof. split; vm_compute; reflexivity. Qed.

Lemma reachable_identity_stable_witness :
  ∃ l', links (run_command default_config (CDelete "demo") demo_world).2.2 !! ("demo" : str) = Some l' ∧
        same_identity demo_link l'.
Proof.
  apply (reachable_identity_stable default_config demo_world); [|apply demo_ok|apply demo_link_stored].
  apply rtc_once, command_step_intro.
Defined.

Lemma legacy_store_refines_table_witness :
  (run_commands default_config [CCreate demo_create; CGet (by_slug "demo"); CDelete "demo"; CGet (by_slug "demo")]
     (demo_env, empty_storage)).1
  = (run_commands default_config [CCreate demo_create; CGet (by_slug "demo"); CDelete "demo"; CGet (by_slug "demo")]
     (demo_env, repo_links (repo empty_storage))).1.
Proof. apply legacy_store_refines_table, empty_storage_wf. Defined.
