(* ===== verification/Router.v ===== *)
(** * Router: path matching and dispatch (src/http/router.cpp)

    The route table, [matchPath] and [Router::dispatch], generic in the state
    the handlers act on. Requests and responses are Beast messages
    ([http/handler_types.hpp]); of a request the code reads the method, the
    target, the body and header fields, so a request carries the value Beast
    returns for each field name. *)
From S2P Require Import Prelude Text Types.

(** ** Messages *)
Inductive verb := v_unknown | v_get | v_post | v_patch | v_delete | v_other (name : str).

#[export] Instance verb_eq_dec : EqDecision verb.
Proof. solve_decision. Defined.

Record Request := mkRequest {
  req_method : verb;
  req_method_string : str;
  req_target : str;
  req_field : str → option str;
  req_body : str;
}.

Record Response := mkResponse {
  res_status : Z;
  res_fields : gmap str str;
  res_keep_alive : bool;
  res_body : str;
}.

(** [res.set(name, value)]. *)
Definition res_set (name value : str) (r : Response) : Response :=
  mkResponse (res_status r) (<[name := value]> (res_fields r)) (res_keep_alive r) (res_body r).

(** A freshly constructed response. *)
Definition new_response (status : Z) : Response := mkResponse status ∅ true [].

(** ** Routing context (http/route_context.hpp) *)
Record RouteContext := mkRouteContext {
  path_params : gmap str str;
  query_string : str;
  route_label : str;
}.

Definition pathParam (context : RouteContext) (name : str) : option str := path_params context !! name.

Definition HandlerFn (W : Type) : Type := Request → ServerConfig → bool → RouteContext → ST W Response.
Definition ErrorHandlerFn (W : Type) : Type :=
  Request → ServerConfig → bool → Z → str → str → ST W Response.

(** ** Paths *)
Definition methodToString (method : verb) : str :=
  match method with
  | v_get => "GET"
  | v_post => "POST"
  | v_patch => "PATCH"
  | v_delete => "DELETE"
  | v_unknown => "<unknown>"
  | v_other name => name
  end.

(** Segments between slashes, empty ones included. *)
Fixpoint split_slash (s : str) : list str :=
  match s with
  | [] => [[]]
  | c :: s' =>
      if Ascii.eqb c "/" then [] :: split_slash s'
      else match split_slash s' with
           | seg :: rest => (c :: seg) :: rest
           | [] => [[c]]
           end
  end.

Definition splitPath (path : str) : list str :=
  let segments := split_slash (drop_while (fun c => Ascii.eqb c "/") path) in
  if bool_decide (segments = [[]]) then [] else segments.

Definition isCaptureSegment (segment : str) : bool :=
  if (length segment <? 3) || negb (bool_decide (head segment = Some "{"%char))
     || negb (bool_decide (last segment = Some "}"%char))
  then false
  else
    match segment with
    | _ :: first :: rest =>
        (is_alpha first || Ascii.eqb first "_")
        && forallb (fun c => is_alnum c || Ascii.eqb c "_") (take (length rest - 1) rest)
    | _ => false
    end.

Definition captureName (segment : str) : str := take (length segment - 2) (drop 1 segment).

Definition pathSpecificity (path_pattern : str) : nat :=
  length (List.filter (fun s => negb (isCaptureSegment s)) (splitPath path_pattern)).

(** The segment loop of [matchPath] on lists of the same length. *)
Fixpoint match_segments (patterns actuals : list str) (params : gmap str str) : option (gmap str str) :=
  match patterns, actuals with
  | p :: ps, a :: asg =>
      if isCaptureSegment p then
        if bool_decide (a = []) then None else match_segments ps asg (<[captureName p := a]> params)
      else if bool_decide (p = a) then match_segments ps asg params else None
  | _, _ => Some params
  end.

(** The path of a target and its query string. *)
Definition target_path (target : str) : str :=
  match find_char "?" target with Some q => take q target | None => target end.
Definition target_query (target : str) : str :=
  match find_char "?" target with Some q => drop (q + 1) target | None => [] end.

(** [Some context] is [true] with the context filled in. *)
Definition matchPath (path_pattern target : str) : option RouteContext :=
  let path := target_path target in
  let query := target_query target in
  let pattern_segments := splitPath path_pattern in
  let path_segments := splitPath path in
  if negb (length pattern_segments =? length path_segments) then
    match pattern_segments with
    | [p] =>
        if isCaptureSegment p && bool_decide (captureName p = "path")
           && negb (bool_decide (path = [])) && negb (bool_decide (path = "/"))
        then Some (mkRouteContext
               {[ ("path" : str) := if bool_decide (head path = Some "/"%char) then drop 1 path else path ]}
               query [])
        else None
    | _ => None
    end
  else (fun params => mkRouteContext params query []) <$> match_segments pattern_segments path_segments ∅.

(** ** The router *)
Record RouteEntry (W : Type) := mkRoute {
  re_method : verb;
  re_pattern : str;
  re_label : str;
  re_handler : HandlerFn W;
}.
Arguments mkRoute {W}.
Arguments re_method {W}.
Arguments re_pattern {W}.
Arguments re_label {W}.
Arguments re_handler {W}.

Section dispatch.
Context {W : Type} (error_handler : ErrorHandlerFn W).
Implicit Types (r : RouteEntry W) (routes : list (RouteEntry W)).

(** First loop: is the path known, and the best specificity. *)
Fixpoint best_match (target : str) routes (path_matched : bool) (best : nat) : bool * nat :=
  match routes with
  | [] => (path_matched, best)
  | r :: routes' =>
      match matchPath (re_pattern r) target with
      | None => best_match target routes' path_matched best
      | Some _ =>
          let specificity := pathSpecificity (re_pattern r) in
          if negb path_matched || (best <? specificity)
          then best_match target routes' true specificity
          else best_match target routes' path_matched best
      end
  end.

(** Second loop: the first route of the best specificity with the method of
    the request, or what the loop learnt about the allowed methods. *)
Fixpoint select_route (target : str) (method : verb) (best : nat) routes (only : verb) (multiple : bool)
    : (RouteEntry W * RouteContext) + (verb * bool) :=
  match routes with
  | [] => inr (only, multiple)
  | r :: routes' =>
      match matchPath (re_pattern r) target with
      | None => select_route target method best routes' only multiple
      | Some context =>
          if negb (pathSpecificity (re_pattern r) =? best)
          then select_route target method best routes' only multiple
          else
            let first := bool_decide (only = v_unknown) in
            let multiple := multiple || (negb first && negb (bool_decide (only = re_method r))) in
            let only := if first then re_method r else only in
            if negb (bool_decide (re_method r = method))
            then select_route target method best routes' only multiple
            else inl (r, mkRouteContext (path_params context) (query_string context) (re_label r))
      end
  end.

Definition dispatch routes (req : Request) (config : ServerConfig) (is_tls : bool) : ST W Response :=
  let '(path_matched, best) := best_match (req_target req) routes false 0 in
  match select_route (req_target req) (req_method req) best routes v_unknown false with
  | inl (r, context) => re_handler r req config is_tls context
  | inr (only_allowed_method, multiple_allowed_methods) =>
      if (path_matched : bool) then
        error_handler req config is_tls 400%Z "invalid_method"
          (if (multiple_allowed_methods : bool) then "Unsupported operation"
           else "Only " ++ methodToString only_allowed_method ++ " is supported")
      else error_handler req config is_tls 404%Z "not_found" "Route not found"
  end.
End dispatch.

(** [Router::add]: routes are kept in the order of registration. *)
Definition add {W} (method : verb) (path_pattern route_label : str) (handler : HandlerFn W) (routes : list (RouteEntry W)) :
    list (RouteEntry W) :=
  routes ++ [mkRoute method path_pattern route_label handler].

(** The error handler of a router built without one; code and message are not escaped. *)
Definition defaultErrorHandler {W} : ErrorHandlerFn W := fun _ _ _ status code message =>
  let res := res_set "Content-Type" "application/json" (new_response status) in
  mret (mkResponse (res_status res) (res_fields res) (res_keep_alive res)
    (json_text "{'error':{'code':'" ++ code ++ json_text "','message':'" ++ message ++ json_text "','request_id':''}}")).

(** ** Which route a request gets

    The reference: among the routes whose pattern matches, those of the highest
    specificity, in the order of registration. *)
Section dispatch_spec.
Context {W : Type} (error_handler : ErrorHandlerFn W).
Implicit Types (r : RouteEntry W) (routes : list (RouteEntry W)).

Definition route_matches (target : str) r : bool :=
  match matchPath (re_pattern r) target with Some _ => true | None => false end.

Definition specificity r : nat := pathSpecificity (re_pattern r).

Definition matching (target : str) routes : list (RouteEntry W) := List.filter (route_matches target) routes.

Definition max_specificity (target : str) routes : nat :=
  foldr Nat.max 0 (map specificity (matching target routes)).

Definition best_routes (target : str) routes : list (RouteEntry W) :=
  List.filter (fun r => specificity r =? max_specificity target routes) (matching target routes).

Lemma route_matches_eq target r :
  route_matches target r = match matchPath (re_pattern r) target with Some _ => true | None => false end.
Proof. done. Qed.

(** Some matching route has the highest specificity. *)
Lemma max_specificity_attained l :
  l ≠ [] → ∃ r, r ∈ l ∧ specificity r = foldr Nat.max 0 (map specificity l).
Proof.
  induction l as [|r l IH]; [done|]. intros _. destruct l as [|y l].
  - exists r. split; [set_solver|]. simpl. lia.
  - destruct IH as (x & Hx & Hs); [done|]. rewrite map_cons. cbn [foldr]. rewrite <- Hs.
    destruct (decide (specificity r ≤ specificity x)).
    + exists x. split; [set_solver|]. lia.
    + exists r. split; [set_solver|]. lia.
Qed.

Lemma best_match_spec target routes matched best :
  (matched = false → best = 0) →
  best_match target routes matched best
  = (matched || negb (bool_decide (matching target routes = [])),
     foldr Nat.max best (map specificity (matching target routes))).
Proof.
  assert (Hfold : ∀ (l : list nat) a b, foldr Nat.max (a `max` b) l = a `max` foldr Nat.max b l).
  { induction l as [|x l IH]; intros a b; simpl; [done|]. rewrite IH. lia. }
  revert matched best. induction routes as [|r routes IH]; intros matched best Hm; simpl.
  { by rewrite orb_false_r. }
  rewrite route_matches_eq. destruct (matchPath (re_pattern r) target) as [ctx|]; [|by apply IH].
  simpl. fold (specificity r). rewrite orb_true_r. destruct matched; simpl.
  - destruct (Nat.ltb_spec best (specificity r)); rewrite IH by done; simpl; f_equal;
      rewrite <- Hfold; f_equal; lia.
  - rewrite Hm by done. rewrite IH by done. simpl. f_equal. rewrite <- Hfold. f_equal. lia.
Qed.

Definition methods_differ (only : verb) routes : bool :=
  existsb (fun r => negb (bool_decide (re_method r = only))) routes.

(** The context a handler receives. *)
Definition context_for (target : str) r : RouteContext :=
  match matchPath (re_pattern r) target with
  | Some c => mkRouteContext (path_params c) (query_string c) (re_label r)
  | None => mkRouteContext ∅ [] []
  end.

Lemma select_route_known target method best routes only multiple :
  only ≠ v_unknown →
  let cand := List.filter (fun r => specificity r =? best) (matching target routes) in
  select_route target method best routes only multiple
  = match List.find (fun r => bool_decide (re_method r = method)) cand with
    | Some r => inl (r, context_for target r)
    | None => inr (only, multiple || methods_differ only cand)
    end.
Proof.
  intros Hk. cbv zeta. revert multiple. induction routes as [|r routes IH]; intros multiple; simpl.
  { by rewrite orb_false_r. }
  rewrite route_matches_eq. destruct (matchPath (re_pattern r) target) as [ctx|] eqn:Em; [|by apply IH].
  simpl. fold (specificity r). destruct (specificity r =? best); simpl; [|by apply IH].
  rewrite (bool_decide_eq_false_2 (only = v_unknown)) by done. simpl.
  destruct (bool_decide (re_method r = method)) eqn:Ed; simpl.
  - unfold context_for. by rewrite Em.
  - rewrite IH. case_match; [done|]. f_equal. f_equal. rewrite <- orb_assoc. f_equal. f_equal.
    f_equal. apply bool_decide_ext. naive_solver.
Qed.

Lemma select_route_spec target method best routes :
  Forall (fun r => re_method r ≠ v_unknown) routes →
  let cand := List.filter (fun r => specificity r =? best) (matching target routes) in
  select_route target method best routes v_unknown false
  = match List.find (fun r => bool_decide (re_method r = method)) cand with
    | Some r => inl (r, context_for target r)
    | None => inr (match cand with
                   | [] => (v_unknown, false)
                   | r0 :: rest => (re_method r0, methods_differ (re_method r0) rest)
                   end)
    end.
Proof.
  intros Hr. cbv zeta. induction Hr as [|r routes Hr _ IH]; simpl; [done|].
  rewrite route_matches_eq. destruct (matchPath (re_pattern r) target) as [ctx|] eqn:Em; [|by apply IH].
  simpl. fold (specificity r). destruct (specificity r =? best); simpl; [|by apply IH].
  destruct (bool_decide (re_method r = method)) eqn:Ed; simpl.
  - unfold context_for. by rewrite Em.
  - by rewrite select_route_known.
Qed.
End dispatch_spec.

Lemma dispatch_reference {W} (error_handler : ErrorHandlerFn W) routes req config is_tls :
  Forall (fun r => re_method r ≠ v_unknown) routes →
  dispatch error_handler routes req config is_tls =
    match List.find (fun r => bool_decide (re_method r = req_method req)) (best_routes (req_target req) routes) with
    | Some r => re_handler r req config is_tls (context_for (req_target req) r)
    | None =>
        match best_routes (req_target req) routes with
        | [] => error_handler req config is_tls 404%Z "not_found" "Route not found"
        | r0 :: rest =>
            error_handler req config is_tls 400%Z "invalid_method"
              (if methods_differ (re_method r0) rest then "Unsupported operation"
               else "Only " ++ methodToString (re_method r0) ++ " is supported")
        end
    end.
Proof.
  intros Hr. unfold dispatch. rewrite best_match_spec by done. fold (max_specificity (req_target req) routes).
  rewrite select_route_spec by done. fold (best_routes (req_target req) routes). cbn [orb].
  destruct (List.find _ _) as [r|]; [done|]. destruct (best_routes (req_target req) routes) as [|r0 rest] eqn:Eb.
  - destruct (decide (matching (req_target req) routes = [])) as [->|Hne]; [done|]. exfalso.
    destruct (max_specificity_attained _ Hne) as (x & Hx & Hs).
    apply (in_nil (a := x)). rewrite <- Eb. unfold best_routes. apply filter_In. split; [by apply list_elem_of_In|].
    by apply Nat.eqb_eq.
  - assert (matching (req_target req) routes ≠ []) as Hne.
    { intros Hn. unfold best_routes in Eb. by rewrite Hn in Eb. }
    by rewrite (bool_decide_eq_false_2 (matching _ _ = [])).
Qed.

(** C29: routing. [dispatch] hands the request to the first registered route of
    the request's method among the matching routes of the highest specificity; it
    answers 400 [invalid_method] (not 405) when the path is known but not for that
    method, naming the method when only one is allowed, and 404 [not_found] when no
    pattern matches. *)
Theorem dispatch_most_specific {W} (error_handler : ErrorHandlerFn W) routes req config is_tls :
  Forall (fun r => re_method r ≠ v_unknown) routes →
  dispatch error_handler routes req config is_tls =
    match List.find (fun r => bool_decide (re_method r = req_method req)) (best_routes (req_target req) routes) with
    | Some r => re_handler r req config is_tls (context_for (req_target req) r)
    | None =>
        match best_routes (req_target req) routes with
        | [] => error_handler req config is_tls 404%Z "not_found" "Route not found"
        | r0 :: rest =>
            error_handler req config is_tls 400%Z "invalid_method"
              (if methods_differ (re_method r0) rest then "Unsupported operation"
               else "Only " ++ methodToString (re_method r0) ++ " is supported")
        end
    end.
Proof. apply dispatch_reference. Qed.

(** A response that carries the label of the route. *)
Definition with_label (ctx : RouteContext) : Response := mkResponse 200 ∅ true (route_label ctx).

Lemma dispatch_most_specific_witness :
  let ok_handler : HandlerFn unit := fun _ _ _ ctx => mret (with_label ctx) in
  let err : ErrorHandlerFn unit := fun _ _ _ status _ _ => mret (new_response status) in
  (dispatch err [mkRoute v_get "/{slug}" "general" ok_handler; mkRoute v_get "/health" "special" ok_handler]
     (mkRequest v_get "GET" "/health" (fun _ => None) []) default_config false tt).1
  = with_label (mkRouteContext ∅ [] "special").
Proof.
  cbv zeta. rewrite dispatch_most_specific; [vm_compute; reflexivity|repeat constructor; done].
Defined.
