(* ===== verification/ClickEvents.v ===== *)
(** * ClickEvents: redirect analytics in memory

    The legacy bounded queue (src/analytics/click_event_queue.cpp), the
    in-memory click-event repository with its aggregation
    (src/storage/memory/in_memory_click_event_repository.cpp) and the
    statistics reader of the command service (src/app/legacy_adapters.cpp). *)
From stdpp Require Import sorting.
From S2P Require Import Prelude Text Env Clock Numbers Types LinkStore.

(** ** The events *)

(** [url_shortener::ClickEvent] (core/types.hpp). *)
Record QueuedEvent := mkQueuedEvent {
  qe_event_id : str;
  qe_occurred_at : str;
  qe_slug : str;
  qe_link_id : option str;
  qe_domain : str;
  qe_status_code : Z;
  qe_referrer : option str;
  qe_user_agent : option str;
  qe_client_id_hash : str;
}.

(** [url_shortener::analytics::ClickEvent] (analytics/click_event.hpp). *)
Record ClickEvent := mkClickEvent {
  ce_event_id : str;
  ce_occurred_at : Z;
  ce_slug : str;
  ce_link_id : str;
  ce_domain : str;
  ce_status_code : Z;
  ce_referrer : str;
  ce_user_agent : str;
  ce_client_id_hash : str;
}.

(** ** The legacy queue *)
Module LegacyQueue.
Record t := mk {
  capacity : nat;
  events : list QueuedEvent;
  enqueued_total : N;
  dropped_total : N;
}.

Definition create (capacity : nat) : t := mk capacity [] 0 0.

(** The eviction loop runs once per excess event. *)
Definition resetCapacity (c : nat) (q : t) : t :=
  let excess := length (events q) - c in
  mk c (drop excess (events q)) (enqueued_total q) (dropped_total q + N.of_nat excess).

Definition tryEnqueue (event : QueuedEvent) : ST t bool := fun q =>
  if capacity q <=? length (events q)
  then (false, mk (capacity q) (events q) (enqueued_total q) (dropped_total q + 1))
  else (true, mk (capacity q) (events q ++ [event]) (enqueued_total q + 1) (dropped_total q)).

(** [analyticsQueue]: the singleton, created by the first call. *)
Definition analyticsQueue (config : ServerConfig) (queue : option t) : t :=
  let c := N.to_nat (analytics_queue_capacity config) in
  match queue with
  | None => create c
  | Some q => if bool_decide (capacity q = c) then q else resetCapacity c q
  end.
End LegacyQueue.

(** ** Aggregation *)
Inductive AggregateBucket := hour | day | week.

Record AggregateQuery := mkAggregateQuery {
  aq_slug : option str;
  aq_link_id : option str;
  aq_from : Z;
  aq_to : Z;
  aq_bucket : option AggregateBucket;
}.

Record AggregateStats := mkAggregateStats {
  total_attempts : N;
  successful_redirects : N;
  status_code_counts : list (Z * N);
  domain_counts : list (str * N);
  time_buckets : list (Z * N);
}.

Definition bucket_width (b : AggregateBucket) : Z :=
  match b with hour => 3600 | day => 86400 | week => 604800 end.

(** The start of the bucket of a time point, as a time point. Both the cast to
    seconds and the division truncate towards zero. *)
Definition bucket_start (tp : Z) (b : AggregateBucket) : Z :=
  let s := Z.quot tp ticks_per_second in
  from_time_t (Z.quot s (bucket_width b) * bucket_width b)%Z.

(** [++m[k]]. *)
Definition bump {K} `{Countable K} (k : K) (m : gmap K N) : gmap K N :=
  <[k := (default 0 (m !! k) + 1)%N]> m.

(** The filters of the aggregation loop. *)
Definition selected (query : AggregateQuery) (e : ClickEvent) : bool :=
  match aq_slug query with Some s => bool_decide (ce_slug e = s) | None => true end
  && match aq_link_id query with Some i => bool_decide (ce_link_id e = i) | None => true end
  && negb ((ce_occurred_at e <? aq_from query)%Z || (aq_to query <=? ce_occurred_at e)%Z).

Definition is_redirect_code (c : Z) : bool := ((300 <=? c) && (c <? 400))%Z.

(** The accumulators of the loop. *)
Record Tally := mkTally {
  ty_total : N;
  ty_success : N;
  ty_status : gmap Z N;
  ty_domain : gmap str N;
  ty_bucket : gmap Z N;
}.

Definition tally_event (query : AggregateQuery) (t : Tally) (e : ClickEvent) : Tally :=
  if selected query e then
    mkTally (ty_total t + 1)
      (if is_redirect_code (ce_status_code e) then ty_success t + 1 else ty_success t)%N
      (bump (ce_status_code e) (ty_status t)) (bump (ce_domain e) (ty_domain t))
      match aq_bucket query with
      | Some b => bump (Z.quot (bucket_start (ce_occurred_at e) b) ticks_per_second) (ty_bucket t)
      | None => ty_bucket t
      end
  else t.

Definition bucket_le (a b : Z * N) : Prop := (a.1 ≤ b.1)%Z.
#[export] Instance bucket_le_dec : RelDecision bucket_le.
Proof. unfold RelDecision, Decision, bucket_le. intros a b. apply Z_le_dec. Defined.

Section repository.
(** The iteration order of [std::unordered_map] is unspecified. *)
Context (iterate_codes : gmap Z N → list (Z * N)) (iterate_domains : gmap str N → list (str * N)).

Definition InsertBatch (events : list ClickEvent) (repo : list ClickEvent) : list ClickEvent :=
  repo ++ events.

Definition GetAggregateStats (query : AggregateQuery) (repo : list ClickEvent) : AggregateStats :=
  let t := foldl (tally_event query) (mkTally 0 0 ∅ ∅ ∅) repo in
  mkAggregateStats (ty_total t) (ty_success t) (iterate_codes (ty_status t))
    (iterate_domains (ty_domain t))
    (merge_sort bucket_le ((fun '(k, v) => (from_time_t k, v)) <$> iterate_codes (ty_bucket t))).

Definition DeleteOlderThan (cutoff : Z) (repo : list ClickEvent) : list ClickEvent :=
  List.filter (fun e => negb (ce_occurred_at e <? cutoff)%Z) repo.
End repository.

(** ** The statistics reader *)

Definition parseEpoch (value : str) : option Z :=
  match stoll value with
  | Some (epoch, pos) => if negb (pos =? length value) then None else Some (from_time_t epoch)
  | None => None
  end.

Record GetLinkStatsQuery := mkGetLinkStatsQuery {
  gs_slug : str;
  gs_from : str;
  gs_to : str;
  gs_bucket : str;
}.

Record LinkStatsView := mkLinkStatsView {
  sv_slug : str;
  sv_total_attempts : N;
  sv_successful_redirects : N;
  sv_status_code_counts : list (Z * N);
  sv_domain_counts : list (str * N);
  sv_time_buckets : list (Z * N);
  sv_from : str;
  sv_to : str;
  sv_bucket : str;
}.

Definition parse_bucket (bucket : str) : option AggregateBucket :=
  if bool_decide (bucket = "hour") then Some hour
  else if bool_decide (bucket = "day") then Some day
  else if bool_decide (bucket = "week") then Some week
  else None.

Section reader.
Context (iterate_codes : gmap Z N → list (Z * N)) (iterate_domains : gmap str N → list (str * N)).

(** [LegacyLinkStatsReader::read]. *)
Definition read_stats (query : GetLinkStatsQuery) (repo : list ClickEvent) : Result LinkStatsView :=
  if bool_decide (gs_slug query = []) then failure AppErrorCode.not_found "Link not found"
  else
    match parseEpoch (gs_from query), parseEpoch (gs_to query) with
    | Some from, Some to =>
        if (to <=? from)%Z then failure AppErrorCode.invalid_field "invalid_timestamp"
        else
          match parse_bucket (gs_bucket query) with
          | None => failure AppErrorCode.invalid_field "invalid_bucket"
          | Some b =>
              let stats := GetAggregateStats iterate_codes iterate_domains
                (mkAggregateQuery (Some (gs_slug query)) None from to (Some b)) repo in
              success (mkLinkStatsView (gs_slug query) (total_attempts stats) (successful_redirects stats)
                (status_code_counts stats) (domain_counts stats)
                ((fun '(start, n) => (Z.quot start ticks_per_second, n)) <$> time_buckets stats)
                (gs_from query) (gs_to query) (gs_bucket query))
          end
    | _, _ => failure AppErrorCode.invalid_field "invalid_timestamp"
    end.
End reader.

(** ** Counting *)
Section counting.
Context {K : Type} `{Countable K}.
Implicit Types (m : gmap K N) (l : list (K * N)).

Definition total_of l : N := foldr (fun kv acc => kv.2 + acc)%N 0%N l.

#[export] Instance total_of_proper : Proper ((≡ₚ) ==> eq) total_of.
Proof.
  intros l1 l2 Hp. unfold total_of. induction Hp; simpl; [done| |lia|congruence]. by rewrite IHHp.
Qed.

(** Bumping one key adds one to the sum of the counters. *)
Lemma total_bump k m : total_of (map_to_list (bump k m)) = (total_of (map_to_list m) + 1)%N.
Proof.
  unfold bump. destruct (m !! k) as [n|] eqn:E.
  - rewrite <- (insert_delete_id m k n E) at 2. rewrite <- insert_delete_eq.
    rewrite !map_to_list_insert by (by rewrite lookup_delete_eq). simpl. lia.
  - rewrite map_to_list_insert by done. simpl. lia.
Qed.

Lemma lookup_bump k k' m :
  bump k m !! k' = if decide (k = k') then Some (default 0 (m !! k') + 1)%N else m !! k'.
Proof. unfold bump. rewrite lookup_insert. case_decide; [by subst|done]. Qed.
End counting.

(** The events a query selects. *)
Definition selection (query : AggregateQuery) (repo : list ClickEvent) : list ClickEvent :=
  List.filter (selected query) repo.

Definition count {A} (P : A → bool) (l : list A) : N := N.of_nat (length (List.filter P l)).

(** What the accumulators hold after some events. *)
Record tally_of (query : AggregateQuery) (l : list ClickEvent) (t : Tally) : Prop := {
  tl_total : ty_total t = N.of_nat (length l);
  tl_success : ty_success t = count (fun e => is_redirect_code (ce_status_code e)) l;
  tl_status : total_of (map_to_list (ty_status t)) = N.of_nat (length l);
  tl_domain : total_of (map_to_list (ty_domain t)) = N.of_nat (length l);
  tl_bucket : is_Some (aq_bucket query) → total_of (map_to_list (ty_bucket t)) = N.of_nat (length l);
  tl_status_at : ∀ c, default 0%N (ty_status t !! c) = count (fun e => bool_decide (ce_status_code e = c)) l;
  tl_domain_at : ∀ d, default 0%N (ty_domain t !! d) = count (fun e => bool_decide (ce_domain e = d)) l;
}.

Lemma count_app {A} (P : A → bool) l1 l2 : count P (l1 ++ l2) = (count P l1 + count P l2)%N.
Proof. unfold count. rewrite List.filter_app, length_app. lia. Qed.

Lemma count_one {A} (P : A → bool) x : count P [x] = if P x then 1%N else 0%N.
Proof. unfold count. simpl. by destruct (P x). Qed.

Lemma tally_event_of query l t e :
  selected query e = true → tally_of query l t → tally_of query (l ++ [e]) (tally_event query t e).
Proof.
  intros Hs []. unfold tally_event. rewrite Hs.
  assert (Hlen : N.of_nat (length (l ++ [e])) = (N.of_nat (length l) + 1)%N) by (rewrite length_app; simpl; lia).
  split; simpl; rewrite ?Hlen, ?total_bump, ?count_app, ?count_one; try lia.
  - destruct (is_redirect_code _); lia.
  - intros Hb. destruct (aq_bucket query); [rewrite total_bump, tl_bucket0 by done; lia|by destruct Hb].
  - intros c. rewrite count_app, count_one, lookup_bump. case_decide; simpl.
    + rewrite bool_decide_eq_true_2 by done. by rewrite tl_status_at0.
    + rewrite bool_decide_eq_false_2 by done. rewrite tl_status_at0. lia.
  - intros c. rewrite count_app, count_one, lookup_bump. case_decide; simpl.
    + rewrite bool_decide_eq_true_2 by done. by rewrite tl_domain_at0.
    + rewrite bool_decide_eq_false_2 by done. rewrite tl_domain_at0. lia.
Qed.

Lemma tally_spec query repo :
  tally_of query (selection query repo) (foldl (tally_event query) (mkTally 0 0 ∅ ∅ ∅) repo).
Proof.
  induction repo as [|e repo IH] using rev_ind.
  { split; simpl; by rewrite ?map_to_list_empty. }
  unfold selection. rewrite foldl_app, List.filter_app. simpl. destruct (selected query e) eqn:Es.
  - by apply tally_event_of.
  - rewrite app_nil_r. unfold tally_event. by rewrite Es.
Qed.

#[export] Instance bucket_le_total : Total bucket_le.
Proof. intros a b. unfold bucket_le. lia. Qed.
#[export] Instance bucket_le_trans : Transitive bucket_le.
Proof. intros a b c. unfold bucket_le. lia. Qed.

Section aggregation.
Context (iterate_codes : gmap Z N → list (Z * N)) (iterate_domains : gmap str N → list (str * N)).
Context (Hcodes : ∀ m, iterate_codes m ≡ₚ map_to_list m) (Hdomains : ∀ m, iterate_domains m ≡ₚ map_to_list m).

Lemma total_of_fmap (f : Z → Z) (l : list (Z * N)) :
  total_of ((fun '(k, v) => (f k, v)) <$> l) = total_of l.
Proof. induction l as [|[k v] l IH]; [done|]. rewrite fmap_cons. unfold total_of in *. cbn [foldr snd]. by rewrite IH. Qed.

(** The aggregate is an exact partition of the selected events. Events
    are selected by slug, link and half-open time range; the total counts them,
    the redirect count counts the 3xx ones, the counters by status code, by
    domain and by time bucket each add up to the total whatever the iteration
    order of the hash maps, and the buckets come out in order of time. *)
Theorem GetAggregateStats_partitions query repo :
  let sel := selection query repo in
  let stats := GetAggregateStats iterate_codes iterate_domains query repo in
  total_attempts stats = N.of_nat (length sel) ∧
  successful_redirects stats = count (fun e => is_redirect_code (ce_status_code e)) sel ∧
  total_of (status_code_counts stats) = total_attempts stats ∧
  total_of (domain_counts stats) = total_attempts stats ∧
  (is_Some (aq_bucket query) → total_of (time_buckets stats) = total_attempts stats) ∧
  (∀ c n, (c, n) ∈ status_code_counts stats → n = count (fun e => bool_decide (ce_status_code e = c)) sel) ∧
  (∀ d n, (d, n) ∈ domain_counts stats → n = count (fun e => bool_decide (ce_domain e = d)) sel) ∧
  Sorted bucket_le (time_buckets stats).
Proof using Hcodes Hdomains.
  destruct (tally_spec query repo) as [Ht Hs Hst Hd Hb Hsa Hda]. cbv zeta. unfold GetAggregateStats. simpl.
  split_and!; [done|done| | | | | |].
  - by rewrite Hcodes, Ht.
  - by rewrite Hdomains, Ht.
  - intros Hq. rewrite merge_sort_Permutation, (total_of_fmap from_time_t), Hcodes, Ht. auto.
  - intros c n. rewrite Hcodes, elem_of_map_to_list. intros Hc. rewrite <- Hsa. by rewrite Hc.
  - intros d n. rewrite Hdomains, elem_of_map_to_list. intros Hc. rewrite <- Hda. by rewrite Hc.
  - apply Sorted_merge_sort. apply _.
Qed.
End aggregation.

Definition demo_click (at_ : Z) (code : Z) : ClickEvent :=
  mkClickEvent "e" at_ "demo" "1" "example.com" code [] [] [].

Lemma GetAggregateStats_partitions_witness :
  let query := mkAggregateQuery (Some ("demo" : str)) None 0 (10 * ticks_per_second) (Some hour) in
  total_attempts (GetAggregateStats map_to_list map_to_list query
    [demo_click 5 302; demo_click 6 404; demo_click (10 * ticks_per_second) 302]) = 2%N.
Proof.
  intros query.
  pose proof (GetAggregateStats_partitions map_to_list map_to_list (fun _ => reflexivity _) (fun _ => reflexivity _)
    query [demo_click 5 302; demo_click 6 404; demo_click (10 * ticks_per_second) 302]) as (Ht & _).
  rewrite Ht. reflexivity.
Defined.

(** A time point lies in its bucket: the bucket starts at a multiple of its
    width, not after the time point, and ends after it. *)
Theorem bucket_start_contains (tp : Z) (b : AggregateBucket) :
  (0 ≤ tp < 2 ^ 63)%Z →
  ∃ k, (0 ≤ k)%Z ∧ bucket_start tp b = (k * bucket_width b * ticks_per_second)%Z ∧
       (bucket_start tp b ≤ tp < bucket_start tp b + bucket_width b * ticks_per_second)%Z.
Proof.
  intros Htp. unfold bucket_start. exists (Z.quot (Z.quot tp ticks_per_second) (bucket_width b)).
  assert (Hw : (0 < bucket_width b ≤ 604800)%Z) by (destruct b; simpl; lia).
  unfold ticks_per_second. rewrite (Z.quot_div_nonneg tp) by lia.
  rewrite Z.quot_div_nonneg by (try apply Z.div_pos; lia).
  set (s := (tp / 1000000000)%Z). set (w := bucket_width b) in *.
  assert (Hs : (s * 1000000000 ≤ tp < (s + 1) * 1000000000)%Z).
  { unfold s. pose proof (Z.div_mod tp 1000000000 ltac:(lia)). pose proof (Z.mod_pos_bound tp 1000000000 ltac:(lia)). lia. }
  assert (Hs0 : (0 ≤ s)%Z) by (unfold s; apply Z.div_pos; lia).
  assert (Hk : (s / w * w ≤ s < s / w * w + w)%Z).
  { pose proof (Z.div_mod s w ltac:(lia)). pose proof (Z.mod_pos_bound s w ltac:(lia)). lia. }
  assert (H0 : (0 ≤ s / w)%Z) by (apply Z.div_pos; lia).
  unfold from_time_t, wrap64, ticks_per_second. rewrite Z.mod_small by nia. split_and!; nia.
Qed.

Lemma bucket_start_contains_witness :
  ∃ k, (0 ≤ k)%Z ∧ bucket_start 7205000000000 hour = (k * 3600 * ticks_per_second)%Z.
Proof.
  destruct (bucket_start_contains 7205000000000 hour ltac:(lia)) as (k & Hk & Hb & _). eauto.
Defined.

(** ** The legacy queue is never drained *)
Definition offer (events : list QueuedEvent) (q : LegacyQueue.t) : LegacyQueue.t :=
  foldl (fun q e => (LegacyQueue.tryEnqueue e q).2) q events.

(** Bounded queue. With a fixed capacity the queue holds exactly the first
    [capacity] events ever offered, rejects the rest, and its two counters account
    for every event. *)
Theorem legacy_queue_keeps_first (c : nat) (events : list QueuedEvent) :
  let q := offer events (LegacyQueue.create c) in
  LegacyQueue.events q = take c events ∧ LegacyQueue.capacity q = c ∧
  LegacyQueue.enqueued_total q = N.of_nat (Nat.min c (length events)) ∧
  (LegacyQueue.enqueued_total q + LegacyQueue.dropped_total q = N.of_nat (length events))%N.
Proof.
  cbv zeta. induction events as [|e events (He & Hc & Hn & Hd)] using rev_ind.
  { simpl. rewrite take_nil. split_and!; try done; lia. }
  unfold offer in *. rewrite foldl_app. cbn [foldl].
  set (q := foldl _ _ events) in *. unfold LegacyQueue.tryEnqueue. rewrite Hc, He.
  rewrite length_take, length_app. cbn [length]. destruct (Nat.leb_spec c (c `min` length events)); simpl.
  - split_and!; [rewrite take_app_le by lia; done|done|lia|lia].
  - split_and!; [|done|lia|lia]. rewrite !take_ge; [done|rewrite length_app; simpl; lia|lia].
Qed.
