(* ===== verification/UriMap.v ===== *)
(** * UriMap: the legacy URI payload store (src/uri_map_singleton.cpp)

    The map behind the fallback routes and the text file that [main] loads at
    start-up and writes at shut-down. *)
From S2P Require Import Prelude Text.

(** [data_]: the payload and the content type of each URI. *)
Abbreviation UriData := (gmap str (str * str)).

Definition saveData (uri data content_type : str) (m : UriData) : UriData := <[uri := (data, content_type)]> m.

Definition deleteData (uri : str) (m : UriData) : bool * UriData :=
  match m !! uri with
  | Some _ => (true, delete uri m)
  | None => (false, m)
  end.

Definition getData (uri : str) (m : UriData) : option (str * str) := m !! uri.

(** ** The file *)
Definition newline : ascii := "010"%char.

(** [erase] after the last character that is not white space; a string of
    white space only is kept. *)
Definition strip_trailing (data : str) : str :=
  let kept := rev (drop_while is_trim_ws (rev data)) in
  if bool_decide (kept = []) then data else kept.

(** One record. The loop of [serialize] binds the names [content_type] and
    [data] to the first and the second component of the stored pair. *)
Definition write_record (entry : str * (str * str)) : str :=
  let '(uri, (content_type, data)) := entry in
  ("URI: " : str) ++ uri ++ [newline]
  ++ ("Content-Type: " : str) ++ content_type ++ [newline]
  ++ ("Data: " : str) ++ strip_trailing data ++ [newline]
  ++ ("RecordEnd" : str) ++ [newline].

Definition write_records (entries : list (str * (str * str))) : str := concat (map write_record entries).

(** The lines [std::getline] returns. *)
Abbreviation lines := (getlines newline).

Record ReadState := mkReadState {
  rs_uri : str;
  rs_content_type : str;
  rs_data : str;
  rs_map : UriData;
}.

(** One turn of the loop; [None] is [std::exit(EXIT_FAILURE)]. *)
Definition read_line (line : str) (st : ReadState) : option ReadState :=
  if starts_with "URI:" line then
    Some (mkReadState (drop 4 line) (rs_content_type st) (rs_data st) (rs_map st))
  else if starts_with "Content-Type:" line then
    Some (mkReadState (rs_uri st) (drop 13 line) (rs_data st) (rs_map st))
  else if starts_with "Data:" line then
    Some (mkReadState (rs_uri st) (rs_content_type st) (drop 5 line) (rs_map st))
  else if bool_decide (line = "RecordEnd") then
    if negb (bool_decide (rs_uri st = [])) && negb (bool_decide (rs_content_type st = []))
    then Some (mkReadState [] [] [] (<[rs_uri st := (rs_content_type st, rs_data st)]> (rs_map st)))
    else None
  else Some st.

Fixpoint read_lines (ls : list str) (st : ReadState) : option ReadState :=
  match ls with
  | [] => Some st
  | l :: ls' => st' ← read_line l st; read_lines ls' st'
  end.

Section file.
(** The iteration order of [std::unordered_map] is unspecified. *)
Context (iterate : UriData → list (str * (str * str))).

Definition serialize (m : UriData) : str := write_records (iterate m).
End file.

Definition deserialize (text : str) : option UriData :=
  rs_map <$> read_lines (lines text) (mkReadState [] [] [] ∅).

(** ** Reading back what was written *)
Definition one_line (s : str) : Prop := newline ∉ s.

Lemma lines_line l rest : one_line l → lines (l ++ newline :: rest) = l :: lines rest.
Proof. apply getlines_piece. Qed.

Lemma one_line_app s1 s2 : one_line s1 → one_line s2 → one_line (s1 ++ s2).
Proof. unfold one_line. set_solver. Qed.

Lemma strip_trailing_line s : one_line s → one_line (strip_trailing s).
Proof.
  unfold one_line, strip_trailing. intros Hs. case_bool_decide; [done|].
  destruct (drop_while_suffix is_trim_ws (rev s)) as (k & Hk & _).
  intros Hin. apply Hs. rewrite <- (rev_involutive s), Hk, rev_app_distr. set_solver.
Qed.

(** The entry [deserialize] stores for a written entry. *)
Definition reloaded (entry : str * (str * str)) : str * (str * str) :=
  let '(uri, (data, content_type)) := entry in
  (" "%char :: uri, (" "%char :: data, " "%char :: strip_trailing content_type)).

Definition one_line_entry (entry : str * (str * str)) : Prop :=
  one_line entry.1 ∧ one_line entry.2.1 ∧ one_line entry.2.2.

Lemma lines_record entry rest :
  one_line_entry entry →
  lines (write_record entry ++ rest)
  = (("URI: " : str) ++ entry.1) :: (("Content-Type: " : str) ++ entry.2.1)
    :: (("Data: " : str) ++ strip_trailing entry.2.2) :: ("RecordEnd" : str) :: lines rest.
Proof.
  destruct entry as [uri [data ct]]. intros (Hu & Hd & Hc). simpl in Hu, Hd, Hc.
  apply strip_trailing_line in Hc. cbn [fst snd].
  assert (Hw : write_record (uri, (data, ct)) ++ rest
    = (("URI: " : str) ++ uri) ++ newline :: (("Content-Type: " : str) ++ data) ++ newline
      :: (("Data: " : str) ++ strip_trailing ct) ++ newline :: ("RecordEnd" : str) ++ newline :: rest).
  { unfold write_record. rewrite <- !app_assoc. done. }
  rewrite Hw, !lines_line; [done|..]; try apply one_line_app; try done;
    unfold one_line; apply (bool_decide_unpack _); vm_compute; done.
Qed.

Lemma read_record entry ls st :
  rs_uri st = [] → rs_content_type st = [] → rs_data st = [] →
  read_lines ((("URI: " : str) ++ entry.1) :: (("Content-Type: " : str) ++ entry.2.1)
    :: (("Data: " : str) ++ strip_trailing entry.2.2) :: ("RecordEnd" : str) :: ls) st
  = read_lines ls (mkReadState [] [] [] (<[(reloaded entry).1 := (reloaded entry).2]> (rs_map st))).
Proof. destruct entry as [uri [data ct]], st. simpl. by intros -> -> ->. Qed.

Lemma read_written entries m :
  Forall one_line_entry entries →
  read_lines (lines (write_records entries)) (mkReadState [] [] [] m)
  = Some (mkReadState [] [] [] (foldl (fun (m : UriData) e => <[(reloaded e).1 := (reloaded e).2]> m) m entries)).
Proof.
  intros Hall. revert m. induction Hall as [|e entries He _ IH]; intros m; [done|].
  unfold write_records in *. simpl. rewrite lines_record by done. rewrite read_record by done. apply IH.
Qed.

(** Every key of the reloaded map starts with a space. *)
Lemma reloaded_keys (entries : list (str * (str * str))) (m : UriData) (uri : str) :
  (∀ k, is_Some (m !! k) → ∃ u, k = " "%char :: u) →
  is_Some (foldl (fun (m : UriData) e => <[(reloaded e).1 := (reloaded e).2]> m) m entries !! uri) →
  ∃ u, uri = " "%char :: u.
Proof.
  revert m. induction entries as [|[k [d c]] entries IH]; intros m Hm; simpl; [auto|].
  apply IH. intros k'. rewrite lookup_insert. case_decide; [|auto]. intros _. subst k'. eauto.
Qed.

(** What is saved at shut-down is not found after a restart. Whatever
    single-line payloads the URI store holds, writing the file and reading it back
    succeeds, but every key has gained a leading space, so a request target (which
    starts with a slash) finds nothing. *)
Theorem uri_store_lost_on_restart (iterate : UriData → list (str * (str * str))) (m : UriData) (target : str) :
  (∀ m, iterate m ≡ₚ map_to_list m) →
  map_Forall (fun uri dc => one_line uri ∧ one_line dc.1 ∧ one_line dc.2) m →
  ∃ m', deserialize (serialize iterate m) = Some m' ∧ getData ("/"%char :: target) m' = None.
Proof.
  intros Hiter Hm. unfold deserialize, serialize. rewrite read_written.
  - eexists. split; [done|]. unfold getData. apply eq_None_not_Some. simpl.
    intros (u & Hu)%reloaded_keys; [done|]. intros k [x Hx]. by rewrite lookup_empty in Hx.
  - rewrite Hiter. apply Forall_forall. intros [k [d c]] Hk%elem_of_map_to_list.
    by destruct (Hm _ _ Hk).
Qed.

Lemma uri_store_lost_on_restart_witness :
  let m := saveData "/page" "hello" "text/plain" ∅ in
  getData "/page" m = Some ("hello" : str, "text/plain" : str) ∧
  ∃ m', deserialize (serialize map_to_list m) = Some m' ∧ getData "/page" m' = None.
Proof.
  split; [reflexivity|]. apply (uri_store_lost_on_restart map_to_list); [done|].
  intros k v Hk. unfold saveData in Hk. apply lookup_insert_Some in Hk as [[<- <-]|[_ Hk]]; [|by rewrite lookup_empty in Hk].
  unfold one_line. simpl. split_and!; apply (bool_decide_unpack _); vm_compute; done.
Defined.

(** A stored payload can stop the next start. A body that contains a line
    [RecordEnd] closes its record early; the rest of the record is then an
    incomplete one, on which [deserialize] exits the process. *)
Theorem record_marker_in_payload_aborts_startup (uri content_type : str) :
  one_line uri → one_line content_type →
  deserialize (serialize map_to_list {[ uri := (("x" : str) ++ newline :: ("RecordEnd" : str), content_type) ]}) = None.
Proof.
  intros Hu Hc%strip_trailing_line. unfold deserialize, serialize. rewrite map_to_list_singleton.
  assert (Hw : write_records [(uri, (("x" : str) ++ newline :: ("RecordEnd" : str), content_type))]
    = (("URI: " : str) ++ uri) ++ newline :: ("Content-Type: x" : str) ++ newline :: ("RecordEnd" : str) ++ newline
      :: (("Data: " : str) ++ strip_trailing content_type) ++ newline :: ("RecordEnd" : str) ++ newline :: []).
  { unfold write_records, write_record. simpl. rewrite <- !app_assoc. simpl. rewrite app_nil_r. done. }
  rewrite Hw, !lines_line; [done|..]; try apply one_line_app; try done;
    unfold one_line; apply (bool_decide_unpack _); vm_compute; done.
Qed.

Lemma record_marker_in_payload_aborts_startup_witness :
  deserialize (serialize map_to_list {[ "/a" : str := (("x" : str) ++ newline :: ("RecordEnd" : str), "t" : str) ]}) = None.
Proof.
  apply record_marker_in_payload_aborts_startup; unfold one_line; apply (bool_decide_unpack _); vm_compute; done.
Defined.
