(* ===== verification/LinkJson.v ===== *)
(** * LinkJson: the JSON bodies of the link API

    [serializeLinkViewJson], [serializeLinkPreviewJson] and
    [serializeLinkStatsJson] (src/app/link_command_service.cpp). *)
From stdpp Require Import sorting.
From S2P Require Import Prelude Text Types Json Validation LinkStore LinkCommands ClickEvents.

(** ** The order of [std::string] *)
Fixpoint str_leb (a b : str) : bool :=
  match a, b with
  | [], _ => true
  | _ :: _, [] => false
  | x :: a', y :: b' => (code x <? code y)%N || ((code x =? code y)%N && str_leb a' b')
  end.

Definition key_le (a b : str * str) : Prop := str_leb a.1 b.1 = true.
#[export] Instance key_le_dec : RelDecision key_le.
Proof. intros a b. unfold Decision, key_le. apply bool_eq_dec. Defined.

(** ** Pieces *)
Definition json_pair (kv : str * str) : str := jsonString kv.1 ++ ":"%char :: jsonString kv.2.

(** The items of a metadata map, sorted by key. *)
Definition sorted_items (m : gmap str str) : list (str * str) := merge_sort key_le (map_to_list m).

Definition json_metadata (m : gmap str str) : str := comma_separated (map json_pair (sorted_items m)).

Definition json_optional (v : option str) : str :=
  match v with Some s => jsonString s | None => "null" end.

(** The campaign fields that are present, in the order of the source. *)
Definition campaign_fields (c : Campaign) : list (str * str) :=
  omap (fun '(k, v) => pair (k : str) <$> v)
    [("name" : str, cp_name c); ("source" : str, cp_source c); ("medium" : str, cp_medium c);
     ("term" : str, cp_term c); ("content" : str, cp_content c); ("id" : str, cp_id c)].

(** A text between braces. *)
Definition json_object (s : str) : str := "{"%char :: s ++ ["}"%char].

Definition json_campaign (c : option Campaign) : str :=
  match c with
  | Some c => json_object (comma_separated (map json_pair (campaign_fields c)))
  | None => "null"
  end.

Definition json_link_stats (s : Stats) : str :=
  json_object (json_text "'total_redirects':" ++ dec (total_redirects s)
    ++ json_text ",'redirects_24h':" ++ dec (redirects_24h s)
    ++ json_text ",'redirects_7d':" ++ dec (redirects_7d s)
    ++ json_text ",'last_accessed_at':" ++ json_optional (last_accessed_at s)).

(** ** The bodies *)
Definition serializeLinkViewJson (link : LinkView) : str :=
  json_object (json_text "'id':" ++ jsonString (lv_id link)
  ++ json_text ",'slug':" ++ jsonString (lv_slug link)
  ++ json_text ",'url':" ++ jsonString (lv_target_url link)
  ++ json_text ",'short_url':" ++ jsonString (lv_short_url link)
  ++ json_text ",'created_at':" ++ jsonString (lv_created_at link)
  ++ json_text ",'updated_at':" ++ jsonString (lv_updated_at link)
  ++ json_text ",'status':" ++ jsonString (linkStatusToString (lv_status link))
  ++ json_text ",'redirect_type':" ++ jsonString (redirectTypeToString (lv_redirect_type link))
  ++ json_text ",'tags':[" ++ comma_separated (map jsonString (lv_tags link))
  ++ json_text "],'metadata':" ++ json_object (json_metadata (lv_metadata link))
  ++ json_text ",'campaign':" ++ json_campaign (lv_campaign link)
  ++ json_text ",'stats':" ++ json_link_stats (lv_stats link)).

Definition json_bool (b : bool) : str := if b then "true" else "false".

Definition serializeLinkPreviewJson (link : LinkView) : str :=
  json_object (json_text "'slug':" ++ jsonString (lv_slug link)
  ++ json_text ",'url':" ++ jsonString (lv_target_url link)
  ++ json_text ",'status':" ++ jsonString (linkStatusToString (lv_status link))
  ++ json_text ",'redirect_type':" ++ jsonString (redirectTypeToString (lv_redirect_type link))
  ++ json_text ",'enabled':" ++ json_bool (lv_enabled link)
  ++ json_text ",'expires_at':" ++ json_optional (lv_expires_at link)
  ++ json_text ",'deleted_at':" ++ json_optional (lv_deleted_at link)).

Definition json_count (n : N) : str := dec (Z.of_N n).

(** [from] and [to] are written as given, not quoted. *)
Definition serializeLinkStatsJson (stats : LinkStatsView) : str :=
  json_object (json_text "'slug':" ++ jsonString (sv_slug stats)
  ++ json_text ",'total_attempts':" ++ json_count (sv_total_attempts stats)
  ++ json_text ",'successful_redirects':" ++ json_count (sv_successful_redirects stats)
  ++ json_text ",'attempts_by_status_code':"
  ++ json_object (comma_separated (map (fun '(c, n) => (dquote :: dec c ++ [dquote]) ++ ":"%char :: json_count n)
       (sv_status_code_counts stats)))
  ++ json_text ",'attempts_by_domain':"
  ++ json_object (comma_separated (map (fun '(d, n) => jsonString d ++ ":"%char :: json_count n)
       (sv_domain_counts stats)))
  ++ json_text ",'time_buckets':["
  ++ comma_separated (map (fun '(t, n) =>
       json_object (json_text "'bucket_start':" ++ dec t ++ json_text ",'count':" ++ json_count n))
       (sv_time_buckets stats))
  ++ json_text "],'from':" ++ sv_from stats
  ++ json_text ",'to':" ++ sv_to stats
  ++ json_text ",'bucket':" ++ jsonString (sv_bucket stats)).

(** ** The bodies are balanced

    [neutral s]: scanning [s] inside an object returns to the depth and the
    state it started in. *)
Definition neutral (s : str) : Prop :=
  ∀ rest d, (1 ≤ d)%Z →
    scan_bracket "{" "}" (s ++ rest) d false false = app s <$> scan_bracket "{" "}" rest d false false.

Lemma neutral_nil : neutral [].
Proof. intros rest d _. simpl. by destruct (scan_bracket _ _ _ _ _ _). Qed.

Lemma neutral_app s1 s2 : neutral s1 → neutral s2 → neutral (s1 ++ s2).
Proof. intros H1 H2 rest d Hd. by rewrite <- app_assoc, H1, H2, fmap_app_app by done. Qed.

Lemma neutral_string s : neutral (jsonString s).
Proof. intros rest d _. apply scan_bracket_string. Qed.

Definition is_plain (c : ascii) : bool :=
  negb (Ascii.eqb c dquote || Ascii.eqb c "{" || Ascii.eqb c "}" || Ascii.eqb c backslash || is_json_control c).

Lemma neutral_plain s : Forall (fun c => is_plain c = true) s → neutral s.
Proof.
  intros Hs rest d Hd. induction Hs as [|c s Hc _ IH]; [by apply neutral_nil|].
  unfold is_plain in Hc. cbn [app scan_bracket]. bool_simpl.
  repeat match goal with H : Ascii.eqb _ _ = false |- _ => rewrite H; clear H end.
  by rewrite IH, fmap_cons_app.
Qed.

Lemma plain_dec z : Forall (fun c => is_plain c = true) (dec z).
Proof.
  assert (Hp : ∀ n acc, Forall (fun c => is_plain c = true) (String.list_ascii_of_string acc) →
    Forall (fun c => is_plain c = true) (String.list_ascii_of_string (pretty_N_go n acc))).
  { intros n. induction (N.lt_wf_0 n) as [n _ IH]. intros acc Hacc.
    destruct (decide (0 < n)%N) as [Hn|Hn]; [rewrite pretty_N_go_step by done|].
    - apply IH; [by apply N.div_lt|]. constructor; [|done].
      unfold pretty_N_char. repeat case_match; done.
    - assert (n = 0%N) as -> by lia. by rewrite pretty_N_go_0. }
  assert (HN : ∀ n, Forall (fun c => is_plain c = true) (String.list_ascii_of_string (pretty (n : N)))).
  { intros n. unfold pretty, pretty_N. case_decide; [by repeat constructor|]. apply Hp. constructor. }
  unfold dec, pretty, pretty_Z. destruct z; [by repeat constructor| |]; [apply HN|].
  constructor; [done|apply HN].
Qed.

Lemma neutral_dec z : neutral (dec z).
Proof. apply neutral_plain, plain_dec. Qed.

Lemma neutral_count n : neutral (json_count n).
Proof. apply neutral_dec. Qed.

Lemma neutral_optional v : neutral (json_optional v).
Proof. destruct v; [apply neutral_string|]. apply neutral_plain. by repeat constructor. Qed.

Lemma neutral_object s : neutral s → neutral (json_object s).
Proof.
  intros Hs rest d Hd. unfold json_object. cbn [app scan_bracket]. cbn [Ascii.eqb Bool.eqb].
  rewrite <- app_assoc, Hs by lia. cbn [app scan_bracket]. cbn [Ascii.eqb Bool.eqb].
  destruct (Z.eqb_spec (d + 1 - 1) 0); [lia|]. replace (d + 1 - 1)%Z with d by lia.
  destruct (scan_bracket _ _ rest d false false); [|done]. simpl. by rewrite <- app_assoc.
Qed.

Lemma neutral_commas l : Forall neutral l → neutral (comma_separated l).
Proof.
  induction 1 as [|x l Hx Hl IH]; [apply neutral_nil|]. destruct l as [|y l]; [done|].
  change (comma_separated (x :: y :: l)) with (x ++ [","%char] ++ comma_separated (y :: l)).
  apply neutral_app; [done|]. apply neutral_app; [|done]. apply neutral_plain. by repeat constructor.
Qed.

(** A text between braces is read back whole by the bracket scanner. *)
Lemma scan_object s rest :
  neutral s → scan_bracket "{" "}" (json_object s ++ rest) 0 false false = Some (json_object s).
Proof.
  intros Hs. unfold json_object. cbn [app scan_bracket]. cbn [Ascii.eqb Bool.eqb].
  rewrite <- app_assoc, Hs by lia. cbn [app scan_bracket]. cbn [Ascii.eqb Bool.eqb]. simpl.
  done.
Qed.

(** Quoted keys and punctuation: text without braces in which every string is
    closed. *)
Fixpoint strings_closed (s : str) (in_string escape : bool) : bool :=
  match s with
  | [] => negb in_string
  | c :: s' =>
      if in_string then
        if escape then strings_closed s' true false
        else if Ascii.eqb c backslash then strings_closed s' true true
        else strings_closed s' (negb (Ascii.eqb c dquote)) false
      else negb (Ascii.eqb c "{") && negb (Ascii.eqb c "}") && strings_closed s' (Ascii.eqb c dquote) false
  end.

Lemma scan_strings_closed s in_string escape rest d :
  strings_closed s in_string escape = true → (in_string = false → escape = false) →
  scan_bracket "{" "}" (s ++ rest) d in_string escape = app s <$> scan_bracket "{" "}" rest d false false.
Proof.
  revert in_string escape. induction s as [|c s IH]; intros in_string escape; cbn [strings_closed app scan_bracket].
  { destruct in_string; [done|]. intros _ ->; [|done]. by destruct (scan_bracket _ _ _ _ _ _). }
  destruct in_string.
  - destruct escape; [intros; by rewrite IH, fmap_cons_app|].
    destruct (Ascii.eqb c backslash); [intros; by rewrite IH, fmap_cons_app|].
    destruct (Ascii.eqb c dquote); simpl; intros; by rewrite IH, fmap_cons_app.
  - intros H ->; [|done]. apply andb_true_iff in H as [[Ho Hc]%andb_true_iff Hs].
    apply negb_true_iff in Ho, Hc. rewrite Ho, Hc.
    destruct (Ascii.eqb c dquote); by rewrite IH, fmap_cons_app.
Qed.

Lemma neutral_text (s : string) : strings_closed (json_text s) false false = true → neutral (json_text s).
Proof. intros H rest d _. by apply scan_strings_closed. Qed.

#[export] Hint Resolve neutral_nil neutral_string neutral_dec neutral_count neutral_optional neutral_object : shortener.
#[export] Hint Extern 1 (neutral (json_text _)) => (apply neutral_text; vm_compute; reflexivity) : shortener.

(** Splits a concatenation into its pieces. *)
Ltac neutral_pieces :=
  repeat match goal with
  | |- neutral (_ ++ _) => apply neutral_app
  | |- neutral (json_object _) => apply neutral_object
  end.

Lemma neutral_pair kv : neutral (json_pair kv).
Proof.
  apply neutral_app; [apply neutral_string|]. apply (neutral_app [":"%char]); [|apply neutral_string].
  apply neutral_plain. by repeat constructor.
Qed.

Lemma jsonEscape_plain s : Forall (fun c => is_plain c = true) s → jsonEscape s = s.
Proof.
  induction 1 as [|c s Hc _ IH]; [done|]. unfold jsonEscape in *. simpl. rewrite IH.
  assert (Hec : escape_char c = [c]); [|by rewrite Hec]. revert Hc. by all_chars c.
Qed.

Lemma neutral_quoted_dec z : neutral (dquote :: dec z ++ [dquote]).
Proof.
  pose proof (neutral_string (dec z)) as H. unfold jsonString in H.
  by rewrite (jsonEscape_plain _ (plain_dec z)) in H.
Qed.

Lemma neutral_tags l : neutral (comma_separated (map jsonString l)).
Proof. apply neutral_commas, Forall_fmap, Forall_true. intros s. apply neutral_string. Qed.

Lemma neutral_pairs l : neutral (comma_separated (map json_pair l)).
Proof. apply neutral_commas, Forall_fmap, Forall_true. intros kv. apply neutral_pair. Qed.

Lemma neutral_counts {A} (f : A → str) (l : list (A * N)) :
  (∀ a, neutral (f a)) → neutral (comma_separated (map (fun '(a, n) => f a ++ ":"%char :: json_count n) l)).
Proof.
  intros Hf. apply neutral_commas, Forall_fmap, Forall_true. intros [a n]. simpl.
  apply neutral_app; [done|]. apply (neutral_app [":"%char]); [|apply neutral_count].
  apply neutral_plain. by repeat constructor.
Qed.

#[export] Hint Resolve neutral_tags neutral_pairs neutral_quoted_dec : shortener.

Lemma neutral_view_campaign c : neutral (json_campaign c).
Proof.
  destruct c as [c|]; [apply neutral_object, neutral_pairs|]. apply neutral_plain. by repeat constructor.
Qed.

Lemma neutral_bool b : neutral (json_bool b).
Proof. destruct b; apply neutral_plain; by repeat constructor. Qed.

#[export] Hint Resolve neutral_view_campaign neutral_bool : shortener.

(** No injection. Whatever the strings of a link are (slug, URL, tags,
    metadata, campaign, timestamps), the JSON bodies of the full view and of the
    preview are one balanced object: scanning from the first brace, strings
    skipped, closes exactly at the last character. *)
Theorem link_json_balanced (link : LinkView) (rest : str) :
  scan_bracket "{" "}" (serializeLinkViewJson link ++ rest) 0 false false = Some (serializeLinkViewJson link) ∧
  scan_bracket "{" "}" (serializeLinkPreviewJson link ++ rest) 0 false false = Some (serializeLinkPreviewJson link).
Proof.
  split; apply scan_object; unfold json_metadata, json_link_stats; neutral_pieces; auto with shortener.
Qed.
