(* ===== verification/Server.v ===== *)
(** * Server: process state and response builders

    The process-wide singletons the HTTP handlers act on, and the functions of
    src/http/request_handlers.cpp: request ids, metrics, the response builders
    and the legacy URI store. *)
From stdpp Require Import sorting.
From S2P Require Import Prelude Text Env Clock Types Json Validation LinkRepository LinkStore LinkCommands.
From S2P Require Import ClickEvents LinkJson UriMap Router.

(** ** State *)

(** [MetricsRegistry]; the counters are [uint64_t]. *)
Record Metrics := mkMetrics {
  inflight_requests : Z;
  parse_errors_total : Z;
  malformed_requests_total : Z;
  tls_reload_success_total : Z;
  tls_reload_failure_total : Z;
  http_requests_total : gmap str Z;
}.

Record Server := mkServer {
  s_env : Env;
  s_links : LinkStorage;
  s_clicks : list ClickEvent;
  s_queue : option LegacyQueue.t;
  s_uris : UriData;
  s_metrics : Metrics;
  s_invalid_ids : Z;
}.

Definition server_start (e : Env) (uris : UriData) : Server :=
  mkServer e empty_storage [] None uris (mkMetrics 0 0 0 0 0 ∅) 0.

(** Computations on one part of the state. *)
Definition with_env {A} (m : ST Env A) : ST Server A := fun s =>
  let '(a, e) := m (s_env s) in
  (a, mkServer e (s_links s) (s_clicks s) (s_queue s) (s_uris s) (s_metrics s) (s_invalid_ids s)).

Definition with_links {A} (m : ST LinkStorage A) : ST Server A := fun s =>
  let '(a, l) := m (s_links s) in
  (a, mkServer (s_env s) l (s_clicks s) (s_queue s) (s_uris s) (s_metrics s) (s_invalid_ids s)).

(** The command service built by [BuildLegacyLinkCommandService] works on the
    clock, the generator and the link store. *)
Definition with_service {A} (m : ST (Env * LinkStorage) A) : ST Server A := fun s =>
  let '(a, (e, l)) := m (s_env s, s_links s) in
  (a, mkServer e l (s_clicks s) (s_queue s) (s_uris s) (s_metrics s) (s_invalid_ids s)).

Definition with_uris {A} (m : ST UriData A) : ST Server A := fun s =>
  let '(a, u) := m (s_uris s) in
  (a, mkServer (s_env s) (s_links s) (s_clicks s) (s_queue s) u (s_metrics s) (s_invalid_ids s)).

Definition update_metrics (f : Metrics → Metrics) : ST Server unit := fun s =>
  (tt, mkServer (s_env s) (s_links s) (s_clicks s) (s_queue s) (s_uris s) (f (s_metrics s)) (s_invalid_ids s)).

Definition add_inflight (d : Z) (m : Metrics) : Metrics :=
  mkMetrics (u64 (inflight_requests m + d)) (parse_errors_total m) (malformed_requests_total m)
    (tls_reload_success_total m) (tls_reload_failure_total m) (http_requests_total m).
Definition add_parse_error (m : Metrics) : Metrics :=
  mkMetrics (inflight_requests m) (u64 (parse_errors_total m + 1)) (malformed_requests_total m)
    (tls_reload_success_total m) (tls_reload_failure_total m) (http_requests_total m).
Definition add_malformed (m : Metrics) : Metrics :=
  mkMetrics (inflight_requests m) (parse_errors_total m) (u64 (malformed_requests_total m + 1))
    (tls_reload_success_total m) (tls_reload_failure_total m) (http_requests_total m).
Definition count_request (key : str) (m : Metrics) : Metrics :=
  mkMetrics (inflight_requests m) (parse_errors_total m) (malformed_requests_total m)
    (tls_reload_success_total m) (tls_reload_failure_total m)
    (<[key := u64 (default 0%Z (http_requests_total m !! key) + 1)]> (http_requests_total m)).

(** ** Request fields *)

(** [req[name]]: empty when the field is absent. *)
Definition field_or_empty (req : Request) (name : str) : str := default [] (req_field req name).

(** [req.set(name, value)]. *)
Definition req_set (name value : str) (req : Request) : Request :=
  mkRequest (req_method req) (req_method_string req) (req_target req)
    (fun n => if bool_decide (n = name) then Some value else req_field req n) (req_body req).

Definition request_id_header : str := "X-Request-Id".
Definition internal_request_id_header : str := "X-Internal-Request-Id".

(** ** Request ids *)
Definition isValidRequestId (value : str) (max_len : nat) : bool :=
  if bool_decide (value = []) || (max_len <? length value) then false
  else forallb (fun c => is_alnum c || Ascii.eqb c "-" || Ascii.eqb c "_" || Ascii.eqb c ".") value.

(** One draw of a 64-bit value. *)
Definition draw_u64 : ST Env N := fun e =>
  ((N.of_nat (draws e (drawn e)) mod 2 ^ 64)%N, mkEnv (clock e) (ticks e) (draws e) (S (drawn e))).

(** The low [width] hexadecimal digits. *)
Fixpoint hex_digits (width : nat) (n : N) : str :=
  match width with
  | O => []
  | S w => hex_digits w (n / 16) ++ [hex_digit (n mod 16)]
  end.

Definition generateRequestId : ST Env str :=
  hi ← draw_u64;
  lo ← draw_u64;
  mret (hex_digits 16 hi ++ hex_digits 16 lo).

(** Writing a log line reads the clock twice, in this function and in the logger
    it hands the message to (see Observability for the line). *)
Definition logStructured : ST Env unit := _ ← currentTimestamp; _ ← system_now; mret tt.

(** [invalid_count.fetch_add(1)]. *)
Definition count_invalid_id : ST Server Z := fun s =>
  (s_invalid_ids s,
   mkServer (s_env s) (s_links s) (s_clicks s) (s_queue s) (s_uris s) (s_metrics s) (u64 (s_invalid_ids s + 1))).

Definition resolveRequestId (req : Request) (config : ServerConfig) : ST Server str :=
  let incoming := field_or_empty req request_id_header in
  if isValidRequestId incoming (request_id_max_length config) then mret incoming
  else
    (if bool_decide (incoming = []) then mret tt
     else
       n ← count_invalid_id;
       if bool_decide (n mod 100 = 0)%Z then with_env logStructured else mret tt);;
    with_env generateRequestId.

Definition requestIdFromRequest (req : Request) : ST Server str :=
  let internal := field_or_empty req internal_request_id_header in
  if negb (bool_decide (internal = [])) then mret internal
  else with_env generateRequestId.

(** ** Metrics *)
Definition statusClass (status : Z) : str := dec (Z.quot status 100) ++ "xx".

Definition recordHttpMetric (req : Request) (route_label : str) (status : Z) : ST Server unit :=
  update_metrics (count_request
    (("method=" : str) ++ req_method_string req ++ ",route=" ++ route_label
     ++ ",status_class=" ++ statusClass status)).

(** [std::map] iterates in the order of its keys. *)
Definition label_le (a b : str * Z) : Prop := str_leb a.1 b.1 = true.
#[export] Instance label_le_dec : RelDecision label_le.
Proof. intros a b. unfold Decision, label_le. apply bool_eq_dec. Defined.

Definition renderMetrics (m : Metrics) : str :=
  ("http_inflight_requests " : str) ++ dec (inflight_requests m) ++ [newline]
  ++ ("http_parse_errors_total " : str) ++ dec (parse_errors_total m) ++ [newline]
  ++ ("http_malformed_requests_total " : str) ++ dec (malformed_requests_total m) ++ [newline]
  ++ ("tls_reload_success_total " : str) ++ dec (tls_reload_success_total m) ++ [newline]
  ++ ("tls_reload_failure_total " : str) ++ dec (tls_reload_failure_total m) ++ [newline]
  ++ concat (map (fun '(labels, v) =>
       ("http_requests_total{" : str) ++ labels ++ ("} " : str) ++ dec v ++ [newline])
       (merge_sort label_le (map_to_list (http_requests_total m)))).

(** ** Response builders *)
Definition with_body (body : str) (r : Response) : Response :=
  mkResponse (res_status r) (res_fields r) (res_keep_alive r) body.
Definition with_keep_alive (b : bool) (r : Response) : Response :=
  mkResponse (res_status r) (res_fields r) b (res_body r).

Definition makeResponse (req : Request) (config : ServerConfig) (is_tls : bool) (status : Z)
    (body content_type : str) : ST Server Response :=
  let res := with_keep_alive false (res_set "Server" "simple-http" (new_response status)) in
  let res := if bool_decide (content_type = []) then res else res_set "Content-Type" content_type res in
  let res :=
    match hsts_max_age config with
    | Some age => if is_tls
        then res_set "Strict-Transport-Security" (("max-age=" : str) ++ dec age ++ "; includeSubDomains") res
        else res
    | None => res
    end in
  let res := if is_tls then res_set "X-Content-Type-Options" "nosniff" res else res in
  req_id ← requestIdFromRequest req;
  mret (with_body body (res_set request_id_header req_id res)).

Definition error_body (code message req_id : str) : str :=
  json_text "{'error':{'code':" ++ jsonString code ++ json_text ",'message':" ++ jsonString message
  ++ json_text ",'request_id':" ++ jsonString req_id ++ json_text "}}".

Definition makeApiErrorResponse (req : Request) (config : ServerConfig) (is_tls : bool) (status : Z)
    (code message : str) : ST Server Response :=
  req_id ← requestIdFromRequest req;
  makeResponse req config is_tls status (error_body code message req_id) "application/json".

Definition stripPort (host : str) : str :=
  match find_char ":" host with Some pos => take pos host | None => host end.

Definition makeRedirectResponse (req : Request) (config : ServerConfig) : ST Server Response :=
  let host0 := field_or_empty req "Host" in
  let host := stripPort (if bool_decide (host0 = []) then "localhost" else host0) in
  let location := ("https://" : str) ++ host
    ++ (if bool_decide (tls_port config = 443%Z) then [] else ":"%char :: dec (tls_port config))
    ++ req_target req in
  req_id ← requestIdFromRequest req;
  mret (with_body (("Use HTTPS" : str) ++ [newline])
    (res_set request_id_header req_id (res_set "Content-Type" "text/plain"
      (res_set "Location" location (new_response 308))))).

(** ** The legacy URI store *)
Definition line_of (s : string) : str := (s : str) ++ [newline].

Definition handleApplicationRequest (req : Request) (config : ServerConfig) (is_tls : bool) : ST Server Response :=
  let uri := req_target req in
  match req_method req with
  | v_get =>
      data ← with_uris (gets (getData uri));
      match data with
      | Some (payload, content_type) =>
          makeResponse req config is_tls 200 (payload ++ [newline]) content_type
      | None => makeResponse req config is_tls 404 (line_of "URI not found") "text/plain"
      end
  | v_post =>
      let given := field_or_empty req "Content-Type" in
      let content_type := if bool_decide (given = []) then ("application/octet-stream" : str) else given in
      with_uris (modify (saveData uri (req_body req) content_type));;
      makeResponse req config is_tls 200 (line_of "URI saved") "text/plain"
  | v_delete =>
      deleted ← with_uris (fun m => deleteData uri m);
      if (deleted : bool) then makeResponse req config is_tls 200 (line_of "Data deleted") "text/plain"
      else makeResponse req config is_tls 404 (line_of "URI not found") "text/plain"
  | _ => makeResponse req config is_tls 400 (line_of "Invalid method") "text/plain"
  end.

(** ** Slug generation with retry

    [generateUniqueSlug] with the generator as an argument. *)
Fixpoint unique_slug_loop {S} (exists_ : str → ST S bool) (generator : nat → ST S str)
    (len attempts : nat) : ST S (option str) :=
  match attempts with
  | O => mret None
  | Datatypes.S n =>
      candidate ← generator len;
      if isReservedSlug candidate then unique_slug_loop exists_ generator len n
      else
        taken ← exists_ candidate;
        if (taken : bool) then unique_slug_loop exists_ generator len n else mret (Some candidate)
  end.

Definition generateUniqueSlug (config : ServerConfig) (generator : nat → ST Server str) : ST Server (option str) :=
  unique_slug_loop (fun s => with_links (fun st => (repo_slugExists s (repo st), st))) generator
    (shortener_generated_slug_length config) 20.
