(* ===== verification/LinkHandlers.v ===== *)
(** * LinkHandlers: the REST handlers of the link API

    src/http/handlers/link_handlers.cpp, compatibility_handlers.cpp,
    fallback_handlers.cpp and observability_handlers.cpp. A request body is
    first read into a command; the first field that does not fit answers 400. *)
From S2P Require Import Prelude Text Env Clock Types Json Validation LinkRepository LinkStore LinkCommands.
From S2P Require Import ClickEvents LinkJson UriMap Router Server.

(** ** Reading a request *)
Definition pathValue (context : RouteContext) (name : str) : str := default [] (pathParam context name).

Definition getQueryParam (query_string key : str) : str :=
  let prefix := key ++ "=" in
  match find_str prefix query_string with
  | None => []
  | Some pos =>
      let value := drop (pos + length prefix) query_string in
      match find_char "&" value with Some e => take e value | None => value end
  end.

Definition extractCampaign (body : str) : option Campaign :=
  match extractJsonValueToken body "campaign" with
  | None => None
  | Some raw =>
      if bool_decide (raw = "null") then Some (mkCampaign None None None None None None)
      else if negb (enclosed_by "{" "}" raw) then None
      else Some (mkCampaign (extractJsonStringField raw "name") (extractJsonStringField raw "source")
             (extractJsonStringField raw "medium") (extractJsonStringField raw "term")
             (extractJsonStringField raw "content") (extractJsonStringField raw "id"))
  end.

(** A rejected field: the error code and message of a 400 answer. *)
Definition Rejected : Type := str * str.
Definition reject {A} (code message : string) : Rejected + A := inl (code : str, message : str).

#[local] Notation "x '<~' m ; k" := (match m with inl e => inl e | inr x => k end)
  (at level 20, m at level 100, k at level 200, right associativity).

Inductive CreateSlugFieldMode := slug_only | slug_or_code.

(** The fields of a creation request, in the order they are checked. *)
Definition read_redirect_type (body : str) : Rejected + option RedirectType :=
  match extractJsonStringField body "redirect_type" with
  | None => inr None
  | Some raw =>
      match parseRedirectType raw with
      | None => reject "invalid_redirect_type" "redirect_type must be temporary or permanent"
      | Some t => inr (Some t)
      end
  end.

Definition read_create_expiry (body : str) : Rejected + option str :=
  match extractJsonStringField body "expires_at" with
  | None => inr None
  | Some raw =>
      if is_present (parseRfc3339Zulu raw) then inr (Some raw)
      else reject "invalid_expires_at" "expires_at must be RFC3339 UTC"
  end.

Definition read_enabled (body : str) : Rejected + option bool :=
  if hasJsonField body "enabled" then
    match extractJsonBoolField body "enabled" with
    | None => reject "invalid_enabled" "enabled must be boolean"
    | Some b => inr (Some b)
    end
  else inr None.

Definition read_tags (body : str) : Rejected + option (list str) :=
  if hasJsonField body "tags" then
    match extractJsonStringArrayField body "tags" with
    | None => reject "invalid_tags" "tags must be string array"
    | Some t => inr (Some t)
    end
  else inr None.

Definition read_create_metadata (body : str) : Rejected + option (gmap str str) :=
  if hasJsonField body "metadata" then
    match extractJsonFlatObjectStringField body "metadata" with
    | None => reject "invalid_metadata" "metadata must be flat object with limits"
    | Some m => inr (Some m)
    end
  else inr None.

(** The outer option says whether the field is present. *)
Definition read_campaign (body : str) (message : string) : Rejected + option (option Campaign) :=
  if hasJsonField body "campaign" then
    if bool_decide (extractJsonValueToken body "campaign" = Some ("null" : str)) then inr (Some None)
    else
      match extractCampaign body with
      | None => reject "invalid_campaign" message
      | Some c => inr (Some (Some c))
      end
  else inr None.

Definition first_present {A} (a b : option A) : option A := match a with Some _ => a | None => b end.

Definition read_create (slug_mode : CreateSlugFieldMode) (body : str) : Rejected + CreateLinkCommand :=
  match first_present (extractJsonStringField body "url") (extractJsonStringField body "target_url") with
  | None => reject "invalid_url" "url is required"
  | Some raw_url =>
      let slug := first_present (extractJsonStringField body "slug")
        match slug_mode with
        | slug_only => None
        | slug_or_code => extractJsonStringField body "code"
        end in
      redirect_type <~ read_redirect_type body;
      expires_at <~ read_create_expiry body;
      enabled <~ read_enabled body;
      tags <~ read_tags body;
      metadata <~ read_create_metadata body;
      campaign <~ read_campaign body "campaign must be valid object";
      if hasJsonField body "deleted_at" then reject "invalid_request" "deleted_at is server-managed"
      else inr (mkCreateLinkCommand raw_url slug redirect_type expires_at enabled
             (default [] tags) (default ∅ metadata) (mjoin campaign))
  end.

(** The fields of a patch, in the order they are checked. *)
Definition read_patch_expiry (body : str) : Rejected + option (option str) :=
  if hasJsonField body "expires_at" then
    match extractJsonValueToken body "expires_at" with
    | None => reject "invalid_expires_at" "expires_at must be RFC3339 UTC or null"
    | Some token =>
        if bool_decide (token = "null") then inr (Some None)
        else
          match extractJsonStringField body "expires_at" with
          | Some v =>
              if is_present (parseRfc3339Zulu v) then inr (Some (Some v))
              else reject "invalid_expires_at" "expires_at must be RFC3339 UTC or null"
          | None => reject "invalid_expires_at" "expires_at must be RFC3339 UTC or null"
          end
    end
  else inr None.

Definition read_patch_tags (body : str) : Rejected + option (list str) :=
  tags <~ read_tags body;
  match tags with
  | None => inr None
  | Some t =>
      match validateTags t with
      | None => reject "invalid_tags" "tags violate constraints"
      | Some normalized => inr (Some normalized)
      end
  end.

Definition read_patch_metadata (body : str) : Rejected + option (gmap str str) :=
  if hasJsonField body "metadata" then
    match extractJsonFlatObjectStringField body "metadata" with
    | Some m =>
        if validateMetadata m then inr (Some m)
        else reject "invalid_metadata" "metadata must be flat object with string values"
    | None => reject "invalid_metadata" "metadata must be flat object with string values"
    end
  else inr None.

Definition read_patch_campaign (body : str) : Rejected + option (option Campaign) :=
  campaign <~ read_campaign body "campaign must be object or null";
  match campaign with
  | Some (Some c) =>
      if validateCampaign (Some c) then inr (Some (Some c))
      else reject "invalid_campaign" "campaign fields exceed limits"
  | other => inr other
  end.

Definition read_patch (slug body : str) : Rejected + UpdateLinkCommand :=
  enabled <~ read_enabled body;
  expires_at <~ read_patch_expiry body;
  tags <~ read_patch_tags body;
  metadata <~ read_patch_metadata body;
  campaign <~ read_patch_campaign body;
  inr (mkUpdateLinkCommand slug enabled expires_at tags metadata campaign).

(** ** Answers *)
Definition statusForAppError (code : AppErrorCode.t) : Z :=
  match code with
  | AppErrorCode.reserved_slug | AppErrorCode.slug_conflict => 409
  | AppErrorCode.not_found => 404
  | AppErrorCode.storage_failure | AppErrorCode.internal => 500
  | AppErrorCode.invalid_url | AppErrorCode.invalid_slug | AppErrorCode.invalid_field
  | AppErrorCode.none => 400
  end.

Definition codeForAppError (error : AppError) : str :=
  if bool_decide (err_detail error = "invalid_timestamp") || bool_decide (err_detail error = "invalid_bucket")
  then err_detail error
  else
    match err_code error with
    | AppErrorCode.invalid_url => "invalid_url"
    | AppErrorCode.invalid_slug => "invalid_slug"
    | AppErrorCode.reserved_slug => "reserved_slug"
    | AppErrorCode.slug_conflict => "slug_conflict"
    | AppErrorCode.not_found => "not_found"
    | AppErrorCode.storage_failure => "repository"
    | AppErrorCode.invalid_field => "invalid_request"
    | AppErrorCode.internal | AppErrorCode.none => "internal_error"
    end.

Definition appErrorResponse (req : Request) (config : ServerConfig) (is_tls : bool) (error : AppError)
    : ST Server Response :=
  makeApiErrorResponse req config is_tls (statusForAppError (err_code error)) (codeForAppError error)
    (err_detail error).

Definition linkNotFound (req : Request) (config : ServerConfig) (is_tls : bool) : ST Server Response :=
  makeApiErrorResponse req config is_tls 404 "not_found" "Link not found".

Definition rejectedResponse (req : Request) (config : ServerConfig) (is_tls : bool) (r : Rejected)
    : ST Server Response :=
  makeApiErrorResponse req config is_tls 400 r.1 r.2.

(** The answer to a command that returns a view: [*result.value] is only read
    when the result is ok. *)
Definition answer_view (req : Request) (config : ServerConfig) (is_tls : bool) (status : Z)
    (print : LinkView → str) (result : Result LinkView) : ST Server Response :=
  match ok result, res_value result with
  | true, Some view => makeResponse req config is_tls status (print view) "application/json"
  | _, _ => appErrorResponse req config is_tls (res_error result)
  end.

(** ** Handlers *)
Definition createLinkFromRequest (req : Request) (config : ServerConfig) (is_tls : bool)
    (slug_mode : CreateSlugFieldMode) : ST Server Response :=
  match read_create slug_mode (req_body req) with
  | inl r => rejectedResponse req config is_tls r
  | inr command =>
      result ← with_service (CreateLink config command);
      answer_view req config is_tls 201 serializeLinkViewJson result
  end.

Definition handleCreateLink : HandlerFn Server := fun req config is_tls _ =>
  createLinkFromRequest req config is_tls slug_only.

Definition handleCompatCreateLink : HandlerFn Server := fun req config is_tls _ =>
  createLinkFromRequest req config is_tls slug_or_code.

Definition handleGetLinkById : HandlerFn Server := fun req config is_tls context =>
  result ← with_service (GetLink config (by_link_id (pathValue context "id")));
  answer_view req config is_tls 200 serializeLinkViewJson result.

Definition handleGetLinkBySlug : HandlerFn Server := fun req config is_tls context =>
  result ← with_service (GetLink config (by_slug (pathValue context "slug")));
  answer_view req config is_tls 200 serializeLinkViewJson result.

Definition handleCompatGetLinkBySlug : HandlerFn Server := handleGetLinkBySlug.

Definition handlePatchLink : HandlerFn Server := fun req config is_tls context =>
  let slug := pathValue context "slug" in
  existing ← with_service (GetLink config (by_slug slug));
  if negb (ok existing) then appErrorResponse req config is_tls (res_error existing)
  else
    match read_patch slug (req_body req) with
    | inl r => rejectedResponse req config is_tls r
    | inr command =>
        result ← with_service (UpdateLink config command);
        answer_view req config is_tls 200 serializeLinkViewJson result
    end.

Definition handleDeleteLink : HandlerFn Server := fun req config is_tls context =>
  result ← with_service (DeleteLink config (pathValue context "slug"));
  answer_view req config is_tls 200 serializeLinkViewJson result.

Definition handlePreviewLink : HandlerFn Server := fun req config is_tls context =>
  result ← with_service (PreviewLink config (by_slug (pathValue context "slug")));
  answer_view req config is_tls 200 serializeLinkPreviewJson result.

Definition handlePlaceholderFeature : HandlerFn Server := fun req config is_tls context =>
  link ← with_links (getLinkForRead (pathValue context "slug"));
  match link with
  | None => linkNotFound req config is_tls
  | Some _ =>
      makeApiErrorResponse req config is_tls 501 "feature_not_enabled"
        "Feature placeholder only; implementation deferred"
  end.

Definition handleLifecycleAction (action : string) : HandlerFn Server := fun req config is_tls context =>
  let slug := pathValue context "slug" in
  result ← with_service
    (if bool_decide (action = "restore"%string) then RestoreLink config slug
     else SetLinkEnabled config slug (bool_decide (action = "enable"%string)));
  answer_view req config is_tls 200 serializeLinkViewJson result.

Definition handleEnableLink : HandlerFn Server := handleLifecycleAction "enable".
Definition handleDisableLink : HandlerFn Server := handleLifecycleAction "disable".
Definition handleRestoreLink : HandlerFn Server := handleLifecycleAction "restore".

(** The counters kept on the link itself. *)
Definition link_stats_body (link : Link) : str :=
  json_object (json_text "'slug':" ++ jsonString (slug link)
    ++ json_text ",'total_redirects':" ++ dec (total_redirects (stats link))
    ++ json_text ",'redirects_24h':" ++ dec (redirects_24h (stats link))
    ++ json_text ",'redirects_7d':" ++ dec (redirects_7d (stats link))
    ++ json_text ",'last_accessed_at':" ++ json_optional (last_accessed_at (stats link))
    ++ json_text ",'created_at':" ++ jsonString (created_at link)).

Section stats_handler.
Context (iterate_codes : gmap Z N → list (Z * N)) (iterate_domains : gmap str N → list (str * N)).

Definition handleLinkStats : HandlerFn Server := fun req config is_tls context =>
  let slug := pathValue context "slug" in
  let from_param := getQueryParam (query_string context) "from" in
  let to_param := getQueryParam (query_string context) "to" in
  let bucket_param := getQueryParam (query_string context) "bucket" in
  if negb (bool_decide (from_param = [])) && negb (bool_decide (to_param = []))
     && negb (bool_decide (bucket_param = []))
  then
    result ← gets (fun s => read_stats iterate_codes iterate_domains
      (mkGetLinkStatsQuery slug from_param to_param bucket_param) (s_clicks s));
    match ok result, res_value result with
    | true, Some view => makeResponse req config is_tls 200 (serializeLinkStatsJson view) "application/json"
    | _, _ => appErrorResponse req config is_tls (res_error result)
    end
  else
    link ← with_links (getLinkForRead slug);
    match link with
    | None => linkNotFound req config is_tls
    | Some link => makeResponse req config is_tls 200 (link_stats_body link) "application/json"
    end.
End stats_handler.

(** ** Observability and fallback *)
Definition handleHealthz : HandlerFn Server := fun req config is_tls _ =>
  makeResponse req config is_tls 200 (line_of "ok") "text/plain".

Definition handleReadyz : HandlerFn Server := fun req config is_tls _ =>
  makeResponse req config is_tls 200 (line_of "ok") "text/plain".

Definition handleMetrics : HandlerFn Server := fun req config is_tls _ =>
  body ← gets (fun s => renderMetrics (s_metrics s));
  makeResponse req config is_tls 200 body "text/plain".

Definition isReservedFallbackPath (req : Request) : bool :=
  let path := target_path (req_target req) in
  starts_with "/api/" path || starts_with "/r/" path.

Definition handleFallbackUriStore : HandlerFn Server := fun req config is_tls _ =>
  if isReservedFallbackPath req
  then makeApiErrorResponse req config is_tls 404 "not_found" "Route not found"
  else handleApplicationRequest req config is_tls.
