(* ===== verification/RedirectHandlers.v ===== *)
(** * RedirectHandlers: following a short link (src/http/handlers/redirect_handlers.cpp)

    The two redirect routes, the statistics they update and the click events
    they emit. *)
From S2P Require Import Prelude Text Env Clock Types Json Validation LinkRepository LinkStore LinkCommands.
From S2P Require Import ClickEvents LinkJson UriMap Router Server LinkHandlers.

(** [headerString] (src/core/utils.cpp). *)
Definition headerString (req : Request) (name : str) (max_len : nat) : option str :=
  (fun v => clampString v max_len) <$> req_field req name.

(** The policy hooks (src/core/utils.cpp) let every request through. *)
Definition passwordGuardCheck (link : Link) (req : Request) : bool := true.
Definition rateLimitGuardAllow (link : Link) (req : Request) : bool := true.

Definition record_click (event : ClickEvent) : ST Server unit := fun s =>
  (tt, mkServer (s_env s) (s_links s) (InsertBatch [event] (s_clicks s)) (s_queue s) (s_uris s)
         (s_metrics s) (s_invalid_ids s)).

Definition enqueue_click (config : ServerConfig) (event : QueuedEvent) : ST Server bool := fun s =>
  let '(b, q) := LegacyQueue.tryEnqueue event (LegacyQueue.analyticsQueue config (s_queue s)) in
  (b, mkServer (s_env s) (s_links s) (s_clicks s) (Some q) (s_uris s) (s_metrics s) (s_invalid_ids s)).

Definition redirectResponse (req : Request) (link : Link) (redirect_status : Z) : ST Server Response :=
  req_id ← requestIdFromRequest req;
  mret (with_keep_alive false (res_set request_id_header req_id
    (res_set "Location" (target_url link) (res_set "Server" "simple-http" (new_response redirect_status))))).

(** One more redirect; the counters are [uint64_t]. *)
Definition count_redirect (now : str) (s : Stats) : Stats :=
  mkStats (u64 (total_redirects s + 1)) (u64 (redirects_24h s + 1)) (u64 (redirects_7d s + 1)) (Some now).

Definition incrementRedirectStats (link : Link) : ST Server unit :=
  now ← with_env currentTimestamp;
  _ ← with_links (updateLinkAndInvalidateCache (set_stats (count_redirect now (stats link)) link));
  mret tt.

Section redirect.
(** HMAC-SHA256 of a message under a key (OpenSSL). *)
Context (hmac_sha256 : str → str → str).

Definition hashClientIdentifier (raw_client salt : str) : str := hexEncode (hmac_sha256 salt raw_client).

Definition emitClickEvent (req : Request) (config : ServerConfig) (slug : str) (link : option Link)
    (status_code : Z) : ST Server unit :=
  if negb (analytics_enabled config) then mret tt
  else
    event_id ← with_env generateId;
    occurred_at ← with_env currentTimestamp;
    let domain := clampString (stripPort (field_or_empty req "Host")) 255 in
    let referrer := headerString req "Referer" 512 in
    let user_agent := headerString req "User-Agent" 512 in
    let forwarded_for := field_or_empty req "X-Forwarded-For" in
    let client_source :=
      if bool_decide (forwarded_for = []) then ("unknown" : str) else clampString forwarded_for 128 in
    let client_id_hash := hashClientIdentifier client_source (analytics_client_hash_salt config) in
    now ← with_env system_now;
    record_click (mkClickEvent event_id now slug (default [] (id <$> link)) domain status_code
      (default [] referrer) (default [] user_agent) client_id_hash);;
    _ ← enqueue_click config (mkQueuedEvent event_id occurred_at slug (id <$> link) domain status_code
      referrer user_agent client_id_hash);
    mret tt.

(** An answer with its click event. *)
Definition click_error (req : Request) (config : ServerConfig) (is_tls : bool) (slug : str)
    (link : option Link) (status : Z) (code message : string) : ST Server Response :=
  emitClickEvent req config slug link status;;
  makeApiErrorResponse req config is_tls status code message.

Definition linkStateError (req : Request) (config : ServerConfig) (is_tls : bool) (slug : str)
    (link : option Link) : ST Server Response :=
  let missing := click_error req config is_tls slug link 404 "not_found" "Link not found" in
  match link with
  | None => missing
  | Some l =>
      status ← with_env (resolveLinkStatus l);
      match status with
      | deleted => click_error req config is_tls slug link 404 "link_deleted" "Link not found"
      | disabled => click_error req config is_tls slug link 410 "link_disabled" "Link is disabled"
      | expired => click_error req config is_tls slug link 410 "link_expired" "Link has expired"
      | active => missing
      end
  end.

(** What both redirect routes do once the slug is known to be well-formed. *)
Definition follow_link (req : Request) (config : ServerConfig) (is_tls : bool) (slug : str)
    : ST Server Response :=
  found ← with_links (getLinkForRead slug);
  match found with
  | None => linkStateError req config is_tls slug None
  | Some link =>
      status ← with_env (resolveLinkStatus link);
      if negb (bool_decide (status = active)) then linkStateError req config is_tls slug (Some link)
      else if negb (passwordGuardCheck link req) || negb (rateLimitGuardAllow link req)
      then makeApiErrorResponse req config is_tls 429 "feature_not_enabled" "Request blocked by policy hook"
      else
        incrementRedirectStats link;;
        emitClickEvent req config slug (Some link) (redirectStatusFor link);;
        redirectResponse req link (redirectStatusFor link)
  end.

Definition handlePrefixedRedirect : HandlerFn Server := fun req config is_tls context =>
  let slug := pathValue context "slug" in
  if negb (isValidSlug slug)
  then click_error req config is_tls slug None 404 "not_found" "Short code not found"
  else follow_link req config is_tls slug.

Definition handleRootRedirect : HandlerFn Server := fun req config is_tls context =>
  let slug := pathValue context "slug" in
  if negb (bool_decide (req_method req = v_get)) then handleApplicationRequest req config is_tls
  else if negb (bool_decide (query_string context = [])) then handleApplicationRequest req config is_tls
  else if negb (isValidSlug slug) then handleApplicationRequest req config is_tls
  else follow_link req config is_tls slug.
End redirect.
