(* ===== verification/HttpServer.v ===== *)
(** * HttpServer: the application's routes and sessions

    The route table (src/http/router_builder.cpp), the route labels
    (src/http/route_registry.cpp) and the handling of one request by a session
    (src/http/http_session.cpp). The server runs on one thread, so a request is
    handled from start to end before the next one. *)
From S2P Require Import Prelude Text Env Clock Types Json Validation LinkRepository LinkStore LinkCommands.
From S2P Require Import ClickEvents LinkJson UriMap Router Server LinkHandlers RedirectHandlers.

(** What the modelled code takes from the platform. *)
Record Platform := mkPlatform {
  hmac_sha256 : str → str → str;
  iterate_codes : gmap Z N → list (Z * N);
  iterate_domains : gmap str N → list (str * N);
}.

(** ** Route labels *)
Definition routeLabelForTarget (target : str) : str :=
  if bool_decide (target = "/metrics") then "metrics"
  else if bool_decide (target = "/healthz") then "healthz"
  else if bool_decide (target = "/readyz") then "readyz"
  else if starts_with "/r/" target then "redirect_prefixed"
  else if starts_with "/api/v1/links" target || starts_with "/api/v1/short-urls" target then "api_links"
  else if (1 <? length target) && bool_decide (head target = Some "/"%char) then "redirect_root"
  else "app".

Section application.
Context (P : Platform).

(** ** [RouterBuilder::buildApplicationRouter] *)
Definition application_routes : list (RouteEntry Server) :=
  let prefixed := handlePrefixedRedirect (hmac_sha256 P) in
  let root := handleRootRedirect (hmac_sha256 P) in
  let stats := handleLinkStats (iterate_codes P) (iterate_domains P) in
  [ mkRoute v_get "/healthz" "healthz" handleHealthz;
    mkRoute v_get "/readyz" "readyz" handleReadyz;
    mkRoute v_get "/metrics" "metrics" handleMetrics;
    mkRoute v_get "/api/v1/links/id/{id}" "api_links" handleGetLinkById;
    mkRoute v_get "/api/v1/links/{slug}/preview" "api_links" handlePreviewLink;
    mkRoute v_get "/api/v1/links/{slug}/qr" "api_links" handlePlaceholderFeature;
    mkRoute v_get "/api/v1/links/{slug}/routing" "api_links" handlePlaceholderFeature;
    mkRoute v_get "/api/v1/links/{slug}/stats" "api_links" stats;
    mkRoute v_post "/api/v1/links/{slug}/enable" "api_links" handleEnableLink;
    mkRoute v_post "/api/v1/links/{slug}/disable" "api_links" handleDisableLink;
    mkRoute v_post "/api/v1/links/{slug}/restore" "api_links" handleRestoreLink;
    mkRoute v_get "/api/v1/links/{slug}" "api_links" handleGetLinkBySlug;
    mkRoute v_patch "/api/v1/links/{slug}" "api_links" handlePatchLink;
    mkRoute v_delete "/api/v1/links/{slug}" "api_links" handleDeleteLink;
    mkRoute v_post "/api/v1/links" "api_links" handleCreateLink;
    mkRoute v_post "/api/v1/short-urls" "api_links" handleCompatCreateLink;
    mkRoute v_get "/api/v1/short-urls/{slug}" "api_links" handleCompatGetLinkBySlug;
    mkRoute v_get "/r/{slug}" "redirect_prefixed" prefixed;
    mkRoute v_get "/{slug}" "redirect_root" root;
    mkRoute v_get "/{path}" "redirect_root" handleFallbackUriStore;
    mkRoute v_post "/{path}" "redirect_root" handleFallbackUriStore;
    mkRoute v_delete "/{path}" "redirect_root" handleFallbackUriStore;
    mkRoute v_get "/" "app" handleFallbackUriStore;
    mkRoute v_post "/" "app" handleFallbackUriStore;
    mkRoute v_delete "/" "app" handleFallbackUriStore ].

Definition applicationErrorHandler : ErrorHandlerFn Server := makeApiErrorResponse.

Definition handleShortenerRequest (req : Request) (config : ServerConfig) (is_tls : bool) : ST Server Response :=
  dispatch applicationErrorHandler application_routes req config is_tls.

(** ** Sessions *)

(** [PlainSession::onRead] and [TlsSession::onRead] between the read and the
    write; [None] is a read error. Only the plain session redirects to HTTPS. *)
Definition answer_request (req : Request) (config : ServerConfig) (is_tls : bool) : ST Server Response :=
  if (max_request_target_length config <? N.of_nat (length (req_target req)))%N then
    update_metrics add_malformed;;
    makeApiErrorResponse req config is_tls 414 "target_too_large" "request target too large"
  else if (max_request_body_bytes config <? N.of_nat (length (req_body req)))%N then
    update_metrics add_malformed;;
    makeApiErrorResponse req config is_tls 413 "payload_too_large" "request body too large"
  else if negb is_tls && http_redirect_to_https config && tls_enabled config
  then makeRedirectResponse req config
  else handleShortenerRequest req config is_tls.

Definition onRead (config : ServerConfig) (is_tls : bool) (incoming : option Request)
    : ST Server (option Response) :=
  match incoming with
  | None => update_metrics add_parse_error;; mret None
  | Some req0 =>
      request_id ← resolveRequestId req0 config;
      let route_label := routeLabelForTarget (req_target req0) in
      let req := req_set internal_request_id_header request_id req0 in
      update_metrics (add_inflight 1);;
      res ← answer_request req config is_tls;
      update_metrics (add_inflight (-1));;
      recordHttpMetric req route_label (res_status res);;
      with_env logStructured;;
      mret (Some res)
  end.

(** The two kinds of session differ in the flag only. *)
Definition PlainSession_onRead (config : ServerConfig) (incoming : option Request) : ST Server (option Response) :=
  onRead config false incoming.
Definition TlsSession_onRead (config : ServerConfig) (incoming : option Request) : ST Server (option Response) :=
  onRead config true incoming.
End application.
