(* ===== verification/HttpInvariants.v ===== *)
(** * HttpInvariants: what any request does to the server

    Every handler is a computation on the process state; the invariants are
    proved by composing the steps of the handlers. *)
From stdpp Require Import relations.
From S2P Require Import Prelude Text Env Clock Types Url Json Validation LinkRepository LinkStore LinkCommands.
From S2P Require Import LinkLifecycle ClickEvents LinkJson UriMap Router Server LinkHandlers RedirectHandlers HttpServer.

(** The table of links the server holds. *)
Definition link_table (s : Server) : gmap str Link := repo_links (repo (s_links s)).

(** What a request may not change in a stored link. *)
Definition link_kept (l l' : Link) : Prop :=
  id l' = id l ∧ slug l' = slug l ∧ target_url l' = target_url l ∧ created_at l' = created_at l ∧
  redirect_type l' = redirect_type l.

(** ** Steps *)

(** What a request may do to a consistent server: the metrics are left to the
    session, the store stays consistent, no link is lost or loses its identity,
    and valid links stay valid. *)
Record server_step (config : ServerConfig) (s s' : Server) : Prop := {
  ss_metrics : s_metrics s' = s_metrics s;
  ss_wf : storage_wf (s_links s');
  ss_kept : ∀ sl l, link_table s !! sl = Some l → ∃ l', link_table s' !! sl = Some l' ∧ link_kept l l';
  ss_valid : map_Forall (fun _ => link_ok config) (link_table s) → map_Forall (fun _ => link_ok config) (link_table s');
}.

#[export] Instance link_kept_preorder : PreOrder link_kept.
Proof. unfold link_kept. split; [by intros l|intros l1 l2 l3; intuition congruence]. Qed.

#[export] Instance server_step_trans config : Transitive (server_step config).
Proof.
  intros s1 s2 s3 [Hm1 Hw1 Hk1 Hv1] [Hm2 Hw2 Hk2 Hv2]. split; [congruence|done| |eauto].
  intros sl l Hl. destruct (Hk1 sl l Hl) as (l2 & Hl2 & H12).
  destruct (Hk2 sl l2 Hl2) as (l3 & Hl3 & H23). exists l3. split; [done|by etrans].
Qed.

(** Steps that touch neither the table of links nor the metrics. *)
Lemma server_step_other config s s' :
  storage_wf (s_links s') → link_table s' = link_table s → s_metrics s' = s_metrics s → server_step config s s'.
Proof.
  intros Hwf Hl Hm. split; rewrite ?Hl; try done. intros sl l H. exists l. by split.
Qed.

Section preserves.
Context (config : ServerConfig).

Definition preserves {A} (m : ST Server A) : Prop :=
  ∀ s, storage_wf (s_links s) → server_step config s (m s).2.

Lemma preserves_ret {A} (a : A) : preserves (mret a).
Proof. intros s Hwf. by apply server_step_other. Qed.

Lemma preserves_bind {A B} (m : ST Server A) (k : A → ST Server B) :
  preserves m → (∀ a, preserves (k a)) → preserves (m ≫= k).
Proof. intros Hm Hk s Hwf. rewrite ST_bind_eq. destruct (Hm s Hwf) as [? Hwf' ? ?] eqn:E. etrans; [by apply Hm|by apply Hk]. Qed.

Lemma preserves_env {A} (m : ST Env A) : preserves (with_env m).
Proof. intros s Hwf. unfold with_env. destruct (m (s_env s)). by apply server_step_other. Qed.

Lemma preserves_uris {A} (m : ST UriData A) : preserves (with_uris m).
Proof. intros s Hwf. unfold with_uris. destruct (m (s_uris s)). by apply server_step_other. Qed.

Lemma preserves_gets {A} (f : Server → A) : preserves (gets f).
Proof. intros s Hwf. by apply server_step_other. Qed.

Lemma preserves_count_invalid : preserves count_invalid_id.
Proof. intros s Hwf. by apply server_step_other. Qed.

Lemma preserves_record e : preserves (record_click e).
Proof. intros s Hwf. by apply server_step_other. Qed.

Lemma preserves_enqueue e : preserves (enqueue_click config e).
Proof. intros s Hwf. unfold enqueue_click. destruct (LegacyQueue.tryEnqueue _ _). by apply server_step_other. Qed.

Lemma preserves_read sl : preserves (with_links (getLinkForRead sl)).
Proof.
  intros s Hwf. unfold with_links. destruct (getLinkForRead_spec _ sl Hwf) as (_ & Hrepo & Hwf').
  destruct (getLinkForRead sl (s_links s)) as [o st']. simpl in *. apply server_step_other; [done| |done].
  unfold link_table. simpl. by rewrite Hrepo.
Qed.

(** A command of the service, through the facts of its steps. *)
Lemma preserves_command c : preserves (with_service (run_command config c)).
Proof.
  intros s Hwf. unfold with_service.
  pose proof (run_command_good (St := LinkStorage) config c (s_env s, s_links s) Hwf) as (Hok & Hgr & Hv).
  destruct (run_command config c (s_env s, s_links s)) as [r [e st']]. simpl in *.
  split; unfold link_table; simpl; [done|done| |auto].
  intros sl l Hl. destruct (Hgr sl l Hl) as (l' & Hl' & Hi).
  exists l'. split; [done|]. unfold same_identity in Hi. unfold link_kept. intuition.
Qed.
End preserves.

#[export] Hint Resolve preserves_ret preserves_env preserves_uris preserves_gets preserves_count_invalid
  preserves_record preserves_enqueue preserves_read preserves_command : shortener.

(** Walks through the binds and tests of a handler. *)
Ltac preserves_walk :=
  repeat first
    [ progress auto with shortener nocore
    | match goal with
      | |- preserves _ (_ ≫= _) => apply preserves_bind; [|intros ?]
      | |- preserves _ (if ?b then _ else _) => destruct b
      | |- preserves _ (match ?x with _ => _ end) => destruct x
      end ].

Section handlers.
Context (config : ServerConfig).

Lemma preserves_request_id req : preserves config (requestIdFromRequest req).
Proof. unfold requestIdFromRequest. preserves_walk. Qed.
#[local] Hint Resolve preserves_request_id : shortener.

Lemma preserves_resolve_id req c : preserves config (resolveRequestId req c).
Proof. unfold resolveRequestId. preserves_walk. Qed.

Lemma preserves_makeResponse req c tls status body ct : preserves config (makeResponse req c tls status body ct).
Proof. unfold makeResponse. preserves_walk. Qed.
#[local] Hint Resolve preserves_makeResponse : shortener.

Lemma preserves_apiError req c tls status code msg :
  preserves config (makeApiErrorResponse req c tls status code msg).
Proof. unfold makeApiErrorResponse. preserves_walk. Qed.
#[local] Hint Resolve preserves_apiError : shortener.

Lemma preserves_redirectToHttps req c : preserves config (makeRedirectResponse req c).
Proof. unfold makeRedirectResponse. preserves_walk. Qed.

Lemma preserves_application req c tls : preserves config (handleApplicationRequest req c tls).
Proof. unfold handleApplicationRequest. preserves_walk. Qed.
#[local] Hint Resolve preserves_application : shortener.

Lemma preserves_answer req tls status print result :
  preserves config (answer_view req config tls status print result).
Proof. unfold answer_view, appErrorResponse. preserves_walk. Qed.
#[local] Hint Resolve preserves_answer : shortener.

(** A handler that runs one command and prints its view. *)
Lemma preserves_command_answer c req tls status print :
  preserves config (with_service (run_command config c) ≫= answer_view req config tls status print).
Proof. preserves_walk. Qed.

Lemma preserves_create req tls mode : preserves config (createLinkFromRequest req config tls mode).
Proof.
  unfold createLinkFromRequest, rejectedResponse. destruct (read_create mode (req_body req)) as [r|c]; [preserves_walk|].
  apply (preserves_command_answer (CCreate c)).
Qed.

Lemma preserves_lifecycle action req tls ctx : preserves config (handleLifecycleAction action req config tls ctx).
Proof.
  unfold handleLifecycleAction. destruct (bool_decide (action = "restore"%string)).
  - apply (preserves_command_answer (CRestore _)).
  - apply (preserves_command_answer (CSetEnabled _ _)).
Qed.

Lemma preserves_patch req tls ctx : preserves config (handlePatchLink req config tls ctx).
Proof.
  unfold handlePatchLink, rejectedResponse, appErrorResponse.
  apply preserves_bind; [apply (preserves_command _ (CGet _))|]. intros existing.
  destruct (negb _); [preserves_walk|]. destruct (read_patch _ _) as [r|c]; [preserves_walk|].
  apply (preserves_command_answer (CUpdate c)).
Qed.

Lemma preserves_emit h req slug link status : preserves config (emitClickEvent h req config slug link status).
Proof. unfold emitClickEvent. preserves_walk. Qed.
#[local] Hint Resolve preserves_emit : shortener.

Lemma preserves_state_error h req tls slug link :
  preserves config (linkStateError h req config tls slug link).
Proof. unfold linkStateError, click_error. preserves_walk. Qed.

(** Counting a redirect of a stored link. *)
Lemma update_stats_spec link st sl st' :
  storage_wf st → repo_links (repo st) !! sl = Some link →
  let link' := set_stats st' link in
  storage_wf (updateLinkAndInvalidateCache link' st).2 ∧
  repo_links (repo (updateLinkAndInvalidateCache link' st).2) = <[sl := link']> (repo_links (repo st)).
Proof.
  intros Hwf Hl link'. assert (Hsl : slug link = sl).
  { eapply (tw_slug _ (repo_links_wf _ (wf_repo _ Hwf))). exact Hl. }
  rewrite lookup_repo_links in Hl. apply (getBySlug_id _ (wf_repo _ Hwf)) in Hl as Hid.
  destruct (update_invalidate_spec st link' link Hwf Hid eq_refl) as (_ & Hw & Hg).
  split; [done|]. apply map_eq. intros k. rewrite lookup_repo_links, Hg, lookup_insert, lookup_repo_links.
  simpl. rewrite Hsl. repeat case_decide; congruence.
Qed.

Lemma increment_step link s sl :
  storage_wf (s_links s) → link_table s !! sl = Some link →
  server_step config s (incrementRedirectStats link s).2 ∧
  link_table (incrementRedirectStats link s).2
    = <[sl := set_stats (count_redirect (formatTimestamp (clock (s_env s) (ticks (s_env s)))) (stats link)) link]>
        (link_table s).
Proof.
  intros Hwf Hl. unfold incrementRedirectStats. rewrite !ST_bind_eq, ST_ret_eq. unfold with_links, with_env. simpl.
  set (now := formatTimestamp _). unfold link_table in Hl.
  destruct (update_stats_spec link (s_links s) sl (count_redirect now (stats link)) Hwf Hl) as [Hw Ht].
  set (link' := set_stats _ link) in *.
  destruct (updateLinkAndInvalidateCache link' (s_links s)) as [b st']. simpl in *.
  split; [|exact Ht]. split; unfold link_table; simpl; [done|done| |]; rewrite Ht.
  - intros k l Hk. rewrite lookup_insert. case_decide; [|exists l; by split].
    subst k. simplify_eq. exists link'. by split.
  - intros Hall. apply map_Forall_insert_2; [|done]. destruct (Hall _ _ Hl). by split.
Qed.
End handlers.

(** Reading the clock or the generator leaves the links alone. *)
Lemma with_env_links {A} (m : ST Env A) s : s_links (with_env m s).2 = s_links s.
Proof. unfold with_env. by destruct (m (s_env s)). Qed.

(** Reading a link: the answer is the table's, and the table is kept. *)
Lemma read_link_spec sl s :
  storage_wf (s_links s) →
  (with_links (getLinkForRead sl) s).1 = link_table s !! sl ∧
  storage_wf (s_links (with_links (getLinkForRead sl) s).2) ∧
  link_table (with_links (getLinkForRead sl) s).2 = link_table s ∧
  s_env (with_links (getLinkForRead sl) s).2 = s_env s ∧
  s_clicks (with_links (getLinkForRead sl) s).2 = s_clicks s.
Proof.
  intros Hwf. unfold with_links, link_table. destruct (getLinkForRead_spec _ sl Hwf) as (Hr & Hrepo & Hwf').
  destruct (getLinkForRead sl (s_links s)) as [o st']. simpl in *. rewrite Hrepo. split_and!; try done.
  by rewrite lookup_repo_links.
Qed.

Section requests.
Context (P : Platform) (config : ServerConfig).

#[local] Hint Resolve preserves_request_id preserves_makeResponse preserves_apiError preserves_application
  preserves_emit preserves_state_error preserves_create preserves_lifecycle preserves_patch : shortener.

Lemma preserves_follow h req tls slug : preserves config (follow_link h req config tls slug).
Proof.
  intros s Hwf. unfold follow_link. rewrite ST_bind_eq.
  destruct (read_link_spec slug s Hwf) as (Hr & Hwf1 & Ht1 & _). pose proof (preserves_read config slug s Hwf) as Hread.
  destruct (with_links (getLinkForRead slug) s) as [found s1]. cbn [fst snd] in *.
  etrans; [exact Hread|]. destruct found as [link|]; [|by apply preserves_state_error].
  rewrite ST_bind_eq. pose proof (preserves_env config (resolveLinkStatus link) s1 Hwf1) as Henv.
  pose proof (with_env_links (resolveLinkStatus link) s1) as Hl2.
  destruct (with_env (resolveLinkStatus link) s1) as [status s2]. cbn [fst snd] in *.
  assert (Hwf2 : storage_wf (s_links s2)) by (by rewrite Hl2).
  etrans; [exact Henv|]. destruct (negb (bool_decide _)); [by apply preserves_state_error|].
  cbn [passwordGuardCheck rateLimitGuardAllow negb orb]. rewrite ST_bind_eq.
  destruct (increment_step config link s2 slug Hwf2) as [Hinc _].
  { unfold link_table in *. rewrite Hl2, Ht1. by rewrite <- Hr. }
  etrans; [exact Hinc|]. assert (Hwf3 := ss_wf _ _ _ Hinc). revert Hwf3. generalize (incrementRedirectStats link s2).2.
  intros s3 Hwf3. apply (preserves_bind config); [preserves_walk| |done]. intros _.
  unfold redirectResponse. preserves_walk.
Qed.
#[local] Hint Resolve preserves_follow : shortener.

(** Every handler of the application. *)
Lemma preserves_handlers r req tls ctx :
  r ∈ application_routes P → preserves config (re_handler r req config tls ctx).
Proof.
  unfold application_routes. cbv zeta. rewrite !elem_of_cons, elem_of_nil. intros Hr.
  destruct_or?; try done; subst r; cbn [re_handler];
    unfold handleHealthz, handleReadyz, handleMetrics, handlePlaceholderFeature, handleLinkStats, linkNotFound,
      appErrorResponse, handleEnableLink, handleDisableLink, handleRestoreLink, handleCreateLink,
      handleCompatCreateLink, handleFallbackUriStore, handlePrefixedRedirect, handleRootRedirect, click_error;
    try (by preserves_walk).
  - apply (preserves_command_answer config (CGet (by_link_id _))).
  - apply (preserves_command_answer config (CPreview _)).
  - apply (preserves_command_answer config (CGet _)).
  - apply (preserves_command_answer config (CDelete _)).
  - apply (preserves_command_answer config (CGet _)).
Qed.

Lemma select_route_in target method best (routes : list (RouteEntry Server)) only multiple r ctx :
  select_route target method best routes only multiple = inl (r, ctx) → r ∈ routes.
Proof.
  revert only multiple. induction routes as [|r0 routes IH]; intros only multiple; simpl; [done|].
  destruct (matchPath _ _); [|intros; apply elem_of_cons; eauto].
  destruct (negb (_ =? _)); [intros; apply elem_of_cons; eauto|].
  destruct (negb (bool_decide (re_method r0 = method))); [intros; apply elem_of_cons; eauto|].
  intros [= <- _]. apply elem_of_cons. auto.
Qed.

Lemma preserves_shortener req tls : preserves config (handleShortenerRequest P req config tls).
Proof.
  unfold handleShortenerRequest, dispatch. destruct (best_match _ _ _ _) as [matched best].
  destruct (select_route _ _ _ _ _ _) as [[r ctx]|[only multiple]] eqn:E.
  - apply select_route_in in E. by apply preserves_handlers.
  - unfold applicationErrorHandler. preserves_walk.
Qed.
End requests.

(** ** Whole requests *)

(** The state between two requests: consistent store, no request in flight. *)
Record between_requests (config : ServerConfig) (s s' : Server) : Prop := {
  br_wf : storage_wf (s_links s');
  br_kept : ∀ sl l, link_table s !! sl = Some l → ∃ l', link_table s' !! sl = Some l' ∧ link_kept l l';
  br_valid : map_Forall (fun _ => link_ok config) (link_table s) → map_Forall (fun _ => link_ok config) (link_table s');
}.

#[export] Instance between_requests_trans config : Transitive (between_requests config).
Proof.
  intros s1 s2 s3 [Hw1 Hk1 Hv1] [Hw2 Hk2 Hv2]. split; [done| |eauto].
  intros sl l Hl. destruct (Hk1 sl l Hl) as (l2 & Hl2 & H12).
  destruct (Hk2 sl l2 Hl2) as (l3 & Hl3 & H23). exists l3. split; [done|by etrans].
Qed.

Section sessions.
Context (P : Platform) (config : ServerConfig).

Definition inflight (s : Server) : Z := inflight_requests (s_metrics s).

(** Like [preserves], for the computations of a session, which also count. *)
Definition session_ok {A} (d : Z) (m : ST Server A) : Prop :=
  ∀ s, storage_wf (s_links s) →
    between_requests config s (m s).2 ∧ inflight (m s).2 = u64 (inflight s + d) ∨
    between_requests config s (m s).2 ∧ d = 0%Z ∧ inflight (m s).2 = inflight s.

Lemma session_bind {A B} d1 d2 (m : ST Server A) (k : A → ST Server B) :
  session_ok d1 m → (∀ a, session_ok d2 (k a)) → session_ok (d1 + d2) (m ≫= k).
Proof.
  intros Hm Hk s Hwf. rewrite ST_bind_eq.
  assert (Hb : between_requests config s (m s).2) by (by destruct (Hm s Hwf) as [[? _]|[? _]]).
  assert (Hb' : between_requests config s (k (m s).1 (m s).2).2).
  { etrans; [exact Hb|]. by destruct (Hk (m s).1 (m s).2 (br_wf _ _ _ Hb)) as [[? _]|[? _]]. }
  assert (Hu : ∀ a b, u64 (u64 a + b) = u64 (a + b)) by (intros; unfold u64; by rewrite Z.add_mod_idemp_l).
  destruct (Hm s Hwf) as [[_ H1]|(_ & -> & H1)];
    destruct (Hk (m s).1 (m s).2 (br_wf _ _ _ Hb)) as [[_ H2]|(_ & -> & H2)]; rewrite H1 in H2.
  - left. split; [done|]. by rewrite H2, Hu, Z.add_assoc.
  - left. split; [done|]. by rewrite H2, Z.add_0_r.
  - left. split; [done|]. by rewrite H2, Z.add_0_l.
  - right. done.
Qed.

Lemma session_preserves {A} (m : ST Server A) : preserves config m → session_ok 0 m.
Proof.
  intros Hm s Hwf. destruct (Hm s Hwf) as [Hme Hw Hk Hv]. right. split; [by split|].
  split; [done|]. unfold inflight. by rewrite Hme.
Qed.

Lemma session_metrics f d :
  (∀ m, inflight_requests (f m) = inflight_requests m ∧ d = 0%Z ∨
        inflight_requests (f m) = u64 (inflight_requests m + d)) →
  session_ok d (update_metrics f).
Proof.
  intros Hf s Hwf. assert (Hb : between_requests config s (update_metrics f s).2).
  { split; [done| |done]. intros sl l Hl. exists l. by split. }
  destruct (Hf (s_metrics s)) as [[H ->]|H]; [right|left]; auto.
Qed.

Lemma session_answer req tls : session_ok 0 (answer_request P req config tls).
Proof.
  unfold answer_request. repeat case_match.
  - apply (session_bind 0 0); [apply session_metrics; auto|]. intros _.
    apply session_preserves, preserves_apiError.
  - apply (session_bind 0 0); [apply session_metrics; auto|]. intros _.
    apply session_preserves, preserves_apiError.
  - apply session_preserves, preserves_redirectToHttps.
  - apply session_preserves, preserves_shortener.
Qed.

Lemma session_onRead tls incoming : session_ok 0 (onRead P config tls incoming).
Proof.
  destruct incoming as [req|]; simpl.
  - apply (session_bind 0 0); [apply session_preserves, preserves_resolve_id|]. intros rid.
    apply (session_bind 1 (-1)); [apply session_metrics; auto|]. intros _.
    apply (session_bind 0 (-1)); [apply session_answer|]. intros res.
    apply (session_bind (-1) 0); [apply session_metrics; auto|]. intros _.
    apply (session_bind 0 0); [apply session_metrics; auto|]. intros _.
    apply (session_bind 0 0); [apply session_preserves, preserves_env|]. intros _.
    apply session_preserves, preserves_ret.
  - apply (session_bind 0 0); [apply session_metrics; auto|]. intros _.
    apply session_preserves, preserves_ret.
Qed.

(** One request, over either kind of session. *)
Inductive http_step : relation Server :=
  | plain_step incoming s : http_step s (PlainSession_onRead P config incoming s).2
  | tls_step incoming s : http_step s (TlsSession_onRead P config incoming s).2.

Lemma http_step_spec s s' :
  http_step s s' → storage_wf (s_links s) → (0 ≤ inflight s < 2 ^ 64)%Z →
  between_requests config s s' ∧ inflight s' = inflight s.
Proof.
  intros Hstep Hwf Hin. assert (∃ tls incoming, s' = (onRead P config tls incoming s).2) as (tls & incoming & ->)
    by (destruct Hstep as [incoming s0|incoming s0]; eexists _, _; reflexivity).
  destruct (session_onRead tls incoming s Hwf) as [[Hb Hi]|(Hb & _ & Hi)].
  - split; [done|]. rewrite Hi, Z.add_0_r. unfold u64. by apply Z.mod_small.
  - auto.
Qed.

Lemma http_steps_spec s s' :
  rtc http_step s s' → storage_wf (s_links s) → (0 ≤ inflight s < 2 ^ 64)%Z →
  (s = s' ∨ between_requests config s s') ∧ storage_wf (s_links s') ∧ inflight s' = inflight s.
Proof.
  induction 1 as [s|s s1 s' Hstep _ IH]; intros Hwf Hin; [auto|].
  destruct (http_step_spec _ _ Hstep Hwf Hin) as [Hb Hi].
  destruct IH as (Hc & Hwf' & Hi'); [by apply Hb|by rewrite Hi|].
  split_and!; [|done|congruence]. right. destruct Hc as [->|Hc]; [done|by etrans].
Qed.
End sessions.

(** The invariant of the server. From start-up, whatever requests arrive on
    either kind of connection (malformed, oversized, for any route, with any
    body), the indexes and the cache stay consistent, every stored link stays
    valid, and between requests no request is counted as in flight. *)
Theorem server_invariant P config e uris s :
  rtc (http_step P config) (server_start e uris) s →
  storage_wf (s_links s) ∧ table_wf (link_table s) ∧
  map_Forall (fun _ => link_ok config) (link_table s) ∧ inflight_requests (s_metrics s) = 0%Z.
Proof.
  intros Hsteps. apply http_steps_spec in Hsteps as (Hc & Hwf & Hi); [|apply empty_storage_wf|done].
  assert (Hempty : link_table (server_start e uris) = ∅).
  { apply map_eq. intros k. unfold link_table. rewrite lookup_repo_links. done. }
  split_and!; [done|apply repo_links_wf, Hwf| |exact Hi].
  destruct Hc as [<-|Hc]; [by rewrite Hempty|]. apply (br_valid _ _ _ Hc).
  rewrite Hempty. apply map_Forall_empty.
Qed.

(** C2: a short link keeps its meaning. Whatever requests arrive, a stored slug
    keeps its link: same id, target, creation time and redirect type. *)
Theorem server_links_stable P config s s' sl l :
  rtc (http_step P config) s s' → storage_wf (s_links s) → (0 ≤ inflight_requests (s_metrics s) < 2 ^ 64)%Z →
  link_table s !! sl = Some l →
  ∃ l', link_table s' !! sl = Some l' ∧ link_kept l l'.
Proof.
  intros Hsteps Hwf Hin Hl. apply http_steps_spec in Hsteps as ([->|Hc] & _ & _); [|by apply (br_kept _ _ _ Hc)|done|done].
  exists l. by split.
Qed.

Definition sample_platform : Platform := mkPlatform (fun _ m => m) map_to_list map_to_list.
Definition sample_post : Request :=
  mkRequest v_post "POST" "/api/v1/links" (fun _ => None) (json_text "{'url':'https://example.com/a','slug':'demo'}").
Definition sample_server : Server :=
  (onRead sample_platform default_config false (Some sample_post) (server_start demo_env ∅)).2.

Lemma server_invariant_witness :
  storage_wf (s_links sample_server) ∧ size (link_table sample_server) = 1.
Proof.
  split; [|vm_compute; reflexivity].
  apply (server_invariant sample_platform default_config demo_env ∅ sample_server).
  apply rtc_once, (plain_step sample_platform default_config (Some sample_post)).
Defined.

Definition sample_link : Link := default demo_link (link_table sample_server !! ("demo" : str)).

Lemma sample_wf : storage_wf (s_links sample_server).
Proof.
  apply (br_wf default_config (server_start demo_env ∅)), (http_step_spec sample_platform default_config);
    [|apply empty_storage_wf|done].
  apply (plain_step sample_platform default_config (Some sample_post)).
Qed.

Lemma server_links_stable_witness :
  ∃ l', link_table (onRead sample_platform default_config false None sample_server).2 !! ("demo" : str) = Some l' ∧
        link_kept sample_link l'.
Proof.
  apply (server_links_stable sample_platform default_config sample_server); [|apply sample_wf|vm_compute; split; done|].
  - apply rtc_once, (plain_step sample_platform default_config None).
  - vm_compute. reflexivity.
Defined.
