(* ===== verification/HttpBehaviour.v ===== *)
(** * HttpBehaviour: what the routes answer

    The outcome of following a short link, the routes a target reaches, and
    the REST contract of single handlers. *)
From stdpp Require Import relations.
From S2P Require Import Prelude Text Env Clock Types Url Json Validation LinkRepository LinkStore LinkCommands.
From S2P Require Import LinkLifecycle ClickEvents LinkJson UriMap Router Server LinkHandlers RedirectHandlers HttpServer.
From S2P Require Import HttpInvariants.

(** ** Building an answer only reads the clock and the generator *)
Definition only_env (s s' : Server) : Prop :=
  s_links s' = s_links s ∧ s_clicks s' = s_clicks s ∧ s_queue s' = s_queue s ∧ s_uris s' = s_uris s ∧
  s_metrics s' = s_metrics s.

Lemma with_env_only {A} (m : ST Env A) s : only_env s (with_env m s).2.
Proof. unfold with_env. by destruct (m (s_env s)). Qed.

Lemma request_id_only req s : only_env s (requestIdFromRequest req s).2.
Proof. unfold requestIdFromRequest. case_match; [done|apply with_env_only]. Qed.

Lemma makeResponse_spec req config tls status body ct s :
  let r := makeResponse req config tls status body ct s in
  res_status r.1 = status ∧ res_body r.1 = body ∧ res_fields r.1 !! ("Location" : str) = None ∧ only_env s r.2.
Proof.
  cbv zeta. unfold makeResponse. rewrite ST_bind_eq, ST_ret_eq. cbn [fst snd].
  split_and!; [by repeat case_match|done| |apply request_id_only].
  cbn [with_body res_fields]. unfold res_set. simpl.
  repeat (case_match; simpl); rewrite ?lookup_insert_ne by done; apply lookup_empty.
Qed.

Lemma apiError_spec req config tls status code msg s :
  let r := makeApiErrorResponse req config tls status code msg s in
  res_status r.1 = status ∧ res_fields r.1 !! ("Location" : str) = None ∧ only_env s r.2 ∧
  ∃ rid, res_body r.1 = error_body code msg rid.
Proof.
  cbv zeta. unfold makeApiErrorResponse. rewrite ST_bind_eq.
  pose proof (request_id_only req s) as H1.
  destruct (makeResponse_spec req config tls status (error_body code msg (requestIdFromRequest req s).1)
    "application/json" (requestIdFromRequest req s).2) as (Hs & Hb & Hl & H2).
  split_and!; [done|done| |eauto]. unfold only_env in *. intuition congruence.
Qed.

(** ** Click events *)

(** The event recorded for a request, if analytics are on. *)
Definition clicked (config : ServerConfig) (slug link_id : str) (status : Z) (s s' : Server) : Prop :=
  if analytics_enabled config
  then ∃ e, s_clicks s' = s_clicks s ++ [e] ∧ ce_slug e = slug ∧ ce_link_id e = link_id ∧ ce_status_code e = status
  else s_clicks s' = s_clicks s.

Lemma record_and_enqueue config e q s :
  let s' := ((record_click e;; _ ← enqueue_click config q; mret tt) s).2 in
  s_links s' = s_links s ∧ s_metrics s' = s_metrics s ∧ s_uris s' = s_uris s ∧ s_clicks s' = s_clicks s ++ [e].
Proof.
  cbv zeta. rewrite !ST_bind_eq, ST_ret_eq. unfold enqueue_click, record_click. simpl.
  by destruct (LegacyQueue.tryEnqueue _ _).
Qed.

#[export] Instance only_env_preorder : PreOrder only_env.
Proof. unfold only_env. split; [by intros s|intros s1 s2 s3; intuition congruence]. Qed.

Lemma emit_spec h req config slug link status s :
  let s' := (emitClickEvent h req config slug link status s).2 in
  s_links s' = s_links s ∧ s_metrics s' = s_metrics s ∧ s_uris s' = s_uris s ∧
  clicked config slug (default [] (id <$> link)) status s s'.
Proof.
  cbv zeta. unfold emitClickEvent, clicked. destruct (analytics_enabled config); [|done].
  change (if negb true then ?a else ?b) with b. rewrite ST_bind_eq.
  pose proof (with_env_only generateId s) as H1. set (s1 := (with_env generateId s).2) in *.
  rewrite ST_bind_eq. pose proof (with_env_only currentTimestamp s1) as H2.
  set (s2 := (with_env currentTimestamp s1).2) in *. cbv zeta.
  rewrite ST_bind_eq. pose proof (with_env_only system_now s2) as H3. set (s3 := (with_env system_now s2).2) in *.
  assert (only_env s s3) as (Hl & Hc & _ & Hu & Hm) by (etrans; [exact H1|]; etrans; [exact H2|exact H3]).
  clear H1 H2 H3. match goal with |- context [(record_click ?e;; _ ← enqueue_click _ ?q; _) _] =>
    destruct (record_and_enqueue config e q s3) as (Hl' & Hm' & Hu' & Hc') end.
  split_and!; [exact (eq_trans Hl' Hl)|exact (eq_trans Hm' Hm)|exact (eq_trans Hu' Hu)|].
  rewrite Hc in Hc'. eexists. split; [exact Hc'|]. split_and!; reflexivity.
Qed.

(** ** Following a link *)
Section follow.
Context (h : str → str → str) (req : Request) (config : ServerConfig) (tls : bool).

Lemma click_error_spec slug link status code msg s :
  let r := click_error h req config tls slug link status code msg s in
  res_status r.1 = status ∧ res_fields r.1 !! ("Location" : str) = None ∧
  s_links r.2 = s_links s ∧ s_uris r.2 = s_uris s ∧ clicked config slug (default [] (id <$> link)) status s r.2.
Proof.
  cbv zeta. unfold click_error. rewrite ST_bind_eq.
  destruct (emit_spec h req config slug link status s) as (He1 & He2 & He3 & He4).
  set (s1 := (emitClickEvent h req config slug link status s).2) in *.
  destruct (apiError_spec req config tls status code msg s1) as (Hs & Hl & (Hl1 & Hl2 & _ & Hl3 & _) & _).
  split_and!; [done|done|congruence|congruence|]. unfold clicked in *. by rewrite Hl2.
Qed.

(** The status of a link that is refused, at a clock reading. *)
Definition refusal_status (now : Z) (l : Link) : Z :=
  match link_status_at now l with deleted | active => 404 | disabled | expired => 410 end.

Lemma linkStateError_spec slug l s :
  let r := linkStateError h req config tls slug (Some l) s in
  let status := refusal_status (clock (s_env s) (ticks (s_env s))) l in
  res_status r.1 = status ∧ res_fields r.1 !! ("Location" : str) = None ∧
  s_links r.2 = s_links s ∧ s_uris r.2 = s_uris s ∧ clicked config slug (id l) status s r.2.
Proof.
  cbv zeta. unfold linkStateError. rewrite ST_bind_eq. unfold refusal_status.
  assert (Hst : (with_env (resolveLinkStatus l) s).1 = link_status_at (clock (s_env s) (ticks (s_env s))) l).
  { rewrite <- resolveLinkStatus_at. unfold with_env. by destruct (resolveLinkStatus l (s_env s)). }
  rewrite Hst. destruct (with_env_only (resolveLinkStatus l) s) as (H1 & H2 & _ & H3 & _).
  set (s1 := (with_env (resolveLinkStatus l) s).2) in *. unfold clicked. rewrite <- H1, <- H2, <- H3.
  destruct (link_status_at _ l); apply (click_error_spec slug (Some l)).
Qed.

Lemma redirectResponse_spec l status s :
  let r := redirectResponse req l status s in
  res_status r.1 = status ∧ res_fields r.1 !! ("Location" : str) = Some (target_url l) ∧ only_env s r.2.
Proof.
  cbv zeta. unfold redirectResponse. rewrite ST_bind_eq, ST_ret_eq. cbn [fst snd].
  split_and!; [done| |apply request_id_only]. simpl. unfold request_id_header.
  rewrite lookup_insert_ne by done. by rewrite lookup_insert_eq.
Qed.

(** The common start of both outcomes. *)
Lemma follow_reads slug s l :
  storage_wf (s_links s) → link_table s !! slug = Some l →
  ∃ s2, follow_link h req config tls slug s
    = (if negb (bool_decide (link_status_at (clock (s_env s) (ticks (s_env s))) l = active))
       then linkStateError h req config tls slug (Some l)
       else
         incrementRedirectStats l;;
         emitClickEvent h req config slug (Some l) (redirectStatusFor l);;
         redirectResponse req l (redirectStatusFor l)) s2 ∧
    storage_wf (s_links s2) ∧ link_table s2 = link_table s ∧ s_clicks s2 = s_clicks s ∧
    clock (s_env s2) = clock (s_env s).
Proof.
  intros Hwf Hl. unfold follow_link. rewrite ST_bind_eq.
  destruct (read_link_spec slug s Hwf) as (Hr & Hwf1 & Ht & He & Hc). rewrite Hr, Hl.
  set (s1 := (with_links (getLinkForRead slug) s).2) in *. rewrite ST_bind_eq.
  assert (Hst : (with_env (resolveLinkStatus l) s1).1 = link_status_at (clock (s_env s) (ticks (s_env s))) l).
  { rewrite <- He, <- resolveLinkStatus_at. unfold with_env. by destruct (resolveLinkStatus l (s_env s1)). }
  rewrite Hst. exists (with_env (resolveLinkStatus l) s1).2.
  destruct (with_env_only (resolveLinkStatus l) s1) as (H1 & H2 & _).
  split; [done|]. unfold link_table in *. rewrite H1, H2. split_and!; [done|done|done|].
  rewrite <- He. unfold with_env. destruct (resolveLinkStatus_env l (s_env s1)) as [Hk _].
  destruct (resolveLinkStatus l (s_env s1)). exact Hk.
Qed.

(** C4: an active link redirects. Following it answers its redirect status
    (301 for permanent links, 302 for temporary ones) with its target as
    Location, adds one to its counters and nothing else in the store, and records
    one click event for it when analytics are on. *)
Theorem active_link_redirects slug s l :
  storage_wf (s_links s) → link_table s !! slug = Some l →
  link_status_at (clock (s_env s) (ticks (s_env s))) l = active →
  let r := follow_link h req config tls slug s in
  res_status r.1 = redirectStatusFor l ∧
  res_fields r.1 !! ("Location" : str) = Some (target_url l) ∧
  (∃ now, link_table r.2 = <[slug := set_stats (count_redirect now (stats l)) l]> (link_table s)) ∧
  clicked config slug (id l) (redirectStatusFor l) s r.2.
Proof.
  intros Hwf Hl Hact. cbv zeta. destruct (follow_reads slug s l Hwf Hl) as (s2 & -> & Hwf2 & Ht2 & Hc2 & _).
  rewrite bool_decide_eq_true_2 by done. change (if negb true then ?a else ?b) with b. rewrite !ST_bind_eq.
  rewrite <- Ht2 in Hl. destruct (increment_step config l s2 slug Hwf2 Hl) as [Hstep Hinc].
  assert (Hc3 : s_clicks (incrementRedirectStats l s2).2 = s_clicks s2).
  { unfold incrementRedirectStats. rewrite !ST_bind_eq, ST_ret_eq. cbn [snd]. unfold with_links.
    destruct (updateLinkAndInvalidateCache _ _). cbn [snd s_clicks].
    by destruct (with_env_only currentTimestamp s2) as (_ & ? & _). }
  set (s3 := (incrementRedirectStats l s2).2) in *.
  destruct (emit_spec h req config slug (Some l) (redirectStatusFor l) s3) as (Hl4 & _ & _ & Hc4).
  set (s4 := (emitClickEvent h req config slug (Some l) (redirectStatusFor l) s3).2) in *.
  destruct (redirectResponse_spec l (redirectStatusFor l) s4) as (Hs5 & Hloc & (Hl5 & Hc5 & _)).
  split_and!; [done|done| |].
  - exists (formatTimestamp (clock (s_env s2) (ticks (s_env s2)))). unfold link_table in *.
    rewrite Hl5, Hl4, Hinc. by rewrite Ht2.
  - unfold clicked in *. by rewrite Hc5, <- Hc2, <- Hc3.
Qed.

(** C5: an inactive link does not redirect. Following a deleted, disabled or
    expired link answers an error without a Location and leaves every link as it
    was: 404 for a deleted link, 410 for a disabled one and, when the clock does
    not run backwards, for an expired one; the refusal is recorded as a click
    event with that status. *)
Theorem inactive_link_refused slug s l :
  storage_wf (s_links s) → link_table s !! slug = Some l →
  link_status_at (clock (s_env s) (ticks (s_env s))) l ≠ active →
  let r := follow_link h req config tls slug s in
  ∃ t, let status := refusal_status (clock (s_env s) t) l in
    res_status r.1 = status ∧ (status = 404%Z ∨ status = 410%Z) ∧
    (is_Some (deleted_at l) → status = 404%Z) ∧
    (deleted_at l = None → enabled l = false → status = 410%Z) ∧
    (deleted_at l = None → (clock (s_env s) (ticks (s_env s)) ≤ clock (s_env s) t)%Z → status = 410%Z) ∧
    res_fields r.1 !! ("Location" : str) = None ∧ link_table r.2 = link_table s ∧
    clicked config slug (id l) status s r.2.
Proof.
  intros Hwf Hl Hna. cbv zeta. destruct (follow_reads slug s l Hwf Hl) as (s2 & -> & Hwf2 & Ht2 & Hc2 & Hk).
  rewrite bool_decide_eq_false_2 by done. change (if negb false then ?a else ?b) with a.
  exists (ticks (s_env s2)). rewrite <- Hk.
  destruct (linkStateError_spec slug l s2) as (Hs & Hloc & Hl' & _ & Hc).
  rewrite <- Hk in Hna.
  split_and!; [done| | | | |done|unfold link_table in *; by rewrite Hl', Ht2|unfold clicked in *; by rewrite <- Hc2].
  - unfold refusal_status. destruct (link_status_at (clock (s_env s2) (ticks (s_env s2))) l); auto.
  - intros [d Hd]. unfold refusal_status, link_status_at. by rewrite Hd.
  - intros Hd He. unfold refusal_status, link_status_at. by rewrite Hd, He.
  - intros Hd Hle. revert Hna. unfold refusal_status, link_status_at. rewrite Hd.
    destruct (enabled l); [|done]. destruct (expires_at l) as [x|]; [|done].
    destruct (parseRfc3339Zulu x) as [ts|]; [|done]. simpl.
    destruct (Z.leb_spec ts (clock (s_env s2) (ticks (s_env s)))); [|done]. intros _.
    destruct (Z.leb_spec ts (clock (s_env s2) (ticks (s_env s2)))); [done|lia].
Qed.
End follow.

(** ** Routes of short links *)
Definition no_slash (s : str) : Prop := "/"%char ∉ s.

Lemma split_slash_segment s : no_slash s → split_slash s = [s].
Proof.
  unfold no_slash. induction s as [|c s IH]; [done|]. intros [Hc Hs]%not_elem_of_cons. simpl.
  rewrite (proj2 (Ascii.eqb_neq c "/")) by congruence. by rewrite IH.
Qed.

Lemma split_slash_two s t : no_slash s → no_slash t → split_slash (s ++ "/"%char :: t) = [s; t].
Proof.
  unfold no_slash. intros Hs Ht. induction s as [|c s IH]; simpl; [by rewrite split_slash_segment|].
  apply not_elem_of_cons in Hs as [Hc Hs]. rewrite (proj2 (Ascii.eqb_neq c "/")) by congruence. by rewrite IH.
Qed.

Lemma splitPath_one s : no_slash s → s ≠ [] → splitPath ("/"%char :: s) = [s].
Proof.
  intros Hs Hne. unfold splitPath. simpl. rewrite drop_while_id.
  - rewrite split_slash_segment by done. rewrite bool_decide_eq_false_2; congruence.
  - intros x r ->. apply not_elem_of_cons in Hs as [Hx _]. apply Ascii.eqb_neq. congruence.
Qed.

Lemma splitPath_two (s t : str) :
  no_slash s → no_slash t → s ≠ [] → splitPath ("/"%char :: s ++ "/"%char :: t) = [s; t].
Proof.
  intros Hs Ht Hne. unfold splitPath. simpl. rewrite drop_while_id.
  - rewrite split_slash_two by done. rewrite bool_decide_eq_false_2; congruence.
  - intros x r. destruct s as [|c s]; [done|]. intros [= <- _].
    apply not_elem_of_cons in Hs as [Hx _]. apply Ascii.eqb_neq. congruence.
Qed.

(** A well-formed slug is a single path segment. *)
Lemma valid_slug_segment s :
  isValidSlug s = true → no_slash s ∧ s ≠ [] ∧ find_char "?" s = None.
Proof.
  intros Hv. assert (Hall : Forall (fun c => is_slug_char c = true) s ∧ s ≠ []).
  { destruct s as [|c s]; [done|]. unfold isValidSlug in Hv. bool_simpl. split; [|done].
    constructor; [|by apply forallb_Forall]. unfold is_slug_char. by rewrite H. }
  destruct Hall as [Hall Hne]. rewrite Forall_forall in Hall. split_and!; [|done|].
  - intros Hin. by apply Hall in Hin.
  - unfold find_char. apply find_if_None, Forall_forall. intros c Hc. apply Hall in Hc. revert Hc. by all_chars c.
Qed.

Section slug_routes.
Context (P : Platform) (s : str) (Hv : isValidSlug s = true).

(** The patterns that match [/s]. *)
Lemma match_root_slug pat :
  matchPath pat ("/"%char :: s) =
    match splitPath pat with
    | [p] => if isCaptureSegment p then Some (mkRouteContext {[ captureName p := s ]} [] [])
             else if bool_decide (p = s) then Some (mkRouteContext ∅ [] []) else None
    | _ => None
    end.
Proof using Hv.
  destruct (valid_slug_segment s Hv) as (Hns & Hne & Hq). unfold matchPath, target_path, target_query.
  assert (Hq' : find_char "?" ("/"%char :: s) = None) by (unfold find_char in *; simpl; by rewrite Hq).
  rewrite Hq', splitPath_one by done. destruct (splitPath pat) as [|p [|p' ps]]; simpl; try done.
  rewrite (bool_decide_eq_false_2 (s = [])) by done. destruct (isCaptureSegment p); [done|].
  by destruct (bool_decide (p = s)).
Qed.

(** The patterns that match [/r/s]. *)
Lemma match_prefixed_slug pat :
  matchPath pat ("/r/" ++ s) =
    match splitPath pat with
    | [p] => if isCaptureSegment p && bool_decide (captureName p = "path")
             then Some (mkRouteContext {[ ("path" : str) := ("r/" : str) ++ s ]} [] []) else None
    | [p1; p2] =>
        match match_segments [p1; p2] ["r" : str; s] ∅ with
        | Some params => Some (mkRouteContext params [] [])
        | None => None
        end
    | _ => None
    end.
Proof using Hv.
  destruct (valid_slug_segment s Hv) as (Hns & Hne & Hq). unfold matchPath, target_path, target_query.
  assert (Hq' : find_char "?" (("/r/" : str) ++ s) = None) by (unfold find_char in *; simpl; by rewrite Hq).
  rewrite Hq'. assert (Hsp : splitPath (("/r/" : str) ++ s) = ["r" : str; s]).
  { apply (splitPath_two "r" s); [|done|done]. unfold no_slash. apply (bool_decide_unpack _). vm_compute. done. }
  rewrite Hsp. destruct (splitPath pat) as [|p [|p' [|p'' ps]]]; cbn [length Nat.eqb negb]; try done.
  by destruct (isCaptureSegment p), (bool_decide (captureName p = "path")).
Qed.

(** The routes that match, by their patterns. *)
Definition by_patterns (patterns : list string) (r : RouteEntry Server) : bool :=
  existsb (fun p => bool_decide (re_pattern r = String.list_ascii_of_string p)) patterns.

Lemma matching_prefixed :
  matching (("/r/" : str) ++ s) (application_routes P)
  = List.filter (by_patterns ["/r/{slug}"; "/{path}"]) (application_routes P).
Proof using Hv.
  apply filter_ext_in. intros r Hr%list_elem_of_In. unfold route_matches. rewrite match_prefixed_slug.
  destruct (valid_slug_segment s Hv) as (_ & Hne & _).
  unfold application_routes in Hr. cbv zeta in Hr. rewrite !elem_of_cons, elem_of_nil in Hr.
  destruct_or?; try done; subst r; cbn [re_pattern]; try (vm_compute; reflexivity).
  change (splitPath "/r/{slug}") with ["r" : str; "{slug}" : str]. cbn [match_segments].
  change (isCaptureSegment "r") with false. change (isCaptureSegment "{slug}") with true. cbn iota.
  rewrite (bool_decide_eq_true_2 (("r" : str) = "r")) by done. by rewrite (bool_decide_eq_false_2 (s = [])).
Qed.

Lemma matching_root :
  (s ∉ ["healthz" : str; "readyz" : str; "metrics" : str]) →
  matching ("/"%char :: s) (application_routes P)
  = List.filter (by_patterns ["/{slug}"; "/{path}"]) (application_routes P).
Proof using Hv.
  rewrite !not_elem_of_cons. intros (H1 & H2 & H3 & _).
  apply filter_ext_in. intros r Hr%list_elem_of_In. unfold route_matches. rewrite match_root_slug.
  unfold application_routes in Hr. cbv zeta in Hr. rewrite !elem_of_cons, elem_of_nil in Hr.
  destruct_or?; try done; subst r; cbn [re_pattern]; try (vm_compute; reflexivity).
  - change (splitPath "/healthz") with ["healthz" : str]. change (isCaptureSegment "healthz") with false.
    cbn iota. by rewrite bool_decide_eq_false_2.
  - change (splitPath "/readyz") with ["readyz" : str]. change (isCaptureSegment "readyz") with false.
    cbn iota. by rewrite bool_decide_eq_false_2.
  - change (splitPath "/metrics") with ["metrics" : str]. change (isCaptureSegment "metrics") with false.
    cbn iota. by rewrite bool_decide_eq_false_2.
Qed.
End slug_routes.

(** Short URLs reach the redirect handlers. For every well-formed slug, GET
    of [/r/slug] reaches the prefixed redirect with that slug, and GET of [/slug]
    reaches the root redirect with that slug unless the slug is the name of an
    observability endpoint. *)
Theorem slug_targets_reach_redirects (P : Platform) (s : str) config tls field body :
  isValidSlug s = true →
  let req target := mkRequest v_get "GET" target field body in
  handleShortenerRequest P (req (("/r/" : str) ++ s)) config tls
    = handlePrefixedRedirect (hmac_sha256 P) (req (("/r/" : str) ++ s)) config tls
        (mkRouteContext {[ ("slug" : str) := s ]} [] "redirect_prefixed") ∧
  ((s ∉ ["healthz" : str; "readyz" : str; "metrics" : str]) →
   handleShortenerRequest P (req ("/"%char :: s)) config tls
     = handleRootRedirect (hmac_sha256 P) (req ("/"%char :: s)) config tls
         (mkRouteContext {[ ("slug" : str) := s ]} [] "redirect_root")).
Proof.
  intros Hv req. unfold handleShortenerRequest. split; [|intros Hs];
    rewrite dispatch_reference by (repeat constructor; done); unfold best_routes, max_specificity;
    cbn [req req_target req_method].
  - rewrite matching_prefixed by done.
    assert (Hf : List.find (fun r => bool_decide (re_method r = v_get))
      (List.filter (fun r => specificity r =? foldr Nat.max 0 (map specificity
         (List.filter (by_patterns ["/r/{slug}"; "/{path}"]) (application_routes P))))
         (List.filter (by_patterns ["/r/{slug}"; "/{path}"]) (application_routes P)))
      = Some (mkRoute v_get "/r/{slug}" "redirect_prefixed" (handlePrefixedRedirect (hmac_sha256 P)))) by reflexivity.
    rewrite Hf. cbn [re_handler]. f_equal. unfold context_for. cbn [re_pattern re_label].
    rewrite match_prefixed_slug by done.
    change (splitPath "/r/{slug}") with ["r" : str; "{slug}" : str]. cbn [match_segments].
    change (isCaptureSegment "r") with false. change (isCaptureSegment "{slug}") with true. cbn iota.
    rewrite (bool_decide_eq_true_2 (("r" : str) = "r")) by done.
    rewrite (bool_decide_eq_false_2 (s = [])) by apply (valid_slug_segment s Hv). done.
  - rewrite matching_root by done.
    assert (Hf : List.find (fun r => bool_decide (re_method r = v_get))
      (List.filter (fun r => specificity r =? foldr Nat.max 0 (map specificity
         (List.filter (by_patterns ["/{slug}"; "/{path}"]) (application_routes P))))
         (List.filter (by_patterns ["/{slug}"; "/{path}"]) (application_routes P)))
      = Some (mkRoute v_get "/{slug}" "redirect_root" (handleRootRedirect (hmac_sha256 P)))) by reflexivity.
    rewrite Hf. cbn [re_handler]. f_equal. unfold context_for. cbn [re_pattern re_label].
    by rewrite match_root_slug.
Qed.

Lemma slug_targets_reach_redirects_witness :
  let P := sample_platform in
  let req := mkRequest v_get "GET" "/demo" (fun _ => None) [] in
  handleShortenerRequest P req default_config false
  = handleRootRedirect (hmac_sha256 P) req default_config false
      (mkRouteContext {[ ("slug" : str) := ("demo" : str) ]} [] "redirect_root").
Proof.
  intros P req.
  apply (slug_targets_reach_redirects P "demo" default_config false (fun _ => None) []); [vm_compute; reflexivity|].
  apply (bool_decide_unpack _). vm_compute. done.
Defined.

(** Two slugs can be created but not followed at the root. [healthz] and
    [readyz] are well-formed and not reserved, so a link can be created under
    them; GET of [/healthz] and [/readyz] is always the probe's own answer, never a
    redirect. *)
Theorem probe_slugs_shadowed (P : Platform) (name : str) config tls field body s :
  name ∈ ["healthz" : str; "readyz" : str] →
  isValidSlug name = true ∧ isReservedSlug name = false ∧
  let r := handleShortenerRequest P (mkRequest v_get "GET" ("/"%char :: name) field body) config tls s in
  res_status r.1 = 200%Z ∧ res_body r.1 = line_of "ok" ∧ res_fields r.1 !! ("Location" : str) = None ∧
  link_table r.2 = link_table s.
Proof.
  assert (Hmade : ∀ req, let r := makeResponse req config tls 200 (line_of "ok") "text/plain" s in
    res_status r.1 = 200%Z ∧ res_body r.1 = line_of "ok" ∧ res_fields r.1 !! ("Location" : str) = None ∧
    link_table r.2 = link_table s).
  { intros req. destruct (makeResponse_spec req config tls 200 (line_of "ok") "text/plain" s)
      as (H1 & H2 & H3 & (H4 & _)). unfold link_table. cbv zeta. by rewrite H4. }
  rewrite !elem_of_cons, elem_of_nil. intros [->|[->|[]]]; (split; [vm_compute; reflexivity|]; split; [vm_compute; reflexivity|]).
  - apply (Hmade (mkRequest v_get "GET" "/healthz" field body)).
  - apply (Hmade (mkRequest v_get "GET" "/readyz" field body)).
Qed.

Lemma probe_slugs_shadowed_witness :
  isReservedSlug "healthz" = false ∧ isValidSlug "healthz" = true.
Proof.
  destruct (probe_slugs_shadowed sample_platform "healthz" default_config false
    (fun _ => None) [] (server_start demo_env ∅)) as (H1 & H2 & _); [|auto].
  apply (bool_decide_unpack _). vm_compute. done.
Defined.

(** ** The REST contract *)

(** Existence before validation. A PATCH of an unknown slug answers 404
    whatever its body is, and changes no link. *)
Theorem patch_unknown_slug_is_404 req config tls context s :
  storage_wf (s_links s) → link_table s !! pathValue context "slug" = None →
  let r := handlePatchLink req config tls context s in
  res_status r.1 = 404%Z ∧ link_table r.2 = link_table s ∧
  ∃ rid, res_body r.1 = error_body "not_found" "Link not found" rid.
Proof.
  intros Hwf Hn. cbv zeta. unfold handlePatchLink. rewrite ST_bind_eq.
  set (sl := pathValue context "slug") in *.
  assert (Hok : store_ok (s_env s, s_links s).2) by exact Hwf.
  destruct (lookup_link_spec (by_slug sl) (s_env s, s_links s) Hok) as (He & _ & Hl & Hr).
  assert (Hres : (with_service (GetLink config (by_slug sl)) s).1
                 = failure AppErrorCode.not_found "Link not found" ∧
                 link_table (with_service (GetLink config (by_slug sl)) s).2 = link_table s).
  { unfold with_service, GetLink. rewrite ST_bind_eq, Hr. cbn [snd].
    change (links (s_links s)) with (link_table s). rewrite Hn.
    destruct (lookup_link (by_slug sl) (s_env s, s_links s)) as [o [e st]]. split; [done|]. exact Hl. }
  destruct Hres as [-> Ht]. set (s1 := (with_service _ s).2) in *.
  change (negb (ok (failure AppErrorCode.not_found "Link not found"))) with true. cbn iota.
  destruct (apiError_spec req config tls 404 "not_found" "Link not found" s1) as (H1 & _ & (H2 & _) & Hb).
  split_and!; [done| |done]. rewrite <- Ht. unfold link_table. f_equal. f_equal. exact H2.
Qed.

Lemma patch_unknown_slug_is_404_witness :
  res_status (handlePatchLink (mkRequest v_patch "PATCH" "/api/v1/links/nope" (fun _ => None) "garbage")
    default_config false (mkRouteContext {[ ("slug" : str) := ("nope" : str) ]} [] []) (server_start demo_env ∅)).1 = 404%Z.
Proof.
  apply patch_unknown_slug_is_404; [apply empty_storage_wf|]. vm_compute. reflexivity.
Defined.

(** Oversized requests are refused before routing. A target or a body over
    its limit is answered 414 or 413 and no link, click event or URI payload
    changes; only the counter of malformed requests moves. *)
Theorem oversized_request_refused P config tls req s :
  (max_request_target_length config < N.of_nat (length (req_target req)))%N ∨
  (max_request_body_bytes config < N.of_nat (length (req_body req)))%N →
  let r := answer_request P req config tls s in
  (res_status r.1 = 414%Z ∨ res_status r.1 = 413%Z) ∧
  s_links r.2 = s_links s ∧ s_clicks r.2 = s_clicks s ∧ s_uris r.2 = s_uris s ∧
  s_metrics r.2 = add_malformed (s_metrics s).
Proof.
  intros Hover. cbv zeta. unfold answer_request.
  destruct (N.ltb_spec (max_request_target_length config) (N.of_nat (length (req_target req)))).
  - rewrite ST_bind_eq. set (s1 := (update_metrics add_malformed s).2).
    destruct (apiError_spec req config tls 414 "target_too_large" "request target too large" s1)
      as (H1 & _ & (H2 & H3 & _ & H4 & H5) & _).
    split_and!; [auto|exact H2|exact H3|exact H4|exact H5].
  - destruct (N.ltb_spec (max_request_body_bytes config) (N.of_nat (length (req_body req)))); [|lia].
    rewrite ST_bind_eq. set (s1 := (update_metrics add_malformed s).2).
    destruct (apiError_spec req config tls 413 "payload_too_large" "request body too large" s1)
      as (H1 & _ & (H2 & H3 & _ & H4 & H5) & _).
    split_and!; [auto|exact H2|exact H3|exact H4|exact H5].
Qed.

Lemma oversized_request_refused_witness :
  let P := sample_platform in
  let req := mkRequest v_get "GET" (replicate 3000 "a"%char) (fun _ => None) [] in
  s_links (answer_request P req default_config false (server_start demo_env ∅)).2 = empty_storage.
Proof.
  intros P req. apply (oversized_request_refused P default_config false req (server_start demo_env ∅)).
  left. vm_compute. reflexivity.
Defined.

(** Query parameters are found by substring. The value read for a key may
    come from another parameter whose name ends with that key. *)
Theorem query_param_suffix_confusion (v : str) :
  find_char "&" v = None → getQueryParam (("goto=" : str) ++ v) "to" = v.
Proof. intros Hv. unfold getQueryParam. simpl. by rewrite drop_0, Hv. Qed.

Lemma query_param_suffix_confusion_witness : getQueryParam "goto=5" "to" = ("5" : str).
Proof. apply (query_param_suffix_confusion "5"). vm_compute. reflexivity. Defined.

(** ** Instances on a concrete server *)
Definition demo_server (st : LinkStorage) : Server := mkServer demo_env st [] None ∅ (mkMetrics 0 0 0 0 0 ∅) 0.
Definition demo_get : Request := mkRequest v_get "GET" "/demo" (fun _ => None) [].
Definition demo_deleted : LinkStorage := (DeleteLink default_config "demo" demo_world).2.2.
Definition demo_deleted_link : Link := stamp_deleted "2024-01-02T03:04:05Z" demo_link.

Lemma demo_storage_wf : storage_wf demo_world.2.
Proof. exact demo_ok. Qed.

Lemma demo_deleted_wf : storage_wf demo_deleted.
Proof.
  pose proof (DeleteLink_outcome default_config "demo" demo_world demo_ok) as [Hok _]. exact Hok.
Qed.

Lemma active_link_redirects_witness :
  res_status (follow_link (hmac_sha256 sample_platform) demo_get default_config false "demo" (demo_server demo_world.2)).1
  = 302%Z.
Proof.
  apply (active_link_redirects (hmac_sha256 sample_platform) demo_get default_config false "demo"
    (demo_server demo_world.2) demo_link); [apply demo_storage_wf|apply demo_link_stored|vm_compute; reflexivity].
Defined.

Lemma inactive_link_refused_witness :
  ∃ t, res_status (follow_link (hmac_sha256 sample_platform) demo_get default_config false "demo"
         (demo_server demo_deleted)).1 = refusal_status (clock demo_env t) demo_deleted_link.
Proof.
  destruct (inactive_link_refused (hmac_sha256 sample_platform) demo_get default_config false "demo"
    (demo_server demo_deleted) demo_deleted_link) as (t & Ht & _);
    [apply demo_deleted_wf|vm_compute; reflexivity|vm_compute; discriminate|]. exists t. exact Ht.
Defined.
