(* ===== verification/RouteRegistry.v ===== *)
(** * RouteRegistry: the documented routes (src/http/route_registry.cpp)

    The descriptors the server publishes about its routes, how they are derived
    from method and path, and their agreement with the table the router uses. *)
From S2P Require Import Prelude Text Router Server HttpServer.

Record RouteParameterDoc := mkRouteParameterDoc {
  param_name : str;
  param_description : str;
  param_required : bool;
}.

Record RouteResponseDoc := mkRouteResponseDoc {
  doc_status : Z;
  doc_description : str;
}.

Record RouteDescriptor := mkRouteDescriptor {
  method : str;
  path_pattern : str;
  descriptor_label : str;
  summary : str;
  route_tags : list str;
  operation_id : str;
  path_parameters : list RouteParameterDoc;
  query_parameters : list RouteParameterDoc;
  request_body_description : str;
  responses : list RouteResponseDoc;
  compatibility_alias : bool;
  placeholder : bool;
}.

(** ** Derived fields *)
Definition tagFor (label path : str) : str :=
  if bool_decide (label = "healthz") || bool_decide (label = "readyz") || bool_decide (label = "metrics") then "Observability"
  else if starts_with "/api/v1/short-urls" path then "Compatibility"
  else if starts_with "/api/v1/links" path then "Links"
  else if bool_decide (label = "redirect_prefixed") || bool_decide (path = "/{slug}") then "Redirects"
  else "Fallback".

(** One character of the path: letters and digits in lower case, anything else
    an underscore unless one is there already. *)
Definition push_path_char (id : str) (c : ascii) : str :=
  if is_alnum c then id ++ [to_lower c]
  else if negb (bool_decide (id = [])) && negb (bool_decide (last id = Some "_"%char)) then id ++ ["_"%char]
  else id.

(** [while (id.back() == '_') id.pop_back()]. *)
Definition drop_underscores (id : str) : str := rev (drop_while (fun c => Ascii.eqb c "_") (rev id)).

Definition operationIdFor (verb path : str) : str :=
  drop_underscores (foldl push_path_char (lower verb) path).

(** The loop over the opening braces; [None] is an exhausted bound. *)
Fixpoint scan_parameters (fuel : nat) (path : str) : option (list str) :=
  match fuel with
  | O => None
  | S fuel' =>
      match find_char "{" path with
      | None => Some []
      | Some pos =>
          let rest := drop (S pos) path in
          match find_char "}" rest with
          | None => Some []
          | Some end_ => cons (take end_ rest) <$> scan_parameters fuel' (drop (S end_) rest)
          end
      end
  end.

Definition path_parameter (name : str) : RouteParameterDoc :=
  mkRouteParameterDoc name (("Path parameter `" : str) ++ name ++ ("`." : str)) true.

Definition pathParametersFor (path : str) : list RouteParameterDoc :=
  path_parameter <$> default [] (scan_parameters (S (length path)) path).

Definition queryParametersFor (path : str) : list RouteParameterDoc :=
  if bool_decide (path = "/api/v1/links/{slug}/stats") then
    [mkRouteParameterDoc "from" "Inclusive RFC3339 start timestamp for aggregate stats." false;
     mkRouteParameterDoc "to" "Exclusive RFC3339 end timestamp for aggregate stats." false;
     mkRouteParameterDoc "bucket" "Aggregate bucket size: hour, day, or week." false]
  else [].

Definition requestBodyFor (verb path : str) : str :=
  if bool_decide (verb = "POST") && bool_decide (path = "/api/v1/links") then
    "JSON object containing target_url and optional slug, metadata, tags, campaign, expiry, and redirect type fields."
  else if bool_decide (verb = "POST") && bool_decide (path = "/api/v1/short-urls") then
    "Compatibility JSON object containing url and optional code fields."
  else if bool_decide (verb = "PATCH") && bool_decide (path = "/api/v1/links/{slug}") then
    "JSON object containing mutable link fields to update; null clears nullable fields where supported."
  else if bool_decide (verb = "POST") && bool_decide (path = "/{path}") then
    "Raw URI-store value to associate with the requested path."
  else if bool_decide (verb = "POST") && bool_decide (path = "/") then
    "Raw URI-store value to associate with the root path."
  else [].

Definition response (status : Z) (description : string) : RouteResponseDoc := mkRouteResponseDoc status description.

Definition responsesFor (verb path : str) (is_placeholder : bool) : list RouteResponseDoc :=
  if is_placeholder then [response 501 "Feature placeholder is not enabled."]
  else if bool_decide (verb = "POST") && bool_decide (path = "/api/v1/links") then
    [response 201 "Link created."; response 400 "Invalid request."]
  else if bool_decide (verb = "POST") && bool_decide (path = "/api/v1/short-urls") then
    [response 201 "Compatibility link created."; response 400 "Invalid request."]
  else if bool_decide (path = "/r/{slug}") || bool_decide (path = "/{slug}") then
    [response 301 "Permanent redirect."; response 302 "Temporary redirect."; response 404 "Link not found.";
     response 410 "Link inactive."]
  else if bool_decide (path = "/healthz") || bool_decide (path = "/readyz") || bool_decide (path = "/metrics") then
    [response 200 "Successful response."]
  else if bool_decide (path = "/{path}") || bool_decide (path = "/") then
    [response 200 "URI-store operation succeeded."; response 404 "URI not found."]
  else if bool_decide (verb = "DELETE") then
    [response 200 "Resource deleted."; response 404 "Resource not found."]
  else [response 200 "Successful response."; response 404 "Resource not found."].

Definition route (verb path label text : str) (alias is_placeholder : bool) : RouteDescriptor :=
  mkRouteDescriptor verb path label text [tagFor label path] (operationIdFor verb path) (pathParametersFor path)
    (queryParametersFor path) (requestBodyFor verb path) (responsesFor verb path is_placeholder) alias is_placeholder.

Definition registeredRoutes : list RouteDescriptor :=
  [route "GET" "/healthz" "healthz" "Liveness probe; returns 200 when the process is running." false false;
   route "GET" "/readyz" "readyz" "Readiness probe; returns 200 when the server can serve traffic." false false;
   route "GET" "/metrics" "metrics" "Prometheus-style metrics exposition endpoint." false false;
   route "POST" "/api/v1/links" "api_links" "Create a short link from a target URL and optional attributes." false false;
   route "GET" "/api/v1/links/id/{id}" "api_links" "Fetch a link by its opaque identifier." false false;
   route "GET" "/api/v1/links/{slug}" "api_links" "Fetch a link's full metadata by slug." false false;
   route "PATCH" "/api/v1/links/{slug}" "api_links" "Partially update a link's mutable attributes." false false;
   route "DELETE" "/api/v1/links/{slug}" "api_links" "Soft-delete a link by slug." false false;
   route "GET" "/api/v1/links/{slug}/preview" "api_links" "Preview a link's resolved status without redirecting." false false;
   route "GET" "/api/v1/links/{slug}/qr" "api_links" "QR code generation placeholder (not yet implemented)." false true;
   route "GET" "/api/v1/links/{slug}/routing" "api_links" "Routing rules placeholder (not yet implemented)." false true;
   route "GET" "/api/v1/links/{slug}/stats" "api_links" "Aggregate click statistics for a link." false false;
   route "POST" "/api/v1/links/{slug}/enable" "api_links" "Enable a previously disabled link." false false;
   route "POST" "/api/v1/links/{slug}/disable" "api_links" "Disable a link so it stops redirecting." false false;
   route "POST" "/api/v1/links/{slug}/restore" "api_links" "Restore a soft-deleted link." false false;
   route "POST" "/api/v1/short-urls" "api_links" "Compatibility alias for creating a short link." true false;
   route "GET" "/api/v1/short-urls/{slug}" "api_links" "Compatibility alias for fetching a link by slug." true false;
   route "GET" "/r/{slug}" "redirect_prefixed" "Prefixed redirect to a link's target URL." false false;
   route "GET" "/{slug}" "redirect_root" "Root redirect to a link's target URL." false false;
   route "GET" "/{path}" "redirect_root" "Fallback URI store read for arbitrary application paths." false false;
   route "POST" "/{path}" "redirect_root" "Fallback URI store write for arbitrary application paths." false false;
   route "DELETE" "/{path}" "redirect_root" "Fallback URI store delete for arbitrary application paths." false false;
   route "GET" "/" "app" "Fallback URI store read for the root application path." false false;
   route "POST" "/" "app" "Fallback URI store write for the root application path." false false;
   route "DELETE" "/" "app" "Fallback URI store delete for the root application path." false false].

(** ** Path parameters *)
(** The names between braces, read character by character. *)
Fixpoint placeholders (path : str) (open : option str) : list str :=
  match path with
  | [] => []
  | c :: path' =>
      match open with
      | None => placeholders path' (if Ascii.eqb c "{" then Some [] else None)
      | Some name => if Ascii.eqb c "}" then rev name :: placeholders path' None else placeholders path' (Some (c :: name))
      end
  end.

Lemma placeholders_skip s rest : "{"%char ∉ s → placeholders (s ++ rest) None = placeholders rest None.
Proof.
  induction s as [|c s IH]; [done|]. intros [Hc Hs]%not_elem_of_cons. cbn [app placeholders].
  rewrite (proj2 (Ascii.eqb_neq c "{")) by congruence. by apply IH.
Qed.

Lemma placeholders_unclosed s name : "}"%char ∉ s → placeholders s (Some name) = [].
Proof.
  revert name. induction s as [|c s IH]; [done|]. intros name [Hc Hs]%not_elem_of_cons. cbn [placeholders].
  rewrite (proj2 (Ascii.eqb_neq c "}")) by congruence. by apply IH.
Qed.

Lemma placeholders_close s rest name :
  "}"%char ∉ s → placeholders (s ++ "}"%char :: rest) (Some name) = (rev name ++ s) :: placeholders rest None.
Proof.
  revert name. induction s as [|c s IH]; intros name; [by rewrite app_nil_r|]. intros [Hc Hs]%not_elem_of_cons. cbn [app placeholders].
  rewrite (proj2 (Ascii.eqb_neq c "}")) by congruence. rewrite IH by done. cbn [rev]. by rewrite <- app_assoc.
Qed.

Lemma scan_parameters_enough fuel path : length path < fuel → scan_parameters fuel path = Some (placeholders path None).
Proof.
  revert path. induction fuel as [|fuel IH]; intros path Hf; [lia|]. cbn [scan_parameters].
  destruct (find_char "{" path) as [pos|] eqn:Hpos.
  2:{ apply find_char_None in Hpos. by rewrite <- (app_nil_r path), placeholders_skip. }
  apply find_char_Some in Hpos as (Hpath & Hno & Hlt). set (rest := drop (S pos) path) in *.
  assert (Hlen : length rest = length path - S pos) by (unfold rest; apply length_drop).
  rewrite Hpath, placeholders_skip by done. cbn [placeholders]. rewrite Ascii.eqb_refl.
  destruct (find_char "}" rest) as [end_|] eqn:Hend.
  - apply find_char_Some in Hend as (Hrest & Hno' & Hlt'). rewrite IH by (rewrite length_drop; lia).
    cbn [fmap option_fmap option_map]. rewrite Hrest at 3. by rewrite placeholders_close.
  - apply find_char_None in Hend. by rewrite placeholders_unclosed.
Qed.

(** The scan for path parameters terminates on every pattern: more iterations
    than the pattern has characters are never needed, whatever the nesting or
    missing braces, and the names it returns are those of a left-to-right
    reading. *)
Theorem pathParametersFor_terminates (path : str) :
  (∀ fuel, length path < fuel → scan_parameters fuel path = Some (placeholders path None)) ∧
  param_name <$> pathParametersFor path = placeholders path None.
Proof.
  split; [intros; by apply scan_parameters_enough|]. unfold pathParametersFor. rewrite scan_parameters_enough by lia.
  cbn [default from_option]. rewrite <- list_fmap_compose. by rewrite (list_fmap_ext _ id), list_fmap_id.
Qed.

(** ** The registry and the router *)
Definition registry_key (d : RouteDescriptor) : str * str * str := (method d, path_pattern d, descriptor_label d).
Definition route_key (r : RouteEntry Server) : str * str * str := (methodToString (re_method r), re_pattern r, re_label r).

(** C37: the registry describes exactly the routes the router dispatches: same
    methods, patterns and metric labels, nothing missing or extra; operation
    identifiers are unique, the label is the one the metrics use for the
    pattern, and the documented path parameters are the ones of the pattern. *)
Theorem registry_describes_router (P : Platform) :
  registry_key <$> registeredRoutes ≡ₚ route_key <$> application_routes P ∧
  NoDup (operation_id <$> registeredRoutes) ∧
  Forall (fun d => routeLabelForTarget (path_pattern d) = descriptor_label d ∧
                   param_name <$> path_parameters d = placeholders (path_pattern d) None) registeredRoutes.
Proof.
  split_and!.
  - apply NoDup_Permutation; [by apply (bool_decide_unpack _); vm_compute|by apply (bool_decide_unpack _); vm_compute|].
    assert (H1 : Forall (fun k => k ∈ route_key <$> application_routes P) (registry_key <$> registeredRoutes))
      by (by apply (bool_decide_unpack _); vm_compute).
    assert (H2 : Forall (fun k => k ∈ registry_key <$> registeredRoutes) (route_key <$> application_routes P))
      by (by apply (bool_decide_unpack _); vm_compute).
    rewrite Forall_forall in H1, H2. intros k. split; auto.
  - by apply (bool_decide_unpack _); vm_compute.
  - by apply (bool_decide_unpack _); vm_compute.
Qed.
