(* ===== verification/Storage.v ===== *)
(** * Storage: the storage ports and their in-memory implementations

    The models (storage/models/), the error enums (storage/errors/), the ports
    [IMetadataRepository], [ICacheStore] and [IAnalyticsSink] as classes, the
    contracts their clients rely on as classes of laws, and the in-memory
    implementations of src/storage/inmemory/. An optional [error] out-parameter
    is returned beside the result. Each method holds its mutex for its whole
    body, so a method is one atomic step. *)
From stdpp Require Import sorting.
From S2P Require Import Prelude Text Env Clock.

(** ** Errors *)
Module RepoError.
Inductive t := none | not_found | already_exists | invalid_argument | transient_failure | permanent_failure.
End RepoError.

Module CacheError.
Inductive t := none | unavailable | invalid_argument | permanent_failure.

#[global] Instance t_eq_dec : EqDecision t.
Proof. solve_decision. Defined.
End CacheError.

Module AnalyticsError.
Inductive t := none | unavailable | queue_full | permanent_failure.
End AnalyticsError.

(** ** Models *)
Record LinkRecord := mkLinkRecord {
  lr_id : str;
  lr_short_code : str;
  lr_target_url : str;
  lr_created_at : Z;
  lr_updated_at : Z;
  lr_expires_at : option Z;
  lr_deleted_at : option Z;
  lr_owner : option str;
  lr_attributes : gmap str str;
  lr_is_active : bool;
  lr_version : Z;
}.

Record CacheValue := mkCacheValue {
  cv_target_url : str;
  cv_expires_at : option Z;
  cv_is_active : bool;
  cv_version : option Z;
}.

Record LinkAccessEvent := mkLinkAccessEvent {
  lae_short_code : str;
  lae_occurred_at : Z;
  lae_status_code : Z;
  lae_cache_hit : bool;
  lae_client_id : option str;
}.

Record CreateLinkRequest := mkCreateLinkRequest {
  rq_short_code : str;
  rq_target_url : str;
  rq_expires_at : option Z;
  rq_owner : option str;
  rq_attributes : gmap str str;
  rq_is_active : bool;
}.

(** [CreateLinkRequest::isValid]: the expression is
    [^[A-Za-z0-9_-]{3,64}$]. *)
Definition is_code_char (c : ascii) : bool := is_alnum c || one_of "_-" c.

Definition isValid (request : CreateLinkRequest) : bool :=
  bool_decide (rq_target_url request ≠ []) &&
  (forallb is_code_char (rq_short_code request) && (3 <=? length (rq_short_code request))
   && (length (rq_short_code request) <=? 64)).

Record ListLinksQuery := mkListLinksQuery {
  q_owner : option str;
  q_include_inactive : bool;
  q_include_deleted : bool;
  q_offset : nat;
  q_limit : nat;
}.

(** ** The ports *)

(** A write of the repository may end with an exception, [None]. *)
Class IMetadataRepository (R : Type) := {
  repo_CreateLink : CreateLinkRequest → str → Z → ST R (option (bool * RepoError.t));
  repo_GetByShortCode : str → ST R (option LinkRecord * RepoError.t);
  repo_UpdateLink : LinkRecord → ST R (option (bool * RepoError.t));
  repo_DeleteLink : str → ST R (bool * RepoError.t);
  repo_ListLinks : ListLinksQuery → ST R (list LinkRecord * RepoError.t);
  repo_Exists : str → ST R (bool * RepoError.t);
}.

(** A cache may read the clock. *)
Class ICacheStore (C : Type) := {
  cache_Get : str → ST (Env * C) (option CacheValue * CacheError.t);
  cache_Set : str → CacheValue → option Z → ST (Env * C) (bool * CacheError.t);
  cache_Delete : str → ST (Env * C) (bool * CacheError.t);
  cache_ClearByPrefix : str → ST (Env * C) (bool * CacheError.t);
}.

Class IAnalyticsSink (A : Type) := {
  sink_Emit : LinkAccessEvent → ST A (bool * AnalyticsError.t);
  sink_Flush : ST A (bool * AnalyticsError.t);
}.

(** ** The contracts *)

(** The record a request creates. *)
Definition new_record (request : CreateLinkRequest) (id : str) (now : Z) : LinkRecord :=
  mkLinkRecord id (rq_short_code request) (rq_target_url request) now now (rq_expires_at request) None
    (rq_owner request) (rq_attributes request) (rq_is_active request) 1.

(** A repository is a table of records keyed by short code. *)
Class MetadataRepositorySpec (R : Type) `{IMetadataRepository R} := {
  table : R → gmap str LinkRecord;
  create_law request id now r :
    let ok := isValid request && bool_decide (table r !! rq_short_code request = None) in
    (∃ e, (repo_CreateLink request id now r).1 = Some (ok, e)) ∧
    table (repo_CreateLink request id now r).2
    = if ok then <[rq_short_code request := new_record request id now]> (table r) else table r;
  get_law code r :
    (repo_GetByShortCode code r).1.1 = table r !! code ∧ table (repo_GetByShortCode code r).2 = table r;
  update_law record r :
    let ok := bool_decide (is_Some (table r !! lr_short_code record)) in
    (∃ e, (repo_UpdateLink record r).1 = Some (ok, e)) ∧
    table (repo_UpdateLink record r).2
    = if ok then <[lr_short_code record := record]> (table r) else table r;
  delete_law code r :
    (repo_DeleteLink code r).1.1 = true ∧ table (repo_DeleteLink code r).2 = delete code (table r);
}.

(** A repository whose database may fail. It [represents] one table; while it is
    [calm] every call succeeds as on the table, otherwise it may report a failure.
    It keeps the records it [accepts], their expiry as [kept_time] has it. *)
Class FaultyRepositorySpec (R : Type) `{IMetadataRepository R} := {
  represents : R → gmap str LinkRecord → Prop;
  calm : R → Prop;
  accepts : LinkRecord → Prop;
  kept_time : Z → Z;
  rep_unique r t1 t2 : represents r t1 → represents r t2 → t1 = t2;
  rep_get code r t :
    represents r t → represents (repo_GetByShortCode code r).2 t ∧
    ((repo_GetByShortCode code r).1.1 = t !! code ∨ ((repo_GetByShortCode code r).1.1 = None ∧ ¬ calm r));
  rep_create request id now r t :
    represents r t → accepts (new_record request id now) →
    ∃ t', represents (repo_CreateLink request id now r).2 t' ∧
      (t' = t ∨ (isValid request = true ∧ t !! rq_short_code request = None ∧
                 ∃ stored, t' = <[rq_short_code request := stored]> t));
  rep_update record r t :
    represents r t → accepts record →
    ∃ t', represents (repo_UpdateLink record r).2 t' ∧
      ((t' = t ∧ ∀ e, (repo_UpdateLink record r).1 ≠ Some (true, e)) ∨
       (is_Some (t !! lr_short_code record) ∧
        ∃ stored, t' = <[lr_short_code record := stored]> t ∧ lr_target_url stored = lr_target_url record ∧
          lr_is_active stored = lr_is_active record ∧ lr_expires_at stored = kept_time <$> lr_expires_at record));
  rep_delete code r t :
    represents r t →
    ∃ t', represents (repo_DeleteLink code r).2 t' ∧
      (t' = delete code t ∨ (t' = t ∧ (repo_DeleteLink code r).1.1 = false));
}.

(** Time goes on: the same streams, read further. *)
Definition env_later (e e' : Env) : Prop := clock e' = clock e ∧ ticks e ≤ ticks e'.

#[export] Instance env_later_preorder : PreOrder env_later.
Proof.
  split; [by split|]. intros e1 e2 e3 [H1 H2] [H3 H4]. split; [congruence|lia].
Qed.

(** A cache holds values it may answer with. It may lose any value at any time,
    refuse a write or a deletion and report errors; it may not invent a value, and
    a key whose deletion it reports as done is gone. *)
Class CacheStoreSpec (C : Type) `{ICacheStore C} := {
  cached : C → gmap str CacheValue;
  cache_get_law k w v : (cache_Get k w).1 = (Some v, CacheError.none) → cached w.2 !! k = Some v;
  cache_get_frame k w : cached (cache_Get k w).2.2 ⊆ cached w.2 ∧ env_later w.1 (cache_Get k w).2.1;
  cache_set_law k v ttl w :
    (∀ k' v', cached (cache_Set k v ttl w).2.2 !! k' = Some v' →
       (k' = k ∧ v' = v) ∨ cached w.2 !! k' = Some v') ∧
    env_later w.1 (cache_Set k v ttl w).2.1;
  cache_delete_law k w :
    cached (cache_Delete k w).2.2 ⊆ cached w.2 ∧
    ((cache_Delete k w).1.1 = true → cached (cache_Delete k w).2.2 !! k = None) ∧ env_later w.1 (cache_Delete k w).2.1;
}.

(** ** [InMemoryMetadataRepository] (in_memory_metadata_repository.cpp) *)
Module InMemoryMetadata.
(** [by_code_]. *)
Abbreviation t := (gmap str LinkRecord).

Definition CreateLink (request : CreateLinkRequest) (id : str) (now : Z) : ST t (bool * RepoError.t) := fun by_code =>
  if negb (isValid request) then ((false, RepoError.invalid_argument), by_code)
  else match by_code !! rq_short_code request with
  | Some _ => ((false, RepoError.already_exists), by_code)
  | None => ((true, RepoError.none), <[rq_short_code request := new_record request id now]> by_code)
  end.

Definition GetByShortCode (short_code : str) (by_code : t) : option LinkRecord * RepoError.t :=
  match by_code !! short_code with
  | Some record => (Some record, RepoError.none)
  | None => (None, RepoError.not_found)
  end.

Definition UpdateLink (record : LinkRecord) : ST t (bool * RepoError.t) := fun by_code =>
  match by_code !! lr_short_code record with
  | None => ((false, RepoError.not_found), by_code)
  | Some _ => ((true, RepoError.none), <[lr_short_code record := record]> by_code)
  end.

Definition DeleteLink (short_code : str) : ST t (bool * RepoError.t) := fun by_code =>
  ((true, RepoError.none), delete short_code by_code).

(** The filter of [ListLinks]. *)
Definition listed (query : ListLinksQuery) (record : LinkRecord) : bool :=
  negb (negb (q_include_deleted query) && bool_decide (is_Some (lr_deleted_at record)))
  && negb (negb (q_include_inactive query) && negb (lr_is_active record))
  && negb (bool_decide (is_Some (q_owner query)) && bool_decide (lr_owner record ≠ q_owner query)).

(** The iteration order of the hash map and the order [std::sort] gives to equal
    creation times are the library's choice. *)
Section list_links.
Context (iterate : t → list (str * LinkRecord)) (std_sort : list LinkRecord → list LinkRecord).

Definition ListLinks (query : ListLinksQuery) (by_code : t) : list LinkRecord * RepoError.t :=
  let records := std_sort (List.filter (listed query) (map snd (iterate by_code))) in
  if length records <=? q_offset query then ([], RepoError.none)
  else
    let remaining := length records - q_offset query in
    let limit := Nat.min (q_limit query) remaining in
    let end_ := q_offset query + limit in
    (take (end_ - q_offset query) (drop (q_offset query) records), RepoError.none).
End list_links.

Definition Exists (short_code : str) (by_code : t) : bool * RepoError.t :=
  let exists_ := bool_decide (is_Some (GetByShortCode short_code by_code).1) in
  (exists_, RepoError.none).
End InMemoryMetadata.

(** Insertion by creation time, one sort [std::sort] may be. *)
Definition created_before (r1 r2 : LinkRecord) : Prop := (lr_created_at r1 ≤ lr_created_at r2)%Z.
#[export] Instance created_before_dec : RelDecision created_before := fun r1 r2 => Z_le_dec _ _.

(** A method that does not throw, behind the port. *)
Definition returning {R A} (m : ST R A) : ST R (option A) := a ← m; mret (Some a).

#[export] Instance InMemoryMetadataRepository : IMetadataRepository InMemoryMetadata.t := {
  repo_CreateLink request id now := returning (InMemoryMetadata.CreateLink request id now);
  repo_GetByShortCode code := gets (InMemoryMetadata.GetByShortCode code);
  repo_UpdateLink record := returning (InMemoryMetadata.UpdateLink record);
  repo_DeleteLink := InMemoryMetadata.DeleteLink;
  repo_ListLinks query := gets (InMemoryMetadata.ListLinks map_to_list (merge_sort created_before) query);
  repo_Exists code := gets (InMemoryMetadata.Exists code);
}.

(** ** [InMemoryCacheStore] (in_memory_cache_store.cpp) *)
Module InMemoryCache.
Record Entry := mkEntry { value : CacheValue; expires_at : option Z }.

(** [entries_]. *)
Abbreviation t := (gmap str Entry).

Definition now {S} : ST (Env * S) Z := fun w => let '(z, e) := system_now w.1 in (z, (e, w.2)).

Definition Get (key : str) : ST (Env * t) (option CacheValue * CacheError.t) := fun w =>
  match w.2 !! key with
  | None => ((None, CacheError.none), w)
  | Some entry =>
      match expires_at entry with
      | None => ((Some (value entry), CacheError.none), w)
      | Some x =>
          let '(z, w) := now w in
          if (x <=? z)%Z then ((None, CacheError.none), (w.1, delete key w.2))
          else ((Some (value entry), CacheError.none), w)
      end
  end.

(** [ttl] counts seconds. *)
Definition Set_ (key : str) (v : CacheValue) (ttl : option Z) : ST (Env * t) (bool * CacheError.t) := fun w =>
  match ttl with
  | None => ((true, CacheError.none), (w.1, <[key := mkEntry v None]> w.2))
  | Some s =>
      if (s <=? 0)%Z then ((true, CacheError.none), (w.1, delete key w.2))
      else
        let '(z, w) := now w in
        ((true, CacheError.none), (w.1, <[key := mkEntry v (Some (wrap64 (z + s * ticks_per_second)))]> w.2))
  end.

Definition Delete (key : str) : ST (Env * t) (bool * CacheError.t) := fun w =>
  ((true, CacheError.none), (w.1, delete key w.2)).

Definition ClearByPrefix (prefix : str) : ST (Env * t) (bool * CacheError.t) := fun w =>
  ((true, CacheError.none), (w.1, filter (fun kv => starts_with prefix kv.1 = false) w.2)).
End InMemoryCache.

#[export] Instance InMemoryCacheStore : ICacheStore InMemoryCache.t := {
  cache_Get := InMemoryCache.Get;
  cache_Set := InMemoryCache.Set_;
  cache_Delete := InMemoryCache.Delete;
  cache_ClearByPrefix := InMemoryCache.ClearByPrefix;
}.

(** ** [InMemoryAnalyticsSink] (in_memory_analytics_sink.cpp) *)
Definition Emit (event : LinkAccessEvent) : ST (list LinkAccessEvent) (bool * AnalyticsError.t) := fun events =>
  ((true, AnalyticsError.none), events ++ [event]).
Definition Flush : ST (list LinkAccessEvent) (bool * AnalyticsError.t) := fun events =>
  ((true, AnalyticsError.none), events).

#[export] Instance InMemoryAnalyticsSink : IAnalyticsSink (list LinkAccessEvent) := {
  sink_Emit := Emit;
  sink_Flush := Flush;
}.

(** ** The in-memory implementations meet the contracts *)
#[export] Program Instance InMemoryMetadata_spec : MetadataRepositorySpec InMemoryMetadata.t := {
  table := id;
}.
Next Obligation.
  intros request i now r. simpl. unfold returning. rewrite ST_bind_eq. unfold InMemoryMetadata.CreateLink, id.
  destruct (isValid request); simpl; [|by eauto].
  destruct (r !! rq_short_code request) eqn:E; case_bool_decide as Hn; simpl; try (by eauto); by rewrite E in Hn.
Qed.
Next Obligation. intros code r. simpl. unfold InMemoryMetadata.GetByShortCode, id. by destruct (r !! code). Qed.
Next Obligation.
  intros record r. simpl. unfold returning. rewrite ST_bind_eq. unfold InMemoryMetadata.UpdateLink, id.
  destruct (r !! lr_short_code record); simpl; eauto.
Qed.
Next Obligation. done. Qed.

(** A repository that never fails is one whose database may fail. *)
#[export] Program Instance MetadataRepositorySpec_faulty `{MetadataRepositorySpec R} : FaultyRepositorySpec R := {
  represents r t := table r = t;
  calm _ := True;
  accepts _ := True;
  kept_time := id;
}.
Next Obligation. intros; congruence. Qed.
Next Obligation. intros R ? ? code r t <-. destruct (get_law code r) as [Hg Ht]. auto. Qed.
Next Obligation.
  intros R ? ? request i now r t <- _. eexists. split; [reflexivity|]. destruct (create_law request i now r) as [_ ->].
  destruct (isValid request); cbn; [|by left]. case_bool_decide; [right|by left]. by eauto.
Qed.
Next Obligation.
  intros R ? ? record r t <- _. eexists. split; [reflexivity|]. destruct (update_law record r) as [[e He] ->]. rewrite He.
  case_bool_decide as Hs; [right; split; [done|]; exists record; by rewrite option_fmap_id|left; split; [done|]; by intros e' [=]].
Qed.
Next Obligation. intros R ? ? code r t <-. eexists. split; [reflexivity|]. left. apply delete_law. Qed.

#[export] Program Instance InMemoryCache_spec : CacheStoreSpec InMemoryCache.t := {
  cached := fmap InMemoryCache.value;
}.
Next Obligation.
  intros k [e c] v. simpl. rewrite lookup_fmap. unfold InMemoryCache.Get. simpl.
  destruct (c !! k) as [[v' x]|]; simpl; [|done]. destruct x as [x|]; simpl; [|by intros [= ->]].
  case_match; by intros [= ->].
Qed.
Next Obligation.
  intros k [e c]. simpl. unfold InMemoryCache.Get, env_later. simpl.
  destruct (c !! k) as [[v' x]|]; simpl; [|done]. destruct x as [x|]; simpl; [|done].
  case_match; simpl; (split; [|split; [done|lia]]); [|done].
  rewrite fmap_delete. apply delete_subseteq.
Qed.
Next Obligation.
  intros k v ttl [e c]. simpl. unfold InMemoryCache.Set_, env_later. simpl.
  assert (Hins : ∀ entry k' v', InMemoryCache.value entry = v →
    (InMemoryCache.value <$> <[k:=entry]> c) !! k' = Some v' →
    k' = k ∧ v' = v ∨ (InMemoryCache.value <$> c) !! k' = Some v').
  { intros entry k' v' <-. rewrite fmap_insert, lookup_insert_Some. naive_solver. }
  destruct ttl as [s|]; simpl.
  2: { split; [|done]. intros k' v'. by apply Hins. }
  case_match; simpl.
  2: { split; [|split; [done|lia]]. intros k' v'. by apply Hins. }
  split; [|done]. intros k' v'. rewrite fmap_delete, lookup_delete_Some. naive_solver.
Qed.
Next Obligation.
  intros k [e c]. simpl. rewrite fmap_delete. split_and!; [apply delete_subseteq| |done]. intros _. apply lookup_delete_eq.
Qed.

(** ** Listing *)

(** What [std::sort] by creation time promises. *)
Definition sorts_by_creation (std_sort : list LinkRecord → list LinkRecord) : Prop :=
  ∀ l, std_sort l ≡ₚ l ∧ StronglySorted created_before (std_sort l).

(** What iterating over the hash map promises. *)
Definition iterates (iterate : InMemoryMetadata.t → list (str * LinkRecord)) : Prop :=
  ∀ m, iterate m ≡ₚ map_to_list m.

Definition page (query : ListLinksQuery) (offset : nat) : ListLinksQuery :=
  mkListLinksQuery (q_owner query) (q_include_inactive query) (q_include_deleted query) offset (q_limit query).

(** Consecutive pages. *)
Definition pages (n : nat) (query : ListLinksQuery) : list ListLinksQuery :=
  map (fun i => page query (i * q_limit query)) (seq 0 n).

Section listing.
Context (iterate : InMemoryMetadata.t → list (str * LinkRecord)) (std_sort : list LinkRecord → list LinkRecord).

Definition all_listed (query : ListLinksQuery) (m : InMemoryMetadata.t) : list LinkRecord :=
  std_sort (List.filter (InMemoryMetadata.listed query) (map snd (iterate m))).

Lemma ListLinks_slice query m :
  (InMemoryMetadata.ListLinks iterate std_sort query m).1
  = take (q_limit query) (drop (q_offset query) (all_listed query m)).
Proof.
  unfold InMemoryMetadata.ListLinks, all_listed. cbv zeta. set (l := std_sort _).
  destruct (Nat.leb_spec (length l) (q_offset query)) as [H|H]; simpl.
  - by rewrite drop_ge, take_nil.
  - replace (q_offset query + _ - q_offset query) with (Nat.min (q_limit query) (length l - q_offset query)) by lia.
    destruct (Nat.min_spec (q_limit query) (length l - q_offset query)) as [[_ ->]|[Hle ->]]; [done|].
    rewrite <- length_drop, firstn_all. symmetry. apply take_ge. by rewrite length_drop.
Qed.

Lemma concat_pages {A} (l : list A) k n :
  concat (map (fun i => take k (drop (i * k) l)) (seq 0 n)) = take (n * k) l.
Proof.
  induction n as [|n IH]; [done|]. rewrite seq_S, map_app, concat_app, IH. simpl. rewrite app_nil_r.
  rewrite <- (take_drop (n * k) (take (k + n * k) l)). f_equal.
  - by rewrite take_take, Nat.min_l by lia.
  - by rewrite (Nat.add_comm k), <- take_drop_commute.
Qed.

(** C38: paging is complete and ordered. Whatever order the hash map iterates in
    and however [std::sort] orders equal keys, the consecutive pages of a
    query, concatenated, are ordered by creation time and hold exactly the
    records that pass its filters, each once, as soon as they reach past the
    last one; and no page is longer than its limit. *)
Theorem ListLinks_pages query m n :
  iterates iterate → sorts_by_creation std_sort →
  let answer q := (InMemoryMetadata.ListLinks iterate std_sort q m).1 in
  length (all_listed query m) ≤ n * q_limit query →
  StronglySorted created_before (concat (map answer (pages n query))) ∧
  concat (map answer (pages n query)) ≡ₚ
    List.filter (InMemoryMetadata.listed query) (map snd (map_to_list m)) ∧
  Forall (fun q => length (answer q) ≤ q_limit query) (pages n query).
Proof.
  intros Hit Hsort answer Hn.
  assert (Hc : concat (map answer (pages n query)) = all_listed query m).
  { unfold pages, answer. rewrite map_map.
    erewrite map_ext by (intros; apply ListLinks_slice). simpl.
    change (fun a => take _ (drop _ _)) with
      (fun i => take (q_limit query) (drop (i * q_limit query) (all_listed query m))).
    rewrite concat_pages. by apply take_ge. }
  rewrite Hc. split_and!.
  - apply Hsort.
  - unfold all_listed. rewrite (proj1 (Hsort _)). clear -Hit.
    assert (Hp : map snd (iterate m) ≡ₚ map snd (map_to_list m)) by (apply Permutation_map, Hit).
    induction Hp; simpl; repeat case_match; try done; eauto using perm_swap; by etrans.
  - apply Forall_forall. intros q (i & -> & _)%list_elem_of_fmap. unfold answer. rewrite ListLinks_slice. simpl.
    rewrite length_take. lia.
Qed.
End listing.

Lemma merge_sort_by_creation : sorts_by_creation (merge_sort created_before).
Proof.
  intros l. split; [apply merge_sort_Permutation|].
  apply StronglySorted_merge_sort; [intros x y z; unfold created_before; lia|intros x y; unfold created_before; lia].
Qed.

Definition sample_record (code : str) (created : Z) (expires : option Z) : LinkRecord :=
  mkLinkRecord code code (("https://example.com/" : str) ++ code) created created expires None None ∅ true 1.
Definition sample_table : gmap str LinkRecord :=
  {[ ("aaa" : str) := sample_record "aaa" 30 None; ("bbb" : str) := sample_record "bbb" 10 None;
     ("ccc" : str) := sample_record "ccc" 20 None ]}.

Lemma ListLinks_pages_witness :
  let answer offset := (InMemoryMetadata.ListLinks map_to_list (merge_sort created_before)
    (mkListLinksQuery None true false offset 2) sample_table).1 in
  map lr_short_code (answer 0 ++ answer 2) = ["bbb" : str; "ccc" : str; "aaa" : str] ∧
  StronglySorted created_before (answer 0 ++ answer 2).
Proof.
  intros answer. split; [vm_compute; reflexivity|].
  destruct (ListLinks_pages map_to_list (merge_sort created_before) (mkListLinksQuery None true false 0 2)
    sample_table 2) as (H & _).
  - intros m; reflexivity.
  - apply merge_sort_by_creation.
  - apply (bool_decide_unpack _). vm_compute. done.
  - simpl in H. rewrite app_nil_r in H. exact H.
Defined.
