(* ===== verification/LinkService.v ===== *)
(** * LinkService: redirect resolution over the storage ports (src/core/link_service.cpp)

    [Resolve], [Update] and [Delete] over any repository, cache and analytics
    sink, and the proof that the cache is never seen: every answer is the one
    the repository's table gives at a clock reading taken during the call. *)
From stdpp Require Import relations.
From S2P Require Import Prelude Text Env Clock Storage.

Module ResolveStatus.
Inductive t := redirect | not_found | inactive | expired.

#[global] Instance t_eq_dec : EqDecision t.
Proof. solve_decision. Defined.
End ResolveStatus.

Record ResolveResult := mkResolveResult {
  rr_status : ResolveStatus.t;
  rr_target_url : option str;
  rr_cache_hit : bool;
}.

(** What a service object refers to: the clock, the cache, the repository and
    the sink. *)
Record World (C R A : Type) := mkWorld {
  w_env : Env;
  w_cache : C;
  w_repo : R;
  w_sink : A;
}.
Arguments mkWorld {C R A}.
Arguments w_env {C R A}.
Arguments w_cache {C R A}.
Arguments w_repo {C R A}.
Arguments w_sink {C R A}.

(** The status code [EmitAnalytics] reports. *)
Definition status_code_of (status : ResolveStatus.t) : Z :=
  match status with
  | ResolveStatus.redirect => 302
  | ResolveStatus.not_found => 404
  | ResolveStatus.inactive | ResolveStatus.expired => 410
  end.

(** [expires_at.has_value() && expires_at.value() <= clock_.now()]: the clock is
    read only when there is an expiry. *)
Definition expired_now (expires_at : option Z) : ST Env bool :=
  match expires_at with
  | None => mret false
  | Some x => now ← system_now; mret (x <=? now)%Z
  end.

(** The time to live of a cache entry, in seconds. *)
Definition ttl_for (expires_at : option Z) : ST Env (option Z) :=
  match expires_at with
  | None => mret None
  | Some x =>
      now ← system_now;
      let duration := wrap64 (x - now) in
      mret (if (0 <? duration)%Z then Some (Z.quot duration ticks_per_second) else None)
  end.

Definition cache_value_of (record : LinkRecord) : CacheValue :=
  mkCacheValue (lr_target_url record) (lr_expires_at record) (lr_is_active record) (Some (lr_version record)).

Section service.
Context {C R A : Type} `{ICacheStore C, IMetadataRepository R, IAnalyticsSink A}.
Notation world := (World C R A).

Definition on_clock {B} (m : ST Env B) : ST world B := fun w =>
  let '(b, e) := m (w_env w) in (b, mkWorld e (w_cache w) (w_repo w) (w_sink w)).
Definition on_cache {B} (m : ST (Env * C) B) : ST world B := fun w =>
  let '(b, (e, c)) := m (w_env w, w_cache w) in (b, mkWorld e c (w_repo w) (w_sink w)).
Definition on_repo {B} (m : ST R B) : ST world B := fun w =>
  let '(b, r) := m (w_repo w) in (b, mkWorld (w_env w) (w_cache w) r (w_sink w)).
Definition on_sink {B} (m : ST A B) : ST world B := fun w =>
  let '(b, a) := m (w_sink w) in (b, mkWorld (w_env w) (w_cache w) (w_repo w) a).

Definition EmitAnalytics (short_code : str) (result : ResolveResult) : ST world unit :=
  now ← on_clock system_now;
  _ ← on_sink (sink_Emit (mkLinkAccessEvent short_code now (status_code_of (rr_status result)) (rr_cache_hit result) None));
  mret tt.

(** The result, reported to the sink. *)
Definition emitted (short_code : str) (result : ResolveResult) : ST world ResolveResult :=
  _ ← EmitAnalytics short_code result; mret result.

(** The part of [Resolve] after the cache. *)
Definition resolve_from_repo (short_code : str) : ST world ResolveResult :=
  answer ← on_repo (repo_GetByShortCode short_code);
  match answer.1 with
  | None => emitted short_code (mkResolveResult ResolveStatus.not_found None false)
  | Some record =>
      if negb (lr_is_active record)
      then emitted short_code (mkResolveResult ResolveStatus.inactive None false)
      else
        expired ← on_clock (expired_now (lr_expires_at record));
        if (expired : bool) then emitted short_code (mkResolveResult ResolveStatus.expired None false)
        else
          ttl ← on_clock (ttl_for (lr_expires_at record));
          _ ← on_cache (cache_Set short_code (cache_value_of record) ttl);
          emitted short_code (mkResolveResult ResolveStatus.redirect (Some (lr_target_url record)) false)
  end.

Definition Resolve (short_code : str) : ST world ResolveResult :=
  answer ← on_cache (cache_Get short_code);
  match answer with
  | (Some v, CacheError.none) =>
      expired ← on_clock (expired_now (cv_expires_at v));
      if cv_is_active v && negb expired
      then emitted short_code (mkResolveResult ResolveStatus.redirect (Some (cv_target_url v)) true)
      else
        _ ← on_cache (cache_Delete short_code);
        resolve_from_repo short_code
  | _ => resolve_from_repo short_code
  end.

(** [None]: an exception of the repository leaves before the cache is reached. *)
Definition Update (record : LinkRecord) : ST world (option (bool * RepoError.t)) :=
  updated ← on_repo (repo_UpdateLink record);
  match updated with
  | None => mret None
  | Some updated => _ ← on_cache (cache_Delete (lr_short_code record)); mret (Some updated)
  end.

Definition Delete (short_code : str) : ST world (bool * RepoError.t) :=
  deleted ← on_repo (repo_DeleteLink short_code);
  _ ← on_cache (cache_Delete short_code);
  mret deleted.
End service.

(** ** The reference: the table decides, at a point in time *)
Definition resolve_at (now : Z) (record : option LinkRecord) : ResolveStatus.t * option str :=
  match record with
  | None => (ResolveStatus.not_found, None)
  | Some record =>
      if negb (lr_is_active record) then (ResolveStatus.inactive, None)
      else if from_option (fun x => (x <=? now)%Z) false (lr_expires_at record) then (ResolveStatus.expired, None)
      else (ResolveStatus.redirect, Some (lr_target_url record))
  end.

Lemma expired_now_spec x e :
  env_later e (expired_now x e).2 ∧
  ∃ t, ticks e ≤ t ≤ ticks (expired_now x e).2 ∧
       (expired_now x e).1 = from_option (fun x => (x <=? clock e t)%Z) false x.
Proof.
  destruct x as [x|]; simpl; [|split; [done|exists (ticks e); auto]].
  unfold mbind, ST_bind. simpl. split; [split; simpl; [done|lia]|]. exists (ticks e). simpl. auto with lia.
Qed.

Lemma ttl_for_later x e : env_later e (ttl_for x e).2.
Proof. destruct x as [x|]; simpl; [|done]. split; simpl; [done|lia]. Qed.

(** ** What a call of [Resolve] does to the cache *)

(** The operations of a cache only let time pass. *)
Class CacheClock (C : Type) `{ICacheStore C} := {
  get_later k w : env_later w.1 (cache_Get k w).2.1;
  set_later k v ttl w : env_later w.1 (cache_Set k v ttl w).2.1;
  remove_later k w : env_later w.1 (cache_Delete k w).2.1;
}.

#[export] Instance CacheStoreSpec_clock `{CacheStoreSpec C} : CacheClock C.
Proof. split; intros; [apply cache_get_frame|apply cache_set_law|apply cache_delete_law]. Qed.

Section behaviour.
Context {C R A : Type} `{CacheClock C, IMetadataRepository R, IAnalyticsSink A}.
Notation world := (World C R A).
Implicit Types (w : world) (code : str) (record : option LinkRecord).

(** What a call may do to the cache when the repository answers [record]: read,
    remove, and write the record's value under the code. *)
Inductive cache_op code record : relation (Env * C) :=
  | op_get k ec : cache_op code record ec (cache_Get k ec).2
  | op_delete k ec : cache_op code record ec (cache_Delete k ec).2
  | op_set r ttl ec : record = Some r → cache_op code record ec (cache_Set code (cache_value_of r) ttl ec).2
  | op_time e e' c : env_later e e' → cache_op code record (e, c) (e', c).

Lemma cache_ops_later code record ec ec' : rtc (cache_op code record) ec ec' → env_later ec.1 ec'.1.
Proof.
  induction 1 as [|ec1 ec2 ec3 Hop _ IH]; [done|]. etrans; [|done].
  destruct Hop as [k ec|k ec|r ttl ec _|e e' c He]; [apply get_later|apply remove_later|apply set_later|done].
Qed.

(** The sink is the same, the cache went through such operations. *)
Definition later code record w w' : Prop :=
  rtc (cache_op code record) (w_env w, w_cache w) (w_env w', w_cache w') ∧ w_sink w' = w_sink w.

Lemma later_env code record w w' : later code record w w' → env_later (w_env w) (w_env w').
Proof. intros [Hops _]. apply (cache_ops_later _ _ _ _ Hops). Qed.

Lemma later_trans code record w1 w2 w3 : later code record w1 w2 → later code record w2 w3 → later code record w1 w3.
Proof. intros (E1 & S1) (E2 & S2). split; [by etrans|congruence]. Qed.

Lemma on_clock_later {B} code record (m : ST Env B) w :
  env_later (w_env w) (m (w_env w)).2 →
  (on_clock m w).1 = (m (w_env w)).1 ∧ later code record w (on_clock m w).2 ∧
  w_env (on_clock m w).2 = (m (w_env w)).2 ∧ w_repo (on_clock m w).2 = w_repo w.
Proof.
  intros He. unfold on_clock. destruct (m (w_env w)) as [b e]. split_and!; [done| |done|done].
  split; [|done]. by apply rtc_once, op_time.
Qed.

Lemma on_cache_later {B} code record (m : ST (Env * C) B) w :
  cache_op code record (w_env w, w_cache w) (m (w_env w, w_cache w)).2 →
  (on_cache m w).1 = (m (w_env w, w_cache w)).1 ∧ later code record w (on_cache m w).2 ∧
  w_repo (on_cache m w).2 = w_repo w.
Proof.
  intros Hop. unfold on_cache. destruct (m (w_env w, w_cache w)) as [b [e c]]. split_and!; [done| |done].
  split; [by apply rtc_once|done].
Qed.

Lemma on_repo_later {B} code record (m : ST R B) w :
  (on_repo m w).1 = (m (w_repo w)).1 ∧ later code record w (on_repo m w).2 ∧
  w_repo (on_repo m w).2 = (m (w_repo w)).2 ∧ w_env (on_repo m w).2 = w_env w.
Proof. unfold on_repo. by destruct (m (w_repo w)). Qed.

(** The status an event reports: 302 for a redirect, 404 for a link that is not
    there, 410 for one that is inactive or has expired. *)
Definition reports_status (status : ResolveStatus.t) (s : Z) : Prop :=
  (s = 302 ∧ status = ResolveStatus.redirect)%Z ∨ (s = 404 ∧ status = ResolveStatus.not_found)%Z ∨
  (s = 410 ∧ (status = ResolveStatus.inactive ∨ status = ResolveStatus.expired))%Z.

Lemma status_code_reports status : reports_status status (status_code_of status).
Proof. unfold reports_status. destruct status; cbn; auto 6. Qed.

(** One event reports [result], at a reading of the clock taken during the call. *)
Definition reported code w (result : ResolveResult) w' : Prop :=
  ∃ t s, ticks (w_env w) ≤ t < ticks (w_env w') ∧ reports_status (rr_status result) s ∧
    w_sink w' = (sink_Emit (mkLinkAccessEvent code (clock (w_env w) t) s (rr_cache_hit result) None) (w_sink w)).2.

(** The call answers [result] because of what [source] held, at a reading of the
    clock taken during the call. *)
Definition answered w (source : option LinkRecord) (result : ResolveResult) w' : Prop :=
  ∃ t, ticks (w_env w) ≤ t < ticks (w_env w') ∧
    (rr_status result, rr_target_url result) = resolve_at (clock (w_env w) t) source.

(** The record a cached value stands for, as far as an answer depends on it. *)
Definition record_of_value (v : CacheValue) : LinkRecord :=
  mkLinkRecord [] [] (cv_target_url v) 0 0 (cv_expires_at v) None None ∅ (cv_is_active v) 0.

(** Everything a call does: the cache's value answers when it is active and not
    expired, what the repository reads does otherwise. *)
Definition resolve_outcome code w (result : ResolveResult) w' : Prop :=
  let read := repo_GetByShortCode code (w_repo w) in
  rtc (cache_op code read.1.1) (w_env w, w_cache w) (w_env w', w_cache w') ∧
  reported code w result w' ∧
  if rr_cache_hit result
  then w_repo w' = w_repo w ∧ rr_status result = ResolveStatus.redirect ∧
       ∃ v, (cache_Get code (w_env w, w_cache w)).1 = (Some v, CacheError.none) ∧
            answered w (Some (record_of_value v)) result w'
  else w_repo w' = read.2 ∧ answered w read.1.1 result w'.

Lemma emitted_spec code record result w0 w :
  later code record w0 w →
  let w' := (emitted code result w).2 in
  (emitted code result w).1 = result ∧ w_repo w' = w_repo w ∧
  rtc (cache_op code record) (w_env w0, w_cache w0) (w_env w', w_cache w') ∧
  reported code w0 result w' ∧
  ∀ source t, ticks (w_env w0) ≤ t ≤ ticks (w_env w) →
    (rr_status result, rr_target_url result) = resolve_at (clock (w_env w0) t) source → answered w0 source result w'.
Proof.
  intros Hl. cbv zeta. destruct (later_env _ _ _ _ Hl) as [Hc Ht]. destruct Hl as (Hops & Hs).
  unfold emitted, EmitAnalytics. rewrite !ST_bind_eq. unfold on_clock, on_sink. simpl.
  destruct (sink_Emit _ _) as [b a] eqn:E. simpl. split_and!; [done|done| | |].
  - eapply rtc_r; [exact Hops|]. apply op_time. split; simpl; [done|lia].
  - exists (ticks (w_env w)), (status_code_of (rr_status result)). simpl. split; [lia|].
    split; [apply status_code_reports|]. by rewrite <- Hs, <- Hc, E.
  - intros source t Hb Ha. exists t. simpl. split; [lia|done].
Qed.

(** An answer that what the repository has read decides. *)
Lemma emitted_from_repo code status target w0 w t :
  let read := repo_GetByShortCode code (w_repo w0) in
  later code read.1.1 w0 w → w_repo w = read.2 → ticks (w_env w0) ≤ t ≤ ticks (w_env w) →
  (status, target) = resolve_at (clock (w_env w0) t) read.1.1 →
  let r := emitted code (mkResolveResult status target false) w in resolve_outcome code w0 r.1 r.2.
Proof.
  intros read Hl Hr Hb Ha. cbv zeta.
  destruct (emitted_spec code _ (mkResolveResult status target false) w0 w Hl) as (-> & Hr' & Hops & Hrep & Hans).
  split_and!; [done|done|]. simpl. split; [by rewrite Hr'|by eapply Hans].
Qed.

Lemma resolve_from_repo_outcome code w0 w :
  later code (repo_GetByShortCode code (w_repo w0)).1.1 w0 w → w_repo w = w_repo w0 →
  let r := resolve_from_repo code w in resolve_outcome code w0 r.1 r.2.
Proof.
  intros Hl Hw. unfold resolve_from_repo. cbv zeta. rewrite ST_bind_eq.
  destruct (on_repo_later code (repo_GetByShortCode code (w_repo w0)).1.1 (repo_GetByShortCode code) w) as (-> & Hl' & Hr & _).
  rewrite Hw in Hr |- *. apply (later_trans _ _ _ _ _ Hl) in Hl'. clear Hl Hw.
  set (w1 := (on_repo _ w).2) in *. clearbody w1. destruct (later_env _ _ _ _ Hl') as [Hc Ht].
  pose proof (fun status target w t => emitted_from_repo code status target w0 w t) as Hemit. cbv zeta in Hemit.
  destruct (repo_GetByShortCode code (w_repo w0)).1.1 as [record|] eqn:Er.
  2: { apply (Hemit _ _ w1 (ticks (w_env w1))); [done|done|lia|done]. }
  destruct (lr_is_active record) eqn:Ea; cbn [negb].
  2: { apply (Hemit _ _ w1 (ticks (w_env w1))); [done|done|lia|]. simpl. by rewrite Ea. }
  rewrite ST_bind_eq. destruct (expired_now_spec (lr_expires_at record) (w_env w1)) as (He & t & Hb & Hx).
  destruct (on_clock_later code (Some record) _ w1 He) as (Hv & Hl2 & He2 & Hr2). rewrite Hv, Hx.
  set (w2 := (on_clock _ w1).2) in *. rewrite Hc in Hx |- *. assert (Hl02 := later_trans _ _ _ _ _ Hl' Hl2).
  destruct (from_option _ _ _) eqn:Ex.
  { apply (Hemit _ _ w2 t); [done|congruence|rewrite He2; lia|]. simpl. by rewrite Ea, Ex. }
  rewrite !ST_bind_eq.
  destruct (on_clock_later code (Some record) _ w2 (ttl_for_later (lr_expires_at record) _)) as (-> & Hl3 & He3 & Hr3).
  set (w3 := (on_clock _ w2).2) in *. set (ttl := (ttl_for _ _).1).
  destruct (on_cache_later code (Some record) (cache_Set code (cache_value_of record) ttl) w3) as (_ & Hl4 & Hr4); [by apply op_set|].
  assert (Ht3 := proj2 (later_env _ _ _ _ Hl3)). assert (Ht4 := proj2 (later_env _ _ _ _ Hl4)).
  apply (Hemit _ _ _ t); [by do 2 (eapply later_trans; [eassumption|])|congruence|rewrite He2 in Ht3; lia|].
  simpl. by rewrite Ea, Ex.
Qed.

Lemma Resolve_outcome code w : let r := Resolve code w in resolve_outcome code w r.1 r.2.
Proof.
  unfold Resolve. cbv zeta. rewrite ST_bind_eq. set (record := (repo_GetByShortCode code (w_repo w)).1.1).
  destruct (on_cache_later code record (cache_Get code) w (op_get _ _ _ _)) as (Hv & Hl1 & Hr1). rewrite Hv.
  set (w1 := (on_cache _ w).2) in *.
  destruct (cache_Get code (w_env w, w_cache w)).1 as [[v|] err] eqn:Eg; [|by apply resolve_from_repo_outcome].
  destruct err; try by apply resolve_from_repo_outcome.
  rewrite ST_bind_eq. destruct (expired_now_spec (cv_expires_at v) (w_env w1)) as (He1 & t & Hb & Hx).
  destruct (on_clock_later code record _ w1 He1) as (-> & Hl2 & He2 & Hr2). rewrite Hx.
  set (w2 := (on_clock _ w1).2) in *. assert (Hl02 := later_trans _ _ _ _ _ Hl1 Hl2).
  destruct (later_env _ _ _ _ Hl1) as [Hc1 Ht1]. destruct (andb _ _) eqn:Ea.
  - apply andb_true_iff in Ea as [Ha Hn%negb_true_iff]. rewrite Hc1 in Hn.
    set (result := mkResolveResult _ _ true).
    destruct (emitted_spec code _ result w w2 Hl02) as (-> & Hr & Hops & Hrep & Hans).
    split_and!; [done|done|]. simpl. split_and!; [congruence|done|]. exists v. split; [done|].
    apply (Hans _ t); [rewrite He2; lia|]. simpl. by rewrite Ha, Hn.
  - rewrite ST_bind_eq.
    destruct (on_cache_later code record (cache_Delete code) w2 (op_delete _ _ _ _)) as (_ & Hl3 & Hr3).
    apply resolve_from_repo_outcome; [by eapply later_trans|congruence].
Qed.
End behaviour.

Section resolution.
Context {C R A : Type} `{CacheStoreSpec C, MetadataRepositorySpec R, IAnalyticsSink A}.
Notation world := (World C R A).
Implicit Types (w : world) (code : str).

(** Every value the cache may answer with for [code] is the one of the stored record. *)
Definition coherent code w : Prop :=
  ∀ v, cached (w_cache w) !! code = Some v → ∃ r, table (w_repo w) !! code = Some r ∧ v = cache_value_of r.

(** [result] is the table's answer at a reading of the clock taken during the
    call, and one event reports it. *)
Definition resolved code w (result : ResolveResult) w' : Prop :=
  coherent code w' ∧ table (w_repo w') = table (w_repo w) ∧ clock (w_env w') = clock (w_env w) ∧
  answered w (table (w_repo w) !! code) result w' ∧ reported code w result w'.

(** A value held for [code] after a call for [k] was held before or is the record's. *)
Lemma cache_ops_cached k record ec ec' code v :
  rtc (cache_op k record) ec ec' → cached ec'.2 !! code = Some v →
  cached ec.2 !! code = Some v ∨ (k = code ∧ ∃ r, record = Some r ∧ v = cache_value_of r).
Proof.
  induction 1 as [|ec1 ec2 ec3 Hop _ IH]; [by left|]. intros [Hk|?]%IH; [|by right].
  destruct Hop as [k' ec|k' ec|r ttl ec Hr|e e' c He].
  - left. eapply lookup_weaken; [exact Hk|]. apply cache_get_frame.
  - left. eapply lookup_weaken; [exact Hk|]. apply cache_delete_law.
  - apply cache_set_law in Hk as [[-> ->]|Hk]; [right|by left]. split; [done|]. by exists r.
  - by left.
Qed.

Lemma answered_cached w (record : LinkRecord) result w' :
  answered w (Some (record_of_value (cache_value_of record))) result w' → answered w (Some record) result w'.
Proof. done. Qed.

Lemma Resolve_table code w : table (w_repo (Resolve code w).2) = table (w_repo w).
Proof.
  destruct (Resolve_outcome code w) as (_ & _ & Hans). destruct (get_law code (w_repo w)) as [_ Htab].
  destruct (rr_cache_hit _); [by rewrite (proj1 Hans)|]. by rewrite (proj1 Hans), Htab.
Qed.

Lemma Resolve_coherent k code w : coherent code w → coherent code (Resolve k w).2.
Proof.
  intros Hw v Hv. rewrite Resolve_table. destruct (Resolve_outcome k w) as (Hops & _). rewrite (proj1 (get_law k (w_repo w))) in Hops.
  destruct (cache_ops_cached _ _ _ _ _ _ Hops Hv) as [Hold|[-> Hr]]; [by apply Hw|done].
Qed.

Lemma Resolve_resolved code w :
  coherent code w → resolved code w (Resolve code w).1 (Resolve code w).2.
Proof.
  intros Hw. split_and!; [by apply Resolve_coherent|apply Resolve_table| | |apply Resolve_outcome].
  - destruct (Resolve_outcome code w) as (Hops & _). by apply (cache_ops_later _ _ _ _ Hops).
  - destruct (Resolve_outcome code w) as (_ & _ & Hans). destruct (get_law code (w_repo w)) as [Hget _]. rewrite Hget in Hans.
    destruct (rr_cache_hit _); [|by apply Hans]. destruct Hans as (_ & _ & v & Hv & Hans).
    apply cache_get_law, Hw in Hv as (record & -> & ->). by apply answered_cached.
Qed.

(** The deletion of [k] in the cache: reported as done, or there is nothing to delete. *)
Definition deletion_ok k w : Prop :=
  (cache_Delete k (w_env w, w_cache w)).1.1 = true ∨ cached (w_cache w) !! k = None.

(** The invalidation of [k] after a change of its record: a code whose record is
    another one, or whose deletion succeeded, stays coherent. *)
Lemma invalidate_coherent k code w r :
  coherent code w → (k = code → deletion_ok k w) → (k ≠ code → table r !! code = table (w_repo w) !! code) →
  coherent code (on_cache (cache_Delete k) (mkWorld (w_env w) (w_cache w) r (w_sink w))).2.
Proof.
  intros Hw Hok Hr v. unfold on_cache, deletion_ok in *. simpl.
  destruct (cache_delete_law k (w_env w, w_cache w)) as (Hsub & Hgone & _).
  destruct (cache_Delete k (w_env w, w_cache w)) as [[b e] [e' c']]. simpl in *. intros Hv.
  assert (Hold : cached (w_cache w) !! code = Some v) by by eapply lookup_weaken.
  destruct (decide (k = code)) as [->|Hne].
  - destruct (Hok eq_refl) as [->|Hnone]; [|congruence]. rewrite Hgone in Hv by done. discriminate Hv.
  - rewrite Hr by done. by apply Hw.
Qed.

Lemma Update_coherent record code w :
  coherent code w → (lr_short_code record = code → deletion_ok code w) → coherent code (Update record w).2.
Proof.
  intros Hw Hok. unfold Update. rewrite ST_bind_eq. destruct (update_law record (w_repo w)) as [[e Hans] Htab].
  unfold on_repo. destruct (repo_UpdateLink record (w_repo w)) as [o r'] eqn:E. cbn [fst snd] in *. subst o.
  rewrite ST_bind_eq, ST_ret_eq. cbn [fst snd]. apply invalidate_coherent; [done|by intros <-; apply Hok|].
  intros Hne. rewrite Htab. destruct (bool_decide _); [by rewrite lookup_insert_ne|done].
Qed.

Lemma Delete_coherent k code w :
  coherent code w → (k = code → deletion_ok code w) → coherent code (Delete k w).2.
Proof.
  intros Hw Hok. unfold Delete. rewrite !ST_bind_eq, ST_ret_eq. destruct (delete_law k (w_repo w)) as [_ Htab].
  unfold on_repo. destruct (repo_DeleteLink k (w_repo w)) as [ok r'] eqn:E. cbn [fst snd] in *.
  apply invalidate_coherent; [done|by intros <-; apply Hok|]. intros Hne. by rewrite Htab, lookup_delete_ne.
Qed.

(** Links are created in the repository directly; a new code has no cache
    entry to invalidate. *)
Lemma create_coherent request id now code w :
  coherent code w → coherent code (on_repo (repo_CreateLink request id now) w).2.
Proof.
  intros Hw. unfold on_repo. destruct (create_law request id now (w_repo w)) as [_ Htab].
  destruct (repo_CreateLink request id now (w_repo w)) as [ok r'] eqn:E. cbn [snd] in *.
  intros v Hk. simpl in *. rewrite Htab. destruct (Hw v Hk) as (rec & Hrec & ->).
  exists rec. split; [|done]. destruct (isValid request); simpl; [|done]. case_bool_decide as Hn; [|done].
  rewrite lookup_insert_ne; [done|]. intros Heq. by rewrite Heq, Hrec in Hn.
Qed.

(** The calls a process makes on the service and its repository, and what happens
    between them: time passes. The deletions in the cache that [Update] and
    [Delete] make for [code] succeed; those for other codes may fail. *)
Inductive service_step code : relation world :=
  | step_Resolve k w : service_step code w (Resolve k w).2
  | step_Update record w :
      (lr_short_code record = code → deletion_ok code w) → service_step code w (Update record w).2
  | step_Delete k w : (k = code → deletion_ok code w) → service_step code w (Delete k w).2
  | step_Create request id now w : service_step code w (on_repo (repo_CreateLink request id now) w).2
  | step_time e w : env_later (w_env w) e → service_step code w (mkWorld e (w_cache w) (w_repo w) (w_sink w)).

Lemma service_step_coherent code w w' : service_step code w w' → coherent code w → coherent code w'.
Proof.
  intros [k w1|record w1 Hok|k w1 Hok|request id now w1|e w1 He] Hw.
  - by apply Resolve_coherent.
  - by apply Update_coherent.
  - by apply Delete_coherent.
  - by apply create_coherent.
  - exact Hw.
Qed.

(** C19: the cache is never seen. Start from an empty cache and let any calls of
    [Resolve], [Update], [Delete] and [CreateLink] happen, where the cache may
    forget values, refuse writes and deletions and report errors, as long as the
    deletions that [Update] and [Delete] make for the code in question take effect
    when they are due. Then [Resolve] answers exactly what the repository's table
    says at a clock reading taken during the call (not found, inactive, expired, or
    a redirect to the stored target), leaves the table alone and reports the outcome
    to the sink as one event: 302 for a redirect, 404 for not found, 410 for inactive
    or expired; whatever the sink answers. *)
Theorem Resolve_answers_from_table code w0 w :
  cached (w_cache w0) = ∅ → rtc (service_step code) w0 w →
  resolved code w (Resolve code w).1 (Resolve code w).2.
Proof.
  intros He Hsteps. apply Resolve_resolved.
  assert (Hw0 : coherent code w0) by (intros v; by rewrite He, lookup_empty).
  clear He. induction Hsteps as [|w0 w1 w2 Hs _ IH]; [done|]. by eapply IH, service_step_coherent.
Qed.
End resolution.

(** ** A cache that is always unavailable *)
#[export] Instance BrokenCache : ICacheStore unit := {
  cache_Get _ w := ((None, CacheError.unavailable), w);
  cache_Set _ _ _ w := ((false, CacheError.unavailable), w);
  cache_Delete _ w := ((false, CacheError.unavailable), w);
  cache_ClearByPrefix _ w := ((false, CacheError.unavailable), w);
}.

#[export] Program Instance BrokenCache_spec : CacheStoreSpec unit := { cached := fun _ => ∅ }.
Next Obligation. done. Qed.
Next Obligation. intros. by split. Qed.
Next Obligation. intros. simpl. split; [|done]. intros k' v'. by rewrite lookup_empty. Qed.
Next Obligation. done. Qed.

(** A clock that advances one second per reading, a link that expires at second
    100, resolved twice (filling and hitting the cache) and resolved again after
    an update has replaced its target. *)
Definition sample_env : Env := mkEnv (fun n => (Z.of_nat n + 10) * ticks_per_second)%Z 0 (fun _ => 0) 0.
Definition sample_world : World InMemoryCache.t InMemoryMetadata.t (list LinkAccessEvent) :=
  mkWorld sample_env ∅ {[ ("abc" : str) := sample_record "abc" 0 (Some (100 * ticks_per_second)%Z) ]} [].
Definition sample_update : LinkRecord := sample_record "abc" 1 None.

Lemma Resolve_answers_from_table_witness :
  let w1 := (Resolve "abc" sample_world).2 in
  let w2 := (Update sample_update w1).2 in
  rr_cache_hit (Resolve "abc" w1).1 = true ∧ rr_cache_hit (Resolve "abc" w2).1 = false ∧
  resolved "abc" w2 (Resolve "abc" w2).1 (Resolve "abc" w2).2 ∧
  map lae_status_code (w_sink (Resolve "abc" w2).2) = [302; 302]%Z.
Proof.
  intros w1 w2. split_and!; [vm_compute; reflexivity|vm_compute; reflexivity| |vm_compute; reflexivity].
  apply (Resolve_answers_from_table "abc" sample_world w2); [reflexivity|].
  eapply rtc_l; [apply (step_Resolve "abc" "abc")|]. eapply rtc_l; [apply (step_Update "abc" sample_update); by left|]. reflexivity.
Defined.
