(* ===== verification/RedisCodec.v ===== *)
(** * RedisCodec: the text of a cached value (src/storage/redis/redis_cache_serialization.cpp)

    [SerializeCacheValue] and [DeserializeCacheValue], the exact outcome of
    reading back what was written, and the key construction. *)
From S2P Require Import Prelude Text Env Clock Numbers Storage.

Definition bar : ascii := "|"%char.

Definition BuildCacheKey (prefix short_code : str) : str := prefix ++ short_code.

Definition kSchemaVersion : Z := 1.

Definition SerializeCacheValue (v : CacheValue) : str :=
  let exp : str := match cv_expires_at v with Some t => dec (Z.quot t ticks_per_second) | None => [] end in
  let ver : str := match cv_version v with Some n => dec n | None => [] end in
  ("v=" : str) ++ dec kSchemaVersion ++ ("|a=" : str) ++ (if cv_is_active v then ["1"%char] else ["0"%char])
  ++ ("|e=" : str) ++ exp ++ ("|r=" : str) ++ ver
  ++ ("|n=" : str) ++ dec (Z.of_nat (length (cv_target_url v))) ++ ("|u=" : str) ++ cv_target_url v.

(** An optional number: an empty text is an absent one. The outer [None] is the
    failure of the conversion. *)
Definition optional_number (convert : str → option (Z * nat)) (s : str) : option (option Z) :=
  if bool_decide (s = []) then Some None else (fun r => Some r.1) <$> convert s.

Definition DeserializeCacheValue (payload : str) : option CacheValue :=
  match getlines bar payload with
  | p0 :: p1 :: p2 :: p3 :: p4 :: p5 :: _ =>
      if negb (bool_decide (p0 = "v=1")) then None
      else if negb (bool_decide (p1 = "a=0")) && negb (bool_decide (p1 = "a=1")) then None
      else if negb (starts_with "n=" p4) || negb (starts_with "u=" p5) then None
      else if negb (starts_with "e=" p2) || negb (starts_with "r=" p3) then None
      else
        exp ← optional_number stoll (drop 2 p2);
        ver ← optional_number stoull (drop 2 p3);
        n ← stoull (drop 2 p4);
        let target_url := drop 2 p5 in
        if negb (Z.of_nat (length target_url) =? n.1)%Z then None
        else Some (mkCacheValue target_url (from_time_t <$> exp) (bool_decide (p1 = "a=1")) ver)
  | _ => None
  end.

(** ** Reading back *)

(** The expiry a serialized value carries: whole seconds. *)
Definition seconds_only (t : Z) : Z := (Z.quot t ticks_per_second * ticks_per_second)%Z.

(** The ranges of the C++ types. *)
Definition cache_value_in_range (v : CacheValue) : Prop :=
  (∀ t, cv_expires_at v = Some t → in_i64 t) ∧ (∀ n, cv_version v = Some n → (0 ≤ n < 2 ^ 64)%Z) ∧
  (Z.of_nat (length (cv_target_url v)) < 2 ^ 64)%Z.

Lemma digits_no_bar s : all_digits s → bar ∉ s.
Proof. intros Hs Hin. unfold all_digits in Hs; rewrite Forall_forall in Hs. by specialize (Hs _ Hin). Qed.

Lemma dec_no_bar z : bar ∉ dec z.
Proof.
  destruct (decide (0 ≤ z)%Z); [by apply digits_no_bar, dec_digits|].
  rewrite dec_neg by lia. apply not_elem_of_cons. split; [done|]. apply digits_no_bar, dec_digits. lia.
Qed.

Lemma dec_nonempty z : dec z ≠ [].
Proof. destruct (decide (0 ≤ z)%Z); [by apply dec_digits|]. by rewrite dec_neg by lia. Qed.

Lemma quot_seconds t : in_i64 t → in_i64 (Z.quot t ticks_per_second) ∧ in_i64 (seconds_only t).
Proof. unfold in_i64, seconds_only, ticks_per_second. intros Ht. Z.to_euclidean_division_equations. lia. Qed.

Lemma optional_dec convert (o : option Z) :
  (∀ z, o = Some z → convert (dec z) = Some (z, length (dec z))) →
  optional_number convert (match o with Some z => dec z | None => [] end) = Some o.
Proof.
  intros Hc. unfold optional_number. destruct o as [z|]; [|done].
  rewrite bool_decide_eq_false_2 by apply dec_nonempty. by rewrite Hc.
Qed.

Lemma no_bar_prefix (a b s : str) : (bar ∉ a) → (bar ∉ b) → (bar ∉ s) → bar ∉ a ++ b ++ s.
Proof. set_solver. Qed.

(** The text before the target. *)
Definition serialized_head (v : CacheValue) : str :=
  ("v=1" : str) ++ bar :: (("a=" : str) ++ if cv_is_active v then ["1"%char] else ["0"%char]) ++ bar
  :: (("e=" : str) ++ match (fun t => Z.quot t ticks_per_second) <$> cv_expires_at v with Some t => dec t | None => [] end) ++ bar
  :: (("r=" : str) ++ match cv_version v with Some n => dec n | None => [] end) ++ bar
  :: (("n=" : str) ++ dec (Z.of_nat (length (cv_target_url v)))) ++ [bar].

Lemma serialized_head_eq (v : CacheValue) : SerializeCacheValue v = serialized_head v ++ ("u=" : str) ++ cv_target_url v.
Proof.
  unfold SerializeCacheValue, serialized_head. destruct v as [url [x|] [] ver]; simpl; rewrite <- ?app_assoc; simpl;
    rewrite <- ?app_assoc; simpl; by rewrite <- ?app_assoc.
Qed.

(** The pieces of a text that begins as a serialized value does. *)
Lemma pieces_of_serialized (v : CacheValue) (body : str) :
  getlines bar (serialized_head v ++ ("u=" : str) ++ body) =
  ("v=1" : str) :: (("a=" : str) ++ if cv_is_active v then ["1"%char] else ["0"%char])
  :: (("e=" : str) ++ match (fun t => Z.quot t ticks_per_second) <$> cv_expires_at v with Some t => dec t | None => [] end)
  :: (("r=" : str) ++ match cv_version v with Some n => dec n | None => [] end)
  :: (("n=" : str) ++ dec (Z.of_nat (length (cv_target_url v))))
  :: getlines bar (("u=" : str) ++ body).
Proof.
  unfold serialized_head.
  set (e := match _ <$> _ with Some t => dec t | None => [] end).
  set (r := match cv_version v with Some n => dec n | None => [] end).
  set (a := if cv_is_active v then ["1"%char] else ["0"%char]).
  set (n := dec (Z.of_nat (length (cv_target_url v)))). set (u := ("u=" : str) ++ body).
  assert (Hs : (("v=1" : str) ++ bar :: (("a=" : str) ++ a) ++ bar :: (("e=" : str) ++ e) ++ bar :: (("r=" : str) ++ r) ++ bar
      :: (("n=" : str) ++ n) ++ [bar]) ++ u =
    ("v=1" : str) ++ bar :: (("a=" : str) ++ a) ++ bar
    :: (("e=" : str) ++ e) ++ bar :: (("r=" : str) ++ r) ++ bar :: (("n=" : str) ++ n) ++ bar :: u).
  { by repeat (rewrite <- app_assoc; simpl). }
  rewrite Hs. assert (He : bar ∉ e) by (unfold e; destruct (_ <$> _); [apply dec_no_bar|set_solver]).
  assert (Hr : bar ∉ r) by (unfold r; destruct (cv_version v); [apply dec_no_bar|set_solver]).
  assert (Hn := dec_no_bar (Z.of_nat (length (cv_target_url v)))).
  rewrite !getlines_piece; [done|..]; repeat (apply not_elem_of_cons; split; [done|]); try done.
  - by subst a; destruct (cv_is_active v); apply (bool_decide_unpack _).
  - simpl. set_solver.
Qed.

(** The checks that only depend on the first five pieces succeed; the declared
    length decides about the target. *)
Lemma deserialize_pieces (v : CacheValue) (body target : str) rest :
  cache_value_in_range v →
  getlines bar (("u=" : str) ++ body) = (("u=" : str) ++ target) :: rest →
  DeserializeCacheValue (serialized_head v ++ ("u=" : str) ++ body) =
  if bool_decide (length target = length (cv_target_url v))
  then Some (mkCacheValue target (seconds_only <$> cv_expires_at v) (cv_is_active v) (cv_version v)) else None.
Proof.
  intros (He & Hv & Hn) Hu. unfold DeserializeCacheValue. rewrite pieces_of_serialized, Hu.
  set (exp := match _ <$> _ with Some t => dec t | None => [] end).
  set (ver := match cv_version v with Some n => dec n | None => [] end).
  assert (Hexp : optional_number stoll exp = Some ((fun t => Z.quot t ticks_per_second) <$> cv_expires_at v)).
  { unfold exp. apply optional_dec. intros z Hz. apply stoll_dec.
    apply fmap_Some in Hz as (t & Ht & ->). by apply quot_seconds, He. }
  assert (Hver : optional_number stoull ver = Some (cv_version v)).
  { apply optional_dec. intros z Hz. by apply stoull_dec, Hv. }
  clearbody exp ver. destruct v as [url ex act version]. simpl in *. rewrite !drop_0, Hexp, Hver, stoull_dec by lia. cbn [mbind option_bind fst].
  assert (Hx : from_time_t <$> ((fun t => Z.quot t ticks_per_second) <$> ex) = seconds_only <$> ex).
  { destruct ex as [t|]; simpl; [|done]. f_equal. unfold from_time_t. by apply wrap64_id, quot_seconds, He. }
  rewrite Hx. destruct act; simpl; destruct (Z.eqb_spec (Z.of_nat (length target)) (Z.of_nat (length url)));
    case_bool_decide; try done; lia.
Qed.

(** Reading a text whose target was cut off or is whole: the value comes back,
    or nothing does. *)
Lemma deserialize_body (v : CacheValue) (body : str) :
  cache_value_in_range v → length body ≤ length (cv_target_url v) →
  DeserializeCacheValue (serialized_head v ++ ("u=" : str) ++ body) =
  if has_char bar body || negb (bool_decide (length body = length (cv_target_url v))) then None
  else Some (mkCacheValue body (seconds_only <$> cv_expires_at v) (cv_is_active v) (cv_version v)).
Proof.
  intros Hv Hle. destruct (has_char bar body) eqn:Eb.
  - apply has_char_true, list_elem_of_split_l in Eb as (pre & post & -> & Hp).
    rewrite (deserialize_pieces v _ pre (getlines bar post) Hv).
    + rewrite bool_decide_eq_false_2; [done|]. rewrite length_app in Hle. simpl in Hle. lia.
    + rewrite app_assoc, getlines_piece; [done|]. simpl. set_solver.
  - apply has_char_false in Eb. rewrite (deserialize_pieces v body body [] Hv).
    + by case_bool_decide.
    + apply getlines_last; [|done]. simpl. set_solver.
Qed.

(** A cached value survives the round trip through its text exactly up to
    whole seconds of its expiry, when its target holds no vertical bar; a value
    whose target holds one is always rejected, so such a link is never served
    from the cache, and never with a wrong target. *)
Theorem cache_value_roundtrip (v : CacheValue) :
  cache_value_in_range v →
  DeserializeCacheValue (SerializeCacheValue v) =
  if has_char bar (cv_target_url v) then None
  else Some (mkCacheValue (cv_target_url v) (seconds_only <$> cv_expires_at v) (cv_is_active v) (cv_version v)).
Proof.
  intros Hv. rewrite serialized_head_eq, deserialize_body by done.
  rewrite bool_decide_eq_true_2 by done. by rewrite orb_false_r.
Qed.

Definition sample_value (url : str) : CacheValue := mkCacheValue url (Some 1704164645123456789%Z) true (Some 7%Z).

Lemma cache_value_roundtrip_witness :
  DeserializeCacheValue (SerializeCacheValue (sample_value "https://example.com/?a=b"))
  = Some (mkCacheValue "https://example.com/?a=b" (Some 1704164645000000000%Z) true (Some 7%Z)) ∧
  DeserializeCacheValue (SerializeCacheValue (sample_value "https://example.com/a|b")) = None.
Proof.
  assert (Hr : ∀ url, length url < 100 → cache_value_in_range (sample_value url)).
  { intros url Hl. unfold cache_value_in_range, in_i64. simpl. split_and!; try lia; intros z [= <-]; lia. }
  split; rewrite cache_value_roundtrip by (apply Hr; simpl; lia); reflexivity.
Defined.
