(* ===== verification/RateLimiter.v ===== *)
(** * RateLimiter: the fixed-window limiter (src/storage/inmemory/in_memory_rate_limiter.cpp)

    [InMemoryRateLimiter::Allow] and what a window of calls is answered. *)
From S2P Require Import Prelude Text Env Clock.
#[local] Open Scope Z_scope.

Module RateLimitError.
Inductive t := none | invalid_key | invalid_policy | unavailable.
End RateLimitError.

Record RateLimitDecision := mkRateLimitDecision {
  allowed : bool;
  remaining : Z;
  reset_at : Z;
}.

(** [Bucket]; a bucket the map creates has count 0 and the epoch. *)
Record Bucket := mkBucket { b_count : Z; b_reset_at : Z }.
Definition empty_bucket : Bucket := mkBucket 0 0.

(** [buckets_]. *)
Abbreviation Buckets := (gmap str Bucket).

(** The body under the lock, on the bucket of the key. *)
Definition take_slot (limit window now : Z) (bucket : Bucket) : RateLimitDecision * Bucket :=
  let bucket :=
    if (b_count bucket =? 0) || (b_reset_at bucket <=? now)
    then mkBucket 0 (wrap64 (now + window * ticks_per_second)) else bucket in
  if (limit =? 0) || (limit <=? b_count bucket)
  then (mkRateLimitDecision false 0 (b_reset_at bucket), bucket)
  else
    let bucket := mkBucket (u64 (b_count bucket + 1)) (b_reset_at bucket) in
    (mkRateLimitDecision true (u64 (limit - b_count bucket)) (b_reset_at bucket), bucket).

(** [window] counts seconds. *)
Definition Allow (key : str) (limit window : Z) : ST (Env * Buckets) (RateLimitDecision * RateLimitError.t) := fun w =>
  let '(now, e) := system_now w.1 in
  if bool_decide (key = []) then ((mkRateLimitDecision false 0 now, RateLimitError.invalid_key), (e, w.2))
  else if window <=? 0 then ((mkRateLimitDecision false 0 now, RateLimitError.invalid_policy), (e, w.2))
  else
    let '(decision, bucket) := take_slot limit window now (default empty_bucket (w.2 !! key)) in
    ((decision, RateLimitError.none), (e, <[key := bucket]> w.2)).

(** ** A sequence of calls by any clients *)
Record Call := mkCall { c_key : str; c_limit : Z; c_window : Z }.

Fixpoint run_calls (calls : list Call) : ST (Env * Buckets) (list (Call * RateLimitDecision)) :=
  match calls with
  | [] => mret []
  | c :: calls' =>
      d ← Allow (c_key c) (c_limit c) (c_window c);
      ds ← run_calls calls';
      mret ((c, d.1) :: ds)
  end.

(** The calls of [key] all use one policy. *)
Definition policy (key : str) (limit window : Z) (calls : list Call) : Prop :=
  Forall (fun c => c_key c = key → c_limit c = limit ∧ c_window c = window) calls.

Definition decisions_for (key : str) (l : list (Call * RateLimitDecision)) : list RateLimitDecision :=
  map snd (List.filter (fun cd => bool_decide (c_key cd.1 = key)) l).

(** What [n] further calls are answered in an open window in which [used] slots
    are taken. *)
Fixpoint window_answers (limit reset used : Z) (n : nat) : list RateLimitDecision :=
  match n with
  | O => []
  | S n' =>
      if used <? limit
      then mkRateLimitDecision true (limit - (used + 1)) reset :: window_answers limit reset (used + 1) n'
      else mkRateLimitDecision false 0 reset :: window_answers limit reset used n'
  end.

Lemma take_slot_open limit window now bucket :
  0 < limit < 2 ^ 64 → 0 < b_count bucket ≤ limit → now < b_reset_at bucket →
  take_slot limit window now bucket =
  if b_count bucket <? limit
  then (mkRateLimitDecision true (limit - (b_count bucket + 1)) (b_reset_at bucket),
        mkBucket (b_count bucket + 1) (b_reset_at bucket))
  else (mkRateLimitDecision false 0 (b_reset_at bucket), bucket).
Proof.
  intros Hl Hc Hn. unfold take_slot, u64. destruct (Z.eqb_spec (b_count bucket) 0); [lia|].
  destruct (Z.leb_spec (b_reset_at bucket) now); [lia|]. simpl.
  destruct (Z.eqb_spec limit 0); [lia|]. simpl.
  destruct (Z.leb_spec limit (b_count bucket)), (Z.ltb_spec (b_count bucket) limit); try lia; [done|].
  simpl. rewrite (Z.mod_small (b_count bucket + 1)) by lia. by rewrite Z.mod_small by lia.
Qed.

Lemma take_slot_new limit window now bucket :
  0 < limit < 2 ^ 64 → in_i64 (now + window * ticks_per_second) →
  b_count bucket = 0 ∨ b_reset_at bucket ≤ now →
  take_slot limit window now bucket =
  (mkRateLimitDecision true (limit - 1) (now + window * ticks_per_second),
   mkBucket 1 (now + window * ticks_per_second)).
Proof.
  intros Hl Hr Hb. unfold take_slot.
  assert ((b_count bucket =? 0) || (b_reset_at bucket <=? now) = true) as ->.
  { apply orb_true_iff. rewrite Z.eqb_eq, Z.leb_le. done. }
  rewrite wrap64_id by done. simpl. destruct (Z.eqb_spec limit 0); [lia|].
  destruct (Z.leb_spec limit 0); [lia|]. simpl. unfold u64. rewrite (Z.mod_small 1) by lia. by rewrite Z.mod_small by lia.
Qed.

Lemma Allow_eq key limit window e b :
  key ≠ [] → 0 < window →
  Allow key limit window (e, b) =
  let r := take_slot limit window (clock e (ticks e)) (default empty_bucket (b !! key)) in
  ((r.1, RateLimitError.none), ((system_now e).2, <[key := r.2]> b)).
Proof.
  intros Hk Hw. unfold Allow. simpl. rewrite bool_decide_eq_false_2 by done.
  destruct (Z.leb_spec window 0); [lia|]. by destruct (take_slot _ _ _ _).
Qed.

(** Calls of other keys leave the bucket of [key] alone. *)
Lemma Allow_other key limit window e b k :
  k ≠ key → (Allow key limit window (e, b)).2.2 !! k = b !! k.
Proof.
  intros Hk. unfold Allow. simpl. case_bool_decide; [done|]. destruct (window <=? 0); [done|].
  destruct (take_slot _ _ _ _). simpl. by rewrite lookup_insert_ne.
Qed.

Lemma Allow_env key limit window e b : (Allow key limit window (e, b)).2.1 = (system_now e).2.
Proof. unfold Allow. simpl. case_bool_decide; [done|]. destruct (window <=? 0); [done|]. by destruct (take_slot _ _ _ _). Qed.

Lemma run_calls_cons c calls w :
  (run_calls (c :: calls) w).1
  = (c, (Allow (c_key c) (c_limit c) (c_window c) w).1.1)
    :: (run_calls calls (Allow (c_key c) (c_limit c) (c_window c) w).2).1.
Proof. simpl. by rewrite !ST_bind_eq. Qed.

Lemma open_window_answers key limit window calls e b bucket :
  key ≠ [] → 0 < window → 0 < limit < 2 ^ 64 → policy key limit window calls →
  b !! key = Some bucket → 0 < b_count bucket ≤ limit →
  (∀ t, (ticks e ≤ t)%nat → (t < ticks e + length calls)%nat → clock e t < b_reset_at bucket) →
  ∃ n, decisions_for key (run_calls calls (e, b)).1
       = window_answers limit (b_reset_at bucket) (b_count bucket) n ∧
       n = length (List.filter (fun c => bool_decide (c_key c = key)) calls).
Proof.
  intros Hk Hw Hl Hp. revert e b bucket. induction Hp as [|c calls Hc _ IH]; intros e b bucket Hb Hcount Ht.
  { by exists 0%nat. }
  rewrite run_calls_cons. unfold decisions_for. cbn [List.filter fst].
  destruct (decide (c_key c = key)) as [Hck|Hck].
  - destruct (Hc Hck) as [-> ->]. rewrite Hck. rewrite bool_decide_eq_true_2 by done.
    rewrite Allow_eq by done. cbn [map snd fst]. rewrite Hb. change (default empty_bucket (Some bucket)) with bucket.
    rewrite take_slot_open by (try done; apply Ht; simpl; lia).
    destruct (Z.ltb_spec (b_count bucket) limit) as [Hlt|Hge]; cbn [fst snd].
    + destruct (IH (system_now e).2 (<[key:=mkBucket (b_count bucket + 1) (b_reset_at bucket)]> b)
        (mkBucket (b_count bucket + 1) (b_reset_at bucket))) as (n & Hn & Hlen).
      * by rewrite lookup_insert_eq.
      * simpl. lia.
      * intros t. simpl. intros. apply Ht; simpl; lia.
      * exists (S n). split; [|by rewrite Hlen]. cbn [window_answers].
        destruct (Z.ltb_spec (b_count bucket) limit); [|lia]. by f_equal.
    + destruct (IH (system_now e).2 (<[key:=bucket]> b) bucket) as (n & Hn & Hlen).
      * by rewrite lookup_insert_eq.
      * done.
      * intros t. simpl. intros. apply Ht; simpl; lia.
      * exists (S n). split; [|by rewrite Hlen]. cbn [window_answers].
        destruct (Z.ltb_spec (b_count bucket) limit); [lia|]. by f_equal.
  - rewrite bool_decide_eq_false_2 by done.
    destruct (Allow (c_key c) (c_limit c) (c_window c) (e, b)) as [d [e' b']] eqn:Ea. cbn [snd].
    pose proof (Allow_env (c_key c) (c_limit c) (c_window c) e b) as He. rewrite Ea in He. simpl in He. subst e'.
    destruct (IH (system_now e).2 b' bucket) as (n & Hn & Hlen).
    + pose proof (Allow_other (c_key c) (c_limit c) (c_window c) e b key ltac:(congruence)) as Ho.
      rewrite Ea in Ho. simpl in Ho. by rewrite Ho.
    + done.
    + intros t. simpl. intros. apply Ht; simpl; lia.
    + by exists n.
Qed.

Lemma window_answers_nth limit reset used n i d :
  0 ≤ used ≤ limit → window_answers limit reset used n !! i = Some d →
  d = mkRateLimitDecision (used + Z.of_nat i <? limit) (Z.max 0 (limit - (used + Z.of_nat i + 1))) reset.
Proof.
  revert used i. induction n as [|n IH]; intros used i Hu; [done|]. cbn [window_answers].
  destruct (Z.ltb_spec used limit) as [Hlt|Hge]; destruct i as [|i]; cbn [lookup list_lookup].
  - intros [= <-]. destruct (Z.ltb_spec (used + Z.of_nat 0) limit); [|lia]. f_equal. lia.
  - intros ->%IH; [|lia]. f_equal; [f_equal; lia|lia].
  - intros [= <-]. destruct (Z.ltb_spec (used + Z.of_nat 0) limit); [lia|]. f_equal. lia.
  - intros ->%IH; [|lia]. f_equal; [|lia].
    destruct (Z.ltb_spec (used + Z.of_nat i) limit), (Z.ltb_spec (used + Z.of_nat (S i)) limit); lia || done.
Qed.

Lemma length_window_answers limit reset used n : length (window_answers limit reset used n) = n.
Proof. revert used. induction n as [|n IH]; intros used; simpl; [done|]. case_match; simpl; by rewrite IH. Qed.

(** C22: the limiter allows exactly [limit] calls per window. When the window of
    a key is closed, its next call opens one; as long as the clock stays inside
    it, the calls of that key, interleaved in any way with calls of other keys
    under other policies, are answered in order: the first [limit] are allowed
    with the slots that remain, all later ones are refused, and each is told
    when the window ends. *)
Theorem fixed_window key limit window c calls e b :
  key ≠ [] → 0 < window → 0 < limit < 2 ^ 64 → c_key c = key → policy key limit window (c :: calls) →
  (∀ bucket, b !! key = Some bucket → b_count bucket = 0 ∨ b_reset_at bucket ≤ clock e (ticks e)) →
  let reset := clock e (ticks e) + window * ticks_per_second in
  in_i64 reset →
  (∀ t, (ticks e < t ≤ ticks e + length calls)%nat → clock e t < reset) →
  let ds := decisions_for key (run_calls (c :: calls) (e, b)).1 in
  length ds = length (List.filter (fun c => bool_decide (c_key c = key)) (c :: calls)) ∧
  ∀ i d, ds !! i = Some d →
    d = mkRateLimitDecision (Z.of_nat i <? limit) (Z.max 0 (limit - (Z.of_nat i + 1))) reset.
Proof.
  intros Hk Hw Hl Hc Hp Hb reset Hr Ht ds. inversion Hp as [|? ? Hpc Hps]; subst.
  destruct (Hpc eq_refl) as [<- <-].
  assert (Hds : ∃ n, ds = window_answers (c_limit c) reset 0 (S n) ∧
    S n = length (List.filter (fun c' => bool_decide (c_key c' = c_key c)) (c :: calls))).
  { unfold ds. rewrite run_calls_cons. unfold decisions_for. cbn [List.filter fst].
    rewrite bool_decide_eq_true_2 by done. rewrite Allow_eq by done.
    rewrite take_slot_new; [|done|exact Hr|destruct (b !! c_key c) as [bucket|]; simpl; [by apply Hb|by left]].
    cbn [fst snd map].
    destruct (open_window_answers (c_key c) (c_limit c) (c_window c) calls (system_now e).2
      (<[c_key c:=mkBucket 1 reset]> b) (mkBucket 1 reset)) as (n & Hn & Hlen); try done.
    - by rewrite lookup_insert_eq.
    - simpl. lia.
    - intros t. simpl. intros. apply Ht. lia.
    - exists n. split; [|cbn [length]; by rewrite Hlen]. cbn [window_answers].
      destruct (Z.ltb_spec 0 (c_limit c)); [|lia]. f_equal. exact Hn. }
  destruct Hds as (n & -> & <-). split; [apply length_window_answers|].
  intros i d Hd. apply window_answers_nth in Hd; [|lia]. by rewrite Hd.
Qed.

Definition sample_calls : list Call :=
  let call k := mkCall k 2 60 in [call "ip" ; call "other"; call "ip"; call "ip"].

Lemma fixed_window_witness :
  let e := mkEnv (fun n => Z.of_nat n * ticks_per_second) 5 (fun _ => 0%nat) 0 in
  decisions_for "ip" (run_calls sample_calls (e, ∅)).1 !! 2%nat
  = Some (mkRateLimitDecision false 0 (65 * ticks_per_second)).
Proof.
  intros e. destruct (fixed_window "ip" 2 60 (mkCall "ip" 2 60) (tail sample_calls) e ∅) as [Hlen Hd].
  - done.
  - lia.
  - lia.
  - done.
  - unfold policy. simpl. repeat constructor; done.
  - intros bucket. by rewrite lookup_empty.
  - apply (bool_decide_unpack _). vm_compute. done.
  - intros t. unfold e, ticks_per_second, sample_calls. cbn [clock ticks length tail]. lia.
  - destruct (decisions_for "ip" (run_calls sample_calls (e, ∅)).1 !! 2%nat) as [d|] eqn:E.
    + by rewrite (Hd 2%nat d E).
    + apply lookup_ge_None in E. change (mkCall "ip" 2 60 :: tail sample_calls) with sample_calls in Hlen.
      rewrite Hlen in E. vm_compute in E. lia.
Defined.
