(* ===== verification/Analytics.v ===== *)
(** * Analytics: building click events (src/analytics/)

    Sanitisation, client hashing, event validation and construction, and the
    validation of the configuration and of aggregate queries:
    click_event_sanitizer.cpp, client_id_hasher.cpp, click_event.cpp,
    click_event_builder.cpp, analytics_config.cpp and aggregate_query.cpp.
    HMAC-SHA256 (OpenSSL) is a parameter; the identifier Boost's UUID generator
    returns is an argument. *)
From S2P Require Import Prelude Text Env Clock Types LinkStore ClickEvents.

Module AnalyticsErrorCode.
Inductive t := none | validation | queue | repository | worker | retention.

#[global] Instance t_eq_dec : EqDecision t.
Proof. solve_decision. Defined.
End AnalyticsErrorCode.

Record AnalyticsError := mkAnalyticsError {
  ae_code : AnalyticsErrorCode.t;
  ae_message : str;
}.
Definition invalid (message : string) : AnalyticsError :=
  mkAnalyticsError AnalyticsErrorCode.validation message.

(** ** Sanitisation *)
Record SanitizationLimits := mkSanitizationLimits {
  max_referrer_bytes : nat;
  max_user_agent_bytes : nat;
  max_domain_bytes : nat;
}.

Definition is_printable (c : ascii) : bool := (32 <=? code c)%N && negb (code c =? 127)%N.

(** White space is dropped at both ends by two searches, from the front and from
    the back. *)
Definition SanitizeCommon (input : str) (max_bytes : nat) : str :=
  let filtered := List.filter is_printable input in
  let trimmed := rev (drop_while is_space (rev (drop_while is_space filtered))) in
  if max_bytes <? length trimmed then take max_bytes trimmed else trimmed.

Definition SanitizeReferrer (input : str) (limits : SanitizationLimits) : str :=
  SanitizeCommon input (max_referrer_bytes limits).
Definition SanitizeUserAgent (input : str) (limits : SanitizationLimits) : str :=
  SanitizeCommon input (max_user_agent_bytes limits).
Definition SanitizeDomain (input : str) (limits : SanitizationLimits) : str :=
  SanitizeCommon input (max_domain_bytes limits).

Definition ValidateLimits (limits : SanitizationLimits) : bool :=
  (0 <? max_referrer_bytes limits) && (0 <? max_user_agent_bytes limits) && (0 <? max_domain_bytes limits).

(** ** Configuration *)
Record AnalyticsConfig := mkAnalyticsConfig {
  ac_enabled : bool;
  production_mode : bool;
  queue_capacity : nat;
  batch_size : nat;
  flush_interval : Z;
  max_retry_attempts : nat;
  retry_backoff : Z;
  retention_days : Z;
  sanitization : SanitizationLimits;
  client_hash_salt : str;
}.

(** [AnalyticsConfig::Validate]. *)
Definition ValidateConfig (c : AnalyticsConfig) : option AnalyticsError :=
  if (queue_capacity c =? 0) || (batch_size c =? 0) || (queue_capacity c <? batch_size c)
     || (flush_interval c <=? 0)%Z || (retry_backoff c <=? 0)%Z || (retention_days c =? 0)%Z
     || negb (ValidateLimits (sanitization c))
     || (ac_enabled c && bool_decide (client_hash_salt c = []))
  then Some (invalid "Invalid analytics configuration") else None.

(** [AggregateQueryValidator::Validate]: the query with its default bucket. The
    enum has no other value than the three buckets. *)
Definition ValidateQuery (q : AggregateQuery) : AnalyticsError + AggregateQuery :=
  let q := mkAggregateQuery (aq_slug q) (aq_link_id q) (aq_from q) (aq_to q)
             (match aq_bucket q with None => Some day | b => b end) in
  if (aq_to q <? aq_from q)%Z then inl (invalid "from > to")
  else if (366 * 24 * 3600 * ticks_per_second <? wrap64 (aq_to q - aq_from q))%Z then inl (invalid "range too large")
  else inr q.

(** ** Events *)

(** [ClickEvent::Validate]; the default time point is the epoch. *)
Definition ValidateEvent (e : ClickEvent) : option AnalyticsError :=
  let status_ok := ((300 <=? ce_status_code e) && (ce_status_code e <=? 399))%Z
                   || (ce_status_code e =? 404)%Z || (ce_status_code e =? 410)%Z in
  let time_ok := negb (ce_occurred_at e =? 0)%Z in
  if bool_decide (ce_event_id e = []) || negb time_ok || bool_decide (ce_slug e = [])
     || bool_decide (ce_domain e = []) || negb status_ok
  then Some (invalid "Invalid click event") else None.

Record ClientIdHashConfig := mkClientIdHashConfig {
  salt : str;
  allow_missing_identifier : bool;
  output_length : nat;
}.

Record RedirectEventContext := mkRedirectEventContext {
  rc_slug : str;
  rc_link_id : str;
  rc_domain : str;
  rc_final_status_code : Z;
  rc_referrer : str;
  rc_user_agent : str;
  rc_client_network_identifier : str;
  rc_occurred_at : Z;
}.

Section building.
Context (hmac_sha256 : str → str → str).

(** [ClientIdHasher::Hash]. *)
Definition Hash (normalized_identifier : str) (config : ClientIdHashConfig) : str * option AnalyticsError :=
  if bool_decide (salt config = []) then ([], Some (invalid "Missing salt"))
  else if bool_decide (normalized_identifier = []) then
    if allow_missing_identifier config then ([], None) else ([], Some (invalid "Missing identifier"))
  else
    let out := hexEncode (hmac_sha256 (salt config) normalized_identifier) in
    (if (0 <? output_length config) && (output_length config <? length out)
     then take (output_length config) out else out, None).

(** [ClickEventBuilder::Build]. *)
Definition Build (event_id : str) (context : RedirectEventContext) (limits : SanitizationLimits)
    (hash_config : ClientIdHashConfig) : AnalyticsError + ClickEvent :=
  if negb (ValidateLimits limits) then inl (invalid "Invalid sanitization limits")
  else
    let '(client_id_hash, hash_error) := Hash (rc_client_network_identifier context) hash_config in
    match hash_error with
    | Some e => inl e
    | None =>
        let event := mkClickEvent event_id (rc_occurred_at context) (rc_slug context) (rc_link_id context)
          (SanitizeDomain (rc_domain context) limits) (rc_final_status_code context)
          (SanitizeReferrer (rc_referrer context) limits)
          (SanitizeUserAgent (rc_user_agent context) limits) client_id_hash in
        match ValidateEvent event with
        | Some e => inl e
        | None => inr event
        end
    end.
End building.

(** ** What sanitisation guarantees *)

(** Printable, bounded, and without white space in front. *)
Definition sanitized (max_bytes : nat) (s : str) : Prop :=
  Forall (fun c => is_printable c = true) s ∧ length s ≤ max_bytes ∧
  (∀ c r, s = c :: r → is_space c = false).

Lemma Forall_drop_while {A} (P : A → Prop) f (l : list A) : Forall P l → Forall P (drop_while f l).
Proof. intros H. destruct (drop_while_suffix f l) as (k & Hk & _). rewrite Hk in H. by apply Forall_app in H as [_ H]. Qed.

Lemma drop_trailing_head f (l : list ascii) c r :
  (∀ c r, l = c :: r → f c = false) → rev (drop_while f (rev l)) = c :: r → f c = false.
Proof.
  intros Hl Hr. destruct (drop_while_suffix f (rev l)) as (k & Hk & _).
  apply (f_equal (@rev ascii)) in Hk. rewrite rev_involutive, rev_app_distr, Hr in Hk. by eapply Hl.
Qed.

Lemma SanitizeCommon_sanitized input n : sanitized n (SanitizeCommon input n).
Proof.
  unfold sanitized, SanitizeCommon. set (f := List.filter is_printable input).
  set (t := rev _).
  assert (Ht : Forall (fun c => is_printable c = true) t).
  { unfold t. apply List.Forall_rev, Forall_drop_while, List.Forall_rev, Forall_drop_while. unfold f.
    apply List.Forall_forall. intros c Hc%filter_In. apply Hc. }
  assert (Hh : ∀ c r, t = c :: r → is_space c = false).
  { intros c r. unfold t. apply drop_trailing_head. intros c' r'. apply drop_while_head. }
  destruct (Nat.ltb_spec n (length t)) as [H|H]; [|auto].
  split_and!; [by apply Forall_take|rewrite length_take; lia|].
  intros c r Hc. destruct t as [|c' t']; [by rewrite take_nil in Hc|]. destruct n; [done|].
  simpl in Hc. injection Hc as -> _. by eapply Hh.
Qed.

Lemma Hash_shape h i config out :
  Hash h i config = (out, None) →
  salt config ≠ [] ∧
  (i = [] ∧ out = [] ∧ allow_missing_identifier config = true ∨
   i ≠ [] ∧ out `prefix_of` hexEncode (h (salt config) i)).
Proof.
  unfold Hash. case_bool_decide; [done|]. case_bool_decide.
  - destruct (allow_missing_identifier config); intros [= <-]. auto.
  - intros [= <-]. split; [done|]. right. split; [done|]. destruct (_ && _); [|done].
    eexists. symmetry. apply take_drop.
Qed.

(** What reaches the queue is clean. An event [Build] returns passes
    [Validate]; its domain, referrer and user agent are free of control
    characters, start with no white space and respect their byte limits; its
    other fields are the context's; and of the client identifier it holds only a
    prefix of the keyed hash, or nothing when there was no identifier and that is
    allowed. *)
Theorem Build_sanitizes h event_id context limits hash_config event :
  Build h event_id context limits hash_config = inr event →
  ValidateEvent event = None ∧
  sanitized (max_domain_bytes limits) (ce_domain event) ∧
  sanitized (max_referrer_bytes limits) (ce_referrer event) ∧
  sanitized (max_user_agent_bytes limits) (ce_user_agent event) ∧
  ce_slug event = rc_slug context ∧ ce_link_id event = rc_link_id context ∧
  ce_status_code event = rc_final_status_code context ∧ ce_occurred_at event = rc_occurred_at context ∧
  (rc_client_network_identifier context = [] ∧ ce_client_id_hash event = [] ∧
     allow_missing_identifier hash_config = true ∨
   rc_client_network_identifier context ≠ [] ∧
     ce_client_id_hash event `prefix_of`
       hexEncode (h (salt hash_config) (rc_client_network_identifier context))).
Proof.
  unfold Build. destruct (ValidateLimits limits); [|done]. cbn [negb].
  destruct (Hash h _ hash_config) as [out err] eqn:Eh. destruct err as [err|]; [done|].
  apply Hash_shape in Eh as [_ Eh].
  destruct (ValidateEvent _) eqn:Ev; [done|]. intros [= <-].
  split_and!; try done; apply SanitizeCommon_sanitized.
Qed.

Definition sample_context : RedirectEventContext :=
  mkRedirectEventContext "abc" "id1" "  Example.COM  " 302 "http://x/" "curl" "10.0.0.1" 1704164645000000000.
Definition sample_limits : SanitizationLimits := mkSanitizationLimits 512 512 7.

Lemma Build_sanitizes_witness :
  ∃ event, Build (fun _ m => m) "e1" sample_context sample_limits (mkClientIdHashConfig "salt" false 64) = inr event ∧
    ce_domain event = "Example" ∧ sanitized 7 (ce_domain event) ∧
    ce_client_id_hash event `prefix_of` hexEncode "10.0.0.1".
Proof.
  eexists. split; [vm_compute; reflexivity|]. split; [reflexivity|].
  destruct (Build_sanitizes (fun _ m => m) "e1" sample_context sample_limits (mkClientIdHashConfig "salt" false 64)
    (mkClickEvent "e1" 1704164645000000000 "abc" "id1" "Example" 302 "http://x/" "curl" (hexEncode "10.0.0.1")))
    as (_ & Hd & _ & _ & _ & _ & _ & _ & Hc); [vm_compute; reflexivity|].
  split; [exact Hd|]. destruct Hc as [(Hn & _)|(_ & Hc)]; [discriminate Hn|exact Hc].
Defined.
