(* ===== verification/Pipeline.v ===== *)
(** * Pipeline: queue, worker and retention of click events (src/analytics/)

    [BoundedClickEventQueue] (bounded_click_event_queue.cpp),
    [AnalyticsService::RecordRedirectAttempt] (analytics_service.cpp),
    [AnalyticsWorker] (analytics_worker.cpp) and [RetentionCleanupJob]
    (retention_cleanup_job.cpp). Redirect threads, the worker thread and the
    owner of the worker interleave; the grain of a step is one critical section
    of the queue or one call of the repository, which only the worker and the
    retention job use. *)
From stdpp Require Import relations.
From S2P Require Import Prelude Text Env Clock Types LinkStore ClickEvents Analytics.

(** ** [BoundedClickEventQueue] *)
Module Queue.
Record t := mk {
  capacity : nat;
  events : list ClickEvent;
  enqueued_total : Z;
  dropped_total : Z;
  stop : bool;
}.

(** The constructor throws on a zero capacity. *)
Definition create (c : nat) : option t := if c =? 0 then None else Some (mk c [] 0 0 false).

Inductive EnqueueResult := Enqueued | DroppedFull.

(** [alloc] says whether [push_back] could allocate. *)
Definition TryEnqueue (alloc : bool) (event : ClickEvent) : ST t EnqueueResult := fun q =>
  let dropped := mk (capacity q) (events q) (enqueued_total q) (u64 (dropped_total q + 1)) (stop q) in
  if capacity q <=? length (events q) then (DroppedFull, dropped)
  else if negb alloc then (DroppedFull, dropped)
  else (Enqueued, mk (capacity q) (events q ++ [event]) (u64 (enqueued_total q + 1)) (dropped_total q) (stop q)).

Definition TryDequeue : ST t (option ClickEvent) := fun q =>
  match events q with
  | [] => (None, q)
  | e :: rest => (Some e, mk (capacity q) rest (enqueued_total q) (dropped_total q) (stop q))
  end.

(** [WaitDequeue] as a relation: the call blocks while the queue is empty, no
    stop is requested and the timeout has not passed; when it returns it takes
    the front event, if there is one. *)
Definition WaitDequeue (timed_out : bool) (q : t) (result : option ClickEvent * t) : Prop :=
  (events q ≠ [] ∨ stop q = true ∨ timed_out = true) ∧ result = TryDequeue q.

Definition depth (q : t) : nat := length (events q).

Definition NotifyStop (q : t) : t := mk (capacity q) (events q) (enqueued_total q) (dropped_total q) true.
End Queue.

(** ** The process state *)
Module WorkerState.
Inductive t := Stopped | Running | Stopping.

#[global] Instance t_eq_dec : EqDecision t.
Proof. solve_decision. Defined.
End WorkerState.

Record PipelineMetrics := mkPipelineMetrics {
  pm_enqueued : nat;
  pm_dropped : nat;
  pm_persisted : nat;
  pm_worker_failures : nat;
  pm_queue_depth : nat;
}.

(** [OnWorkerFailure]. *)
Definition count_failure (m : PipelineMetrics) : PipelineMetrics :=
  mkPipelineMetrics (pm_enqueued m) (pm_dropped m) (pm_persisted m) (pm_worker_failures m + 1) (pm_queue_depth m).

(** Where the worker thread is: not started, at the head of [Run], collecting a
    batch in [FlushOnce], about to persist it, at the exit test of [Run], or
    returned. *)
Inductive Pc := idle | at_loop | collecting (batch : list ClickEvent) | persisting (batch : list ClickEvent)
  | at_exit_test | returned.

(** [accepted] and [handled] are history: the events the queue accepted, and the
    batches the worker finished with, each with the outcome of persisting it. *)
Record Pipeline (R : Type) := mkPipeline {
  p_queue : Queue.t;
  p_repo : R;
  p_state : WorkerState.t;
  p_pc : Pc;
  p_metrics : PipelineMetrics;
  accepted : list ClickEvent;
  handled : list (list ClickEvent * bool);
}.
Arguments mkPipeline {R}.
Arguments p_queue {R}.
Arguments p_repo {R}.
Arguments p_state {R}.
Arguments p_pc {R}.
Arguments p_metrics {R}.
Arguments accepted {R}.
Arguments handled {R}.

(** The storage port; a repository may fail, and the insertions it refuses may
    depend on its own state. *)
Class IClickEventRepository (R : Type) := {
  repo_InsertBatch : list ClickEvent → ST R bool;
  repo_DeleteOlderThan : Z → ST R (option AnalyticsError);
}.

(** [InMemoryClickEventRepository]. *)
#[export] Instance InMemoryClickEventRepository : IClickEventRepository (list ClickEvent) := {
  repo_InsertBatch := fun events repo => (true, InsertBatch events repo);
  repo_DeleteOlderThan := fun cutoff repo => (None, DeleteOlderThan cutoff repo);
}.

(** ** [AnalyticsService] *)
Section service.
Context {R : Type} `{IClickEventRepository R} (hmac_sha256 : str → str → str) (config : AnalyticsConfig).

Definition set_pc (pc : Pc) (p : Pipeline R) : Pipeline R :=
  mkPipeline (p_queue p) (p_repo p) (p_state p) pc (p_metrics p) (accepted p) (handled p).

(** [RecordRedirectAttempt]: an event that cannot be built leaves no trace. *)
Definition RecordRedirectAttempt (event_id : str) (alloc : bool) (context : RedirectEventContext)
    (p : Pipeline R) : Pipeline R :=
  if negb (ac_enabled config) then p
  else match Build hmac_sha256 event_id context (sanitization config)
               (mkClientIdHashConfig (client_hash_salt config) (negb (production_mode config)) 64) with
  | inl _ => p
  | inr event =>
      let '(result, q) := Queue.TryEnqueue alloc event (p_queue p) in
      let m := p_metrics p in
      match result with
      | Queue.Enqueued =>
          mkPipeline q (p_repo p) (p_state p) (p_pc p)
            (mkPipelineMetrics (pm_enqueued m + 1) (pm_dropped m) (pm_persisted m) (pm_worker_failures m) (Queue.depth q))
            (accepted p ++ [event]) (handled p)
      | Queue.DroppedFull =>
          mkPipeline q (p_repo p) (p_state p) (p_pc p)
            (mkPipelineMetrics (pm_enqueued m) (pm_dropped m + 1) (pm_persisted m) (pm_worker_failures m) (Queue.depth q))
            (accepted p) (handled p)
      end
  end.

(** ** [AnalyticsWorker] *)

(** [PersistWithRetry] makes up to [max_retry_attempts + 1] attempts. *)
Fixpoint persist_attempts (n : nat) (batch : list ClickEvent) : ST R bool :=
  match n with
  | O => mret false
  | S n' => ok ← repo_InsertBatch batch; if (ok : bool) then mret true else persist_attempts n' batch
  end.
Definition PersistWithRetry (batch : list ClickEvent) : ST R bool :=
  persist_attempts (S (max_retry_attempts config)) batch.

(** The end of [FlushOnce]: an empty batch is dropped, another is persisted and
    reported. *)
Definition finish_flush (batch : list ClickEvent) (p : Pipeline R) : Pipeline R :=
  match batch with
  | [] => set_pc at_exit_test p
  | _ =>
      let '(ok, r) := PersistWithRetry batch (p_repo p) in
      let m := p_metrics p in
      let m := if (ok : bool)
               then mkPipelineMetrics (pm_enqueued m) (pm_dropped m) (pm_persisted m + length batch) (pm_worker_failures m)
                      (Queue.depth (p_queue p))
               else mkPipelineMetrics (pm_enqueued m) (pm_dropped m) (pm_persisted m) (pm_worker_failures m + 1)
                      (Queue.depth (p_queue p)) in
      mkPipeline (p_queue p) r (p_state p) at_exit_test m (accepted p) (handled p ++ [(batch, ok)])
  end.

(** The collecting loop after a dequeue call has returned. *)
Definition collected (batch : list ClickEvent) (result : option ClickEvent * Queue.t) (p : Pipeline R) : Pipeline R :=
  match result with
  | (Some e, q) => mkPipeline q (p_repo p) (p_state p) (collecting (batch ++ [e])) (p_metrics p) (accepted p) (handled p)
  | (None, q) => mkPipeline q (p_repo p) (p_state p) (persisting batch) (p_metrics p) (accepted p) (handled p)
  end.

(** The next step of the worker thread when no call blocks: the flush interval
    is over, so [FlushOnce] uses [TryDequeue]. *)
Definition worker_step (p : Pipeline R) : Pipeline R :=
  match p_pc p with
  | at_loop =>
      if bool_decide (p_state p = WorkerState.Running) || bool_decide (p_state p = WorkerState.Stopping)
      then set_pc (collecting []) p else set_pc returned p
  | collecting batch =>
      if length batch <? batch_size config then
        collected batch (Queue.TryDequeue (p_queue p)) p
      else set_pc (persisting batch) p
  | persisting batch => finish_flush batch p
  | at_exit_test =>
      if bool_decide (p_state p = WorkerState.Stopping) && (Queue.depth (p_queue p) =? 0)
      then set_pc returned p else set_pc at_loop p
  | idle | returned => p
  end.

(** [Start], and [Stop] in three parts: up to the store of the state, the wake-up
    of the queue, and the return of the [join]. *)
Definition Start (p : Pipeline R) : Pipeline R :=
  if negb (ac_enabled config) || bool_decide (p_state p = WorkerState.Running) then p
  else mkPipeline (p_queue p) (p_repo p) WorkerState.Running at_loop (p_metrics p) (accepted p) (handled p).

Definition Stop_request (p : Pipeline R) : Pipeline R :=
  if bool_decide (p_state p = WorkerState.Running)
  then mkPipeline (p_queue p) (p_repo p) WorkerState.Stopping (p_pc p) (p_metrics p) (accepted p) (handled p)
  else p.

Definition Stop_notify (p : Pipeline R) : Pipeline R :=
  mkPipeline (Queue.NotifyStop (p_queue p)) (p_repo p) (p_state p) (p_pc p) (p_metrics p) (accepted p) (handled p).

Definition Stop_joined (p : Pipeline R) : Pipeline R :=
  mkPipeline (p_queue p) (p_repo p) WorkerState.Stopped idle (p_metrics p) (accepted p) (handled p).

(** Interleavings. [Start] and [Stop] are serialised by the owner: a worker is
    started only when none runs, and [Stop] returns when the thread has. *)
Inductive pipeline_step : relation (Pipeline R) :=
  | step_record event_id alloc context p : pipeline_step p (RecordRedirectAttempt event_id alloc context p)
  | step_worker p : pipeline_step p (worker_step p)
  | step_wait batch timed_out result p :
      p_pc p = collecting batch → length batch < batch_size config →
      Queue.WaitDequeue timed_out (p_queue p) result → pipeline_step p (collected batch result p)
  | step_start p : p_state p = WorkerState.Stopped → pipeline_step p (Start p)
  | step_stop_request p : pipeline_step p (Stop_request p)
  | step_stop_notify p : p_state p = WorkerState.Stopping → pipeline_step p (Stop_notify p)
  | step_stop_joined p :
      p_state p = WorkerState.Stopping → p_pc p = returned → pipeline_step p (Stop_joined p).
End service.

(** ** [RetentionCleanupJob] *)
Record RetentionCleanupResult := mkRetentionCleanupResult {
  rt_enabled : bool;
  rt_cutoff : option Z;
  rt_deleted_count : Z;
  rt_error : option AnalyticsError;
}.

(** [retention_days] is a [size_t] cast to [long long]; the subtraction is one of
    nanosecond counts. *)
Definition cutoff_for (days now : Z) : Z := wrap64 (now - wrap64 (wrap64 (24 * days) * (3600 * ticks_per_second))).

Definition RetentionCleanupJob_Run {R} `{IClickEventRepository R} (config : AnalyticsConfig) (now : Z)
    (metrics : PipelineMetrics) (repo : R) : RetentionCleanupResult * (PipelineMetrics * R) :=
  let days := wrap64 (retention_days config) in
  if (days <=? 0)%Z then (mkRetentionCleanupResult false None 0 None, (metrics, repo))
  else
    let cutoff := cutoff_for days now in
    let '(error, repo) := repo_DeleteOlderThan cutoff repo in
    match error with
    | Some e => (mkRetentionCleanupResult true (Some cutoff) 0 (Some e), (count_failure metrics, repo))
    | None => (mkRetentionCleanupResult true (Some cutoff) 0 None, (metrics, repo))
    end.

(** ** No event is lost, duplicated or reordered *)
Definition batch_of (pc : Pc) : list ClickEvent :=
  match pc with collecting batch | persisting batch => batch | _ => [] end.

Definition batches {B} (l : list (list ClickEvent * B)) : list ClickEvent := concat (map fst l).

Lemma batches_snoc {B} (l : list (list ClickEvent * B)) batch (b : B) : batches (l ++ [(batch, b)]) = batches l ++ batch.
Proof. unfold batches. rewrite map_app, concat_app. simpl. by rewrite app_nil_r. Qed.

#[export] Instance Pc_returned_dec (pc : Pc) : Decision (pc = returned).
Proof. destruct pc; (by left) || (by right). Defined.

Section fifo.
Context {R : Type} `{IClickEventRepository R} (hmac_sha256 : str → str → str) (config : AnalyticsConfig).
Implicit Types p : Pipeline R.

(** The thread runs exactly when the state says so. *)
Definition thread_ok p : Prop :=
  match p_state p with
  | WorkerState.Stopped => p_pc p = idle
  | WorkerState.Running => p_pc p ≠ idle ∧ p_pc p ≠ returned
  | WorkerState.Stopping => p_pc p ≠ idle
  end.

Record pipeline_ok p : Prop := {
  ok_history : accepted p = batches (handled p) ++ batch_of (p_pc p) ++ Queue.events (p_queue p);
  ok_bounded : length (Queue.events (p_queue p)) ≤ Queue.capacity (p_queue p);
  ok_batch : length (batch_of (p_pc p)) ≤ batch_size config;
  ok_batches : Forall (fun b => 0 < length b.1 ≤ batch_size config) (handled p);
  ok_total : Queue.enqueued_total (p_queue p) = u64 (Z.of_nat (length (accepted p)));
  ok_thread : thread_ok p;
}.

Lemma record_ok event_id alloc context p :
  pipeline_ok p → pipeline_ok (RecordRedirectAttempt hmac_sha256 config event_id alloc context p).
Proof.
  intros Hp. unfold RecordRedirectAttempt. destruct (ac_enabled config); [|done]. cbn [negb].
  destruct (Build _ _ _ _ _) as [|event]; [done|]. unfold Queue.TryEnqueue.
  destruct (Nat.leb_spec (Queue.capacity (p_queue p)) (length (Queue.events (p_queue p)))) as [Hf|Hf];
    [destruct Hp; by constructor|]. destruct alloc; cbn [negb]; [|destruct Hp; by constructor].
  destruct Hp as [Hh Hb Hc Hd He Ht]. constructor; simpl; try done.
  - rewrite Hh. by rewrite <- !app_assoc.
  - rewrite length_app. simpl. lia.
  - rewrite length_app, He. unfold u64. rewrite Nat2Z.inj_add. simpl.
    by rewrite Zplus_mod_idemp_l.
Qed.

Lemma collected_ok batch p :
  pipeline_ok p → p_pc p = collecting batch → length batch < batch_size config →
  pipeline_ok (collected batch (Queue.TryDequeue (p_queue p)) p).
Proof.
  intros [Hh Hb Hc Hd He Ht] Hpc Hlt. unfold collected, Queue.TryDequeue. unfold thread_ok in Ht.
  rewrite Hpc in Hh, Hc, Ht. destruct (Queue.events (p_queue p)) as [|e rest] eqn:Eq.
  - constructor; simpl; rewrite ?Eq; try done.
    unfold thread_ok. simpl. by destruct (p_state p).
  - constructor; simpl in *; try done; [by rewrite Hh, <- !app_assoc|lia|rewrite length_app; simpl; lia|].
    unfold thread_ok. simpl. by destruct (p_state p).
Qed.

Lemma set_pc_ok pc p :
  pipeline_ok p → batch_of pc = batch_of (p_pc p) →
  (thread_ok p → thread_ok (set_pc pc p)) → pipeline_ok (set_pc pc p).
Proof. intros [Hh Hb Hc Hd He Ht] Hpc Hth. constructor; simpl; try done; [by rewrite Hpc|by rewrite Hpc|auto]. Qed.

Lemma finish_flush_ok batch p :
  pipeline_ok p → p_pc p = persisting batch → pipeline_ok (finish_flush config batch p).
Proof.
  intros Hp Hpc. assert (Hp' := Hp). destruct Hp' as [Hh Hb Hc Hd He Ht]. unfold thread_ok in Ht.
  rewrite Hpc in Hh, Hc, Ht. unfold finish_flush. destruct batch as [|e batch].
  - apply set_pc_ok; [done|by rewrite Hpc|]. intros _. unfold thread_ok. simpl. by destruct (p_state p).
  - destruct (PersistWithRetry config (e :: batch) (p_repo p)) as [ok r]. constructor; simpl; try done.
    + rewrite batches_snoc, Hh. by rewrite <- app_assoc.
    + lia.
    + apply Forall_app. split; [done|]. apply Forall_singleton. simpl in *. lia.
    + unfold thread_ok. simpl. by destruct (p_state p).
Qed.

Lemma worker_step_ok p : pipeline_ok p → pipeline_ok (worker_step config p).
Proof.
  intros Hp. assert (Ht := ok_thread p Hp). unfold thread_ok in Ht. unfold worker_step.
  destruct (p_pc p) eqn:Hpc; try done.
  - destruct (_ || _) eqn:Es; apply set_pc_ok; rewrite ?Hpc; try done; intros _; unfold thread_ok; simpl;
      destruct (p_state p); done.
  - destruct (Nat.ltb_spec (length batch) (batch_size config)); [by apply collected_ok|].
    apply set_pc_ok; rewrite ?Hpc; try done. intros _. unfold thread_ok. simpl. by destruct (p_state p).
  - by apply finish_flush_ok.
  - destruct (_ && _) eqn:Es; apply set_pc_ok; rewrite ?Hpc; try done; intros _; unfold thread_ok; simpl;
      destruct (p_state p); done.
Qed.

Lemma pipeline_step_ok p p' : pipeline_step hmac_sha256 config p p' → pipeline_ok p → pipeline_ok p'.
Proof.
  intros [event_id alloc context p1|p1|batch timed_out result p1 Hpc Hlt [_ ->]|p1 Hs|p1|p1 Hs|p1 Hs Hpc] Hp.
  - by apply record_ok.
  - by apply worker_step_ok.
  - by apply collected_ok.
  - unfold Start. destruct (_ || _); [done|]. destruct Hp as [Hh Hb Hc Hd He Ht]. unfold thread_ok in Ht.
    rewrite Hs in Ht. rewrite Ht in Hh, Hc. by constructor.
  - unfold Stop_request. case_bool_decide as Hs; [|done]. destruct Hp as [Hh Hb Hc Hd He Ht]. unfold thread_ok in Ht.
    rewrite Hs in Ht. constructor; try done. apply Ht.
  - destruct Hp as [Hh Hb Hc Hd He Ht]. unfold thread_ok in Ht. constructor; try done.
  - destruct Hp as [Hh Hb Hc Hd He Ht]. rewrite Hpc in Hh, Hc. by constructor.
Qed.

(** The state in which the process starts. *)
Definition pipeline_start (q : Queue.t) (r : R) : Pipeline R :=
  mkPipeline q r WorkerState.Stopped idle (mkPipelineMetrics 0 0 0 0 0) [] [].

Lemma reachable_pipeline_ok c q r p :
  Queue.create c = Some q → rtc (pipeline_step hmac_sha256 config) (pipeline_start q r) p → pipeline_ok p.
Proof.
  intros Hq Hsteps. assert (H0 : pipeline_ok (pipeline_start q r)).
  { unfold Queue.create in Hq. destruct (c =? 0); [done|]. injection Hq as <-. constructor; simpl; try done; lia. }
  induction Hsteps as [|p1 p2 p3 Hs _ IH]; [done|]. by eapply IH, pipeline_step_ok.
Qed.

(** C20: no event is lost, duplicated or reordered between the redirect threads
    and the repository. In every interleaving, the events the queue accepted
    are, in order, those of the batches already handed to the repository, then
    those of the batch being collected, then those still queued; the queue
    never exceeds its capacity and no batch the configured size; and when the
    worker thread returns, every event accepted so far has been handed over. *)
Theorem pipeline_fifo c q r p :
  Queue.create c = Some q → rtc (pipeline_step hmac_sha256 config) (pipeline_start q r) p →
  accepted p = batches (handled p) ++ batch_of (p_pc p) ++ Queue.events (p_queue p) ∧
  Queue.depth (p_queue p) ≤ Queue.capacity (p_queue p) ∧
  Forall (fun b => 0 < length b.1 ≤ batch_size config) (handled p) ∧
  Queue.enqueued_total (p_queue p) = u64 (Z.of_nat (length (accepted p))) ∧
  (p_pc p ≠ returned → p_pc (worker_step config p) = returned →
   accepted (worker_step config p) = batches (handled (worker_step config p))).
Proof.
  intros Hq Hsteps. assert (Hp := reachable_pipeline_ok c q r p Hq Hsteps). assert (Hp' := Hp).
  destruct Hp' as [Hh Hb Hc Hd He Ht]. split_and!; try done. clear -Hp Ht. intros Hn.
  assert (Hw := worker_step_ok p Hp). revert Hw. unfold worker_step. unfold thread_ok in Ht.
  destruct (p_pc p) eqn:Hpc; rewrite ?Hpc; try done.
  - destruct (_ || _) eqn:Es; [done|]. intros _ _. by destruct (p_state p).
  - destruct (_ <? _); [|done]. unfold collected. by destruct (Queue.TryDequeue _) as [[]].
  - unfold finish_flush. destruct batch; [done|]. by destruct (PersistWithRetry _ _ _).
  - destruct (_ && _) eqn:Es; [|done]. apply andb_true_iff in Es as [_ Hz%Nat.eqb_eq].
    intros Hw _. rewrite (ok_history _ Hw). simpl. apply nil_length_inv in Hz. by rewrite Hz, app_nil_r.
Qed.

(** ** Stopping drains the queue *)

(** A measure that each step of a stopping worker decreases. *)
Definition worker_rank (pc : Pc) (n : nat) : nat :=
  match pc with
  | idle | returned => 0
  | at_exit_test => if n =? 0 then 1 else 6
  | persisting _ => if n =? 0 then 2 else 7
  | collecting batch => if (n =? 0) || (length batch <? batch_size config) then 3 else 8
  | at_loop => 5
  end.
Definition worker_measure p : nat := 6 * Queue.depth (p_queue p) + worker_rank (p_pc p) (Queue.depth (p_queue p)).

Lemma worker_step_state p : p_state (worker_step config p) = p_state p.
Proof.
  unfold worker_step, collected, finish_flush. destruct (p_pc p); try done; repeat case_match; done.
Qed.

Lemma worker_step_measure p :
  p_state p = WorkerState.Stopping → p_pc p ≠ idle → p_pc p ≠ returned → 0 < batch_size config →
  worker_measure (worker_step config p) < worker_measure p ∧
  accepted (worker_step config p) = accepted p ∧
  (p_pc (worker_step config p) = returned → Queue.events (p_queue (worker_step config p)) = []).
Proof.
  intros Hs Hi Hr Hbs. unfold worker_measure, worker_step, Queue.depth.
  destruct (p_pc p) as [| |batch|batch| |] eqn:Hpc; try done; rewrite ?Hs.
  - simpl. destruct (Nat.ltb_spec 0 (batch_size config)); [|lia]. rewrite orb_true_r. split_and!; [lia|done|done].
  - destruct (Nat.ltb_spec (length batch) (batch_size config)) as [Hlt|Hge].
    + unfold collected, Queue.TryDequeue. destruct (Queue.events (p_queue p)) as [|e rest] eqn:Eq; simpl.
      * rewrite Eq. simpl. split_and!; [lia|done|done].
      * destruct (Nat.ltb_spec (length batch) (batch_size config)); [|lia]. simpl.
        destruct (_ || _); split_and!; try done; lia.
    + simpl. destruct (Nat.ltb_spec (length batch) (batch_size config)); [lia|].
      destruct (length _ =? 0); simpl; split_and!; try done; lia.
  - unfold finish_flush. destruct batch as [|e batch]; [|destruct (PersistWithRetry _ _ _)]; simpl;
      destruct (length _ =? 0); simpl; split_and!; try done; lia.
  - rewrite bool_decide_eq_true_2 by done. cbn [andb].
    destruct (Nat.eqb_spec (length (Queue.events (p_queue p))) 0) as [Hz|Hz]; simpl.
    + rewrite Hz. simpl. split_and!; [lia|done|]. intros _. by apply nil_length_inv.
    + destruct (Nat.eqb_spec (length (Queue.events (p_queue p))) 0); [done|]. split_and!; [lia|done|done].
Qed.

Lemma worker_returns p :
  pipeline_ok p → p_state p = WorkerState.Stopping → p_pc p ≠ returned → 0 < batch_size config →
  ∃ k, k ≤ worker_measure p ∧
    let p' := Nat.iter k (worker_step config) p in
    p_pc p' = returned ∧ Queue.events (p_queue p') = [] ∧ accepted p' = accepted p ∧ pipeline_ok p'.
Proof.
  remember (worker_measure p) as n eqn:Hn. revert p Hn. induction (lt_wf n) as [n _ IH].
  intros p -> Hp Hs Hr Hbs. assert (Ht := ok_thread p Hp). unfold thread_ok in Ht. rewrite Hs in Ht.
  destruct (worker_step_measure p Hs Ht Hr Hbs) as (Hlt & Ha & Hret).
  assert (Hp1 := worker_step_ok p Hp). destruct (decide (p_pc (worker_step config p) = returned)) as [Hr1|Hr1].
  - exists 1. split; [lia|]. simpl. auto.
  - destruct (IH _ Hlt (worker_step config p) eq_refl Hp1) as (k & Hk & Hpc & Hq & Hacc & Hok); [|done|done|].
    { by rewrite worker_step_state. }
    exists (S k). split; [lia|]. rewrite Nat.iter_succ_r. rewrite <- Ha. auto.
Qed.

(** A stopping worker needs a number of steps linear in the depth of the queue. *)
Lemma worker_measure_bound p k : k ≤ worker_measure p → k ≤ 6 * Queue.depth (p_queue p) + 8.
Proof. unfold worker_measure, worker_rank. intros Hk. destruct (p_pc p); repeat case_match; lia. Qed.
End fifo.

Lemma valid_batch_size config : ValidateConfig config = None → 0 < batch_size config.
Proof.
  unfold ValidateConfig. destruct (Nat.eqb_spec (batch_size config) 0) as [Hz|]; [|lia]. by rewrite !orb_true_r.
Qed.

(** ** With the in-memory repository *)
Section in_memory.
Context (hmac_sha256 : str → str → str) (config : AnalyticsConfig).
Implicit Types p : Pipeline (list ClickEvent).

(** The repository holds the handled batches, all of which it accepted. *)
Definition stored_ok (r : list ClickEvent) p : Prop :=
  p_repo p = r ++ batches (handled p) ∧ Forall (fun b => b.2 = true) (handled p).

Lemma in_memory_persists batch (repo : list ClickEvent) : PersistWithRetry config batch repo = (true, repo ++ batch).
Proof. done. Qed.

Lemma worker_step_stored r p : stored_ok r p → stored_ok r (worker_step config p).
Proof.
  intros Hp. unfold worker_step, collected. destruct (p_pc p); try done; try by repeat case_match.
  unfold finish_flush. destruct batch as [|e batch]; [done|]. rewrite in_memory_persists.
  destruct Hp as [Hr Hall]. split; simpl; [by rewrite batches_snoc, Hr, app_assoc|].
  apply Forall_app. by repeat constructor.
Qed.

Lemma pipeline_step_stored r p p' : pipeline_step hmac_sha256 config p p' → stored_ok r p → stored_ok r p'.
Proof.
  intros [event_id alloc context p1|p1|batch timed_out result p1 Hpc Hlt Hw|p1 Hs|p1|p1 Hs|p1 Hs Hpc] Hp; try done.
  - unfold RecordRedirectAttempt. repeat case_match; done.
  - by apply worker_step_stored.
  - unfold collected. by destruct result as [[]].
  - unfold Start. by case_match.
  - unfold Stop_request. by case_match.
Qed.

(** C21: stopping is clean. Whatever was enqueued in whatever interleaving, once
    a stop is requested and the redirect threads are quiet, the worker returns
    within a number of steps linear in the queue's depth, and the repository then
    holds exactly the accepted events, in order, after what it held before. *)
Theorem stop_persists_everything c q r p :
  Queue.create c = Some q → ValidateConfig config = None →
  rtc (pipeline_step hmac_sha256 config) (pipeline_start q r) p →
  p_state p = WorkerState.Stopping → p_pc p ≠ returned →
  ∃ k, k ≤ 6 * Queue.depth (p_queue p) + 8 ∧
    let p' := Nat.iter k (worker_step config) p in
    p_pc p' = returned ∧ Queue.depth (p_queue p') = 0 ∧ p_repo p' = r ++ accepted p.
Proof.
  intros Hq Hv Hsteps Hs Hr. assert (Hok := reachable_pipeline_ok hmac_sha256 config c q r p Hq Hsteps).
  assert (Hbs := valid_batch_size config Hv).
  assert (Hst : stored_ok r p).
  { assert (H0 : stored_ok r (pipeline_start q r)) by (split; simpl; [by rewrite app_nil_r|constructor]).
    clear -Hsteps H0. induction Hsteps as [|p1 p2 p3 Hstep _ IH]; [done|]. by eapply IH, pipeline_step_stored. }
  destruct (worker_returns config p Hok Hs Hr Hbs) as (k & Hk & Hpc & He & Ha & Hok').
  exists k. split; [by apply worker_measure_bound in Hk|].
  cbv zeta in *. set (p' := Nat.iter k (worker_step config) p) in *.
  assert (Hst' : stored_ok r p').
  { unfold p'. clear -Hst. induction k as [|k IH]; [done|]. by apply worker_step_stored. }
  split_and!; [done|by unfold Queue.depth; rewrite He|].
  rewrite (proj1 Hst'), <- Ha, (ok_history _ _ Hok'), Hpc, He. simpl. by rewrite app_nil_r.
Qed.
End in_memory.

(** ** Retention *)

(** Retention keeps exactly the recent events. For every retention period of
    up to 106751 days and every clock reading from 1970 on, the job deletes the
    events older than that many days before now and no other. *)
Theorem retention_keeps_recent config now m (repo : list ClickEvent) :
  (0 < retention_days config ≤ 106751)%Z → (0 ≤ now < 2 ^ 63)%Z →
  let r := RetentionCleanupJob_Run config now m repo in
  let cutoff := (now - retention_days config * 86400 * ticks_per_second)%Z in
  rt_enabled r.1 = true ∧ rt_cutoff r.1 = Some cutoff ∧ rt_error r.1 = None ∧
  r.2.2 = List.filter (fun e => negb (ce_occurred_at e <? cutoff)%Z) repo.
Proof.
  intros Hd Hn. unfold RetentionCleanupJob_Run, cutoff_for, ticks_per_second.
  rewrite (wrap64_id (retention_days config)) by (unfold in_i64; lia).
  destruct (Z.leb_spec (retention_days config) 0); [lia|].
  rewrite (wrap64_id (24 * retention_days config)) by (unfold in_i64; lia).
  rewrite (wrap64_id (24 * retention_days config * _)) by (unfold in_i64; lia).
  rewrite wrap64_id by (unfold in_i64; lia). simpl. unfold DeleteOlderThan.
  replace (now - 24 * retention_days config * (3600 * 1000000000))%Z
    with (now - retention_days config * 86400 * 1000000000)%Z by lia. done.
Qed.

(** A very long retention period deletes everything. The period is converted
    to nanoseconds in 64 bits, so that a period of 150000 days, which passes
    [Validate] like any other, puts the cutoff more than a century into the future
    and the job deletes every event recorded so far. *)
Theorem long_retention_deletes_all config now m (repo : list ClickEvent) :
  retention_days config = 150000%Z → (0 ≤ now ≤ 3700000000 * ticks_per_second)%Z →
  Forall (fun e => (ce_occurred_at e ≤ now)%Z) repo →
  (RetentionCleanupJob_Run config now m repo).2.2 = [].
Proof.
  intros Hd Hn Hall. unfold RetentionCleanupJob_Run. rewrite Hd. change (wrap64 150000) with 150000%Z. simpl.
  unfold cutoff_for. replace (wrap64 (wrap64 (24 * 150000) * (3600 * ticks_per_second)))%Z with (-5486744073709551616)%Z
    by (vm_compute; reflexivity).
  unfold ticks_per_second in Hn. rewrite wrap64_id by (unfold in_i64; lia).
  unfold DeleteOlderThan. induction Hall as [|e repo He _ IH]; simpl; [done|].
  destruct (Z.ltb_spec (ce_occurred_at e) (now - -5486744073709551616)); [done|lia].
Qed.

(** ** A concrete run: three redirects with a queue of two, then a stop *)
Definition sample_config : AnalyticsConfig :=
  mkAnalyticsConfig true false 2 1 1000 3 100 30 sample_limits "salt".
Definition sample_queue : Queue.t := Queue.mk 2 [] 0 0 false.
Definition sample_hmac : str → str → str := fun _ m => m.

Definition sample_pipeline : Pipeline (list ClickEvent) :=
  let record i p := RecordRedirectAttempt sample_hmac sample_config i true sample_context p in
  Stop_request (record "c" (record "b" (record "a" (Start sample_config (pipeline_start sample_queue []))))).

Lemma sample_reachable :
  rtc (pipeline_step sample_hmac sample_config) (pipeline_start sample_queue []) sample_pipeline.
Proof.
  unfold sample_pipeline. eapply rtc_l; [by apply step_start|].
  do 3 (eapply rtc_l; [apply step_record|]). apply rtc_once, step_stop_request.
Qed.

Lemma pipeline_fifo_witness :
  map ce_event_id (accepted sample_pipeline) = ["a" : str; "b" : str] ∧
  accepted sample_pipeline = batches (handled sample_pipeline) ++ batch_of (p_pc sample_pipeline)
    ++ Queue.events (p_queue sample_pipeline).
Proof.
  split; [vm_compute; reflexivity|].
  apply (pipeline_fifo sample_hmac sample_config 2 sample_queue [] sample_pipeline); [reflexivity|].
  apply sample_reachable.
Defined.

Lemma stop_persists_everything_witness :
  ∃ k, k ≤ 6 * 2 + 8 ∧
    map ce_event_id (p_repo (Nat.iter k (worker_step sample_config) sample_pipeline)) = ["a" : str; "b" : str].
Proof.
  destruct (stop_persists_everything sample_hmac sample_config 2 sample_queue [] sample_pipeline)
    as (k & Hk & _ & _ & Hr); [reflexivity|reflexivity|apply sample_reachable|reflexivity|discriminate|].
  exists k. split; [exact Hk|]. rewrite Hr. vm_compute. reflexivity.
Defined.

Definition old_event : ClickEvent := mkClickEvent "old" 1000 "abc" "id1" "d" 302 [] [] [].
Definition recent_event : ClickEvent := mkClickEvent "new" 1704164645000000000 "abc" "id1" "d" 302 [] [] [].

Lemma retention_keeps_recent_witness :
  (RetentionCleanupJob_Run sample_config 1704164645000000000 (mkPipelineMetrics 0 0 0 0 0) [old_event; recent_event]).2.2
  = [recent_event].
Proof.
  destruct (retention_keeps_recent sample_config 1704164645000000000 (mkPipelineMetrics 0 0 0 0 0)
    [old_event; recent_event]) as (_ & _ & _ & ->); [simpl; lia|lia|]. vm_compute. reflexivity.
Defined.

Lemma long_retention_deletes_all_witness :
  let config := mkAnalyticsConfig true false 2 1 1000 3 100 150000 sample_limits "salt" in
  ValidateConfig config = None ∧
  (RetentionCleanupJob_Run config 1704164645000000000 (mkPipelineMetrics 0 0 0 0 0) [recent_event]).2.2 = [].
Proof.
  intros config. split; [reflexivity|].
  apply long_retention_deletes_all; [reflexivity|unfold ticks_per_second; lia|]. repeat constructor. simpl. lia.
Defined.
