(* ===== verification/Security.v ===== *)
(** * Security: users, sessions and the authentication broker (src/security/)

    The tables of src/storage/sql/migrations/005_auth_tables.sql as lists of
    rows, the statements of the four repositories as functions on them, and the
    services above: [PasswordHasher], [TokenGenerator], [AccessGuard],
    [AuthBrokerService], [UserManagementService] and [FirstAdminBootstrap].
    A C++ exception is the left case of a result; what was written before it is
    kept. Every statement may throw, also after it has taken effect, and a checked
    [RAND_bytes] may fail. SHA-256 and PBKDF2 (OpenSSL) are parameters; random bytes
    are draws of the environment. *)
From S2P Require Import Prelude Text Env Clock Numbers.

(** ** Control sets (control_set.cpp) *)
Inductive ControlSet := Admin | User.

#[export] Instance ControlSet_eq_dec : EqDecision ControlSet.
Proof. solve_decision. Defined.

Definition toString (c : ControlSet) : str := match c with Admin => "admin" | User => "user" end.

(** [None] is the exception. *)
Definition controlSetFromString (value : str) : option ControlSet :=
  if bool_decide (value = "admin") then Some Admin
  else if bool_decide (value = "user") then Some User
  else None.

Definition canRead (c : ControlSet) : bool := true.
Definition canWrite (c : ControlSet) : bool := bool_decide (c = Admin).
Definition canMigrate (c : ControlSet) : bool := bool_decide (c = Admin).
Definition canManageUsers (c : ControlSet) : bool := bool_decide (c = Admin).

(** ** Records *)
Record UserCredentials := mkUserCredentials {
  user_id : str;
  username : str;
  passwordHash : str;
  controlSet : ControlSet;
  isActive : bool;
  user_createdAt : Z;
  user_updatedAt : Z;
  lastLoginAt : option Z;
}.

Record AuthSession := mkAuthSession {
  session_id : str;
  session_userId : str;
  session_clientId : option str;
  tokenHash : str;
  session_createdAt : Z;
  session_expiresAt : Z;
  revokedAt : option Z;
  lastUsedAt : option Z;
}.

(** [AuthSession::isActive] (auth_session.cpp). *)
Definition session_isActive (s : AuthSession) (now : Z) : bool :=
  if bool_decide (is_Some (revokedAt s)) then false
  else if (session_expiresAt s <=? now)%Z then false
  else true.

Record ServiceClient := mkServiceClient {
  client_row_id : str;
  clientId : str;
  clientSecretHash : option str;
  allowedScopes : list str;
  client_isActive : bool;
  client_createdAt : Z;
  client_updatedAt : Z;
  client_lastUsedAt : option Z;
}.

(** [ServiceClient::hasScope] (service_client.cpp). *)
Definition hasScope (c : ServiceClient) (scope : str) : bool := bool_decide (scope ∈ allowedScopes c).

(** ** The tables; times are seconds *)
Record UserRow := mkUserRow {
  u_id : str;
  u_username : str;
  u_password_hash : str;
  u_control_set : str;
  u_is_active : Z;
  u_created_at : Z;
  u_updated_at : Z;
  u_last_login_at : option Z;
}.

Record SessionRow := mkSessionRow {
  s_id : str;
  s_user_id : str;
  s_client_id : option str;
  s_token_hash : str;
  s_created_at : Z;
  s_expires_at : Z;
  s_revoked_at : option Z;
  s_last_used_at : option Z;
}.

Record ClientRow := mkClientRow {
  c_id : str;
  c_client_id : str;
  c_client_secret_hash : option str;
  c_allowed_scopes : str;
  c_is_active : Z;
  c_created_at : Z;
  c_updated_at : Z;
  c_last_used_at : option Z;
}.

Record AuditRow := mkAuditRow {
  a_id : str;
  a_client_id : option str;
  a_username : option str;
  a_user_id : option str;
  a_action : str;
  a_result : str;
  a_reason : option str;
  a_created_at : Z;
}.

(** What the outside does to the calls: the message of the exception the [n]-th
    SQL statement throws, with a flag that tells whether it has taken effect all
    the same (its acknowledgement was lost), and whether the [n]-th checked call of
    [RAND_bytes] fails; both with their counters. *)
Record Outside := mkOutside {
  sql_faults : nat → option (str * bool);
  sql_statements : nat;
  rand_fails : nat → bool;
  rand_calls : nat;
}.

Record AuthWorld := mkAuthWorld {
  a_env : Env;
  a_outside : Outside;
  app_users : list UserRow;
  auth_sessions : list SessionRow;
  service_clients : list ClientRow;
  auth_audit_log : list AuditRow;
}.

(** ** Computations that may throw *)
Inductive AuthFault :=
  | access_denied (message : str) | admin_already_exists | constraint_violation | unknown_control_set
  | malformed_hash | hashing_failed | random_failed | database_failure (what : str).

Definition M (A : Type) : Type := AuthWorld → (AuthFault + A) * AuthWorld.

Definition ret {A} (a : A) : M A := fun w => (inr a, w).
Definition throw {A} (f : AuthFault) : M A := fun w => (inl f, w).
Definition bind {A B} (m : M A) (k : A → M B) : M B := fun w =>
  match m w with
  | (inl f, w') => (inl f, w')
  | (inr a, w') => k a w'
  end.

Declare Scope auth_scope.
Delimit Scope auth_scope with auth.
Notation "x <-- m ; k" := (bind m (fun x => k)) (at level 100, m at next level, right associativity) : auth_scope.
Notation "m ;;; k" := (bind m (fun _ => k)) (at level 100, right associativity) : auth_scope.
Open Scope auth_scope.

Definition read {A} (f : AuthWorld → A) : M A := fun w => (inr (f w), w).
Definition in_env {A} (m : ST Env A) : M A := fun w =>
  let '(a, e) := m (a_env w) in
  (inr a, mkAuthWorld e (a_outside w) (app_users w) (auth_sessions w) (service_clients w) (auth_audit_log w)).
Definition write_users (f : list UserRow → list UserRow) : M unit := fun w =>
  (inr tt, mkAuthWorld (a_env w) (a_outside w) (f (app_users w)) (auth_sessions w) (service_clients w) (auth_audit_log w)).
Definition write_sessions (f : list SessionRow → list SessionRow) : M unit := fun w =>
  (inr tt, mkAuthWorld (a_env w) (a_outside w) (app_users w) (f (auth_sessions w)) (service_clients w) (auth_audit_log w)).
Definition write_clients (f : list ClientRow → list ClientRow) : M unit := fun w =>
  (inr tt, mkAuthWorld (a_env w) (a_outside w) (app_users w) (auth_sessions w) (f (service_clients w)) (auth_audit_log w)).
Definition write_audit (f : list AuditRow → list AuditRow) : M unit := fun w =>
  (inr tt, mkAuthWorld (a_env w) (a_outside w) (app_users w) (auth_sessions w) (service_clients w) (f (auth_audit_log w))).

(** One SQL statement with the effect [m]: it may throw, before or after its effect. *)
Definition next_statement (w : AuthWorld) : AuthWorld :=
  let o := a_outside w in
  mkAuthWorld (a_env w) (mkOutside (sql_faults o) (S (sql_statements o)) (rand_fails o) (rand_calls o))
    (app_users w) (auth_sessions w) (service_clients w) (auth_audit_log w).

Definition execute {A} (m : M A) : M A := fun w =>
  let w1 := next_statement w in
  match sql_faults (a_outside w) (sql_statements (a_outside w)) with
  | None => m w1
  | Some (what, applied) => (inl (database_failure what), if applied : bool then (m w1).2 else w1)
  end.

Definition select {A} (f : AuthWorld → A) : M A := execute (read f).

(** An [INSERT] that a key of the table refuses. *)
Definition insert_row (taken : AuthWorld → bool) (write : M unit) : M unit :=
  execute (t <-- read taken; if (t : bool) then throw constraint_violation else write).

(** [UPDATE ... SET ... WHERE]. *)
Definition update_where {A} (cond : A → bool) (f : A → A) (l : list A) : list A :=
  map (fun r => if cond r then f r else r) l.

(** ** Randomness and time *)
Fixpoint RAND_bytes (n : nat) : ST Env str :=
  match n with
  | O => mret []
  | S n' => b ← draw_below 256; rest ← RAND_bytes n'; mret (ascii_of_nat b :: rest)
  end.

(** [toHex]: [hexEncode] of Text. [generateId] does not look at the result of
    [RAND_bytes]: the bytes may be any. *)
Definition generateId : M str := bytes <-- in_env (RAND_bytes 16); ret (hexEncode bytes).

(** A call of [RAND_bytes] whose result is looked at. *)
Definition random_bytes (n : nat) : M str := fun w =>
  let o := a_outside w in
  let w1 := mkAuthWorld (a_env w) (mkOutside (sql_faults o) (sql_statements o) (rand_fails o) (S (rand_calls o)))
              (app_users w) (auth_sessions w) (service_clients w) (auth_audit_log w) in
  if rand_fails o (rand_calls o) then (inl random_failed, w1) else in_env (RAND_bytes n) w1.

Definition generateToken (byteLength : nat) : M str := bytes <-- random_bytes byteLength; ret (hexEncode bytes).

Definition toEpoch (tp : Z) : Z := Z.quot tp ticks_per_second.
Definition fromEpoch (epoch : Z) : Z := from_time_t epoch.
Definition now : M Z := in_env system_now.

(** ** [AuthAuditLogRepository] *)
Definition append (action result : str) (username userId clientId reason : option str) : M unit :=
  id <-- generateId;
  t <-- now;
  insert_row (fun w => existsb (fun r => bool_decide (a_id r = id)) (auth_audit_log w))
    (write_audit (fun l => l ++ [mkAuditRow id clientId username userId action result reason (toEpoch t)])).

(** ** [UserCredentialsRepository] *)
Definition activeAdminExists : M bool :=
  select (fun w => existsb (fun r => bool_decide (u_control_set r = "admin") && (u_is_active r =? 1)%Z) (app_users w)).

Definition createUser_row (username passwordHash : str) (c : ControlSet) : M UserCredentials :=
  id <-- generateId;
  t <-- now;
  insert_row (fun w => existsb (fun r => bool_decide (u_id r = id) || bool_decide (u_username r = username)) (app_users w))
    (write_users (fun l => l ++ [mkUserRow id username passwordHash (toString c) 1 (toEpoch t) (toEpoch t) None]));;;
  ret (mkUserCredentials id username passwordHash c true t t None).

Definition buildUserRow (r : UserRow) : M UserCredentials :=
  match controlSetFromString (u_control_set r) with
  | None => throw unknown_control_set
  | Some c => ret (mkUserCredentials (u_id r) (u_username r) (u_password_hash r) c (negb (u_is_active r =? 0)%Z)
                     (fromEpoch (u_created_at r)) (fromEpoch (u_updated_at r)) (fromEpoch <$> u_last_login_at r))
  end.

Definition found_user (row : option UserRow) : M (option UserCredentials) :=
  match row with
  | None => ret None
  | Some r => u <-- buildUserRow r; ret (Some u)
  end.

Definition findByUsername (name : str) : M (option UserCredentials) :=
  row <-- select (fun w => List.find (fun r => bool_decide (u_username r = name) && (u_is_active r =? 1)%Z) (app_users w));
  found_user row.

Definition findById (userId : str) : M (option UserCredentials) :=
  row <-- select (fun w => List.find (fun r => bool_decide (u_id r = userId) && (u_is_active r =? 1)%Z) (app_users w));
  found_user row.

Fixpoint build_all (rows : list UserRow) : M (list UserCredentials) :=
  match rows with
  | [] => ret []
  | r :: rows' => u <-- buildUserRow r; us <-- build_all rows'; ret (u :: us)
  end.

Definition created_le (r1 r2 : UserRow) : Prop := (u_created_at r1 ≤ u_created_at r2)%Z.
#[export] Instance created_le_dec : RelDecision created_le := fun r1 r2 => Z_le_dec _ _.

Definition listUsers_rows : M (list UserCredentials) :=
  rows <-- select (fun w => merge_sort created_le (app_users w));
  build_all rows.

Definition deactivate (r : UserRow) (t : Z) : UserRow :=
  mkUserRow (u_id r) (u_username r) (u_password_hash r) (u_control_set r) 0 (u_created_at r) t (u_last_login_at r).

Definition deactivateUser_row (name : str) : M unit :=
  t <-- now;
  execute (write_users (update_where (fun r => bool_decide (u_username r = name)) (fun r => deactivate r (toEpoch t)))).

Definition logged_in (r : UserRow) (t : Z) : UserRow :=
  mkUserRow (u_id r) (u_username r) (u_password_hash r) (u_control_set r) (u_is_active r) (u_created_at r)
    (u_updated_at r) (Some t).

Definition touchLastLogin (userId : str) : M unit :=
  t <-- now;
  execute (write_users (update_where (fun r => bool_decide (u_id r = userId)) (fun r => logged_in r (toEpoch t)))).

(** ** [AuthSessionRepository] *)
Definition createSession_row (userId hash : str) (expiresAt : Z) (client : option str) : M AuthSession :=
  id <-- generateId;
  t <-- now;
  insert_row (fun w => existsb (fun r => bool_decide (s_id r = id) || bool_decide (s_token_hash r = hash)) (auth_sessions w))
    (write_sessions (fun l => l ++ [mkSessionRow id userId client hash (toEpoch t) (toEpoch expiresAt) None None]));;;
  ret (mkAuthSession id userId client hash t expiresAt None None).

Definition session_of_row (r : SessionRow) : AuthSession :=
  mkAuthSession (s_id r) (s_user_id r) (s_client_id r) (s_token_hash r) (fromEpoch (s_created_at r))
    (fromEpoch (s_expires_at r)) (fromEpoch <$> s_revoked_at r) (fromEpoch <$> s_last_used_at r).

Definition row_used (r : SessionRow) (t : Z) : SessionRow :=
  mkSessionRow (s_id r) (s_user_id r) (s_client_id r) (s_token_hash r) (s_created_at r) (s_expires_at r)
    (s_revoked_at r) (Some t).
Definition session_used (s : AuthSession) (t : Z) : AuthSession :=
  mkAuthSession (session_id s) (session_userId s) (session_clientId s) (tokenHash s) (session_createdAt s)
    (session_expiresAt s) (revokedAt s) (Some t).

Definition findByTokenHash (hash : str) : M (option AuthSession) :=
  row <-- select (fun w => List.find (fun r => bool_decide (s_token_hash r = hash)) (auth_sessions w));
  match row with
  | None => ret None
  | Some r =>
      let s := session_of_row r in
      t <-- now;
      if session_isActive s t then
        execute (write_sessions (update_where (fun r' => bool_decide (s_id r' = s_id r)) (fun r' => row_used r' (toEpoch t))));;;
        ret (Some (session_used s t))
      else ret (Some s)
  end.

Definition row_revoked (r : SessionRow) (t : Z) : SessionRow :=
  mkSessionRow (s_id r) (s_user_id r) (s_client_id r) (s_token_hash r) (s_created_at r) (s_expires_at r)
    (Some t) (s_last_used_at r).

Definition revokeByTokenHash (hash : str) : M unit :=
  t <-- now;
  execute (write_sessions (update_where (fun r => bool_decide (s_token_hash r = hash)) (fun r => row_revoked r (toEpoch t)))).

Definition revokeAllForUser (userId : str) : M unit :=
  t <-- now;
  execute (write_sessions (update_where (fun r => bool_decide (s_user_id r = userId) && bool_decide (s_revoked_at r = None))
                            (fun r => row_revoked r (toEpoch t)))).

(** ** [ServiceClientRepository] *)
Definition joinScopes (scopes : list str) : str := comma_separated scopes.

(** The pieces between commas, empty ones left out. *)
Definition splitScopes (s : str) : list str :=
  List.filter (fun p => negb (bool_decide (p = []))) (getlines "," s).

Definition createClient (client : str) (scopes : list str) (secret : option str) : M ServiceClient :=
  id <-- generateId;
  t <-- now;
  insert_row (fun w => existsb (fun r => bool_decide (c_id r = id) || bool_decide (c_client_id r = client)) (service_clients w))
    (write_clients (fun l => l ++ [mkClientRow id client secret (joinScopes scopes) 1 (toEpoch t) (toEpoch t) None]));;;
  ret (mkServiceClient id client secret scopes true t t None).

Definition findByClientId (client : str) : M (option ServiceClient) :=
  select (fun w =>
    (fun r => mkServiceClient (c_id r) client (c_client_secret_hash r) (splitScopes (c_allowed_scopes r))
       (negb (c_is_active r =? 0)%Z) (fromEpoch (c_created_at r)) (fromEpoch (c_updated_at r))
       (fromEpoch <$> c_last_used_at r))
    <$> List.find (fun r => bool_decide (c_client_id r = client)) (service_clients w)).

Definition touchLastUsed (client : str) : M unit :=
  t <-- now;
  execute (write_clients (update_where (fun r => bool_decide (c_client_id r = client))
    (fun r => mkClientRow (c_id r) (c_client_id r) (c_client_secret_hash r) (c_allowed_scopes r) (c_is_active r)
                (c_created_at r) (c_updated_at r) (Some (toEpoch t))))).

(** ** [AccessGuard]; the message names the control set *)
Definition require (permission : ControlSet → bool) (what : string) (guard : ControlSet) : M unit :=
  if permission guard then ret tt
  else throw (access_denied (what ++ (" access denied for control set: " : str) ++ toString guard)).
Definition requireRead : ControlSet → M unit := require canRead "Read".
Definition requireWrite : ControlSet → M unit := require canWrite "Write".
Definition requireMigration : ControlSet → M unit := require canMigrate "Migration".
Definition requireUserManagement : ControlSet → M unit := require canManageUsers "User management".

(** ** [PasswordHasher] *)
Definition is_hex_char (c : ascii) : bool :=
  is_digit c || ((97 <=? code c)%N && (code c <=? 102)%N) || ((65 <=? code c)%N && (code c <=? 70)%N).
Definition hex_val (c : ascii) : Z :=
  if is_digit c then Z.of_N (code c) - 48
  else if (97 <=? code c)%N then Z.of_N (code c) - 87 else Z.of_N (code c) - 55.
Fixpoint leading_hex (s : str) : str :=
  match s with
  | c :: s' => if is_hex_char c then c :: leading_hex s' else []
  | [] => []
  end.

(** [std::istringstream(two) >> std::hex >> val] into an [unsigned], cast to a
    byte: white space, a sign, hexadecimal digits; no digits give 0. *)
Definition read_hex_byte (two : str) : ascii :=
  let '(negative, body) := read_sign (drop_while is_space two) in
  let v := foldl (fun acc c => acc * 16 + hex_val c)%Z 0%Z (leading_hex body) in
  ascii_of_N (Z.to_N ((if (negative : bool) then - v else v) mod 256)).

Fixpoint hex_pairs (s : str) : list ascii :=
  match s with
  | a :: b :: s' => read_hex_byte [a; b] :: hex_pairs s'
  | _ => []
  end.

(** [None] is the exception on an odd length. *)
Definition fromHex (hex : str) : option str :=
  if negb (Nat.even (length hex)) then None else Some (hex_pairs hex).

Definition kSaltBytes : nat := 16.
Definition kHashBytes : nat := 32.
Definition kIterations : Z := 100000.
Definition kAlgoTag : str := "pbkdf2sha256".

Section hashing.
(** [pbkdf2 password salt iterations length], [None] when the library reports an
    error, and [sha256]. *)
Context (pbkdf2 : str → str → Z → nat → option str) (sha256 : str → str).

Definition hashPassword (password : str) : M str :=
  salt <-- random_bytes kSaltBytes;
  match pbkdf2 password salt kIterations kHashBytes with
  | None => throw hashing_failed
  | Some hash =>
      ret (kAlgoTag ++ ":"%char :: dec kIterations ++ ":"%char :: hexEncode salt ++ ":"%char :: hexEncode hash)
  end.

(** The four fields of a stored hash; the last one is the rest. *)
Definition hash_fields (stored : str) : option (str * str * str * str) :=
  p1 ← find_char ":" stored;
  let rest1 := drop (S p1) stored in
  p2 ← find_char ":" rest1;
  let rest2 := drop (S p2) rest1 in
  p3 ← find_char ":" rest2;
  Some (take p1 stored, take p2 rest1, take p3 rest2, drop (S p3) rest2).

(** [std::stoi] reads an [int]; [None] is an exception, here as for an odd
    hexadecimal text. *)
Definition verifyPassword_hash (password stored : str) : option bool :=
  match hash_fields stored with
  | None => Some false
  | Some (algo, iterations, saltHex, hashHex) =>
      n ← stoll iterations;
      if negb (bool_decide (- 2 ^ 31 ≤ n.1 < 2 ^ 31)%Z) then None
      else if negb (bool_decide (algo = kAlgoTag)) then Some false
      else
        salt ← fromHex saltHex;
        expectedHash ← fromHex hashHex;
        match pbkdf2 password salt n.1 (length expectedHash) with
        | None => Some false
        | Some computed =>
            if negb (length computed =? length expectedHash) then Some false
            else Some (forallb (fun ab => Ascii.eqb ab.1 ab.2) (zip computed expectedHash))
        end
  end.

Definition hashToken (rawToken : str) : str := hexEncode (sha256 rawToken).

(** ** [AuthBrokerService] *)
Record VerifyResult := mkVerifyResult { vr_ok : bool; vr_user : option UserCredentials }.
Record CreateSessionResult := mkCreateSessionResult {
  cs_ok : bool;
  cs_rawToken : str;
  cs_session : option AuthSession;
  cs_user : option UserCredentials;
}.
Record IntrospectResult := mkIntrospectResult {
  ir_active : bool;
  ir_user : option UserCredentials;
  ir_session : option AuthSession;
}.

Definition verify_failed (name : str) : M VerifyResult :=
  append "password.verify" "failure" (Some name) None None None;;;
  ret (mkVerifyResult false None).

Definition verifyPassword (name plainPassword : str) : M VerifyResult :=
  userOpt <-- findByUsername name;
  match userOpt with
  | None => verify_failed name
  | Some user =>
      if negb (isActive user) then verify_failed name
      else
        match verifyPassword_hash plainPassword (passwordHash user) with
        | None => throw malformed_hash
        | Some false => verify_failed name
        | Some true =>
            touchLastLogin (user_id user);;;
            append "password.verify" "success" (Some name) (Some (user_id user)) None None;;;
            ret (mkVerifyResult true (Some user))
        end
  end.

Definition createSession (sessionLifetime : Z) (name plainPassword : str) (client : option str) : M CreateSessionResult :=
  verifyRes <-- verifyPassword name plainPassword;
  match (if vr_ok verifyRes then vr_user verifyRes else None) with
  | Some user =>
      rawToken <-- generateToken 32;
      t <-- now;
      session <-- createSession_row (user_id user) (hashToken rawToken)
                    (wrap64 (t + sessionLifetime * ticks_per_second)) client;
      append "session.create" "success" (Some name) (Some (user_id user)) client None;;;
      ret (mkCreateSessionResult true rawToken (Some session) (Some user))
  | None =>
      append "session.create" "failure" (Some name) None client None;;;
      ret (mkCreateSessionResult false [] None None)
  end.

Definition introspect_failed : M IntrospectResult :=
  append "token.introspect" "failure" None None None None;;;
  ret (mkIntrospectResult false None None).

Definition introspectToken (rawToken : str) : M IntrospectResult :=
  sessionOpt <-- findByTokenHash (hashToken rawToken);
  match sessionOpt with
  | None => introspect_failed
  | Some session =>
      t <-- now;
      if negb (session_isActive session t) then introspect_failed
      else
        userOpt <-- findById (session_userId session);
        match userOpt with
        | None => introspect_failed
        | Some user =>
            append "token.introspect" "success" (Some (username user)) (Some (user_id user)) None None;;;
            ret (mkIntrospectResult true (Some user) (Some session))
        end
  end.

Definition revokeToken (rawToken : str) : M unit :=
  revokeByTokenHash (hashToken rawToken);;;
  append "token.revoke" "success" None None None None.

Definition guardFor (user : UserCredentials) : ControlSet := controlSet user.

(** ** [UserManagementService] *)
Definition createUser (guard : ControlSet) (name plainPassword : str) (c : ControlSet) : M UserCredentials :=
  requireUserManagement guard;;;
  hash <-- hashPassword plainPassword;
  user <-- createUser_row name hash c;
  append "user.create" "success" (Some name) (Some (user_id user)) None None;;;
  ret user.

Definition listUsers (guard : ControlSet) : M (list UserCredentials) :=
  requireUserManagement guard;;;
  listUsers_rows.

Definition deactivateUser (guard : ControlSet) (name : str) : M unit :=
  requireUserManagement guard;;;
  deactivateUser_row name;;;
  append "user.deactivate" "success" (Some name) None None None.

(** ** [FirstAdminBootstrap] *)
Definition createFirstAdmin (name plainPassword : str) : M UserCredentials :=
  exists_ <-- activeAdminExists;
  if (exists_ : bool) then
    append "first_admin.create" "denied" (Some name) None None None;;;
    throw admin_already_exists
  else
    hash <-- hashPassword plainPassword;
    user <-- createUser_row name hash Admin;
    append "first_admin.create" "success" (Some name) (Some (user_id user)) None None;;;
    ret user.
End hashing.
