(* ===== verification/SecurityProps.v ===== *)
(** * SecurityProps: what the authentication tables and services guarantee

    The keys of the tables stay unique and rows only move forward (a revoked
    session stays revoked, an inactive user stays inactive, the audit log only
    grows) through every operation, whether it returns or throws. On top of it:
    when a token is accepted, who can change the users, and the round trip of
    the password hash. *)
From S2P Require Import Prelude Text Env Clock Numbers Security.
From stdpp Require Import relations.

(** ** Tables that only move forward *)
Definition later {A} (R : relation A) (l l' : list A) : Prop := ∃ l1 l2, l' = l1 ++ l2 ∧ Forall2 R l l1.

Section tables.
Context {A : Type} (R : relation A) `{!PreOrder R}.
Implicit Types (l : list A).

#[global] Instance later_preorder : PreOrder (later R).
Proof.
  split.
  - intros l. exists l, []. by rewrite app_nil_r.
  - intros l1 l2 l3 (a & b & -> & H1) (c & d & -> & (c1 & c2 & H2 & H3 & ->)%Forall2_app_inv_l).
    exists c1, (c2 ++ d). rewrite <- app_assoc. split; [done|]. by etrans.
Qed.

Lemma later_insert l r : later R l (l ++ [r]).
Proof. by exists l, [r]. Qed.

Lemma later_update cond f l : (∀ r, R r (f r)) → later R l (update_where cond f l).
Proof.
  intros Hf. exists (update_where cond f l), []. rewrite app_nil_r. split; [done|].
  induction l as [|r l IH]; constructor; [by destruct (cond r)|done].
Qed.

Lemma later_elem l l' r : later R l l' → r ∈ l → ∃ r', r' ∈ l' ∧ R r r'.
Proof.
  intros (l1 & l2 & -> & HF) [i Hi]%list_elem_of_lookup. destruct (Forall2_lookup_l _ _ _ _ _ HF Hi) as (r' & Hr & HR).
  exists r'. split; [|done]. apply elem_of_app. left. by eapply list_elem_of_lookup_2.
Qed.

Lemma update_where_key {K} (key : A → K) cond f l :
  (∀ r, key (f r) = key r) → key <$> update_where cond f l = key <$> l.
Proof. intros Hf. induction l as [|r l IH]; [done|]. csimpl. rewrite IH. f_equal. by destruct (cond r). Qed.

Lemma elem_of_update_where cond f l r :
  r ∈ update_where cond f l ↔ ∃ r0, r0 ∈ l ∧ r = if cond r0 then f r0 else r0.
Proof. unfold update_where. rewrite list_elem_of_fmap. naive_solver. Qed.

(** The key of a row that an insertion checked first is new. *)
Lemma insert_key `{EqDecision K} (key : A → K) l r :
  NoDup (key <$> l) → existsb (fun r' => bool_decide (key r' = key r)) l = false → NoDup (key <$> l ++ [r]).
Proof.
  intros Hl Hnew. rewrite fmap_app. apply NoDup_app. split_and!; [done| |apply NoDup_singleton].
  intros k (r' & -> & Hr)%list_elem_of_fmap Hk%list_elem_of_singleton.
  apply not_true_iff_false in Hnew. apply Hnew, existsb_exists. exists r'.
  split; [by apply list_elem_of_In|by apply bool_decide_eq_true_2].
Qed.
End tables.

Lemma existsb_or {A} (p q : A → bool) l : existsb (fun x => p x || q x) l = existsb p l || existsb q l.
Proof. induction l as [|x l IH]; [done|]. simpl. rewrite IH. by destruct (p x), (q x), (existsb p l). Qed.

Lemma key_unique {A K} (key : A → K) (l : list A) x y : NoDup (key <$> l) → x ∈ l → y ∈ l → key x = key y → x = y.
Proof.
  intros Hnd [i Hi]%list_elem_of_lookup [j Hj]%list_elem_of_lookup Hk.
  assert (i = j) as ->; [|by simplify_eq].
  eapply NoDup_lookup; [exact Hnd|by rewrite list_lookup_fmap, Hi|rewrite list_lookup_fmap, Hj; simpl; by f_equal].
Qed.

Lemma find_bool {A} (p : A → bool) l r : List.find p l = Some r → r ∈ l ∧ p r = true.
Proof. intros [H1 H2]%find_some. split; [by apply list_elem_of_In|done]. Qed.

Lemma find_unique {A} (p : A → bool) (l : list A) r :
  r ∈ l → p r = true → (∀ r', r' ∈ l → p r' = true → r' = r) → List.find p l = Some r.
Proof.
  intros Hr Hp Hu. destruct (List.find p l) as [r'|] eqn:E.
  - apply find_bool in E as [H1 H2]. by rewrite (Hu r').
  - eapply find_none in E; [|by apply list_elem_of_In]. congruence.
Qed.

(** ** The invariant and the order *)
Record auth_wf (w : AuthWorld) : Prop := {
  wf_u_id : NoDup (u_id <$> app_users w);
  wf_u_username : NoDup (u_username <$> app_users w);
  wf_u_control : Forall (fun r => is_Some (controlSetFromString (u_control_set r))) (app_users w);
  wf_u_active : Forall (fun r => u_is_active r = 0 ∨ u_is_active r = 1)%Z (app_users w);
  wf_s_id : NoDup (s_id <$> auth_sessions w);
  wf_s_token : NoDup (s_token_hash <$> auth_sessions w);
  wf_c_id : NoDup (c_id <$> service_clients w);
  wf_c_client : NoDup (c_client_id <$> service_clients w);
  wf_a_id : NoDup (a_id <$> auth_audit_log w);
}.

Definition user_identity (r : UserRow) : str * str * str * str :=
  (u_id r, u_username r, u_password_hash r, u_control_set r).
Definition user_later (r r' : UserRow) : Prop :=
  user_identity r' = user_identity r ∧ (u_is_active r ≠ 1 → u_is_active r' ≠ 1)%Z.

Definition session_identity (r : SessionRow) : str * str * option str * str * Z * Z :=
  (s_id r, s_user_id r, s_client_id r, s_token_hash r, s_created_at r, s_expires_at r).
Definition session_later (r r' : SessionRow) : Prop :=
  session_identity r' = session_identity r ∧ (is_Some (s_revoked_at r) → is_Some (s_revoked_at r')).

Definition client_identity (r : ClientRow) : str * str * option str * str * Z :=
  (c_id r, c_client_id r, c_client_secret_hash r, c_allowed_scopes r, c_is_active r).
Definition client_later (r r' : ClientRow) : Prop := client_identity r' = client_identity r.

#[export] Instance user_later_preorder : PreOrder user_later.
Proof. split; [done|]. intros r1 r2 r3 [H1 H2] [H3 H4]. split; [congruence|auto]. Qed.
#[export] Instance session_later_preorder : PreOrder session_later.
Proof. split; [done|]. intros r1 r2 r3 [H1 H2] [H3 H4]. split; [congruence|auto]. Qed.
#[export] Instance client_later_preorder : PreOrder client_later.
Proof. split; [done|]. unfold client_later. intros r1 r2 r3. congruence. Qed.

Record auth_later (w w' : AuthWorld) : Prop := {
  later_users : later user_later (app_users w) (app_users w');
  later_sessions : later session_later (auth_sessions w) (auth_sessions w');
  later_clients : later client_later (service_clients w) (service_clients w');
  later_audit : auth_audit_log w `prefix_of` auth_audit_log w';
}.

#[export] Instance auth_later_preorder : PreOrder auth_later.
Proof.
  split; [intros w; by split|]. intros w1 w2 w3 [A1 A2 A3 A4] [B1 B2 B3 B4]. split; by etrans.
Qed.

(** ** Computations that keep the invariant and move forward *)
Definition good {A} (m : M A) : Prop := ∀ w, auth_wf w → auth_wf (m w).2 ∧ auth_later w (m w).2.

Create HintDb auth.

Lemma good_ret {A} (a : A) : good (ret a).
Proof. by intros w H. Qed.
Lemma good_throw {A} f : good (@throw A f).
Proof. by intros w H. Qed.
Lemma good_read {A} (f : AuthWorld → A) : good (read f).
Proof. by intros w H. Qed.
Lemma good_bind {A B} (m : M A) (k : A → M B) : good m → (∀ a, good (k a)) → good (bind m k).
Proof.
  intros Hm Hk w Hw. destruct (Hm w Hw) as [Hw1 Hl1]. unfold bind. destruct (m w) as [[f|a] w1]; simpl in *; [done|].
  destruct (Hk a w1 Hw1) as [Hw2 Hl2]. split; [done|]. by etrans.
Qed.
Lemma good_in_env {A} (m : ST Env A) : good (in_env m).
Proof. intros w [?????????]. unfold in_env. destruct (m (a_env w)) as [a e]. by split; split. Qed.

Lemma bind_run {A B} (m : M A) (k : A → M B) w a w1 : m w = (inr a, w1) → bind m k w = k a w1.
Proof. intros H. unfold bind. by rewrite H. Qed.

Lemma bind_inv {A B} (m : M A) (k : A → M B) w b w2 :
  bind m k w = (inr b, w2) → ∃ a w1, m w = (inr a, w1) ∧ k a w1 = (inr b, w2).
Proof. unfold bind. destruct (m w) as [[f|a] w1]; [done|]. eauto. Qed.

#[export] Hint Resolve good_ret good_throw good_read good_bind good_in_env : auth.

(** Splits a computation along its binds and branches. *)
Ltac good_steps :=
  repeat match goal with
  | |- good (bind _ _) => apply good_bind; [|intros ?]
  | |- good (if ?b then _ else _) => destruct b
  | |- good (match ?x with _ => _ end) => destruct x
  | |- good _ => solve [eauto with auth]
  end.

Lemma good_update_users cond f :
  (∀ r, user_later r (f r)) → (∀ r, u_is_active (f r) = u_is_active r ∨ u_is_active (f r) = 0%Z) →
  good (write_users (update_where cond f)).
Proof.
  intros Hf Ha w [????? ????]. unfold write_users. simpl. split; [|split; simpl; try done; exact (later_update _ _ _ _ Hf)].
  assert (Hid : ∀ r, user_identity (f r) = user_identity r) by (intros r; apply Hf).
  assert (Hall : ∀ P : UserRow → Prop, (∀ r, P r → P (f r)) → Forall P (app_users w) →
    Forall P (update_where cond f (app_users w))).
  { intros P HP HF. apply Forall_fmap. eapply Forall_impl; [exact HF|]. intros r Hr. unfold compose. destruct (cond r); auto. }
  split; simpl; try done.
  - rewrite update_where_key; [done|]. intros r. by injection (Hid r).
  - rewrite update_where_key; [done|]. intros r. by injection (Hid r).
  - apply Hall; [|done]. intros r. injection (Hid r) as _ _ _ ->. done.
  - apply Hall; [|done]. intros r [?|?]; destruct (Ha r); lia.
Qed.

Lemma good_update_sessions cond f : (∀ r, session_later r (f r)) → good (write_sessions (update_where cond f)).
Proof.
  intros Hf w [????? ????]. unfold write_sessions. simpl. split; [|split; simpl; try done; exact (later_update _ _ _ _ Hf)].
  assert (Hid : ∀ r, session_identity (f r) = session_identity r) by (intros r; apply Hf).
  split; simpl; try done; rewrite update_where_key; try done; intros r; by injection (Hid r).
Qed.

Lemma good_update_clients cond f : (∀ r, client_later r (f r)) → good (write_clients (update_where cond f)).
Proof.
  intros Hf w [????? ????]. unfold write_clients. simpl. split; [|split; simpl; try done; exact (later_update _ _ _ _ Hf)].
  split; simpl; try done; rewrite update_where_key; try done; intros r; by injection (Hf r).
Qed.

(** A statement that throws has had its effect or none. *)
Lemma next_statement_same w : auth_wf w → auth_wf (next_statement w) ∧ auth_later w (next_statement w).
Proof. intros []. by split; split. Qed.

Lemma good_execute {A} (m : M A) : good m → good (execute m).
Proof.
  intros Hm w Hw. destruct (next_statement_same w Hw) as [H1 H2]. destruct (Hm _ H1) as [H3 H4].
  assert (H5 : auth_wf (m (next_statement w)).2 ∧ auth_later w (m (next_statement w)).2) by (split; [done|by etrans]).
  unfold execute. by destruct (sql_faults _ _) as [[what []]|].
Qed.
Lemma good_select {A} (f : AuthWorld → A) : good (select f).
Proof. apply good_execute, good_read. Qed.
Lemma good_random_bytes n : good (random_bytes n).
Proof.
  intros w Hw. unfold random_bytes. assert (Hsame : ∀ o, auth_wf (mkAuthWorld (a_env w) o (app_users w) (auth_sessions w)
    (service_clients w) (auth_audit_log w)) ∧ auth_later w (mkAuthWorld (a_env w) o (app_users w) (auth_sessions w)
    (service_clients w) (auth_audit_log w))) by (intros o; destruct Hw; by split; split).
  destruct (rand_fails _ _); [apply Hsame|]. destruct (Hsame (mkOutside (sql_faults (a_outside w)) (sql_statements (a_outside w))
    (rand_fails (a_outside w)) (S (rand_calls (a_outside w))))) as [H1 H2].
  destruct (good_in_env (RAND_bytes n) _ H1) as [H3 H4]. split; [done|]. by etrans.
Qed.

(** An insertion behind its key checks. *)
Lemma good_insert_row (taken : AuthWorld → bool) (write : M unit) :
  (∀ w, taken w = false → auth_wf w → auth_wf (write w).2 ∧ auth_later w (write w).2) → good (insert_row taken write).
Proof.
  intros Hw. apply good_execute. intros w Hwf. unfold bind, read. destruct (taken w) eqn:Ht; [by split|]. by apply Hw.
Qed.

#[export] Hint Resolve good_execute good_select good_random_bytes : auth.

Lemma good_append action result name user client reason : good (append action result name user client reason).
Proof.
  unfold append. apply good_bind; [unfold generateId; good_steps|intros id].
  apply good_bind; [apply good_in_env|intros t]. apply good_insert_row. intros w Ht []. simpl. split.
  - split; try done. simpl. by apply insert_key.
  - split; simpl; try done. by apply prefix_app_r.
Qed.

Lemma good_createUser_row name hash c : good (createUser_row name hash c).
Proof.
  unfold createUser_row. apply good_bind; [unfold generateId; good_steps|intros id].
  apply good_bind; [apply good_in_env|intros t]. apply good_bind; [|intros; apply good_ret]. apply good_insert_row.
  intros w Ht []. rewrite existsb_or in Ht. apply orb_false_iff in Ht as [Hid Hname]. simpl. split.
  - split; try done; simpl; [by apply insert_key..| |]; apply Forall_app; split; try done; constructor; try done.
    + by destruct c.
    + simpl. lia.
  - split; simpl; try done. apply later_insert, _.
Qed.

Lemma good_createSession_row user hash t client : good (createSession_row user hash t client).
Proof.
  unfold createSession_row. apply good_bind; [unfold generateId; good_steps|intros id].
  apply good_bind; [apply good_in_env|intros t']. apply good_bind; [|intros; apply good_ret]. apply good_insert_row.
  intros w Ht []. rewrite existsb_or in Ht. apply orb_false_iff in Ht as [Hid Hname]. simpl. split.
  - split; try done; simpl; by apply insert_key.
  - split; simpl; try done. apply later_insert, _.
Qed.

Lemma good_createClient client scopes secret : good (createClient client scopes secret).
Proof.
  unfold createClient. apply good_bind; [unfold generateId; good_steps|intros id].
  apply good_bind; [apply good_in_env|intros t']. apply good_bind; [|intros; apply good_ret]. apply good_insert_row.
  intros w Ht []. rewrite existsb_or in Ht. apply orb_false_iff in Ht as [Hid Hname]. simpl. split.
  - split; try done; simpl; by apply insert_key.
  - split; simpl; try done. apply later_insert, _.
Qed.

#[export] Hint Resolve good_append good_createUser_row good_createSession_row good_createClient : auth.

Lemma good_generateToken n : good (generateToken n).
Proof. unfold generateToken. good_steps. Qed.
Lemma good_found_user row : good (found_user row).
Proof. unfold found_user, buildUserRow. good_steps. Qed.
Lemma good_findByUsername name : good (findByUsername name).
Proof. apply good_bind; [apply good_select|apply good_found_user]. Qed.
Lemma good_findById id : good (findById id).
Proof. apply good_bind; [apply good_select|apply good_found_user]. Qed.
Lemma good_listUsers_rows : good listUsers_rows.
Proof.
  unfold listUsers_rows. good_steps. match goal with |- good (build_all ?l) => induction l end; [apply good_ret|].
  simpl. unfold buildUserRow at 1. good_steps.
Qed.
Lemma good_deactivateUser_row name : good (deactivateUser_row name).
Proof.
  unfold deactivateUser_row. good_steps. apply good_execute. apply good_update_users; [by split|by right].
Qed.
Lemma good_touchLastLogin id : good (touchLastLogin id).
Proof. unfold touchLastLogin. good_steps. apply good_execute. apply good_update_users; [by split|by left]. Qed.
Lemma good_findByTokenHash hash : good (findByTokenHash hash).
Proof. unfold findByTokenHash. good_steps. apply good_execute. by apply good_update_sessions. Qed.
Lemma good_revokeByTokenHash hash : good (revokeByTokenHash hash).
Proof. unfold revokeByTokenHash. good_steps. apply good_execute. apply good_update_sessions. intros r. by split. Qed.
Lemma good_revokeAllForUser id : good (revokeAllForUser id).
Proof. unfold revokeAllForUser. good_steps. apply good_execute. apply good_update_sessions. intros r. by split. Qed.
Lemma good_touchLastUsed client : good (touchLastUsed client).
Proof. unfold touchLastUsed. good_steps. apply good_execute. by apply good_update_clients. Qed.

#[export] Hint Resolve good_generateToken good_findByUsername good_findById good_listUsers_rows good_deactivateUser_row
  good_touchLastLogin good_findByTokenHash good_revokeByTokenHash good_revokeAllForUser good_touchLastUsed : auth.

(** ** The text of a password hash *)
Lemma read_hex_byte_encode c : read_hex_byte [hex_digit (code c / 16); hex_digit (code c mod 16)] = c.
Proof. all_chars c; vm_compute; reflexivity. Qed.

Lemma fromHex_hexEncode s : fromHex (hexEncode s) = Some s.
Proof.
  assert (Hlen : length (hexEncode s) = 2 * length s).
  { induction s as [|c s IH]; [done|]. cbn [hexEncode flat_map app length] in *. unfold hexEncode in IH. lia. }
  unfold fromHex. rewrite Hlen, Nat.even_mul. cbn [Nat.even orb negb]. f_equal.
  induction s as [|c s IH]; [done|]. cbn [hexEncode flat_map app hex_pairs]. rewrite read_hex_byte_encode. f_equal.
  apply IH. clear. induction s as [|c s IH]; [done|]. cbn [hexEncode flat_map app length] in *. unfold hexEncode in IH. lia.
Qed.

Lemma hexEncode_no_colon s : ":"%char ∉ hexEncode s.
Proof.
  induction s as [|c s IH]; [by apply not_elem_of_nil|]. cbn [hexEncode flat_map app].
  rewrite !not_elem_of_cons. split_and!; [all_chars c; discriminate|all_chars c; discriminate|exact IH].
Qed.

Lemma hash_fields_text a i s h :
  ":"%char ∉ a → ":"%char ∉ i → ":"%char ∉ s →
  hash_fields (a ++ ":"%char :: i ++ ":"%char :: s ++ ":"%char :: h) = Some (a, i, s, h).
Proof.
  assert (Hcut : ∀ (l r : str), drop (S (length l)) (l ++ ":"%char :: r) = r).
  { intros l r. induction l; [done|]. simpl. done. }
  intros Ha Hi Hs. unfold hash_fields. rewrite (find_char_first _ _ _ Ha). simpl. rewrite Hcut, (find_char_first _ _ _ Hi). simpl.
  rewrite Hcut, (find_char_first _ _ _ Hs). simpl. by rewrite Hcut, !take_app_length.
Qed.

Lemma zip_eqb (a b : str) : length a = length b → forallb (fun ab => Ascii.eqb ab.1 ab.2) (zip a b) = bool_decide (a = b).
Proof.
  revert b. induction a as [|x a IH]; intros [|y b]; simpl; try done. intros [= Hl]. rewrite (IH b Hl).
  apply eq_true_iff_eq. rewrite andb_true_iff, Ascii.eqb_eq, !bool_decide_eq_true. naive_solver.
Qed.

(** ** The operations a process can perform *)
Section broker.
Context (pbkdf2 : str → str → Z → nat → option str) (sha256 : str → str).

Inductive AuthOp :=
  | op_verifyPassword (name password : str)
  | op_createSession (lifetime : Z) (name password : str) (client : option str)
  | op_introspectToken (token : str)
  | op_revokeToken (token : str)
  | op_revokeAllForUser (userId : str)
  | op_createUser (guard : ControlSet) (name password : str) (c : ControlSet)
  | op_listUsers (guard : ControlSet)
  | op_deactivateUser (guard : ControlSet) (name : str)
  | op_createFirstAdmin (name password : str)
  | op_createClient (client : str) (scopes : list str) (secret : option str)
  | op_touchLastUsed (client : str).

Definition done_with {A} (m : M A) : M unit := m;;; ret tt.

Definition run_op (op : AuthOp) : M unit :=
  match op with
  | op_verifyPassword name password => done_with (verifyPassword pbkdf2 name password)
  | op_createSession lifetime name password client => done_with (createSession pbkdf2 sha256 lifetime name password client)
  | op_introspectToken token => done_with (introspectToken sha256 token)
  | op_revokeToken token => revokeToken sha256 token
  | op_revokeAllForUser userId => revokeAllForUser userId
  | op_createUser guard name password c => done_with (createUser pbkdf2 guard name password c)
  | op_listUsers guard => done_with (listUsers guard)
  | op_deactivateUser guard name => deactivateUser guard name
  | op_createFirstAdmin name password => done_with (createFirstAdmin pbkdf2 name password)
  | op_createClient client scopes secret => done_with (createClient client scopes secret)
  | op_touchLastUsed client => touchLastUsed client
  end.

(** The world after a sequence of operations; one that throws leaves what it
    wrote before. *)
Definition run_ops (ops : list AuthOp) (w : AuthWorld) : AuthWorld := foldl (fun w op => (run_op op w).2) w ops.

Lemma good_hashPassword password : good (hashPassword pbkdf2 password).
Proof. unfold hashPassword. good_steps. Qed.
#[local] Hint Resolve good_hashPassword : auth.

Lemma good_verifyPassword name password : good (verifyPassword pbkdf2 name password).
Proof. unfold verifyPassword, verify_failed. good_steps. Qed.
#[local] Hint Resolve good_verifyPassword : auth.

Lemma good_introspectToken token : good (introspectToken sha256 token).
Proof. unfold introspectToken, introspect_failed. good_steps. Qed.

Lemma good_run_op op : good (run_op op).
Proof.
  destruct op; simpl; unfold done_with.
  - good_steps.
  - unfold createSession. good_steps.
  - apply good_bind; [apply good_introspectToken|intros; apply good_ret].
  - unfold revokeToken. good_steps.
  - good_steps.
  - unfold createUser, requireUserManagement, require. good_steps.
  - unfold listUsers, requireUserManagement, require. good_steps.
  - unfold deactivateUser, requireUserManagement, require. good_steps.
  - unfold createFirstAdmin. good_steps.
  - good_steps.
  - good_steps.
Qed.

Lemma run_ops_good ops w : auth_wf w → auth_wf (run_ops ops w) ∧ auth_later w (run_ops ops w).
Proof.
  revert w. induction ops as [|op ops IH]; intros w Hw; [done|]. destruct (good_run_op op w Hw) as [H1 H2].
  destruct (IH _ H1) as [H3 H4]. split; [done|]. by etrans.
Qed.

(** ** Accepted tokens *)
(** The identifier the next row would get. *)
Definition fresh_id (e : Env) : str := hexEncode (RAND_bytes 16 e).1.

Lemma RAND_bytes_ext n e e' : draws e = draws e' → drawn e = drawn e' → (RAND_bytes n e).1 = (RAND_bytes n e').1.
Proof.
  revert e e'. induction n as [|n IH]; intros e e' H1 H2; [done|]. simpl. unfold mbind, ST_bind, draw_below. rewrite H1, H2.
  specialize (IH (mkEnv (clock e) (ticks e) (draws e) (S (drawn e))) (mkEnv (clock e') (ticks e') (draws e') (S (drawn e')))
    H1 ltac:(simpl; congruence)).
  rewrite H1, H2 in IH. destruct (RAND_bytes n _), (RAND_bytes n _). simpl in *. by subst.
Qed.

Lemma RAND_bytes_clock n e : clock (RAND_bytes n e).2 = clock e ∧ ticks (RAND_bytes n e).2 = ticks e.
Proof.
  revert e. induction n as [|n IH]; intros e; [done|]. simpl. unfold mbind, ST_bind, draw_below.
  specialize (IH (mkEnv (clock e) (ticks e) (draws e) (S (drawn e)))). by destruct (RAND_bytes n _).
Qed.

Lemma existsb_key {A K} `{EqDecision K} (key : A → K) (k : K) l :
  existsb (fun r => bool_decide (key r = k)) l = bool_decide (k ∈ key <$> l).
Proof.
  apply eq_true_iff_eq. rewrite existsb_exists, bool_decide_eq_true, list_elem_of_fmap.
  split; intros (r & H1 & H2); exists r; rewrite ?bool_decide_eq_true, ?list_elem_of_In in *; naive_solver.
Qed.

(** *** Exceptions of the database *)

(** A statement throws, or it is its effect. *)
Lemma statement_cases {A} (m : M A) w :
  execute m w = m (next_statement w) ∨ ∃ what w1, execute m w = (inl (database_failure what), w1).
Proof. unfold execute. destruct (sql_faults _ _) as [[what b]|]; [right; by eexists _, _|by left]. Qed.

(** A statement run between [w] and [w'] has thrown [what]. *)
Definition statement_threw (w w' : AuthWorld) (what : str) : Prop :=
  ∃ n applied, sql_statements (a_outside w) ≤ n < sql_statements (a_outside w') ∧
    sql_faults (a_outside w) n = Some (what, applied).

Definition outside_later (w w' : AuthWorld) : Prop :=
  sql_faults (a_outside w') = sql_faults (a_outside w) ∧ sql_statements (a_outside w) ≤ sql_statements (a_outside w').

(** A computation that reports a failure of the database only when there was one. *)
Definition honest {A} (m : M A) : Prop := ∀ w,
  outside_later w (m w).2 ∧ ∀ what, (m w).1 = inl (database_failure what) → statement_threw w (m w).2 what.

(** One that does not reach the database. *)
Definition offline {A} (m : M A) : Prop := ∀ w,
  a_outside (m w).2 = a_outside w ∧ ∀ what, (m w).1 ≠ inl (database_failure what).

Lemma honest_offline {A} (m : M A) : offline m → honest m.
Proof. intros Hm w. destruct (Hm w) as [Ho Hf]. unfold outside_later. rewrite Ho. split; [done|]. intros what H. by destruct (Hf what). Qed.

Lemma honest_execute {A} (m : M A) : offline m → honest (execute m).
Proof.
  intros Hm w. destruct (Hm (next_statement w)) as [Ho Hf]. unfold execute, outside_later, statement_threw.
  destruct (sql_faults (a_outside w) (sql_statements (a_outside w))) as [[what b]|] eqn:E; cbn [fst snd].
  - assert (Hs : a_outside (if b then (m (next_statement w)).2 else next_statement w) = a_outside (next_statement w)) by by destruct b.
    rewrite Hs. cbn. split; [split; [done|lia]|]. intros what' [= <-]. exists (sql_statements (a_outside w)), b. split; [lia|done].
  - rewrite Ho. cbn. split; [split; [done|lia]|]. intros what H. by destruct (Hf what).
Qed.

Lemma honest_bind {A B} (m : M A) (k : A → M B) : honest m → (∀ a, honest (k a)) → honest (bind m k).
Proof.
  intros Hm Hk w. destruct (Hm w) as [[Hf1 Hs1] Ht1]. unfold bind. destruct (m w) as [[f|a] w1]; cbn [fst snd] in *.
  - split; [by split|]. intros what [= ->]. by apply Ht1.
  - destruct (Hk a w1) as [[Hf2 Hs2] Ht2]. split; [split; [congruence|lia]|]. intros what H.
    destruct (Ht2 what H) as (n & b & Hn & Hb). exists n, b. split; [lia|congruence].
Qed.

Lemma offline_in_env {A} (m : ST Env A) : offline (in_env m).
Proof. intros w. unfold in_env. by destruct (m (a_env w)). Qed.

Lemma offline_insert (taken : AuthWorld → bool) (write : M unit) :
  offline write → offline (t <-- read taken; if (t : bool) then throw constraint_violation else write).
Proof. intros Hw w. unfold bind, read. destruct (taken w); [by split|apply Hw]. Qed.

(** Splits a computation into its statements and the rest. *)
Ltac honest_steps :=
  repeat match goal with
  | |- ∀ _, honest _ => intros ?
  | H : ∀ action result name user client reason, honest (append action result name user client reason)
    |- honest (append _ _ _ _ _ _) => apply H
  | |- honest (bind _ _) => apply honest_bind
  | |- honest (if ?b then _ else _) => destruct b
  | |- honest (match ?x with _ => _ end) => destruct x
  | |- honest (in_env _) => apply honest_offline, offline_in_env
  | |- honest (insert_row _ _) => apply honest_execute, offline_insert
  | |- honest (select _) => apply honest_execute
  | |- honest (execute _) => apply honest_execute
  | |- honest (ret _) => apply honest_offline
  | |- honest (throw _) => apply honest_offline
  | |- offline _ => intros ?; split; [reflexivity|discriminate]
  end.

Lemma honest_append action result name user client reason : honest (append action result name user client reason).
Proof. unfold append, generateId, now. honest_steps. Qed.

Lemma honest_introspectToken token : honest (introspectToken sha256 token).
Proof.
  pose proof honest_append as Happ.
  unfold introspectToken, findByTokenHash, findById, found_user, buildUserRow, introspect_failed, now. honest_steps.
Qed.

(** *** The audit log *)

(** Appending an audit row fails when its identifier is taken or the database
    fails; otherwise the row is there. *)
Lemma append_cases action result name user client reason w :
  let '(res, w') := append action result name user client reason w in
  (∃ what, res = inl (database_failure what)) ∨
  if bool_decide (fresh_id (a_env w) ∈ a_id <$> auth_audit_log w) then res = inl constraint_violation
  else res = inr tt ∧ ∃ row, auth_audit_log w' = auth_audit_log w ++ [row] ∧ a_action row = action ∧ a_result row = result.
Proof.
  unfold append, insert_row, generateId, now, fresh_id. unfold bind at 1 2 3. unfold in_env.
  destruct (RAND_bytes 16 (a_env w)) as [bytes e]. cbn [ret system_now fst snd].
  match goal with |- context [execute ?m ?w0] => destruct (statement_cases m w0) as [->|(what & w1 & ->)] end;
    [|left; by eexists].
  unfold bind, read. cbn [auth_audit_log next_statement]. rewrite existsb_key.
  destruct (bool_decide _); right; [done|]. split; [done|]. eexists. split; [reflexivity|done].
Qed.

Lemma append_tables action result name user client reason w :
  app_users (append action result name user client reason w).2 = app_users w ∧
  auth_sessions (append action result name user client reason w).2 = auth_sessions w.
Proof.
  unfold append, insert_row, execute, generateId, now, in_env, bind, read, ret.
  destruct (RAND_bytes 16 (a_env w)) as [bytes e]. simpl. destruct (sql_faults _ _) as [[what []]|]; simpl; try done;
    by destruct (existsb _ _).
Qed.

(** A token is good at [t]: its session exists, is neither revoked nor expired,
    and belongs to an active user. *)
Definition token_good (token : str) (w : AuthWorld) (t : Z) (s : SessionRow) (u : UserRow) : Prop :=
  s ∈ auth_sessions w ∧ s_token_hash s = hashToken sha256 token ∧ s_revoked_at s = None ∧
  (t < fromEpoch (s_expires_at s))%Z ∧ u ∈ app_users w ∧ u_id u = s_user_id s ∧ u_is_active u = 1%Z.

Lemma token_good_unique token w t s u s' u' :
  auth_wf w → token_good token w t s u → token_good token w t s' u' → s = s' ∧ u = u'.
Proof.
  intros Hw (H1 & H2 & _ & _ & H3 & H4 & _) (H1' & H2' & _ & _ & H3' & H4' & _).
  assert (s = s') as <- by (eapply key_unique; [apply (wf_s_token w Hw)|done|done|congruence]).
  split; [done|]. eapply key_unique; [apply (wf_u_id w Hw)|done|done|congruence].
Qed.

Lemma session_isActive_spec r t :
  session_isActive (session_of_row r) t = true ↔ s_revoked_at r = None ∧ (t < fromEpoch (s_expires_at r))%Z.
Proof.
  unfold session_isActive. simpl. destruct (s_revoked_at r); simpl; [naive_solver|].
  destruct (Z.leb_spec (fromEpoch (s_expires_at r)) t); naive_solver lia.
Qed.

(** The credentials a user row holds. *)
Definition credentials_of (u : UserRow) (c : UserCredentials) : Prop :=
  user_id c = u_id u ∧ username c = u_username u ∧ passwordHash c = u_password_hash u ∧
  controlSetFromString (u_control_set u) = Some (controlSet c) ∧ isActive c = negb (u_is_active u =? 0)%Z.

Lemma found_user_spec w w' p : auth_wf w → app_users w' = app_users w →
  let find := x <-- select (fun w => List.find p (app_users w)); found_user x in
  (∃ what w1, find w' = (inl (database_failure what), w1)) ∨
  (find w' = (inr None, next_statement w') ∧ ∀ u, u ∈ app_users w → p u = false) ∨
  ∃ u c, u ∈ app_users w ∧ p u = true ∧ credentials_of u c ∧ find w' = (inr (Some c), next_statement w').
Proof.
  intros Hw Heq find. subst find. unfold bind at 1 2 3, select.
  destruct (statement_cases (read (fun w => List.find p (app_users w))) w') as [->|(what & w1 & ->)]; [right|left; by eexists _, _].
  unfold read. cbn [app_users next_statement]. rewrite Heq. destruct (List.find p _) as [u|] eqn:E.
  - right. apply find_bool in E as [H1 H2].
    pose proof (proj1 (Forall_forall _ _) (wf_u_control w Hw) u H1) as [c Hc]. unfold found_user, buildUserRow, bind.
    rewrite Hc. eexists u, _. split; [done|]. split; [done|]. split; [|reflexivity]. by split_and!.
  - left. split; [done|]. intros u Hu. eapply find_none in E; [done|]. by apply list_elem_of_In.
Qed.

Definition tick (w : AuthWorld) : AuthWorld := (now w).2.

Lemma fresh_id_tick w : fresh_id (a_env (tick w)) = fresh_id (a_env w).
Proof. unfold fresh_id. f_equal. Qed.

(** The lookup of a session throws, finds nothing, or finds the row; the clock is
    read once when there is one. *)
Lemma findByTokenHash_spec hash w :
  (∃ what w1, findByTokenHash hash w = (inl (database_failure what), w1)) ∨
  (findByTokenHash hash w = (inr None, next_statement w) ∧ ∀ r, r ∈ auth_sessions w → s_token_hash r ≠ hash) ∨
  ∃ r s w1, r ∈ auth_sessions w ∧ s_token_hash r = hash ∧ findByTokenHash hash w = (inr (Some s), w1) ∧
    (∀ t, session_isActive s t = session_isActive (session_of_row r) t) ∧ session_userId s = s_user_id r ∧
    a_env w1 = a_env (tick w) ∧ app_users w1 = app_users w ∧ auth_audit_log w1 = auth_audit_log w.
Proof.
  destruct (findByTokenHash hash w) as [res w'] eqn:E. unfold findByTokenHash in E. unfold bind at 1, select in E.
  match type of E with context [execute ?m w] => destruct (statement_cases m w) as [Hx|(what & w1 & Hx)] end; rewrite Hx in E; clear Hx.
  2:{ left. injection E as <- <-. by eexists _, _. }
  unfold read in E. cbn [auth_sessions next_statement] in E.
  destruct (List.find _ (auth_sessions w)) as [r|] eqn:Hr.
  2:{ right. left. injection E as <- <-. split; [done|]. intros r Hin Hh. eapply find_none in Hr; [|by apply list_elem_of_In].
      by rewrite bool_decide_eq_false in Hr. }
  apply find_bool in Hr as [Hin Hh%bool_decide_eq_true]. unfold now in E. unfold bind at 1, in_env, system_now in E. cbn [fst snd] in E.
  destruct (session_isActive (session_of_row r) _).
  - unfold bind in E.
    match type of E with context [execute ?m ?w0] => destruct (statement_cases m w0) as [Hx|(what & w1 & Hx)] end; rewrite Hx in E; clear Hx.
    2:{ left. injection E as <- <-. by eexists _, _. }
    right; right. injection E as <- <-. eexists r, _, _. split; [done|]. split; [done|]. split; [reflexivity|]. by split_and!.
  - right; right. injection E as <- <-. eexists r, _, _. split; [done|]. split; [done|]. split; [reflexivity|]. by split_and!.
Qed.

#[local] Opaque fresh_id RAND_bytes.

(** The second reading of the clock during an introspection. *)
Definition introspection_time (w : AuthWorld) : Z := clock (a_env w) (S (ticks (a_env w))).

Lemma now_after_lookup w w1 : a_env w1 = a_env (tick w) → now w1 = (inr (introspection_time w), tick w1).
Proof. intros H. unfold tick, now, in_env, system_now, introspection_time. simpl. by rewrite H. Qed.

(** An answer: the token's state at that time, and one row of the audit log. *)
Definition introspection_answer (token : str) (w : AuthWorld) (r : IntrospectResult) (w' : AuthWorld) : Prop :=
  (ir_active r = true ↔ ∃ s u, token_good token w (introspection_time w) s u) ∧
  (∀ s u, token_good token w (introspection_time w) s u → ∃ c, ir_user r = Some c ∧ credentials_of u c) ∧
  (ir_active r = false → ir_user r = None ∧ ir_session r = None) ∧
  ∃ row, auth_audit_log w' = auth_audit_log w ++ [row] ∧ a_action row = "token.introspect" ∧
    a_result row = (if ir_active r then "success" else "failure" : str).

(** The identifier drawn for the audit row is already in the log. *)
Definition audit_id_taken (w : AuthWorld) : Prop := fresh_id (a_env w) ∈ a_id <$> auth_audit_log w.

Definition introspection_outcome (token : str) (w : AuthWorld) (out : (AuthFault + IntrospectResult) * AuthWorld) : Prop :=
  match out with
  | (inl f, _) => (f = constraint_violation ∧ audit_id_taken w) ∨ ∃ what, f = database_failure what
  | (inr r, w') => introspection_answer token w r w'
  end.

Lemma introspect_failed_outcome token w w1 :
  fresh_id (a_env w1) = fresh_id (a_env w) → auth_audit_log w1 = auth_audit_log w →
  (∀ s u, ¬ token_good token w (introspection_time w) s u) →
  introspection_outcome token w (introspect_failed w1).
Proof.
  intros Hid Hlog Hnone. unfold introspect_failed. unfold bind.
  pose proof (append_cases "token.introspect" "failure" None None None None w1) as H.
  destruct (append _ _ _ _ _ _ w1) as [res w2]. rewrite Hid, Hlog in H.
  destruct H as [[what ->]|H]; [right; by eexists|]. destruct (bool_decide _) eqn:E.
  - subst res. left. split; [done|]. by apply bool_decide_eq_true in E.
  - destruct H as [-> Hrow]. cbn. refine (conj _ (conj _ (conj _ Hrow))).
    + split; [done|]. intros (s & u & Hg). by destruct (Hnone s u).
    + intros s u Hg. by destruct (Hnone s u).
    + intros _. split; reflexivity.
Qed.

Lemma introspect_success_outcome token w w1 s r u c :
  auth_wf w → fresh_id (a_env w1) = fresh_id (a_env w) → auth_audit_log w1 = auth_audit_log w →
  token_good token w (introspection_time w) r u → credentials_of u c →
  introspection_outcome token w
    ((append "token.introspect" "success" (Some (username c)) (Some (user_id c)) None None;;;
      ret (mkIntrospectResult true (Some c) (Some s))) w1).
Proof.
  intros Hw Hid Hlog Hg Hc. unfold bind.
  pose proof (append_cases "token.introspect" "success" (Some (username c)) (Some (user_id c)) None None w1) as H.
  destruct (append _ _ _ _ _ _ w1) as [res w2]. rewrite Hid, Hlog in H.
  destruct H as [[what ->]|H]; [right; by eexists|]. destruct (bool_decide _) eqn:E.
  - subst res. left. split; [done|]. by apply bool_decide_eq_true in E.
  - destruct H as [-> Hrow]. cbn. refine (conj _ (conj _ (conj _ Hrow))).
    + split; [|reflexivity]. intros _. exists r, u. exact Hg.
    + intros s' u' Hg'. destruct (token_good_unique _ _ _ _ _ _ _ Hw Hg Hg') as [_ <-]. exists c. split; [reflexivity|exact Hc].
    + intros Hf. discriminate Hf.
Qed.

Lemma introspectToken_outcome token w : auth_wf w → introspection_outcome token w (introspectToken sha256 token w).
Proof.
  intros Hw. unfold introspectToken. unfold bind at 1.
  destruct (findByTokenHash_spec (hashToken sha256 token) w)
    as [(what & w1 & ->)|[[-> Hnone]|(r & s & w1 & Hin & Hh & -> & Hact & Huser & Henv & Husers & Haudit)]].
  { right. by eexists. }
  { apply introspect_failed_outcome; [done..|]. intros s u (Hs & Hh & _). by destruct (Hnone s Hs). }
  unfold bind at 1. rewrite (now_after_lookup w w1 Henv), Hact.
  assert (Hfresh : fresh_id (a_env (tick w1)) = fresh_id (a_env w)).
  { rewrite fresh_id_tick, Henv. apply fresh_id_tick. }
  destruct (session_isActive (session_of_row r) (introspection_time w)) eqn:Hok; cbn [negb].
  2:{ apply introspect_failed_outcome; [done..|]. intros s' u' (Hs & Hh' & Hrev & Hexp & _).
      assert (r = s') as -> by (eapply key_unique; [apply (wf_s_token w Hw)|done|done|congruence]).
      rewrite (proj2 (session_isActive_spec s' _) (conj Hrev Hexp)) in Hok. discriminate Hok. }
  apply session_isActive_spec in Hok as [Hrev Hexp]. unfold bind at 1, findById. rewrite Huser.
  destruct (found_user_spec w (tick w1) (fun u => bool_decide (u_id u = s_user_id r) && (u_is_active u =? 1)%Z) Hw Husers)
    as [(what & w2 & ->)|[[-> Hnone]|(u & c & Hu & [Hid%bool_decide_eq_true Hon%Z.eqb_eq]%andb_true_iff & Hc & ->)]].
  - right. by eexists.
  - apply introspect_failed_outcome; [done..|]. intros s' u' (Hs & Hh' & _ & _ & Hu & Hid & Hon).
    assert (r = s') as <- by (eapply key_unique; [apply (wf_s_token w Hw)|done|done|congruence]).
    specialize (Hnone u' Hu). rewrite Hid, Hon, bool_decide_eq_true_2 in Hnone by reflexivity. discriminate Hnone.
  - eapply introspect_success_outcome; [done..| |exact Hc]. by split_and!.
Qed.

Lemma introspectToken_active token w r w' :
  auth_wf w → introspectToken sha256 token w = (inr r, w') → ir_active r = true →
  ∃ s u c, token_good token w (introspection_time w) s u ∧ ir_user r = Some c ∧ credentials_of u c.
Proof.
  intros Hw Hr Ha. pose proof (introspectToken_outcome token w Hw) as H. rewrite Hr in H.
  destruct H as (Hiff & Hc & _). destruct (proj1 Hiff Ha) as (s & u & Hg). destruct (Hc s u Hg) as (c & H1 & H2). by exists s, u, c.
Qed.

(** C13: [introspectToken] reports a token active exactly when its hash belongs to
    a session that is neither revoked nor past its expiry at the second clock
    reading and whose user is active; the user it returns is that user, with the
    stored control set, and one row of the audit log tells the outcome. It throws
    only when one of the SQL statements it has run threw that exception, or when
    the identifier drawn for the audit row is already taken. *)
Theorem introspectToken_spec token w :
  auth_wf w →
  let '(res, w') := introspectToken sha256 token w in
  match res with
  | inl f => (f = constraint_violation ∧ audit_id_taken w) ∨ ∃ what, f = database_failure what ∧ statement_threw w w' what
  | inr r => introspection_answer token w r w'
  end.
Proof.
  intros Hw. pose proof (introspectToken_outcome token w Hw) as Ho. destruct (honest_introspectToken token w) as [_ Hh].
  destruct (introspectToken sha256 token w) as [[f|r] w']; [|done]. destruct Ho as [?|[what ->]]; [by left|right].
  exists what. split; [done|]. by apply Hh.
Qed.

(** ** Revocation *)
Lemma revoked_session_dead token w w' s t s' u' :
  auth_wf w' → auth_later w w' → s ∈ auth_sessions w → s_token_hash s = hashToken sha256 token →
  is_Some (s_revoked_at s) → ¬ token_good token w' t s' u'.
Proof.
  intros Hw' Hl Hs Hh Hrev (Hs' & Hh' & Hlive & _).
  destruct (later_elem _ _ _ _ (later_sessions _ _ Hl) Hs) as (s1 & Hs1 & Hid & Hr).
  injection Hid as _ _ _ Hh1 _ _.
  assert (s1 = s') as -> by (eapply key_unique; [apply (wf_s_token w' Hw')|done|done|congruence]).
  destruct (Hr Hrev). congruence.
Qed.

(** An [UPDATE] that did not throw has had its effect. *)
Lemma update_done {A} (m : M A) (b : A) w w' : execute m w = (inr b, w') → m (next_statement w) = (inr b, w').
Proof. destruct (statement_cases m w) as [->|(what & w1 & ->)]; [done|discriminate]. Qed.

Lemma revokeToken_tables token w :
  (revokeByTokenHash (hashToken sha256 token) w).1 = inr tt →
  auth_sessions (revokeToken sha256 token w).2 =
    update_where (fun r => bool_decide (s_token_hash r = hashToken sha256 token))
      (fun r => row_revoked r (toEpoch (clock (a_env w) (ticks (a_env w))))) (auth_sessions w).
Proof.
  unfold revokeToken. set (h := hashToken sha256 token). intros Hok.
  destruct (revokeByTokenHash h w) as [res w1] eqn:E. cbn in Hok. subst res.
  rewrite (bind_run (revokeByTokenHash h) _ w tt w1) by done. rewrite (proj2 (append_tables _ _ _ _ _ _ _)).
  unfold revokeByTokenHash, now, bind, in_env, system_now in E. cbn [fst snd] in E.
  apply update_done in E. unfold write_sessions in E. injection E as <-. reflexivity.
Qed.

(** C14: once [revokeToken] has run on a token that has a session, no sequence of
    operations (logins, new users, revocations, failures of the audit and of any
    other statement included) makes [introspectToken] accept that token again. Of
    [revokeToken] itself only its [UPDATE] must not have thrown; its audit row may
    have. *)
Theorem revoked_token_stays_rejected token w s ops r w' :
  auth_wf w → s ∈ auth_sessions w → s_token_hash s = hashToken sha256 token →
  (revokeByTokenHash (hashToken sha256 token) w).1 = inr tt →
  introspectToken sha256 token (run_ops ops (run_op (op_revokeToken token) w).2) = (inr r, w') →
  ir_active r = false.
Proof.
  intros Hw Hs Hh Hdone Hr. destruct (good_run_op (op_revokeToken token) w Hw) as [Hw1 _].
  destruct (run_ops_good ops _ Hw1) as [Hw2 Hl]. destruct (ir_active r) eqn:Ha; [|done]. exfalso.
  destruct (introspectToken_active _ _ _ _ Hw2 Hr Ha) as (s' & u & c & Hg & _).
  eapply (revoked_session_dead token _ _ (row_revoked s (toEpoch (clock (a_env w) (ticks (a_env w))))) _ s' u Hw2 Hl);
    [|exact Hh|by eexists|exact Hg].
  cbn [run_op]. rewrite revokeToken_tables by done. apply elem_of_update_where. exists s. split; [exact Hs|].
  by rewrite bool_decide_eq_true_2.
Qed.

(** ** Deactivation *)
Lemma deactivateUser_tables name w :
  (deactivateUser_row name w).1 = inr tt →
  app_users (deactivateUser Admin name w).2 =
    update_where (fun r => bool_decide (u_username r = name))
      (fun r => deactivate r (toEpoch (clock (a_env w) (ticks (a_env w))))) (app_users w).
Proof.
  intros Hok. unfold deactivateUser. rewrite (bind_run (requireUserManagement Admin) _ w tt w) by done.
  destruct (deactivateUser_row name w) as [res w1] eqn:E. cbn in Hok. subst res.
  rewrite (bind_run (deactivateUser_row name) _ w tt w1) by done. rewrite (proj1 (append_tables _ _ _ _ _ _ _)).
  unfold deactivateUser_row, now, bind, in_env, system_now in E. cbn [fst snd] in E.
  apply update_done in E. unfold write_users in E. injection E as <-. reflexivity.
Qed.

Lemma inactive_user_stays w w' u u' :
  auth_wf w' → auth_later w w' → u ∈ app_users w → u_is_active u ≠ 1%Z →
  u' ∈ app_users w' → u_username u' = u_username u → u_is_active u' ≠ 1%Z.
Proof.
  intros Hw' Hl Hu Hoff Hu' Hn. destruct (later_elem _ _ _ _ (later_users _ _ Hl) Hu) as (u1 & Hu1 & Hid & Hr).
  injection Hid as _ Hn1 _ _.
  assert (u1 = u') as <- by (eapply key_unique; [apply (wf_u_username w' Hw')|done|done|congruence]). auto.
Qed.

Lemma verifyPassword_ok name password w r w' :
  auth_wf w → verifyPassword pbkdf2 name password w = (inr r, w') → vr_ok r = true →
  ∃ u c, u ∈ app_users w ∧ u_username u = name ∧ u_is_active u = 1%Z ∧ credentials_of u c ∧ vr_user r = Some c ∧
    verifyPassword_hash pbkdf2 password (u_password_hash u) = Some true.
Proof.
  intros Hw H Hok. unfold verifyPassword in H. unfold bind at 1, findByUsername in H.
  assert (Hfail : ∀ w0, verify_failed name w0 = (inr r, w') → vr_ok r = false).
  { intros w0. unfold verify_failed, bind. destruct (append _ _ _ _ _ _ w0) as [[f|a] w1]; [done|]. by intros [= <- _]. }
  destruct (found_user_spec w w (fun u => bool_decide (u_username u = name) && (u_is_active u =? 1)%Z) Hw eq_refl)
    as [(what & w1 & Hx)|[[Hx _]|(u & c & Hu & [Hid%bool_decide_eq_true Hon%Z.eqb_eq]%andb_true_iff & Hc & Hx)]];
    cbv zeta in Hx; rewrite Hx in H; clear Hx; [discriminate H|apply Hfail in H; congruence|].
  destruct (negb (isActive c)); [apply Hfail in H; congruence|].
  destruct (verifyPassword_hash pbkdf2 password (passwordHash c)) as [[]|] eqn:Hv; [|apply Hfail in H; congruence|done].
  unfold bind in H. destruct (touchLastLogin (user_id c) _) as [[f|a] w1]; [done|].
  destruct (append _ _ _ _ _ _ w1) as [[f|a'] w2]; [done|]. injection H as <- _. exists u, c. split_and!; try done.
  by destruct Hc as (_ & _ & <- & _).
Qed.

(** C15: after an administrator deactivates a user, and for every sequence of
    operations after it, that user name cannot log in with any password and no
    token is accepted for it, those issued before included; the row cannot be
    replaced because user names are unique. Any statement may throw on the way, the
    one that deactivates the row apart. *)
Theorem deactivated_user_locked_out name w u ops :
  auth_wf w → u ∈ app_users w → u_username u = name → (deactivateUser_row name w).1 = inr tt →
  let w1 := run_ops ops (run_op (op_deactivateUser Admin name) w).2 in
  (∀ password r w', verifyPassword pbkdf2 name password w1 = (inr r, w') → vr_ok r = false) ∧
  (∀ token r w', introspectToken sha256 token w1 = (inr r, w') → ir_active r = true →
     ∃ c, ir_user r = Some c ∧ username c ≠ name).
Proof.
  intros Hw Hu Hn Hdone w1. destruct (good_run_op (op_deactivateUser Admin name) w Hw) as [Hw0 _].
  destruct (run_ops_good ops _ Hw0) as [Hw1 Hl]. fold w1 in Hw1, Hl.
  set (dead := deactivate u (toEpoch (clock (a_env w) (ticks (a_env w))))).
  assert (Hoff : ∀ u', u' ∈ app_users w1 → u_username u' = name → u_is_active u' ≠ 1%Z).
  { intros u' Hu' Hn'. refine (inactive_user_stays _ _ dead u' Hw1 Hl _ _ Hu' _); [|done|by rewrite Hn', <- Hn].
    cbn [run_op]. rewrite deactivateUser_tables by done. apply elem_of_update_where. exists u. split; [exact Hu|].
    by rewrite bool_decide_eq_true_2. }
  split.
  - intros password r w' Hv. destruct (vr_ok r) eqn:Ha; [|done].
    destruct (verifyPassword_ok _ _ _ _ _ Hw1 Hv Ha) as (u' & c & Hu' & Hn' & Hon & _). by destruct (Hoff u').
  - intros token r w' Hr Ha.
    destruct (introspectToken_active _ _ _ _ Hw1 Hr Ha) as (s & u' & c & (_ & _ & _ & _ & Hu' & _ & Hon) & Hc & (_ & Hname & _)).
    exists c. split; [done|]. rewrite Hname. intros Hbad. by destruct (Hoff u').
Qed.

(** ** Who can change the accounts *)
(** Identity, password hash, control set and activity of every account. *)
Definition accounts (w : AuthWorld) : list (str * str * str * str * Z) :=
  (fun r => (user_identity r, u_is_active r)) <$> app_users w.

(** No operation is called with an administrator's guard. *)
Definition unprivileged (op : AuthOp) : Prop :=
  match op with
  | op_createUser guard _ _ _ | op_listUsers guard | op_deactivateUser guard _ => guard = User
  | _ => True
  end.

Definition has_active_admin (w : AuthWorld) : Prop :=
  ∃ u, u ∈ app_users w ∧ u_control_set u = "admin" ∧ u_is_active u = 1%Z.

(** [m] writes no account. *)
Definition keeps_accounts {A} (m : M A) : Prop := ∀ w, accounts (m w).2 = accounts w.

Lemma keeps_bind {A B} (m : M A) (k : A → M B) :
  keeps_accounts m → (∀ a, keeps_accounts (k a)) → keeps_accounts (bind m k).
Proof.
  intros Hm Hk w. unfold bind. specialize (Hm w). destruct (m w) as [[f|a] w1]; [done|]. by rewrite Hk.
Qed.

Lemma keeps_pure {A} (m : M A) : (∀ w, app_users (m w).2 = app_users w) → keeps_accounts m.
Proof. intros H w. unfold accounts. by rewrite H. Qed.

Lemma keeps_in_env {A} (m : ST Env A) : keeps_accounts (in_env m).
Proof. apply keeps_pure. intros w. unfold in_env. by destruct (m (a_env w)). Qed.

Lemma keeps_execute {A} (m : M A) : keeps_accounts m → keeps_accounts (execute m).
Proof.
  intros Hm w. specialize (Hm (next_statement w)). unfold execute. by destruct (sql_faults _ _) as [[what []]|].
Qed.

Lemma keeps_random_bytes n : keeps_accounts (random_bytes n).
Proof. apply keeps_pure. intros w. unfold random_bytes, in_env. destruct (rand_fails _ _); [done|]. by destruct (RAND_bytes n _). Qed.

Lemma keeps_touch userId : keeps_accounts (touchLastLogin userId).
Proof.
  apply keeps_bind; [apply keeps_in_env|]. intros t. apply keeps_execute. intros w. unfold accounts, write_users. simpl.
  by apply update_where_key.
Qed.

Lemma keeps_append action result name user client reason : keeps_accounts (append action result name user client reason).
Proof. apply keeps_pure. intros w. apply append_tables. Qed.

(** Closes a computation none of whose steps writes the user table. *)
Ltac keeps_steps :=
  repeat match goal with
  | |- ∀ _, keeps_accounts _ => intros ?
  | |- keeps_accounts (bind _ _) => apply keeps_bind
  | |- keeps_accounts (if ?b then _ else _) => destruct b
  | |- keeps_accounts (match ?x with _ => _ end) => destruct x
  | |- keeps_accounts (append _ _ _ _ _ _) => apply keeps_append
  | |- keeps_accounts (in_env _) => apply keeps_in_env
  | |- keeps_accounts (touchLastLogin _) => apply keeps_touch
  | |- keeps_accounts (random_bytes _) => apply keeps_random_bytes
  | |- keeps_accounts (insert_row _ _) => unfold insert_row
  | |- keeps_accounts (select _) => apply keeps_execute
  | |- keeps_accounts (execute _) => apply keeps_execute
  | |- keeps_accounts _ => apply keeps_pure; intros ?; reflexivity
  end.

Lemma keeps_verifyPassword name password : keeps_accounts (verifyPassword pbkdf2 name password).
Proof.
  unfold verifyPassword, findByUsername, found_user, buildUserRow, verify_failed. keeps_steps.
Qed.

Lemma keeps_createSession lifetime name password client :
  keeps_accounts (createSession pbkdf2 sha256 lifetime name password client).
Proof.
  unfold createSession, generateToken, createSession_row, now, generateId.
  apply keeps_bind; [apply keeps_verifyPassword|keeps_steps].
Qed.

Lemma activeAdminExists_true w : has_active_admin w →
  activeAdminExists w = (inr true, next_statement w) ∨ ∃ what w1, activeAdminExists w = (inl (database_failure what), w1) ∧ accounts w1 = accounts w.
Proof.
  intros (u & Hu & Hc & Ha). unfold activeAdminExists, select.
  match goal with |- context [execute ?m w] => set (q := m); pose proof (keeps_execute q ltac:(by intros ?) w) as Hk;
    destruct (statement_cases q w) as [Hx|(what & w1 & Hx)]; rewrite Hx in *; subst q end.
  - left. unfold read. do 2 f_equal. apply existsb_exists. exists u. rewrite Hc, Ha. split; [by apply list_elem_of_In|done].
  - right. by exists what, w1.
Qed.

Lemma unprivileged_step op w : has_active_admin w → unprivileged op → accounts (run_op op w).2 = accounts w.
Proof.
  intros Hadmin Hop. destruct op as [| | | | |g n p c|g|g n|n p| |]; cbn [run_op unprivileged] in *; subst; unfold done_with.
  - apply keeps_bind; [apply keeps_verifyPassword|keeps_steps].
  - apply keeps_bind; [apply keeps_createSession|keeps_steps].
  - clear Hadmin. revert w. apply keeps_bind; [|keeps_steps].
    unfold introspectToken, introspect_failed, findByTokenHash, now, findById, found_user, buildUserRow. keeps_steps.
  - clear Hadmin. revert w. unfold revokeToken, revokeByTokenHash, now. apply keeps_bind; keeps_steps.
  - clear Hadmin. revert w. unfold revokeAllForUser, now. apply keeps_bind; keeps_steps.
  - reflexivity.
  - reflexivity.
  - reflexivity.
  - unfold createFirstAdmin, bind. destruct (activeAdminExists_true w Hadmin) as [->|(what & w1 & -> & Hk)]; [|exact Hk].
    pose proof (keeps_append "first_admin.create" "denied" (Some n) None None None (next_statement w)) as H.
    destruct (append _ _ _ _ _ _ (next_statement w)) as [[f|a] w1]; exact H.
  - clear Hadmin. revert w. apply keeps_bind; [|keeps_steps]. unfold createClient, generateId, now. keeps_steps.
  - clear Hadmin. revert w. unfold touchLastUsed, now. apply keeps_bind; keeps_steps.
Qed.

Lemma account_kept w w' u : accounts w' = accounts w → u ∈ app_users w →
  ∃ u', u' ∈ app_users w' ∧ user_identity u' = user_identity u ∧ u_is_active u' = u_is_active u.
Proof.
  intros Heq Hu. assert (Hin : (user_identity u, u_is_active u) ∈ accounts w') by (rewrite Heq; apply list_elem_of_fmap; eauto).
  apply list_elem_of_fmap in Hin as (u' & He & Hu'). exists u'. split; [done|]. split; symmetry; [exact (f_equal fst He)|exact (f_equal snd He)].
Qed.

Lemma has_active_admin_accounts w w' : accounts w' = accounts w → has_active_admin w → has_active_admin w'.
Proof.
  intros Heq (u & Hu & Hc & Ha). destruct (account_kept w w' u Heq Hu) as (u' & Hu' & Hid & Hact).
  injection Hid as _ _ _ Hc'. exists u'. by rewrite Hc', Hact.
Qed.

(** C16: while an active administrator exists, a caller without an
    administrator's guard cannot change the accounts: no sequence of operations,
    logins and attempts to bootstrap a first administrator included, adds an
    account or changes a name, password hash, control set or activity; and the
    guarded operations are refused before they read or write anything. *)
Theorem no_privilege_escalation ops w :
  has_active_admin w → Forall unprivileged ops →
  accounts (run_ops ops w) = accounts w ∧
  (∀ name password c, (createUser pbkdf2 User name password c w) =
     (inl (access_denied "User management access denied for control set: user"), w)) ∧
  listUsers User w = (inl (access_denied "User management access denied for control set: user"), w) ∧
  (∀ name, deactivateUser User name w = (inl (access_denied "User management access denied for control set: user"), w)).
Proof.
  intros Hadmin Hops. split; [|split_and!; reflexivity]. revert w Hadmin.
  induction Hops as [|op ops Hop _ IH]; intros w Hadmin; [done|]. pose proof (unprivileged_step op w Hadmin Hop) as Hstep.
  change (accounts (run_ops ops (run_op op w).2) = accounts w). rewrite IH, Hstep; [done|].
  by eapply has_active_admin_accounts.
Qed.

(** ** Stored passwords *)
Lemma verify_stored (password stored_salt stored_hash : str) :
  verifyPassword_hash pbkdf2 password
    (kAlgoTag ++ ":"%char :: dec kIterations ++ ":"%char :: hexEncode stored_salt ++ ":"%char :: hexEncode stored_hash) =
  match pbkdf2 password stored_salt kIterations (length stored_hash) with
  | None => Some false
  | Some computed =>
      if negb (length computed =? length stored_hash) then Some false
      else Some (forallb (fun ab => Ascii.eqb ab.1 ab.2) (zip computed stored_hash))
  end.
Proof.
  assert (Htag : ":"%char ∉ kAlgoTag) by (apply find_char_None; reflexivity).
  assert (Hit : ":"%char ∉ dec kIterations) by (apply find_char_None; vm_compute; reflexivity).
  unfold verifyPassword_hash. rewrite hash_fields_text; [|exact Htag|exact Hit|apply hexEncode_no_colon].
  assert (stoll (dec kIterations) = Some (kIterations, 6)) as -> by (vm_compute; reflexivity).
  cbn [mbind option_bind]. rewrite !fromHex_hexEncode. reflexivity.
Qed.

(** C32: a stored password hash verifies exactly the passwords whose PBKDF2 output
    under the stored salt and iteration count is the one of the password it was
    made from (that password included): the text format with its decimal count
    and hexadecimal fields loses nothing, and no input makes the check throw. *)
Theorem password_hash_roundtrip (password other : str) w stored w' :
  (∀ p s n k out, pbkdf2 p s n k = Some out → length out = k) →
  hashPassword pbkdf2 password w = (inr stored, w') →
  let salt := (RAND_bytes kSaltBytes (a_env w)).1 in
  verifyPassword_hash pbkdf2 other stored =
    Some (bool_decide (pbkdf2 other salt kIterations kHashBytes = pbkdf2 password salt kIterations kHashBytes)).
Proof.
  intros Hlen. unfold hashPassword, random_bytes, in_env. unfold bind. destruct (rand_fails _ _); [done|]. cbn [a_env].
  destruct (RAND_bytes kSaltBytes (a_env w)) as [salt e]. cbv beta iota zeta. cbn [fst].
  destruct (pbkdf2 password salt kIterations kHashBytes) as [hash|] eqn:Hp; [|done]. unfold ret.
  set (text := kAlgoTag ++ _). intros Heq. assert (stored = text) as -> by congruence. subst text.
  rewrite verify_stored, (Hlen _ _ _ _ _ Hp). destruct (pbkdf2 other salt kIterations kHashBytes) as [out|] eqn:Ho; [|done].
  rewrite (Hlen _ _ _ _ _ Ho), Nat.eqb_refl. cbn [negb]. rewrite zip_eqb by (by rewrite (Hlen _ _ _ _ _ Ho), (Hlen _ _ _ _ _ Hp)).
  f_equal. apply bool_decide_ext. clear. split; congruence.
Qed.

(** ** Logging in *)
Lemma env_step_sessions {A} (m : ST Env A) w r w' : in_env m w = (r, w') → auth_sessions w' = auth_sessions w.
Proof. unfold in_env. destruct (m (a_env w)) as [a e]. by intros [= _ <-]. Qed.

Lemma generateId_sessions w r w' : generateId w = (r, w') → auth_sessions w' = auth_sessions w.
Proof.
  unfold generateId, bind. destruct (in_env (RAND_bytes 16) w) as [[f|a] w1] eqn:E; apply env_step_sessions in E;
    unfold ret; intros H; injection H as _ <-; exact E.
Qed.

Lemma createSession_row_inv user hash expires client w x w' :
  createSession_row user hash expires client w = (inr x, w') →
  session_expiresAt x = expires ∧ ∃ id t,
    auth_sessions w' = auth_sessions w ++ [mkSessionRow id user client hash t (toEpoch expires) None None].
Proof.
  unfold createSession_row. intros (id & w1 & H1%generateId_sessions & H)%bind_inv.
  apply bind_inv in H as (t & w2 & H2 & H). unfold now in H2. apply env_step_sessions in H2.
  apply bind_inv in H as (u & w3 & H3 & H4). unfold ret in H4. injection H4 as <- <-. cbn [session_expiresAt].
  split; [reflexivity|]. destruct u. apply update_done in H3. unfold bind, read in H3. destruct (existsb _ _); [discriminate H3|].
  unfold write_sessions in H3. injection H3 as <-. cbn [auth_sessions next_statement]. rewrite H2, H1. by exists id, (toEpoch t).
Qed.

(** A login returns a token only after the stored hash of the active user of
    that name verified the password; from then on the token is accepted, for
    that user, exactly until the expiry rounded down to a whole second. *)
Theorem login_token_is_accepted lifetime name password client w r w' :
  auth_wf w → createSession pbkdf2 sha256 lifetime name password client w = (inr r, w') → cs_ok r = true →
  ∃ u x s u', u ∈ app_users w ∧ u_username u = name ∧ u_is_active u = 1%Z ∧
    verifyPassword_hash pbkdf2 password (u_password_hash u) = Some true ∧
    cs_session r = Some x ∧ user_identity u' = user_identity u ∧
    ∀ t, token_good (cs_rawToken r) w' t s u' ↔ (t < fromEpoch (toEpoch (session_expiresAt x)))%Z.
Proof.
  intros Hw H Hok.
  pose proof (keeps_createSession lifetime name password client w) as Hacc. rewrite H in Hacc. cbn [snd] in Hacc.
  apply bind_inv in H as (v & w1 & Hv & H).
  destruct (if vr_ok v then vr_user v else None) as [c|] eqn:Ev.
  2:{ apply bind_inv in H as (? & ? & _ & H). unfold ret in H. simplify_eq/=. }
  destruct (vr_ok v) eqn:Hvok; [|discriminate Ev].
  destruct (verifyPassword_ok _ _ _ _ _ Hw Hv Hvok) as (u & c' & Hu & Hn & Hon & (Hcid & _) & Hvu & Hhash).
  rewrite Hvu in Ev. injection Ev as ->. clear Hvu Hv.
  apply bind_inv in H as (tok & w2 & Htok & H). apply bind_inv in H as (t & w3 & Ht & H).
  apply bind_inv in H as (x & w4 & Hx & H). apply bind_inv in H as (? & w5 & Happ & H). unfold ret in H. injection H as <- <-.
  clear Htok Ht Hok. cbn [cs_session cs_rawToken].
  destruct (createSession_row_inv _ _ _ _ _ _ _ Hx) as (Hexp & id & t' & Hsess).
  pose proof (proj2 (append_tables "session.create" "success" (Some name) (Some (user_id c)) client None w4)) as Hs4.
  rewrite Happ in Hs4. cbn [snd] in Hs4. clear Happ Hx. destruct (account_kept w w5 u Hacc Hu) as (u' & Hu' & Hid & Hact).
  exists u, x, (mkSessionRow id (user_id c) client (hashToken sha256 tok) t' (toEpoch (session_expiresAt x)) None None), u'.
  split_and!; try done. intros t0. unfold token_good. simpl. split; [by intros (_ & _ & _ & ? & _)|]. intros Hlt. split_and!; try done.
  - rewrite Hs4, Hsess, Hexp. apply elem_of_app. right. by apply list_elem_of_singleton.
  - injection Hid as Hid _ _ _. congruence.
  - congruence.
Qed.
End broker.

(** ** A concrete installation *)
Module Demo.
Definition pbkdf2 (password salt : str) (n : Z) (k : nat) : option str :=
  Some (take k (password ++ salt ++ repeat "0"%char k)).
Definition sha256 (s : str) : str := s.

Lemma pbkdf2_length p s n k out : pbkdf2 p s n k = Some out → length out = k.
Proof. intros [= <-]. rewrite length_take, !length_app, repeat_length. lia. Qed.

Definition empty : AuthWorld :=
  mkAuthWorld (mkEnv (fun n => Z.of_nat n * ticks_per_second)%Z 0 (fun n => n) 0)
    (mkOutside (fun _ => None) 0 (fun _ => false) 0) [] [] [] [].

Definition setup : list AuthOp :=
  [op_createFirstAdmin "root" "toor"; op_createUser Admin "ann" "secret" User].
Definition world : AuthWorld := Eval vm_compute in run_ops pbkdf2 sha256 setup empty.
Definition login : (AuthFault + CreateSessionResult) * AuthWorld :=
  Eval vm_compute in createSession pbkdf2 sha256 3600 "ann" "secret" None world.
Definition token : str := match login.1 with inr r => cs_rawToken r | inl _ => [] end.

Lemma empty_wf : auth_wf empty.
Proof. by split; constructor. Qed.
Lemma world_wf : auth_wf world.
Proof. exact (proj1 (run_ops_good pbkdf2 sha256 setup empty empty_wf)). Qed.
Lemma login_wf : auth_wf login.2.
Proof. exact (proj1 (good_run_op pbkdf2 sha256 (op_createSession 3600 "ann" "secret" None) world world_wf)). Qed.
End Demo.

(** The same installation when the row of the audit log cannot be written. *)
Definition disk_full (w : AuthWorld) : AuthWorld :=
  mkAuthWorld (a_env w) (mkOutside (fun n => if n =? sql_statements (a_outside w) + 3 then Some ("disk full" : str, false) else None)
    (sql_statements (a_outside w)) (fun _ => false) 0) (app_users w) (auth_sessions w) (service_clients w) (auth_audit_log w).

Lemma introspectToken_spec_witness :
  (∃ r w', introspectToken Demo.sha256 Demo.token Demo.login.2 = (inr r, w') ∧
     ir_active r = true ∧ introspection_answer Demo.sha256 Demo.token Demo.login.2 r w') ∧
  ∃ w', introspectToken Demo.sha256 Demo.token (disk_full Demo.login.2) = (inl (database_failure "disk full"), w') ∧
    statement_threw (disk_full Demo.login.2) w' "disk full".
Proof.
  split.
  - pose (x := introspectToken Demo.sha256 Demo.token Demo.login.2).
    pose (r := match x.1 with inr r => r | inl _ => mkIntrospectResult false None None end).
    assert (Hx : introspectToken Demo.sha256 Demo.token Demo.login.2 = (inr r, x.2)) by (vm_compute; reflexivity).
    exists r, x.2. split; [exact Hx|]. split; [vm_compute; reflexivity|].
    pose proof (introspectToken_spec Demo.sha256 Demo.token Demo.login.2 Demo.login_wf) as H. rewrite Hx in H. exact H.
  - pose (w := disk_full Demo.login.2). pose (x := introspectToken Demo.sha256 Demo.token w).
    assert (Hx : introspectToken Demo.sha256 Demo.token w = (inl (database_failure "disk full"), x.2)) by (vm_compute; reflexivity).
    exists x.2. split; [exact Hx|].
    assert (Hwf : auth_wf w) by (destruct Demo.login_wf; by split).
    pose proof (introspectToken_spec Demo.sha256 Demo.token w Hwf) as H. rewrite Hx in H.
    destruct H as [[H _]|(what & [= <-] & H)]; [discriminate H|exact H].
Defined.

Definition first_session (w : AuthWorld) : SessionRow :=
  hd (mkSessionRow [] [] None [] 0 0 None None) (auth_sessions w).

Lemma revoked_token_stays_rejected_witness :
  ∃ r w', introspectToken Demo.sha256 Demo.token
    (run_ops Demo.pbkdf2 Demo.sha256 [op_createSession 3600 "ann" "secret" None]
      (run_op Demo.pbkdf2 Demo.sha256 (op_revokeToken Demo.token) Demo.login.2).2) = (inr r, w') ∧ ir_active r = false.
Proof.
  pose (x := introspectToken Demo.sha256 Demo.token
    (run_ops Demo.pbkdf2 Demo.sha256 [op_createSession 3600 "ann" "secret" None]
      (run_op Demo.pbkdf2 Demo.sha256 (op_revokeToken Demo.token) Demo.login.2).2)).
  exists (match x.1 with inr r => r | inl _ => mkIntrospectResult true None None end), x.2.
  assert (Hx : x = (inr (match x.1 with inr r => r | inl _ => mkIntrospectResult true None None end), x.2))
    by (vm_compute; reflexivity).
  split; [exact Hx|].
  apply (revoked_token_stays_rejected Demo.pbkdf2 Demo.sha256 Demo.token Demo.login.2 (first_session Demo.login.2)
    [op_createSession 3600 "ann" "secret" None] _ x.2 Demo.login_wf).
  - apply list_elem_of_singleton. reflexivity.
  - reflexivity.
  - vm_compute. reflexivity.
  - exact Hx.
Defined.

Lemma deactivated_user_locked_out_witness :
  let w1 := run_ops Demo.pbkdf2 Demo.sha256 [op_createUser Admin "ann" "again" Admin]
              (run_op Demo.pbkdf2 Demo.sha256 (op_deactivateUser Admin "ann") Demo.login.2).2 in
  (∀ password r w', verifyPassword Demo.pbkdf2 "ann" password w1 = (inr r, w') → vr_ok r = false) ∧
  (∀ token r w', introspectToken Demo.sha256 token w1 = (inr r, w') → ir_active r = true →
     ∃ c, ir_user r = Some c ∧ username c ≠ "ann").
Proof.
  refine (deactivated_user_locked_out Demo.pbkdf2 Demo.sha256 "ann" Demo.login.2
    (nth 1 (app_users Demo.login.2) (mkUserRow [] [] [] [] 0 0 0 None)) [op_createUser Admin "ann" "again" Admin]
    Demo.login_wf _ _ _).
  - apply list_elem_of_In, nth_In. vm_compute. lia.
  - vm_compute. reflexivity.
  - vm_compute. reflexivity.
Defined.

Lemma no_privilege_escalation_witness :
  let ops := [op_createFirstAdmin "eve" "x"; op_createUser User "eve" "x" Admin; op_createSession 60 "ann" "secret" None] in
  accounts (run_ops Demo.pbkdf2 Demo.sha256 ops Demo.world) = accounts Demo.world.
Proof.
  intros ops. apply (no_privilege_escalation Demo.pbkdf2 Demo.sha256 ops Demo.world).
  - exists (nth 0 (app_users Demo.world) (mkUserRow [] [] [] [] 0 0 0 None)). split_and!; [|vm_compute; reflexivity..].
    apply list_elem_of_In, nth_In. vm_compute. lia.
  - repeat constructor.
Defined.

Lemma password_hash_roundtrip_witness :
  ∃ stored w', hashPassword Demo.pbkdf2 "secret" Demo.empty = (inr stored, w') ∧
    verifyPassword_hash Demo.pbkdf2 "secret" stored = Some true ∧
    verifyPassword_hash Demo.pbkdf2 "other" stored = Some false.
Proof.
  pose (x := hashPassword Demo.pbkdf2 "secret" Demo.empty).
  pose (stored := match x.1 with inr s => s | inl _ => [] end).
  assert (Hx : hashPassword Demo.pbkdf2 "secret" Demo.empty = (inr stored, x.2)) by (vm_compute; reflexivity).
  exists stored, x.2. split; [exact Hx|]. split.
  - rewrite (password_hash_roundtrip Demo.pbkdf2 "secret" "secret" Demo.empty stored x.2 Demo.pbkdf2_length Hx).
    by rewrite bool_decide_eq_true_2.
  - rewrite (password_hash_roundtrip Demo.pbkdf2 "secret" "other" Demo.empty stored x.2 Demo.pbkdf2_length Hx).
    vm_compute. reflexivity.
Defined.

Lemma login_token_is_accepted_witness :
  ∃ r x s u, Demo.login.1 = inr r ∧ cs_session r = Some x ∧
    ∀ t, token_good Demo.sha256 (cs_rawToken r) Demo.login.2 t s u ↔ (t < fromEpoch (toEpoch (session_expiresAt x)))%Z.
Proof.
  pose (r := match Demo.login.1 with inr r => r | inl _ => mkCreateSessionResult false [] None None end).
  destruct (login_token_is_accepted Demo.pbkdf2 Demo.sha256 3600 "ann" "secret" None Demo.world r Demo.login.2 Demo.world_wf)
    as (u & x & s & u' & _ & _ & _ & _ & Hx & _ & Ht).
  - vm_compute. reflexivity.
  - vm_compute. reflexivity.
  - exists r, x, s, u'. split; [vm_compute; reflexivity|]. split; [exact Hx|exact Ht].
Defined.
