(* ===== verification/ProgramOptions.v ===== *)
(** * ProgramOptions: the interface to Boost.ProgramOptions

    The command line is parsed by a library, so the parser is a field of a
    class; the laws are the documented behaviour the code relies on: every
    entry of the variables map belongs to a described option and has its type,
    switches and options with a default are always present, and a command line
    written as [--name value] pairs over described names gives the values
    written. A small reference parser shows that the laws can hold. *)
From S2P Require Import Prelude Text Clock Numbers.

(** ** Option descriptions *)
(** [value<std::string>], [value<std::vector<std::string>>()->composing()],
    [value<uint32_t>], [bool_switch()] and an option without a value; the first
    and the third may have a default value. *)
Inductive OptionKind :=
  | one_string (default : option str) | many_strings | one_uint32 (default : option Z) | bool_switch | no_value.

Record OptionSpec := opt {
  opt_name : str;
  opt_kind : OptionKind;
}.

Inductive PoValue := V_string (v : str) | V_strings (v : list str) | V_uint32 (v : Z) | V_bool (v : bool) | V_flag.

Abbreviation variables_map := (gmap str PoValue).

Definition kind_accepts (k : OptionKind) (v : PoValue) : bool :=
  match k, v with
  | one_string _, V_string _ | many_strings, V_strings _ | bool_switch, V_bool _ | no_value, V_flag => true
  | one_uint32 _, V_uint32 n => (0 <=? n)%Z && (n <? 2 ^ 32)%Z
  | _, _ => false
  end.

Definition takes_value (k : OptionKind) : bool :=
  match k with bool_switch | no_value => false | _ => true end.

(** ** Canonical command lines *)
(** An option name and, for options that take one, the value. *)
Abbreviation item := (str * option str)%type.

Definition render_item (i : item) : list str :=
  (("--" : str) ++ i.1) :: match i.2 with Some v => [v] | None => [] end.
Definition render (items : list item) : list str := flat_map render_item items.

Definition values_of (name : str) (items : list item) : list str :=
  omap (fun i : item => if bool_decide (i.1 = name) then i.2 else None) items.
Definition mentions (name : str) (items : list item) : bool := existsb (fun i : item => bool_decide (i.1 = name)) items.

(** The value an option has after a canonical command line. *)
Definition value_of (o : OptionSpec) (items : list item) : option PoValue :=
  match opt_kind o with
  | one_string d => V_string <$> match values_of (opt_name o) items with v :: _ => Some v | [] => d end
  | many_strings => match values_of (opt_name o) items with [] => None | l => Some (V_strings l) end
  | one_uint32 d =>
      V_uint32 <$> match values_of (opt_name o) items with v :: _ => fst <$> stoull v | [] => d end
  | bool_switch => Some (V_bool (mentions (opt_name o) items))
  | no_value => if mentions (opt_name o) items then Some V_flag else None
  end.

Definition vm_of (desc : list OptionSpec) (items : list item) : variables_map :=
  list_to_map (omap (fun o => pair (opt_name o) <$> value_of o items) desc).

Definition find_option (desc : list OptionSpec) (name : str) : option OptionSpec :=
  List.find (fun o => bool_decide (opt_name o = name)) desc.

(** A value token does not look like an option; a number is printed in decimal
    and fits the width. *)
Definition plain_value (v : str) : bool := negb (starts_with "-" v).

Definition value_ok (k : OptionKind) (v : str) : bool :=
  plain_value v &&
  match k with
  | one_uint32 _ => match stoull v with Some (n, _) => bool_decide (v = dec n) && (n <? 2 ^ 32)%Z | None => false end
  | _ => true
  end.

Definition item_ok (desc : list OptionSpec) (i : item) : bool :=
  match find_option desc i.1, i.2 with
  | Some o, Some v => takes_value (opt_kind o) && value_ok (opt_kind o) v
  | Some o, None => negb (takes_value (opt_kind o))
  | None, _ => false
  end.

Definition once (desc : list OptionSpec) (items : list item) : bool :=
  forallb (fun o => match opt_kind o with
                    | many_strings => true
                    | _ => (length (List.filter (fun i : item => bool_decide (i.1 = opt_name o)) items) <=? 1)%nat
                    end) desc.

Definition items_ok (desc : list OptionSpec) (items : list item) : bool := forallb (item_ok desc) items && once desc items.

Definition desc_ok (desc : list OptionSpec) : bool :=
  bool_decide (NoDup (opt_name <$> desc)) &&
  forallb (fun o => match opt_kind o with one_uint32 (Some n) => (0 <=? n)%Z && (n <? 2 ^ 32)%Z | _ => true end) desc.

(** ** The library *)
Class ProgramOptions := {
  (** descriptions, the option that takes positional arguments, the tokens;
      [inl] carries [po::error::what()] *)
  po_run : list OptionSpec → option str → list str → str + variables_map;
  po_typed desc pos args vm n v :
    po_run desc pos args = inr vm → vm !! n = Some v →
    ∃ o, o ∈ desc ∧ opt_name o = n ∧ kind_accepts (opt_kind o) v = true;
  po_switch desc pos args vm o :
    po_run desc pos args = inr vm → o ∈ desc → opt_kind o = bool_switch → is_Some (vm !! opt_name o);
  po_canonical desc pos items :
    desc_ok desc = true → items_ok desc items = true → po_run desc pos (render items) = inr (vm_of desc items);
}.

(** ** Reading a variables map *)
Definition vm_count (vm : variables_map) (name : str) : bool := bool_decide (is_Some (vm !! name)).
Definition vm_string (vm : variables_map) (name : str) : option str :=
  match vm !! name with Some (V_string v) => Some v | _ => None end.
Definition vm_strings (vm : variables_map) (name : str) : list str :=
  match vm !! name with Some (V_strings v) => v | _ => [] end.
Definition vm_uint32 (vm : variables_map) (name : str) : option Z :=
  match vm !! name with Some (V_uint32 v) => Some v | _ => None end.
Definition vm_bool (vm : variables_map) (name : str) : bool :=
  match vm !! name with Some (V_bool b) => b | _ => false end.

Lemma find_option_Some desc n o : find_option desc n = Some o → o ∈ desc ∧ opt_name o = n.
Proof. intros [H1 H2%bool_decide_eq_true]%find_some. split; [by apply list_elem_of_In|done]. Qed.

Lemma find_option_In desc o : NoDup (opt_name <$> desc) → o ∈ desc → find_option desc (opt_name o) = Some o.
Proof.
  intros Hnd Ho. unfold find_option. induction desc as [|p desc IH]; [by apply elem_of_nil in Ho|]. csimpl in Hnd.
  apply NoDup_cons in Hnd as [Hp Hnd]. simpl. case_bool_decide as Heq.
  - apply elem_of_cons in Ho as [->|Ho]; [done|]. exfalso. apply Hp. rewrite Heq. apply list_elem_of_fmap. by exists o.
  - apply elem_of_cons in Ho as [->|Ho]; [done|]. by apply IH.
Qed.

Lemma vm_of_lookup_In desc items o : NoDup (opt_name <$> desc) → o ∈ desc → vm_of desc items !! opt_name o = value_of o items.
Proof.
  intros Hnd Ho. unfold vm_of. induction desc as [|p desc IH]; [by apply elem_of_nil in Ho|].
  apply NoDup_cons in Hnd as [Hp Hnd]. apply elem_of_cons in Ho as [->|Ho]; simpl.
  - destruct (value_of p items) as [v|] eqn:E; simpl; [by rewrite lookup_insert_eq|].
    apply not_elem_of_list_to_map_1. intros Hin. apply Hp. apply list_elem_of_fmap in Hin as ([n v] & Hn & Hv).
    apply list_elem_of_omap in Hv as (q & Hq & Hqv). destruct (value_of q items); simplify_eq/=.
    apply list_elem_of_fmap. by exists q.
  - assert (opt_name p ≠ opt_name o). { intros Heq. apply Hp. rewrite Heq. apply list_elem_of_fmap. by exists o. }
    destruct (value_of p items); simpl; [rewrite lookup_insert_ne by done|]; auto.
Qed.

Lemma vm_of_lookup desc items n o : desc_ok desc = true → find_option desc n = Some o → vm_of desc items !! n = value_of o items.
Proof.
  intros [Hnd%bool_decide_eq_true _]%andb_true_iff [Ho <-]%find_option_Some. by apply vm_of_lookup_In.
Qed.

Lemma values_of_app n l1 l2 : values_of n (l1 ++ l2) = values_of n l1 ++ values_of n l2.
Proof. apply omap_app. Qed.
Lemma mentions_app n l1 l2 : mentions n (l1 ++ l2) = mentions n l1 || mentions n l2.
Proof. apply existsb_app. Qed.

Lemma leading_digits_value s : (0 ≤ decimal_value (leading_digits s))%Z.
Proof.
  assert (Hall : all_digits (leading_digits s)).
  { induction s as [|c s IH]; simpl; [constructor|]. destruct (is_digit c) eqn:Hc; by constructor. }
  induction (leading_digits s) as [|c l IH] using rev_ind; [done|]. rewrite decimal_value_snoc.
  apply Forall_app in Hall as [Hl Hc]. specialize (IH Hl).
  rewrite Forall_singleton in Hc. unfold is_digit in Hc. unfold digit_val. apply andb_true_iff in Hc as [?%N.leb_le _]. lia.
Qed.

(** ** A reference parser *)
Module Reference.
(** Splits the tokens into items along the descriptions. *)
Fixpoint tokens (desc : list OptionSpec) (args : list str) : option (list item) :=
  match args with
  | [] => Some []
  | t :: rest =>
      if negb (starts_with "--" t) then None
      else
        let name := drop 2 t in
        match find_option desc name with
        | None => None
        | Some o =>
            if takes_value (opt_kind o) then
              match rest with
              | v :: rest' => cons (name, Some v) <$> tokens desc rest'
              | [] => None
              end
            else cons (name, None) <$> tokens desc rest
        end
  end.

Definition run (desc : list OptionSpec) (pos : option str) (args : list str) : str + variables_map :=
  match tokens desc args with
  | Some items =>
      if desc_ok desc && items_ok desc items then inr (vm_of desc items)
      else inl ("option cannot be specified more than once" : str)
  | None => inl ("unrecognised option" : str)
  end.

Lemma tokens_option desc n rest :
  tokens desc ((("--" : str) ++ n) :: rest) =
    match find_option desc n with
    | None => None
    | Some o =>
        if takes_value (opt_kind o) then
          match rest with
          | v :: rest' => cons (n, Some v) <$> tokens desc rest'
          | [] => None
          end
        else cons (n, None) <$> tokens desc rest
    end.
Proof. by destruct rest. Qed.

Lemma tokens_render desc items : forallb (item_ok desc) items = true → tokens desc (render items) = Some items.
Proof.
  induction items as [|[n v] items IH]; [done|]. cbn [forallb]. intros [Hi Hr]%andb_true_iff. specialize (IH Hr).
  unfold item_ok in Hi. cbn [fst snd] in Hi. destruct (find_option desc n) as [o|] eqn:Ho; [|done].
  destruct v as [v|]; [change (render ((n, Some v) :: items)) with ((("--" : str) ++ n) :: v :: render items)
                      |change (render ((n, None) :: items)) with ((("--" : str) ++ n) :: render items)]; rewrite tokens_option, Ho.
  - apply andb_true_iff in Hi as [-> _]. by rewrite IH.
  - apply negb_true_iff in Hi as ->. by rewrite IH.
Qed.

Lemma value_of_typed desc items o v :
  desc_ok desc = true → items_ok desc items = true → o ∈ desc → value_of o items = Some v → kind_accepts (opt_kind o) v = true.
Proof.
  intros [Hnd%bool_decide_eq_true Hdef]%andb_true_iff [Hok _]%andb_true_iff Ho. unfold value_of.
  destruct (opt_kind o) as [d| |d| |] eqn:Ek; cbn [kind_accepts].
  - destruct (values_of _ _), d; simpl; intros H; try discriminate H; by injection H as <-.
  - destruct (values_of _ _); [done|]. by intros [= <-].
  - destruct (values_of (opt_name o) items) as [|x l] eqn:Ev.
    + destruct d as [n|]; [|done]. intros [= <-]. rewrite forallb_forall in Hdef.
      specialize (Hdef o). rewrite Ek in Hdef. apply Hdef. by apply list_elem_of_In.
    + assert (Hx : x ∈ values_of (opt_name o) items) by (rewrite Ev; by left).
      apply list_elem_of_omap in Hx as ([n w] & Hin & Hw). simpl in Hw. case_bool_decide as Hn; [|done]. subst n w.
      rewrite forallb_forall in Hok. specialize (Hok (opt_name o, Some x)). rewrite <- list_elem_of_In in Hok.
      specialize (Hok Hin). unfold item_ok in Hok. cbn [fst snd] in Hok.
      rewrite (find_option_In _ _ Hnd Ho) in Hok.
      unfold value_ok in Hok. rewrite Ek in Hok. destruct (stoull x) as [[k p]|] eqn:Es; simpl; intros [= <-].
      apply andb_true_iff in Hok as [_ [_ [_ Hlt]%andb_true_iff]%andb_true_iff].
      apply andb_true_iff. split; [|exact Hlt]. apply Z.leb_le. unfold stoull in Es.
      destruct (read_sign _) as [s b]. destruct (bool_decide _) eqn:?; [done|].
      destruct (Z.ltb_spec (decimal_value (leading_digits b)) (2 ^ 64)); [|done]. injection Es as <- _.
      destruct s; [unfold u64; apply Z.mod_pos_bound; lia|]. apply leading_digits_value.
  - by intros [= <-].
  - destruct (mentions _ _); [|done]. by intros [= <-].
Qed.

#[export] Program Instance options : ProgramOptions := { po_run := run }.
Next Obligation.
  intros desc pos args vm n v Hrun Hv. unfold run in Hrun. destruct (tokens desc args) as [items|]; [|done].
  destruct (desc_ok desc && items_ok desc items) eqn:Hok; [|done]. apply andb_true_iff in Hok as [Hd Hi]. injection Hrun as <-.
  apply elem_of_list_to_map_2, list_elem_of_omap in Hv as (o & Ho & Hov). destruct (value_of o items) as [v'|] eqn:Ev; [|done].
  injection Hov as <- <-. exists o. split; [done|]. split; [done|]. by eapply value_of_typed.
Qed.
Next Obligation.
  intros desc pos args vm o Hrun Ho Hk. unfold run in Hrun. destruct (tokens desc args) as [items|]; [|done].
  destruct (desc_ok desc && items_ok desc items) eqn:Hok; [|done]. apply andb_true_iff in Hok as [Hd _]. injection Hrun as <-.
  apply andb_true_iff in Hd as [Hnd%bool_decide_eq_true _]. rewrite (vm_of_lookup_In _ _ _ Hnd Ho). unfold value_of. rewrite Hk. done.
Qed.
Next Obligation.
  intros desc pos items Hd Hi. unfold run. rewrite tokens_render by (by apply andb_true_iff in Hi as [? _]).
  by rewrite Hd, Hi.
Qed.
End Reference.
