(* ===== verification/LinkArgs.v ===== *)
(** * LinkArgs: flags of the [link] verbs (src/cli/link_command_args.cpp)

    One function per verb from the tokens after the verb to the command of the
    application layer. A thrown exception is the left case of the result. *)
From S2P Require Import Prelude Text Clock Numbers Types Validation LinkCommands ClickEvents ProgramOptions.

(** The exceptions of the command line code, with their [what()]. *)
Inductive CliFault :=
  | invalid_argument (message : str) | out_of_range (message : str) | runtime_error (message : str).

Definition invalid {A} (message : str) : CliFault + A := inl (invalid_argument message).

#[export] Instance fault_bind : MBind (sum CliFault) := fun A B k m =>
  match m with inl e => inl e | inr a => k a end.
#[export] Instance fault_ret : MRet (sum CliFault) := fun A a => inr a.

(** ** Helpers *)
Definition true_tokens : list string := ["1"; "true"; "on"; "yes"].
Definition false_tokens : list string := ["0"; "false"; "off"; "no"].
Definition is_token (l : list string) (value : str) : bool := existsb (fun t => bool_decide (value = String.list_ascii_of_string t)) l.

Definition parseBoolFlag (flag value : str) : CliFault + bool :=
  if is_token true_tokens value then inr true
  else if is_token false_tokens value then inr false
  else invalid (("Invalid boolean value for " : str) ++ flag ++ (": '" : str) ++ value
                ++ ("'. Use true/false, 1/0, on/off, or yes/no." : str)).

Definition requireNonEmpty (flag value : str) : CliFault + unit :=
  if bool_decide (value = []) then invalid (flag ++ (" must not be empty." : str)) else inr tt.

(** The text between commas, empty pieces included. *)
Fixpoint split_commas (value : str) : list str :=
  match value with
  | [] => [[]]
  | c :: rest =>
      if Ascii.eqb c "," then [] :: split_commas rest
      else match split_commas rest with
           | piece :: pieces => (c :: piece) :: pieces
           | [] => [[c]]
           end
  end.
Definition splitCommaList (value : str) : list str :=
  if bool_decide (value = []) then [] else split_commas value.

Definition metadata_entry_error (entry : str) (expected : string) : CliFault :=
  invalid_argument (("Invalid --metadata entry: '" : str) ++ entry ++ ("'. " : str) ++ expected).

(** Key and value around the first [=]; the key must not be empty. *)
Definition split_entry (entry : str) : option (str * str) :=
  match find_char "=" entry with
  | None | Some O => None
  | Some eq => Some (take eq entry, drop (S eq) entry)
  end.

Definition add_list_entry (acc : CliFault + gmap str str) (entry : str) : CliFault + gmap str str :=
  parsed ← acc;
  match split_entry entry with
  | Some (k, v) =>
      if is_present (find_char "=" v)
      then inl (metadata_entry_error entry "Expected KEY=VALUE with exactly one '=' and a non-empty KEY.")
      else inr (<[k := v]> parsed)
  | None => inl (metadata_entry_error entry "Expected KEY=VALUE with exactly one '=' and a non-empty KEY.")
  end.

Definition parseMetadataList (value : str) : CliFault + gmap str str :=
  foldl add_list_entry (inr ∅) (splitCommaList value).

Section args.
Context {PO : ProgramOptions}.

Definition runVerbParse (args : list str) (desc : list OptionSpec) : CliFault + variables_map :=
  match po_run desc None args with
  | inl what => invalid what
  | inr vm => inr vm
  end.

Definition text_option (name : string) : OptionSpec := opt name (one_string None).

(** A value that must not be empty when its flag is given. *)
Definition non_empty_if_given (vm : variables_map) (name : string) : CliFault + option str :=
  match vm_string vm name with
  | None => inr None
  | Some v => requireNonEmpty (("--" : str) ++ name) v ;; inr (Some v)
  end.

(** ** [get] and [preview] *)
Definition get_options : list OptionSpec := [text_option "slug"; text_option "id"].

Definition parseGetLikeArgs (args : list str) (verb_label : str) : CliFault + GetLinkBy :=
  vm ← runVerbParse args get_options;
  match vm_string vm "slug", vm_string vm "id" with
  | Some _, Some _ => invalid (verb_label ++ (" accepts exactly one of --slug or --id, not both." : str))
  | None, None => invalid (verb_label ++ (" requires one of --slug <SLUG> or --id <ID>." : str))
  | Some slug, None => requireNonEmpty "--slug" slug ;; inr (by_slug slug)
  | None, Some id => requireNonEmpty "--id" id ;; inr (by_link_id id)
  end.
Definition parseGetArgs (args : list str) : CliFault + GetLinkBy := parseGetLikeArgs args "link get".
Definition parsePreviewArgs (args : list str) : CliFault + GetLinkBy := parseGetLikeArgs args "link preview".

(** ** The verbs that take a slug only *)
Definition slug_options : list OptionSpec := [text_option "slug"].

Definition parseSlugOnly (args : list str) (verb_label : str) : CliFault + str :=
  vm ← runVerbParse args slug_options;
  match vm_string vm "slug" with
  | None => invalid (verb_label ++ (" requires --slug <SLUG>." : str))
  | Some slug => requireNonEmpty "--slug" slug ;; inr slug
  end.

Definition parseDeleteArgs (args : list str) : CliFault + str := parseSlugOnly args "link delete".
Definition parseSetEnabledArgs (args : list str) (enabled : bool) : CliFault + (str * bool) :=
  slug ← parseSlugOnly args (if enabled then "link enable" else "link disable");
  inr (slug, enabled).
Definition parseRestoreArgs (args : list str) : CliFault + str := parseSlugOnly args "link restore".

(** ** Campaign flags, shared by [create] and [update] *)
Definition campaign_options : list OptionSpec :=
  [text_option "campaign-name"; text_option "campaign-source"; text_option "campaign-medium";
   text_option "campaign-term"; text_option "campaign-content"; text_option "campaign-id"].

Definition campaign_of (vm : variables_map) : option Campaign :=
  let name := vm_string vm "campaign-name" in
  let source := vm_string vm "campaign-source" in
  let medium := vm_string vm "campaign-medium" in
  let term := vm_string vm "campaign-term" in
  let content := vm_string vm "campaign-content" in
  let id := vm_string vm "campaign-id" in
  if is_present name || is_present source || is_present medium || is_present term || is_present content || is_present id
  then Some (mkCampaign name source medium term content id)
  else None.

(** ** [create] *)
Definition create_options : list OptionSpec :=
  [text_option "url"; text_option "slug"; text_option "redirect-type"; text_option "expires-at"; text_option "enabled";
   opt "tag" many_strings; opt "metadata" many_strings] ++ campaign_options ++
  [text_option "base-domain"; opt "allow-private-targets" bool_switch].

Definition create_redirect_type (vm : variables_map) : CliFault + option RedirectType :=
  match vm_string vm "redirect-type" with
  | None => inr None
  | Some raw =>
      match parseRedirectType raw with
      | None => invalid (("Invalid --redirect-type: '" : str) ++ raw ++ ("'. Use temporary or permanent." : str))
      | Some t => inr (Some t)
      end
  end.

Definition enabled_flag (vm : variables_map) : CliFault + option bool :=
  match vm_string vm "enabled" with
  | None => inr None
  | Some raw => b ← parseBoolFlag "--enabled" raw; inr (Some b)
  end.

Definition add_create_entry (acc : CliFault + gmap str str) (entry : str) : CliFault + gmap str str :=
  parsed ← acc;
  match split_entry entry with
  | Some (k, v) => inr (<[k := v]> parsed)
  | None => inl (metadata_entry_error entry "Expected KEY=VALUE with a non-empty KEY.")
  end.
Definition create_metadata (entries : list str) : CliFault + gmap str str := foldl add_create_entry (inr ∅) entries.

Definition set_base_domain (v : str) (c : ServerConfig) : ServerConfig :=
  mkServerConfig (tls_port c) (hsts_max_age c) v (shortener_default_redirect_type c) (shortener_default_expiry_seconds c)
    (shortener_generated_slug_length c) (shortener_allow_private_targets c) (analytics_enabled c)
    (analytics_queue_capacity c) (analytics_client_hash_salt c) (request_id_max_length c) (max_request_body_bytes c)
    (max_request_target_length c) (http_redirect_to_https c) (tls_enabled c).
Definition set_allow_private (v : bool) (c : ServerConfig) : ServerConfig :=
  mkServerConfig (tls_port c) (hsts_max_age c) (shortener_base_domain c) (shortener_default_redirect_type c)
    (shortener_default_expiry_seconds c) (shortener_generated_slug_length c) v (analytics_enabled c)
    (analytics_queue_capacity c) (analytics_client_hash_salt c) (request_id_max_length c) (max_request_body_bytes c)
    (max_request_target_length c) (http_redirect_to_https c) (tls_enabled c).

(** The command, and the configuration with the overrides of this invocation. *)
Definition parseCreateArgs (args : list str) (config : ServerConfig) : CliFault + (CreateLinkCommand * ServerConfig) :=
  vm ← runVerbParse args create_options;
  match vm_string vm "url" with
  | None => invalid "link create requires --url <URL>."
  | Some url =>
      requireNonEmpty "--url" url ;;
      slug ← non_empty_if_given vm "slug";
      redirect_type ← create_redirect_type vm;
      expires_at ← non_empty_if_given vm "expires-at";
      enabled ← enabled_flag vm;
      metadata ← create_metadata (vm_strings vm "metadata");
      base_domain ← non_empty_if_given vm "base-domain";
      let config := match base_domain with Some d => set_base_domain d config | None => config end in
      let config := if vm_bool vm "allow-private-targets" then set_allow_private true config else config in
      inr (mkCreateLinkCommand url slug redirect_type expires_at enabled (vm_strings vm "tag") metadata (campaign_of vm), config)
  end.

(** ** [update] *)
Definition update_options : list OptionSpec :=
  [text_option "slug"; text_option "enabled"; text_option "expires-at"; text_option "tags"; text_option "metadata"]
  ++ campaign_options ++ [opt "clear-campaign" bool_switch].

Definition update_expiry (vm : variables_map) : CliFault + option (option str) :=
  match vm_string vm "expires-at" with
  | None => inr None
  | Some v =>
      if bool_decide (v = "clear") then inr (Some None)
      else requireNonEmpty "--expires-at" v ;; inr (Some (Some v))
  end.

Definition update_metadata (vm : variables_map) : CliFault + option (gmap str str) :=
  match vm_string vm "metadata" with
  | None => inr None
  | Some v => m ← parseMetadataList v; inr (Some m)
  end.

Definition update_campaign (vm : variables_map) : CliFault + option (option Campaign) :=
  match campaign_of vm, vm_bool vm "clear-campaign" with
  | Some _, true => invalid "link update accepts only one of the --campaign-* flags or --clear-campaign."
  | Some c, false => inr (Some (Some c))
  | None, true => inr (Some None)
  | None, false => inr None
  end.

Definition parseUpdateArgs (args : list str) : CliFault + UpdateLinkCommand :=
  vm ← runVerbParse args update_options;
  match vm_string vm "slug" with
  | None => invalid "link update requires --slug <SLUG>."
  | Some slug =>
      requireNonEmpty "--slug" slug ;;
      enabled ← enabled_flag vm;
      expires_at ← update_expiry vm;
      let tags := splitCommaList <$> vm_string vm "tags" in
      metadata ← update_metadata vm;
      campaign ← update_campaign vm;
      inr (mkUpdateLinkCommand slug enabled expires_at tags metadata campaign)
  end.

(** ** [stats] *)
Definition stats_options : list OptionSpec := [text_option "slug"; text_option "from"; text_option "to"; text_option "bucket"].

Definition parseStatsArgs (args : list str) : CliFault + GetLinkStatsQuery :=
  vm ← runVerbParse args stats_options;
  match vm_string vm "slug", vm_string vm "from", vm_string vm "to", vm_string vm "bucket" with
  | None, _, _, _ => invalid "link stats requires --slug <SLUG>."
  | _, None, _, _ => invalid "link stats requires --from <EPOCH>."
  | _, _, None, _ => invalid "link stats requires --to <EPOCH>."
  | _, _, _, None => invalid "link stats requires --bucket <BUCKET>."
  | Some slug, Some from, Some to, Some bucket =>
      requireNonEmpty "--slug" slug ;;
      requireNonEmpty "--from" from ;;
      requireNonEmpty "--to" to ;;
      requireNonEmpty "--bucket" bucket ;;
      inr (mkGetLinkStatsQuery slug from to bucket)
  end.
End args.
