(* ===== verification/Cli.v ===== *)
(** * Cli: the command line (src/cli_parser.cpp, src/cli/link_command_dispatch.cpp, src/main.cpp)

    Environment variables and server flags become a configuration; a leading
    [link] selects the one-shot mode, whose command runs on a fresh service and
    leaves output and an exit code. *)
From S2P Require Import Prelude Text Env Clock Numbers Types Url Validation LinkRepository LinkStore LinkCommands.
From S2P Require Import ClickEvents LinkJson ProgramOptions LinkArgs.

(** ** The configuration

    [ServerConfig] of config.hpp: the fields the request code reads are
    [Types.ServerConfig], the others are here. *)
Inductive ClientAuthMode := auth_none | auth_optional | auth_required.

Record TlsFiles := mkTlsFiles {
  certificate_chain_file : str;
  private_key_file : str;
  private_key_passphrase : option str;
  ca_file : option str;
  ca_path : option str;
  min_version : str;
  cipher_suites : str;
  ciphers : str;
  curves : str;
  alpn : str;
  session_tickets : bool;
  session_cache : bool;
  client_auth_mode : ClientAuthMode;
}.

Record CliConfig := mkCliConfig {
  http_port : Z;
  http_enabled : bool;
  cc_tls : TlsFiles;
  cc_server : ServerConfig;
}.

Definition default_cli_config : CliConfig :=
  mkCliConfig 8000 true
    (mkTlsFiles [] [] None None None "TLS1.2"
       "TLS_AES_256_GCM_SHA384:TLS_AES_128_GCM_SHA256:TLS_CHACHA20_POLY1305_SHA256"
       "ECDHE-ECDSA-AES256-GCM-SHA384:ECDHE-RSA-AES256-GCM-SHA384:ECDHE-ECDSA-CHACHA20-POLY1305:ECDHE-RSA-CHACHA20-POLY1305:ECDHE-ECDSA-AES128-GCM-SHA256:ECDHE-RSA-AES128-GCM-SHA256"
       "X25519:P-256" "http/1.1" false true auth_none)
    default_config.

(** [parseClientAuthMode] (http_server.cpp). *)
Definition parseClientAuthMode (value : str) : ClientAuthMode :=
  if bool_decide (value = "optional") then auth_optional
  else if bool_decide (value = "required") then auth_required
  else auth_none.

(** ** Verbs and commands *)
Inductive LinkCliVerb :=
  | verb_create | verb_get | verb_update | verb_del | verb_enable | verb_disable | verb_restore | verb_preview | verb_stats.

#[export] Instance LinkCliVerb_eq_dec : EqDecision LinkCliVerb.
Proof. solve_decision. Defined.

Inductive Payload :=
  | pl_create (command : CreateLinkCommand) | pl_get (query : GetLinkBy) | pl_update (command : UpdateLinkCommand)
  | pl_delete (slug : str) | pl_set_enabled (slug : str) (enabled : bool) | pl_restore (slug : str)
  | pl_stats (query : GetLinkStatsQuery).

Record LinkCliCommand := mkLinkCliCommand {
  lc_verb : LinkCliVerb;
  lc_payload : Payload;
}.

Record ParseResult := mkParseResult {
  pr_config : CliConfig;
  pr_help : option str;
  pr_command : option LinkCliCommand;
}.

Definition parseBool (value : str) : CliFault + bool :=
  if is_token true_tokens value then inr true
  else if is_token false_tokens value then inr false
  else invalid (("Invalid boolean value: '" : str) ++ value ++ ("'. Use true/false, 1/0, on/off, or yes/no." : str)).

Definition parsePort (value : Z) : CliFault + Z :=
  if (value =? 0)%Z || (65535 <? value)%Z
  then inl (out_of_range (("Port number " : str) ++ dec value ++ (" is out of valid range [1, 65535]." : str)))
  else inr value.

Definition all_verbs : list LinkCliVerb :=
  [verb_create; verb_get; verb_update; verb_del; verb_enable; verb_disable; verb_restore; verb_preview; verb_stats].

Definition verb_token (verb : LinkCliVerb) : str :=
  match verb with
  | verb_create => "create" | verb_get => "get" | verb_update => "update" | verb_del => "delete"
  | verb_enable => "enable" | verb_disable => "disable" | verb_restore => "restore" | verb_preview => "preview"
  | verb_stats => "stats"
  end.

Definition parseLinkVerb (token : str) : CliFault + LinkCliVerb :=
  if bool_decide (token = "create") then inr verb_create
  else if bool_decide (token = "get") then inr verb_get
  else if bool_decide (token = "update") then inr verb_update
  else if bool_decide (token = "delete") then inr verb_del
  else if bool_decide (token = "enable") then inr verb_enable
  else if bool_decide (token = "disable") then inr verb_disable
  else if bool_decide (token = "restore") then inr verb_restore
  else if bool_decide (token = "preview") then inr verb_preview
  else if bool_decide (token = "stats") then inr verb_stats
  else invalid (("Unknown link command: '" : str) ++ token ++
    ("'. Valid commands: create, get, update, delete, enable, disable, restore, preview, stats." : str)).

Definition is_help (token : str) : bool := bool_decide (token = "--help") || bool_decide (token = "-h").
Definition linkHelpRequested (tokens : list str) : bool := existsb is_help tokens.

(** ** Help texts; every line ends with a newline *)
Definition newline : ascii := "010"%char.
Definition text_lines (l : list string) : str := flat_map (fun s => String.list_ascii_of_string s ++ [newline]) l.

Definition buildLinkHelpText : str :=
  text_lines ["Usage: url_shortener link <verb> [options]";
    EmptyString;
    "Manage short links from the command line. Run";
    "`url_shortener link <verb> --help` for a verb's flags.";
    EmptyString;
    "Verbs:";
    "  create   Create a new short link.";
    "  get      Look up a link by slug or id.";
    "  update   Update fields of an existing link (PATCH semantics).";
    "  delete   Soft-delete a link.";
    "  enable   Enable a link.";
    "  disable  Disable a link.";
    "  restore  Restore a soft-deleted link.";
    "  preview  Preview a link's target without redirecting.";
    "  stats    Report click statistics for a link."].

Definition buildLinkVerbHelpText (verb : LinkCliVerb) : str :=
  match verb with
  | verb_create =>
      text_lines ["Usage: url_shortener link create --url <URL> [options]";
      EmptyString;
      "Create a new short link.";
      EmptyString;
      "Required:";
      "  --url <URL>                Target URL to shorten.";
      EmptyString;
      "Optional:";
      "  --slug <SLUG>              Custom slug for the short link.";
      "  --redirect-type <temporary|permanent>";
      "                             Redirect type.";
      "  --expires-at <RFC3339>     Expiry timestamp (RFC3339 UTC).";
      "  --enabled <BOOL>           Initial enabled state (true/false).";
      "  --tag <TAG>                Tag to attach (repeatable).";
      "  --metadata <KEY=VALUE>     Metadata entry (repeatable).";
      "  --campaign-name|-source|-medium|-term|-content|-id <VALUE>";
      "                             Campaign attribution fields.";
      "  --base-domain <URL>        Base domain for the short URL.";
      "  --allow-private-targets    Permit private/intranet targets."]
  | verb_get =>
      text_lines ["Usage: url_shortener link get (--slug <SLUG> | --id <ID>)";
      EmptyString;
      "Look up a link. Exactly one selector is required.";
      EmptyString;
      "  --slug <SLUG>              Look up the link by slug.";
      "  --id <ID>                  Look up the link by id."]
  | verb_update =>
      text_lines ["Usage: url_shortener link update --slug <SLUG> [options]";
      EmptyString;
      "Update fields of an existing link. Every optional flag uses PATCH";
      "semantics: omit it to leave the field untouched.";
      EmptyString;
      "Required:";
      "  --slug <SLUG>              Slug of the link to update.";
      EmptyString;
      "Optional:";
      "  --enabled <BOOL>           New enabled state (true/false).";
      "  --expires-at <RFC3339|clear>";
      "                             Set the expiry, or 'clear' to drop it.";
      "  --tags <A,B,C>             Replacement tags (comma-separated; empty";
      "                             value clears all tags).";
      "  --metadata <KEY=VALUE,...> Replacement metadata (comma-separated;";
      "                             empty value clears all metadata).";
      "  --campaign-name|-source|-medium|-term|-content|-id <VALUE>";
      "                             Set campaign attribution fields.";
      "  --clear-campaign           Clear the campaign (mutually exclusive";
      "                             with --campaign-*)."]
  | verb_del =>
      text_lines ["Usage: url_shortener link delete --slug <SLUG>";
      EmptyString;
      "Soft-delete a link.";
      EmptyString;
      "  --slug <SLUG>              Slug of the link to delete (required)."]
  | verb_enable =>
      text_lines ["Usage: url_shortener link enable --slug <SLUG>";
      EmptyString;
      "Enable a link.";
      EmptyString;
      "  --slug <SLUG>              Slug of the link to enable (required)."]
  | verb_disable =>
      text_lines ["Usage: url_shortener link disable --slug <SLUG>";
      EmptyString;
      "Disable a link.";
      EmptyString;
      "  --slug <SLUG>              Slug of the link to disable (required)."]
  | verb_restore =>
      text_lines ["Usage: url_shortener link restore --slug <SLUG>";
      EmptyString;
      "Restore a soft-deleted link.";
      EmptyString;
      "  --slug <SLUG>              Slug of the link to restore (required)."]
  | verb_preview =>
      text_lines ["Usage: url_shortener link preview (--slug <SLUG> | --id <ID>)";
      EmptyString;
      "Preview a link's target without redirecting. Exactly one selector";
      "is required.";
      EmptyString;
      "  --slug <SLUG>              Look up the link by slug.";
      "  --id <ID>                  Look up the link by id."]
  | verb_stats =>
      text_lines ["Usage: url_shortener link stats --slug <SLUG> --from <EPOCH> --to <EPOCH> --bucket <BUCKET>";
      EmptyString;
      "Report click statistics for a link. All flags are required.";
      EmptyString;
      "  --slug <SLUG>              Slug of the link to report on.";
      "  --from <EPOCH>             Window start as a Unix epoch.";
      "  --to <EPOCH>               Window end as a Unix epoch.";
      "  --bucket <BUCKET>          Aggregation granularity: hour, day, or week."]
  end.

(** ** [link <verb>] *)
Section parser.
Context {PO : ProgramOptions}.

(** [args] are the tokens after the program name; the first is [link]. *)
Definition parseLinkCommand (args : list str) (config : ServerConfig) : CliFault + (LinkCliCommand * ServerConfig) :=
  match args with
  | _ :: token :: verb_args =>
      verb ← parseLinkVerb token;
      match verb with
      | verb_create => '(c, config') ← parseCreateArgs verb_args config; inr (mkLinkCliCommand verb (pl_create c), config')
      | verb_get => q ← parseGetArgs verb_args; inr (mkLinkCliCommand verb (pl_get q), config)
      | verb_update => c ← parseUpdateArgs verb_args; inr (mkLinkCliCommand verb (pl_update c), config)
      | verb_del => s ← parseDeleteArgs verb_args; inr (mkLinkCliCommand verb (pl_delete s), config)
      | verb_enable => '(s, b) ← parseSetEnabledArgs verb_args true; inr (mkLinkCliCommand verb (pl_set_enabled s b), config)
      | verb_disable => '(s, b) ← parseSetEnabledArgs verb_args false; inr (mkLinkCliCommand verb (pl_set_enabled s b), config)
      | verb_restore => s ← parseRestoreArgs verb_args; inr (mkLinkCliCommand verb (pl_restore s), config)
      | verb_preview => q ← parsePreviewArgs verb_args; inr (mkLinkCliCommand verb (pl_get q), config)
      | verb_stats => q ← parseStatsArgs verb_args; inr (mkLinkCliCommand verb (pl_stats q), config)
      end
  | _ => invalid "Missing link subcommand. Expected: link <verb> [options]."
  end.

(** ** Environment variables *)
(** [std::stoul] and the check against 32 bits; an exception is wrapped. *)
Definition env_uint32 (name raw : str) : CliFault + Z :=
  match stoull raw with
  | None => inl (runtime_error (name ++ (": stoul" : str)))
  | Some (v, _) =>
      if (2 ^ 32 - 1 <? v)%Z then inl (runtime_error (name ++ (": value exceeds uint32 max" : str))) else inr v
  end.

Definition env_option {A : Type} (getenv : gmap str str) (name : str) (parse : str → CliFault + A) (initial : A) : CliFault + A :=
  match getenv !! name with Some raw => parse raw | None => inr initial end.

Definition load_env (getenv : gmap str str) (c : ServerConfig) : CliFault + ServerConfig :=
  let base_domain := default (shortener_base_domain c) (getenv !! ("SHORTENER_BASE_DOMAIN" : str)) in
  let redirect := default (shortener_default_redirect_type c) (getenv !! ("SHORTENER_DEFAULT_REDIRECT_TYPE" : str)) in
  expiry ← env_option getenv "SHORTENER_DEFAULT_EXPIRY_SECONDS"
             (fun raw => v ← env_uint32 "SHORTENER_DEFAULT_EXPIRY_SECONDS" raw; inr (Some v)) (shortener_default_expiry_seconds c);
  slug_length ← env_option getenv "SHORTENER_GENERATED_SLUG_LENGTH"
             (fun raw => v ← env_uint32 "SHORTENER_GENERATED_SLUG_LENGTH" raw; inr (Z.to_nat v)) (shortener_generated_slug_length c);
  private ← env_option getenv "SHORTENER_ALLOW_PRIVATE_TARGETS" parseBool (shortener_allow_private_targets c);
  inr (mkServerConfig (tls_port c) (hsts_max_age c) base_domain redirect expiry slug_length private (analytics_enabled c)
    (analytics_queue_capacity c) (analytics_client_hash_salt c) (request_id_max_length c) (max_request_body_bytes c)
    (max_request_target_length c) (http_redirect_to_https c) (tls_enabled c)).

(** ** Server flags *)
Definition string_default (name : string) (d : str) : OptionSpec := opt name (one_string (Some d)).
Definition uint32_option (name : string) : OptionSpec := opt name (one_uint32 None).
Definition uint32_default (name : string) (d : Z) : OptionSpec := opt name (one_uint32 (Some d)).

Definition general_opts : list OptionSpec := [opt "help" no_value].

Definition http_opts : list OptionSpec :=
  [uint32_option "http-port"; text_option "http-enabled"; text_option "http-redirect-to-https"; uint32_option "hsts-max-age"].

Definition tls_opts (t : TlsFiles) : list OptionSpec :=
  [text_option "tls-enabled"; uint32_option "https-port"; text_option "tls-cert"; text_option "tls-key";
   text_option "tls-key-passphrase"; text_option "tls-ca-file"; text_option "tls-ca-path";
   string_default "tls-min-version" (min_version t); text_option "tls-cipher-suites"; text_option "tls-ciphers";
   string_default "tls-curves" (curves t); string_default "tls-alpn" (alpn t);
   text_option "tls-session-tickets"; text_option "tls-session-cache"; text_option "tls-client-auth"].

Definition shortener_opts (c : ServerConfig) : list OptionSpec :=
  [text_option "shortener-base-domain"; string_default "shortener-default-redirect-type" (shortener_default_redirect_type c);
   uint32_option "shortener-default-expiry-seconds";
   uint32_default "shortener-generated-slug-length" (Z.of_nat (shortener_generated_slug_length c));
   text_option "shortener-allow-private-targets"].

Definition analytics_opts (c : ServerConfig) : list OptionSpec :=
  [text_option "analytics-enabled"; uint32_default "analytics-queue-capacity" (Z.of_N (analytics_queue_capacity c));
   string_default "analytics-client-hash-salt" (analytics_client_hash_salt c)].

Definition request_opts (c : ServerConfig) : list OptionSpec :=
  [uint32_default "request-id-max-length" (Z.of_nat (request_id_max_length c));
   uint32_default "max-request-body-bytes" (Z.of_N (max_request_body_bytes c));
   uint32_default "max-request-target-length" (Z.of_N (max_request_target_length c))].

Definition positional_hidden : list OptionSpec := [uint32_option "positional-port"].

Definition server_options (cfg : CliConfig) : list OptionSpec :=
  general_opts ++ http_opts ++ tls_opts (cc_tls cfg) ++ shortener_opts (cc_server cfg) ++ analytics_opts (cc_server cfg)
  ++ request_opts (cc_server cfg) ++ positional_hidden.

(** A variable bound to an option keeps its value when the option is absent. *)
Definition bound_string (vm : variables_map) (name : str) (initial : str) : str := default initial (vm_string vm name).
Definition bound_uint32 (vm : variables_map) (name : str) (initial : Z) : Z := default initial (vm_uint32 vm name).
Definition bool_flag (vm : variables_map) (name : str) (initial : bool) : CliFault + bool :=
  let raw := bound_string vm name [] in
  if bool_decide (raw = []) then inr initial else parseBool raw.
Definition optional_string (vm : variables_map) (name : str) (initial : option str) : option str :=
  match vm_string vm name with Some v => Some v | None => initial end.
Definition optional_uint32 (vm : variables_map) (name : str) (initial : option Z) : option Z :=
  match vm_uint32 vm name with Some v => Some v | None => initial end.

(** [notify] assigns the bound variables in the order of their names, so the
    positional port comes after [--http-port]. *)
Definition raw_http_port (vm : variables_map) (initial : Z) : Z :=
  bound_uint32 vm "positional-port" (bound_uint32 vm "http-port" initial).

Definition port_flag (vm : variables_map) (names : list string) (raw initial : Z) : CliFault + Z :=
  if existsb (fun n => vm_count vm (String.list_ascii_of_string n)) names then parsePort raw else inr initial.

Definition convert_tls (vm : variables_map) (t : TlsFiles) : CliFault + TlsFiles :=
  tickets ← bool_flag vm "tls-session-tickets" (session_tickets t);
  cache ← bool_flag vm "tls-session-cache" (session_cache t);
  let mode := bound_string vm "tls-client-auth" [] in
  inr (mkTlsFiles (bound_string vm "tls-cert" (certificate_chain_file t)) (bound_string vm "tls-key" (private_key_file t))
    (optional_string vm "tls-key-passphrase" (private_key_passphrase t)) (optional_string vm "tls-ca-file" (ca_file t))
    (optional_string vm "tls-ca-path" (ca_path t)) (bound_string vm "tls-min-version" (min_version t))
    (bound_string vm "tls-cipher-suites" (cipher_suites t)) (bound_string vm "tls-ciphers" (ciphers t))
    (bound_string vm "tls-curves" (curves t)) (bound_string vm "tls-alpn" (alpn t)) tickets cache
    (if bool_decide (mode = []) then client_auth_mode t else parseClientAuthMode mode)).

(** The conversions after [notify], in the order of the source. *)
Definition convert (vm : variables_map) (cfg : CliConfig) : CliFault + CliConfig :=
  let c := cc_server cfg in
  port ← port_flag vm ["http-port"; "positional-port"] (raw_http_port vm (http_port cfg)) (http_port cfg);
  http_on ← bool_flag vm "http-enabled" (http_enabled cfg);
  to_https ← bool_flag vm "http-redirect-to-https" (http_redirect_to_https c);
  let hsts := optional_uint32 vm "hsts-max-age" (hsts_max_age c) in
  tls_on ← bool_flag vm "tls-enabled" (tls_enabled c);
  https_port ← port_flag vm ["https-port"] (bound_uint32 vm "https-port" (tls_port c)) (tls_port c);
  tls ← convert_tls vm (cc_tls cfg);
  private ← bool_flag vm "shortener-allow-private-targets" (shortener_allow_private_targets c);
  let expiry := optional_uint32 vm "shortener-default-expiry-seconds" (shortener_default_expiry_seconds c) in
  analytics ← bool_flag vm "analytics-enabled" (analytics_enabled c);
  inr (mkCliConfig port http_on tls
    (mkServerConfig https_port hsts
      (bound_string vm "shortener-base-domain" (shortener_base_domain c))
      (bound_string vm "shortener-default-redirect-type" (shortener_default_redirect_type c)) expiry
      (Z.to_nat (bound_uint32 vm "shortener-generated-slug-length" (Z.of_nat (shortener_generated_slug_length c))))
      private analytics
      (Z.to_N (bound_uint32 vm "analytics-queue-capacity" (Z.of_N (analytics_queue_capacity c))))
      (bound_string vm "analytics-client-hash-salt" (analytics_client_hash_salt c))
      (Z.to_nat (bound_uint32 vm "request-id-max-length" (Z.of_nat (request_id_max_length c))))
      (Z.to_N (bound_uint32 vm "max-request-body-bytes" (Z.of_N (max_request_body_bytes c))))
      (Z.to_N (bound_uint32 vm "max-request-target-length" (Z.of_N (max_request_target_length c))))
      to_https tls_on)).

(** ** [CliParser::parse]

    [visible] is the printed description of the visible options; [argv] holds
    the tokens after the program name. *)
Definition with_server (cfg : CliConfig) (c : ServerConfig) : CliConfig :=
  mkCliConfig (http_port cfg) (http_enabled cfg) (cc_tls cfg) c.

Definition parse_server (visible : str) (cfg : CliConfig) (argv : list str) : CliFault + ParseResult :=
  match po_run (server_options cfg) (Some ("positional-port" : str)) argv with
  | inl what => invalid what
  | inr vm =>
      if vm_count vm "help"
      then inr (mkParseResult cfg (Some (text_lines ["Usage: simple-http [OPTIONS] [PORT]"; EmptyString] ++ visible)) None)
      else cfg' ← convert vm cfg; inr (mkParseResult cfg' None None)
  end.

Definition link_help (args : list str) : CliFault + str :=
  match args with
  | [] => inr buildLinkHelpText
  | first :: _ =>
      if bool_decide (first = []) || is_help first then inr buildLinkHelpText
      else verb ← parseLinkVerb first; inr (buildLinkVerbHelpText verb)
  end.

Definition parse (visible : str) (getenv : gmap str str) (argv : list str) : CliFault + ParseResult :=
  server ← load_env getenv (cc_server default_cli_config);
  let cfg := with_server default_cli_config server in
  match argv with
  | first :: link_args =>
      if bool_decide (first = "link") then
        if linkHelpRequested link_args then
          help ← link_help link_args; inr (mkParseResult cfg (Some help) None)
        else
          '(command, server') ← parseLinkCommand argv server;
          inr (mkParseResult (with_server cfg server') None (Some command))
      else parse_server visible cfg argv
  | [] => parse_server visible cfg argv
  end.
End parser.

(** ** One-shot dispatch *)
Record CliOutput := mkCliOutput {
  out_stdout : str;
  out_stderr : str;
  exit_code : Z;
}.

Definition ExitCodeForAppError (code : AppErrorCode.t) : Z :=
  match code with
  | AppErrorCode.none => 0
  | AppErrorCode.not_found => 1
  | AppErrorCode.invalid_url | AppErrorCode.invalid_slug | AppErrorCode.invalid_field | AppErrorCode.reserved_slug => 2
  | AppErrorCode.slug_conflict => 3
  | AppErrorCode.storage_failure | AppErrorCode.internal => 4
  end.

Definition report_failure (verb : str) (error : AppError) : CliOutput :=
  mkCliOutput [] (verb ++ (" failed: " : str) ++ err_detail error ++ [newline]) (ExitCodeForAppError (err_code error)).

(** [report_result] and, with the preview serializer, [report_preview_result]. *)
Definition report_with {View} (serialize : View → str) (verb : str) (result : Result View) : CliOutput :=
  if ok result
  then mkCliOutput (match res_value result with Some v => serialize v ++ [newline] | None => [] end) [] 0
  else report_failure verb (res_error result).

Section dispatch.
Context (iterate_codes : gmap Z N → list (Z * N)) (iterate_domains : gmap str N → list (str * N)).

(** The service of [BuildLegacyLinkCommandService] in a new process: its store
    and its click events are empty. [None] is the exception of [std::get] on a
    payload that does not fit the verb. *)
Definition DispatchLinkCommand (command : LinkCliCommand) (config : ServerConfig) (e : Env) : option CliOutput :=
  let verb := verb_token (lc_verb command) in
  let w := (e, empty_storage) in
  let answer (m : ST (Env * LinkStorage) (Result LinkView)) :=
    Some (report_with serializeLinkViewJson verb (m w).1) in
  match lc_verb command, lc_payload command with
  | verb_create, pl_create c => answer (CreateLink config c)
  | verb_get, pl_get q => answer (GetLink config q)
  | verb_update, pl_update c => answer (UpdateLink config c)
  | verb_del, pl_delete s => answer (DeleteLink config s)
  | verb_enable, pl_set_enabled s b | verb_disable, pl_set_enabled s b => answer (SetLinkEnabled config s b)
  | verb_restore, pl_restore s => answer (RestoreLink config s)
  | verb_preview, pl_get q => Some (report_with serializeLinkPreviewJson verb (PreviewLink config q w).1)
  | verb_stats, pl_stats q =>
      Some (report_with serializeLinkStatsJson verb (read_stats iterate_codes iterate_domains q []))
  | _, _ => None
  end.

(** ** [main]

    An uncaught exception is logged and the process exits with 1; without a
    [link] command the server starts with the configuration, its base domain
    normalised by the constructor of [HttpServer]. *)
Inductive MainOutcome := exits (output : CliOutput) | fails | serves (config : CliConfig).

Definition HttpServer_config (config : CliConfig) : option CliConfig :=
  match normalizeAndValidateBaseDomain (shortener_base_domain (cc_server config)) with
  | inl _ => None
  | inr domain => Some (with_server config (set_base_domain domain (cc_server config)))
  end.

Definition main `{!ProgramOptions} (visible : str) (getenv : gmap str str) (argv : list str) (e : Env) : MainOutcome :=
  match parse visible getenv argv with
  | inl _ => fails
  | inr r =>
      match pr_help r, pr_command r with
      | Some text, _ => exits (mkCliOutput text [] 0)
      | None, Some command =>
          match DispatchLinkCommand command (cc_server (pr_config r)) e with
          | Some output => exits output
          | None => fails
          end
      | None, None =>
          match HttpServer_config (pr_config r) with
          | Some config => serves config
          | None => fails
          end
      end
  end.
End dispatch.
