(* ===== verification/CliProps.v ===== *)
(** * CliProps: what the command line guarantees

    Command lines written from a command parse back to it, for any library that
    meets [ProgramOptions]; a parsed command always dispatches; ports and
    widths of the configuration stay in range; flags win over environment
    variables. *)
From S2P Require Import Prelude Text Env Clock Numbers Types Url Validation LinkRepository LinkStore LinkCommands.
From S2P Require Import ClickEvents LinkJson ProgramOptions LinkArgs Cli.

(** ** Command lines as lists of fields *)
Inductive field :=
  | F_text (name : string) (value : option str)
  | F_many (name : string) (values : list str)
  | F_switch (name : string) (given : bool).

Definition field_name (f : field) : str :=
  match f with F_text n _ | F_many n _ | F_switch n _ => n end.

Definition field_items (f : field) : list item :=
  match f with
  | F_text n o => match o with Some v => [(n : str, Some v)] | None => [] end
  | F_many n l => map (fun v => (n : str, Some v)) l
  | F_switch n b => if b then [(n : str, None)] else []
  end.
Definition items_of (fs : list field) : list item := flat_map field_items fs.

(** The option exists with the right kind, and its values are plain. *)
Definition field_fits (desc : list OptionSpec) (f : field) : bool :=
  match find_option desc (field_name f), f with
  | Some (opt _ (one_string _)), F_text _ o => match o with Some v => plain_value v | None => true end
  | Some (opt _ many_strings), F_many _ l => forallb plain_value l
  | Some (opt _ bool_switch), F_switch _ _ => true
  | _, _ => false
  end.

Definition fields_ok (desc : list OptionSpec) (fs : list field) : bool :=
  desc_ok desc && bool_decide (NoDup (field_name <$> fs)) && forallb (field_fits desc) fs.

Lemma field_items_name f i : i ∈ field_items f → i.1 = field_name f.
Proof.
  destruct f as [n [v|]|n l|n []]; simpl; intros H; try (by apply elem_of_nil in H); try (by apply list_elem_of_singleton in H as ->).
  by apply list_elem_of_fmap in H as (v & -> & _).
Qed.

(** The items of one name are those of the field with that name. *)
Lemma items_named fs n (p : item → bool) (f : field) :
  (∀ i, p i = true → i.1 = n) → NoDup (field_name <$> fs) → f ∈ fs → field_name f = n →
  List.filter p (items_of fs) = List.filter p (field_items f).
Proof.
  intros Hp Hnd Hf Hn. assert (Hother : ∀ g, field_name g ≠ n → List.filter p (field_items g) = []).
  { intros g Hg. assert (Hall : ∀ i, i ∈ field_items g → p i = false).
    { intros i Hi. destruct (p i) eqn:E; [|done]. apply Hp in E. apply field_items_name in Hi. congruence. }
    induction (field_items g) as [|i l IH]; [done|]. simpl. rewrite (Hall i) by (by left). apply IH. intros j Hj. apply Hall. by right. }
  unfold items_of. induction fs as [|g fs IH]; [by apply elem_of_nil in Hf|]. apply NoDup_cons in Hnd as [Hg Hnd].
  simpl. rewrite List.filter_app. apply elem_of_cons in Hf as [->|Hf].
  - replace (List.filter p (flat_map field_items fs)) with (@nil item); [by rewrite app_nil_r|]. symmetry.
    clear IH Hnd. induction fs as [|h fs IH]; [done|]. csimpl in Hg. apply not_elem_of_cons in Hg as [H1 H2].
    simpl. rewrite List.filter_app, Hother, IH; [done|done|congruence].
  - rewrite (IH Hnd Hf), Hother; [done|]. intros Heq. apply Hg. rewrite Heq, <- Hn. apply list_elem_of_fmap. by exists f.
Qed.

Definition named (n : str) (i : item) : bool := bool_decide (i.1 = n).

Lemma values_of_filter n l : values_of n l = omap snd (List.filter (named n) l).
Proof. unfold named. induction l as [|[m v] l IH]; [done|]. simpl. case_bool_decide; simpl; rewrite IH; by destruct v. Qed.
Lemma mentions_filter n l : mentions n l = negb (bool_decide (List.filter (named n) l = [])).
Proof. unfold named. induction l as [|[m v] l IH]; [done|]. simpl. destruct (bool_decide (m = n)) eqn:E; simpl; [reflexivity|exact IH]. Qed.

Lemma named_field_items f : List.filter (named (field_name f)) (field_items f) = field_items f.
Proof.
  assert (Hall : ∀ i, i ∈ field_items f → named (field_name f) i = true).
  { intros i Hi. apply bool_decide_eq_true_2. by apply field_items_name. }
  induction (field_items f) as [|i l IH]; [done|]. simpl. rewrite (Hall i) by (by left). f_equal. apply IH. intros j Hj. apply Hall. by right.
Qed.

Lemma values_of_field fs f : NoDup (field_name <$> fs) → f ∈ fs → values_of (field_name f) (items_of fs) = omap snd (field_items f).
Proof.
  intros Hnd Hf. rewrite values_of_filter, (items_named fs (field_name f) _ f), named_field_items; try done.
  intros i H. by apply bool_decide_eq_true in H.
Qed.
Lemma mentions_field fs f : NoDup (field_name <$> fs) → f ∈ fs → mentions (field_name f) (items_of fs) = negb (bool_decide (field_items f = [])).
Proof.
  intros Hnd Hf. rewrite mentions_filter, (items_named fs (field_name f) _ f), named_field_items; try done.
  intros i H. by apply bool_decide_eq_true in H.
Qed.

Lemma fields_ok_inv desc fs : fields_ok desc fs = true →
  desc_ok desc = true ∧ NoDup (field_name <$> fs) ∧ ∀ f, f ∈ fs → field_fits desc f = true.
Proof.
  intros [[Hd Hnd%bool_decide_eq_true]%andb_true_iff Hf]%andb_true_iff. split; [done|]. split; [done|].
  intros f Hin. rewrite forallb_forall in Hf. apply Hf. by apply list_elem_of_In.
Qed.

Lemma field_item_ok desc f i : field_fits desc f = true → i ∈ field_items f → item_ok desc i = true.
Proof.
  unfold field_fits, item_ok. intros Hf Hi. rewrite (field_items_name f i Hi).
  destruct (find_option desc (field_name f)) as [[n [d| |d| |]]|]; try done; destruct f as [m [v|]|m l|m []]; try done; cbn in Hi;
    try (by apply elem_of_nil in Hi); cbn [opt_kind takes_value negb];
    try (apply list_elem_of_singleton in Hi as ->; cbn [snd]; unfold value_ok; by rewrite ?Hf).
  apply list_elem_of_fmap in Hi as (v & -> & Hv). cbn [snd]. rewrite forallb_forall in Hf. unfold value_ok.
  by rewrite Hf by (by apply list_elem_of_In).
Qed.

Lemma field_items_short desc f o :
  field_fits desc f = true → find_option desc (field_name f) = Some o → opt_kind o ≠ many_strings → (length (field_items f) <= 1)%nat.
Proof.
  unfold field_fits. intros Hf Ho Hk. rewrite Ho in Hf. destruct o as [n [d| |d| |]]; try done; destruct f as [m [v|]|m l|m []]; simpl in *; try done; lia.
Qed.

Lemma fields_items_ok desc fs : fields_ok desc fs = true → items_ok desc (items_of fs) = true.
Proof.
  intros (Hd & Hnd & Hfit)%fields_ok_inv. apply andb_true_iff. split.
  - apply forallb_forall. intros i Hi. apply in_flat_map in Hi as (f & Hf & Hi). apply list_elem_of_In in Hf. apply list_elem_of_In in Hi.
    eapply field_item_ok; [by apply Hfit|done].
  - apply forallb_forall. intros o Ho. rewrite <- list_elem_of_In in Ho.
    assert (Hcount : opt_kind o ≠ many_strings →
      (length (List.filter (fun i : item => bool_decide (i.1 = opt_name o)) (items_of fs)) <=? 1)%nat = true).
    { intros Hk. apply Nat.leb_le. destruct (decide (opt_name o ∈ field_name <$> fs)) as [Hin|Hout].
      - apply list_elem_of_fmap in Hin as (f & Hn & Hf). fold (named (opt_name o)).
        rewrite (items_named fs (opt_name o) _ f), Hn, named_field_items; try done; [|by intros i H%bool_decide_eq_true].
        eapply (field_items_short desc f o); [by apply Hfit| |done]. rewrite <- Hn.
        apply andb_true_iff in Hd as [Hnd'%bool_decide_eq_true _]. by apply find_option_In.
      - replace (List.filter _ (items_of fs)) with (@nil item); [simpl; lia|]. symmetry.
        assert (Hall : ∀ i, i ∈ items_of fs → i.1 ≠ opt_name o).
        { intros i Hi Heq. apply Hout. rewrite list_elem_of_In in Hi. apply in_flat_map in Hi as (f & Hf & Hi).
          apply list_elem_of_In in Hf. apply list_elem_of_In in Hi. apply list_elem_of_fmap. exists f. split; [|done].
          by rewrite <- Heq, (field_items_name f i Hi). }
        induction (items_of fs) as [|i l IH]; [done|]. simpl.
        rewrite bool_decide_eq_false_2 by (by apply Hall; left). apply IH. intros j Hj. apply Hall. by right. }
    by destruct (opt_kind o); try apply Hcount.
Qed.

(** ** Reading the fields back *)
Section read_back.
Context {PO : ProgramOptions}.

Lemma runVerbParse_fields desc fs :
  fields_ok desc fs = true → runVerbParse (render (items_of fs)) desc = inr (vm_of desc (items_of fs)).
Proof.
  intros Hok. unfold runVerbParse. rewrite po_canonical; [done| |by apply fields_items_ok]. by apply fields_ok_inv in Hok as [? _].
Qed.

Lemma field_value desc fs f : fields_ok desc fs = true → f ∈ fs →
  ∃ k, find_option desc (field_name f) = Some (opt (field_name f) k) ∧
    vm_of desc (items_of fs) !! field_name f = value_of (opt (field_name f) k) (items_of fs) ∧
    values_of (field_name f) (items_of fs) = omap snd (field_items f) ∧
    mentions (field_name f) (items_of fs) = negb (bool_decide (field_items f = [])) ∧ field_fits desc f = true.
Proof.
  intros (Hd & Hnd & Hfit)%fields_ok_inv Hin. specialize (Hfit _ Hin). pose proof Hfit as Hf. unfold field_fits in Hf.
  destruct (find_option desc (field_name f)) as [[m k]|] eqn:Ho; [|done]. pose proof (find_option_Some _ _ _ Ho) as [_ Hname].
  cbn [opt_name] in Hname. subst m. exists k. split_and!; [done| | | |done].
  - by apply vm_of_lookup.
  - by apply values_of_field.
  - by apply mentions_field.
Qed.

Lemma vm_text desc fs (n : string) o :
  fields_ok desc fs = true → F_text n o ∈ fs → find_option desc n = Some (text_option n) →
  vm_string (vm_of desc (items_of fs)) n = o.
Proof.
  intros Hok Hin Hk. destruct (field_value _ _ _ Hok Hin) as (k & Ho & Hv & Hvals & _). cbn [field_name] in *.
  rewrite Hk in Ho. injection Ho as <-. unfold vm_string. rewrite Hv. unfold value_of. cbn [opt_name opt_kind]. rewrite Hvals.
  by destruct o.
Qed.

Lemma vm_many desc fs n l :
  fields_ok desc fs = true → F_many n l ∈ fs → vm_strings (vm_of desc (items_of fs)) n = l.
Proof.
  intros Hok Hin. destruct (field_value _ _ _ Hok Hin) as (k & Ho & Hv & Hvals & _ & Hf). unfold field_fits in Hf. rewrite Ho in Hf.
  cbn [field_name field_items] in *. destruct k; try done. unfold vm_strings. rewrite Hv. unfold value_of. cbn [opt_name opt_kind].
  rewrite Hvals. assert (omap snd (map (fun v => (n : str, Some v)) l) = l) as -> by (clear; induction l as [|x l IH]; [done|]; simpl; f_equal; exact IH).
  by destruct l.
Qed.

Lemma vm_switch desc fs n b :
  fields_ok desc fs = true → F_switch n b ∈ fs → vm_bool (vm_of desc (items_of fs)) n = b.
Proof.
  intros Hok Hin. destruct (field_value _ _ _ Hok Hin) as (k & Ho & Hv & _ & Hm & Hf). unfold field_fits in Hf. rewrite Ho in Hf.
  cbn [field_name field_items] in *. destruct k; try done. unfold vm_bool. rewrite Hv. unfold value_of. cbn [opt_name opt_kind].
  rewrite Hm. by destruct b.
Qed.
End read_back.

(** ** Lists in one value *)
Lemma split_commas_piece p rest : ","%char ∉ p → split_commas (p ++ ","%char :: rest) = p :: split_commas rest.
Proof.
  induction p as [|c p IH]; intros Hp; [done|]. apply not_elem_of_cons in Hp as [Hc Hp]. cbn [app split_commas].
  rewrite (proj2 (Ascii.eqb_neq c ",")) by congruence. by rewrite IH.
Qed.
Lemma split_commas_last p : ","%char ∉ p → split_commas p = [p].
Proof.
  induction p as [|c p IH]; intros Hp; [done|]. apply not_elem_of_cons in Hp as [Hc Hp]. cbn [split_commas].
  rewrite (proj2 (Ascii.eqb_neq c ",")) by congruence. by rewrite IH.
Qed.

Lemma splitCommaList_join l : Forall (fun p => ","%char ∉ p) l → l ≠ [[]] → splitCommaList (comma_separated l) = l.
Proof.
  intros Hl Hne. unfold splitCommaList. assert (Hsplit : l ≠ [] → split_commas (comma_separated l) = l).
  { clear Hne. induction Hl as [|p l Hp Hl IH]; intros H; [done|]. destruct l as [|q l]; [by apply split_commas_last|].
    change (comma_separated (p :: q :: l)) with (p ++ ","%char :: comma_separated (q :: l)). by rewrite split_commas_piece, IH. }
  destruct l as [|p l]; [done|]. rewrite bool_decide_eq_false_2; [by apply Hsplit|].
  destruct l as [|q l]; [simpl; congruence|]. simpl. by destruct p.
Qed.

Definition entry_text (kv : str * str) : str := kv.1 ++ "="%char :: kv.2.

(** Keys and values that survive the [k=v,...] syntax of [update]. *)
Definition entry_plain (k v : str) : Prop :=
  k ≠ [] ∧ "="%char ∉ k ∧ ","%char ∉ k ∧ "="%char ∉ v ∧ ","%char ∉ v.

Lemma split_entry_text k v : k ≠ [] → "="%char ∉ k → split_entry (entry_text (k, v)) = Some (k, v).
Proof.
  intros Hne Hk. unfold split_entry, entry_text. cbn [fst snd]. rewrite (find_char_first _ _ _ Hk).
  destruct k as [|c k]; [done|]. cbn [length]. rewrite take_app_length', (drop_app_ge _ _ (S (length (c :: k)))) by (simpl; lia).
  replace (S (length (c :: k)) - length (c :: k)) with 1 by lia. done.
Qed.

Lemma foldl_insert (l : list (str * str)) (acc : gmap str str) :
  NoDup l.*1 → (∀ k, k ∈ l.*1 → acc !! k = None) →
  foldl (fun m (kv : str * str) => <[kv.1 := kv.2]> m) acc l = list_to_map l ∪ acc.
Proof.
  revert acc. induction l as [|[k v] l IH]; intros acc Hnd Hacc; cbn [foldl fst snd].
  { by rewrite list_to_map_nil, (left_id_L ∅ (∪)). }
  csimpl in Hnd. apply NoDup_cons in Hnd as [Hk Hnd]. rewrite IH; [|done|].
  - rewrite list_to_map_cons, <- insert_union_l, insert_union_r; [done|]. by apply not_elem_of_list_to_map_1.
  - intros k' Hk'. rewrite lookup_insert_ne by (intros ->; done). apply Hacc. csimpl. by right.
Qed.

(** Folding entries into a map, for either of the two syntaxes. *)
Lemma fold_entries (add : CliFault + gmap str str → str → CliFault + gmap str str) (P : str → str → Prop) (m : gmap str str) :
  (∀ acc k v, P k v → add (inr acc) (entry_text (k, v)) = inr (<[k := v]> acc)) → map_Forall P m →
  foldl add (inr ∅) (entry_text <$> map_to_list m) = inr m.
Proof.
  intros Hadd Hm.
  assert (Hfold : ∀ l acc, Forall (fun kv => P kv.1 kv.2) l →
    foldl add (inr acc) (entry_text <$> l) = inr (foldl (fun m (kv : str * str) => <[kv.1 := kv.2]> m) acc l)).
  { intros l. induction l as [|[k v] l IH]; intros acc Hl; [done|]. apply Forall_cons in Hl as [HP Hl]. csimpl.
    rewrite Hadd by done. by apply IH. }
  rewrite Hfold.
  - rewrite foldl_insert; [|apply NoDup_fst_map_to_list|set_solver]. by rewrite (right_id_L ∅ (∪)), list_to_map_to_list.
  - apply Forall_forall. intros [k v] Hin%elem_of_map_to_list. by apply Hm in Hin.
Qed.

Lemma parseMetadataList_print (m : gmap str str) :
  map_Forall entry_plain m → parseMetadataList (comma_separated (entry_text <$> map_to_list m)) = inr m.
Proof.
  intros Hm. unfold parseMetadataList. rewrite splitCommaList_join.
  - apply (fold_entries _ entry_plain); [|done]. intros acc k v (H1 & H2 & _ & H4 & _). unfold add_list_entry. cbn [mbind fault_bind].
    rewrite split_entry_text by done. by rewrite (proj2 (find_char_None "=" v)).
  - apply Forall_fmap, Forall_forall. intros [k v] Hin%elem_of_map_to_list. apply Hm in Hin as (H1 & H2 & H3 & H4 & H5).
    unfold compose, entry_text. cbn [fst snd]. apply not_elem_of_app. split; [done|]. by apply not_elem_of_cons.
  - intros Heq. destruct (map_to_list m) as [|[k v] l]; [done|]. csimpl in Heq. injection Heq as Heq _. unfold entry_text in Heq.
    by destruct k.
Qed.

(** ** Writing commands as command lines *)
Definition bool_text (b : bool) : str := if b then "true" else "false".

Definition campaign_fields (c : option Campaign) : list field :=
  [F_text "campaign-name" (c ≫= cp_name); F_text "campaign-source" (c ≫= cp_source);
   F_text "campaign-medium" (c ≫= cp_medium); F_text "campaign-term" (c ≫= cp_term);
   F_text "campaign-content" (c ≫= cp_content); F_text "campaign-id" (c ≫= cp_id)].

Definition update_fields (c : UpdateLinkCommand) : list field :=
  [F_text "slug" (Some (ul_slug c)); F_text "enabled" (bool_text <$> ul_enabled c);
   F_text "expires-at" (default ("clear" : str) <$> ul_expires_at c); F_text "tags" (comma_separated <$> ul_tags c);
   F_text "metadata" ((fun m => comma_separated (entry_text <$> map_to_list m)) <$> ul_metadata c)]
  ++ campaign_fields (mjoin (ul_campaign c)) ++ [F_switch "clear-campaign" (bool_decide (ul_campaign c = Some None))].

Definition create_fields (c : CreateLinkCommand) (base_domain : option str) (allow_private : bool) : list field :=
  [F_text "url" (Some (cl_target_url c)); F_text "slug" (cl_slug c);
   F_text "redirect-type" (redirectTypeToString <$> cl_redirect_type c); F_text "expires-at" (cl_expires_at c);
   F_text "enabled" (bool_text <$> cl_enabled c); F_many "tag" (cl_tags c);
   F_many "metadata" (entry_text <$> map_to_list (cl_metadata c))]
  ++ campaign_fields (cl_campaign c) ++ [F_text "base-domain" base_domain; F_switch "allow-private-targets" allow_private].

(** Values a separate token can carry. *)
Definition plain (o : option str) : Prop := match o with Some v => plain_value v = true | None => True end.
Definition given (o : option str) : Prop := match o with Some v => v ≠ [] ∧ plain_value v = true | None => True end.

Definition campaign_plain (c : option Campaign) : Prop :=
  match c with
  | None => True
  | Some cp => plain (cp_name cp) ∧ plain (cp_source cp) ∧ plain (cp_medium cp) ∧ plain (cp_term cp) ∧
      plain (cp_content cp) ∧ plain (cp_id cp) ∧ cp ≠ mkCampaign None None None None None None
  end.

(** What the flags of [update] can express: no empty selector or expiry, no
    comma in a tag, no comma or second equals sign in a metadata entry. *)
Record update_expressible (c : UpdateLinkCommand) : Prop := {
  ue_slug : given (Some (ul_slug c));
  ue_expiry : given (mjoin (ul_expires_at c)) ∧ ul_expires_at c ≠ Some (Some ("clear" : str));
  ue_tags : ∀ l, ul_tags c = Some l → Forall (fun t => ","%char ∉ t) l ∧ l ≠ [[]] ∧ plain (Some (comma_separated l));
  ue_metadata : ∀ m, ul_metadata c = Some m →
    map_Forall entry_plain m ∧ plain (Some (comma_separated (entry_text <$> map_to_list m)));
  ue_campaign : campaign_plain (mjoin (ul_campaign c));
}.

Record create_expressible (c : CreateLinkCommand) (base_domain : option str) : Prop := {
  ce_url : given (Some (cl_target_url c));
  ce_slug : given (cl_slug c);
  ce_expiry : given (cl_expires_at c);
  ce_tags : Forall (fun t => plain_value t = true) (cl_tags c);
  ce_metadata : map_Forall (fun k v => k ≠ [] ∧ "="%char ∉ k ∧ plain_value k = true) (cl_metadata c);
  ce_campaign : campaign_plain (cl_campaign c);
  ce_domain : given base_domain;
}.

Lemma given_plain o : given o → plain o.
Proof. destruct o; [by intros [_ ?]|done]. Qed.

Lemma text_fits desc (n : string) o : find_option desc n = Some (text_option n) → plain o → field_fits desc (F_text n o) = true.
Proof. intros H Hp. unfold field_fits. cbn [field_name]. rewrite H. by destruct o. Qed.

Lemma campaign_fits desc c :
  (∀ n : string, n ∈ ["campaign-name"; "campaign-source"; "campaign-medium"; "campaign-term"; "campaign-content"; "campaign-id"] →
    find_option desc n = Some (text_option n)) →
  campaign_plain c → Forall (fun f => field_fits desc f = true) (campaign_fields c).
Proof.
  intros Hd Hc. unfold campaign_fields. destruct c as [cp|]; [destruct Hc as (? & ? & ? & ? & ? & ? & _)|];
    repeat constructor; (apply text_fits; [apply Hd; set_solver|done]).
Qed.

Lemma requireNonEmpty_given flag v : v ≠ [] → requireNonEmpty flag v = inr tt.
Proof. intros H. unfold requireNonEmpty. by rewrite bool_decide_eq_false_2. Qed.

Lemma parseBoolFlag_text flag b : parseBoolFlag flag (bool_text b) = inr b.
Proof. by destruct b. Qed.

(** Looks up each option of a literal list in a literal table. *)
Ltac vm_compute_options :=
  let n := fresh "n" in let Hn := fresh "Hn" in
  intros n Hn; repeat (apply elem_of_cons in Hn as [->|Hn]; [vm_compute; reflexivity|]); by apply elem_of_nil in Hn.

(** Membership of a literal field. *)
Ltac in_fields :=
  cbn [update_fields create_fields campaign_fields app]; repeat first [left | right].

(** [fields_ok] from the option table and the fit of each field. *)
Lemma fields_ok_intro desc fs :
  desc_ok desc = true → bool_decide (NoDup (field_name <$> fs)) = true → Forall (fun f => field_fits desc f = true) fs →
  fields_ok desc fs = true.
Proof. intros H1 H2 H3. unfold fields_ok. rewrite H1, H2. cbn [andb]. by apply forallb_Forall. Qed.

Lemma update_fields_ok c : update_expressible c → fields_ok update_options (update_fields c) = true.
Proof.
  intros [H1 [H2 _] H3 H4 H5]. apply fields_ok_intro; [vm_compute; reflexivity|vm_compute; reflexivity|].
  unfold update_fields. apply Forall_app. split; [repeat constructor|apply Forall_app; split; [|repeat constructor]].
  1-5: apply text_fits; [vm_compute; reflexivity|].
  - by apply given_plain.
  - by destruct (ul_enabled c) as [[]|].
  - destruct (ul_expires_at c) as [[v|]|]; [apply H2|done|done].
  - destruct (ul_tags c) as [l|]; [by apply H3|done].
  - destruct (ul_metadata c) as [m|]; [by apply H4|done].
  - apply campaign_fits; [vm_compute_options|done].
Qed.

Lemma campaign_of_fields desc fs c :
  (∀ n : string, n ∈ ["campaign-name"; "campaign-source"; "campaign-medium"; "campaign-term"; "campaign-content"; "campaign-id"] →
    find_option desc n = Some (text_option n)) →
  fields_ok desc fs = true → (∀ f, f ∈ campaign_fields c → f ∈ fs) → campaign_plain c →
  campaign_of (vm_of desc (items_of fs)) = c.
Proof.
  intros Hd Hok Hsub Hc. unfold campaign_of, campaign_fields in *.
  rewrite (vm_text desc fs "campaign-name" (c ≫= cp_name)), (vm_text desc fs "campaign-source" (c ≫= cp_source)),
    (vm_text desc fs "campaign-medium" (c ≫= cp_medium)), (vm_text desc fs "campaign-term" (c ≫= cp_term)),
    (vm_text desc fs "campaign-content" (c ≫= cp_content)), (vm_text desc fs "campaign-id" (c ≫= cp_id));
    try done; try (apply Hsub; set_solver); try (apply Hd; set_solver).
  destruct c as [[[]  [] [] [] [] []]|]; try done. by destruct Hc as (_ & _ & _ & _ & _ & _ & []).
Qed.

(** ** Each flag by itself *)
Lemma enabled_flag_text vm e : vm_string vm "enabled" = bool_text <$> e → enabled_flag vm = inr e.
Proof. intros H. unfold enabled_flag. rewrite H. by destruct e as [[]|]. Qed.

Lemma update_expiry_text vm x :
  vm_string vm "expires-at" = default ("clear" : str) <$> x → given (mjoin x) → x ≠ Some (Some ("clear" : str)) →
  update_expiry vm = inr x.
Proof.
  intros H Hg Hc. unfold update_expiry. rewrite H. destruct x as [[v|]|]; [|done|done]. cbn [fmap option_fmap option_map default].
  rewrite bool_decide_eq_false_2 by (intros Heq; apply Hc; do 2 f_equal; exact Heq). by rewrite requireNonEmpty_given by apply Hg.
Qed.

Lemma update_metadata_text vm o :
  vm_string vm "metadata" = (fun m => comma_separated (entry_text <$> map_to_list m)) <$> o →
  (∀ m, o = Some m → map_Forall entry_plain m) → update_metadata vm = inr o.
Proof.
  intros H Hm. unfold update_metadata. rewrite H. destruct o as [m|]; [|done]. cbn [fmap option_fmap option_map].
  by rewrite parseMetadataList_print by (by apply Hm).
Qed.

Lemma update_campaign_text vm x :
  campaign_of vm = mjoin x → vm_bool vm "clear-campaign" = bool_decide (x = Some None) → update_campaign vm = inr x.
Proof. intros H1 H2. unfold update_campaign. rewrite H1, H2. by destruct x as [[]|]. Qed.

Lemma non_empty_if_given_text vm (n : string) o : vm_string vm n = o → given o → non_empty_if_given vm n = inr o.
Proof.
  intros H Hg. unfold non_empty_if_given. rewrite H. destruct o as [v|]; [|done]. by rewrite requireNonEmpty_given by apply Hg.
Qed.

Lemma create_redirect_type_text vm t :
  vm_string vm "redirect-type" = redirectTypeToString <$> t → create_redirect_type vm = inr t.
Proof. intros H. unfold create_redirect_type. rewrite H. by destruct t as [[]|]. Qed.

Section roundtrip.
Context {PO : ProgramOptions}.

(** C30: every update command the flags can express, written as flags, parses back
    to itself: absent, explicitly cleared and new values of each field are kept
    apart ([--expires-at clear], [--clear-campaign], empty [--tags] and
    [--metadata] values included), for every option library that meets the
    interface. *)
Theorem update_args_roundtrip (c : UpdateLinkCommand) :
  update_expressible c → parseUpdateArgs (render (items_of (update_fields c))) = inr c.
Proof.
  intros Hc. pose proof (update_fields_ok c Hc) as Hok. destruct Hc as [[Hslug _] [Hexp Hclear] Htags Hmeta Hcamp].
  unfold parseUpdateArgs. rewrite runVerbParse_fields by done. cbn [mbind fault_bind].
  assert (Htext : ∀ (n : string) o, find_option update_options n = Some (text_option n) → F_text n o ∈ update_fields c →
    vm_string (vm_of update_options (items_of (update_fields c))) n = o) by (intros; by apply vm_text).
  rewrite (Htext "slug" (Some (ul_slug c)) eq_refl) by in_fields. rewrite requireNonEmpty_given by done.
  rewrite (enabled_flag_text _ (ul_enabled c)) by (apply Htext; [reflexivity|in_fields]).
  rewrite (update_expiry_text _ (ul_expires_at c)) by (done || (apply Htext; [reflexivity|in_fields])).
  rewrite (Htext "tags" (comma_separated <$> ul_tags c) eq_refl) by in_fields.
  rewrite (update_metadata_text _ (ul_metadata c)); [|apply Htext; [reflexivity|in_fields]|intros m Hm; by apply Hmeta].
  rewrite (update_campaign_text _ (ul_campaign c)).
  - cbn [mbind fault_bind]. destruct c as [s e x [t|] m k]; [|done]. cbn [ul_tags] in *. cbn [fmap option_fmap option_map].
    rewrite splitCommaList_join by (by apply Htags). done.
  - apply campaign_of_fields; [vm_compute_options|done| |done]. intros f Hf. apply elem_of_app. right. apply elem_of_app. by left.
  - apply vm_switch; [done|in_fields].
Qed.

Lemma create_fields_ok c base_domain allow_private :
  create_expressible c base_domain → fields_ok create_options (create_fields c base_domain allow_private) = true.
Proof.
  intros [H1 H2 H3 H4 H5 H6 H7]. apply fields_ok_intro; [vm_compute; reflexivity|vm_compute; reflexivity|].
  unfold create_fields. apply Forall_app. split; [repeat constructor|apply Forall_app; split; [|repeat constructor]].
  1-5: apply text_fits; [vm_compute; reflexivity|].
  - by apply given_plain.
  - by apply given_plain.
  - by destruct (cl_redirect_type c) as [[]|].
  - by apply given_plain.
  - by destruct (cl_enabled c) as [[]|].
  - change (forallb plain_value (cl_tags c) = true). by apply forallb_Forall.
  - change (forallb plain_value (entry_text <$> map_to_list (cl_metadata c)) = true). apply forallb_Forall, Forall_fmap, Forall_forall.
    intros [k v] Hin%elem_of_map_to_list. apply H5 in Hin as (Hk & _ & Hp). unfold compose, entry_text. by destruct k.
  - apply campaign_fits; [vm_compute_options|done].
  - apply text_fits; [vm_compute; reflexivity|]. by apply given_plain.
Qed.

(** Every creation command the flags can express, written as flags, parses
    back to itself (repeated [--tag] in order, [--metadata] values that hold
    equals signs included), and the only configuration changes are the base
    domain and the permission for private targets the flags ask for. *)
Theorem create_args_roundtrip (c : CreateLinkCommand) base_domain allow_private config :
  create_expressible c base_domain →
  parseCreateArgs (render (items_of (create_fields c base_domain allow_private))) config =
    inr (c, (if (allow_private : bool) then set_allow_private true else fun x => x)
              (default (fun x => x) (set_base_domain <$> base_domain) config)).
Proof.
  intros Hc. pose proof (create_fields_ok c base_domain allow_private Hc) as Hok. destruct Hc as [[Hurl _] Hslug Hexp Htags Hmeta Hcamp Hdom].
  unfold parseCreateArgs. rewrite runVerbParse_fields by done. cbn [mbind fault_bind]. set (fs := create_fields c base_domain allow_private) in *.
  assert (Htext : ∀ (n : string) o, find_option create_options n = Some (text_option n) → F_text n o ∈ fs →
    vm_string (vm_of create_options (items_of fs)) n = o) by (intros; by apply vm_text).
  rewrite (Htext "url" (Some (cl_target_url c)) eq_refl) by in_fields. rewrite requireNonEmpty_given by done.
  rewrite (non_empty_if_given_text _ "slug" (cl_slug c)) by (done || (apply Htext; [reflexivity|in_fields])).
  rewrite (create_redirect_type_text _ (cl_redirect_type c)) by (apply Htext; [reflexivity|in_fields]).
  rewrite (non_empty_if_given_text _ "expires-at" (cl_expires_at c)) by (done || (apply Htext; [reflexivity|in_fields])).
  rewrite (enabled_flag_text _ (cl_enabled c)) by (apply Htext; [reflexivity|in_fields]).
  rewrite (vm_many _ _ "metadata" (entry_text <$> map_to_list (cl_metadata c)) Hok) by in_fields.
  rewrite (vm_many _ _ "tag" (cl_tags c) Hok) by in_fields.
  rewrite (non_empty_if_given_text _ "base-domain" base_domain) by (done || (apply Htext; [reflexivity|in_fields])).
  rewrite (vm_switch _ _ "allow-private-targets" allow_private Hok) by in_fields.
  rewrite (campaign_of_fields _ _ (cl_campaign c));
    [|vm_compute_options|done|intros f Hf; apply elem_of_app; right; apply elem_of_app; by left|done].
  unfold create_metadata. rewrite (fold_entries _ (fun k v => k ≠ [] ∧ "="%char ∉ k ∧ plain_value k = true)); [|
    intros acc k v (Hk & He & _); unfold add_create_entry; cbn [mbind fault_bind]; by rewrite split_entry_text|done].
  cbn [mbind fault_bind]. destruct c. by destruct base_domain, allow_private.
Qed.

(** ** The configuration the server starts with *)
Definition uint32 (z : Z) : Prop := (0 ≤ z < 2 ^ 32)%Z.
Definition opt_uint32 (o : option Z) : Prop := match o with Some z => uint32 z | None => True end.
Definition port (z : Z) : Prop := (1 ≤ z ≤ 65535)%Z.

Record server_in_range (c : ServerConfig) : Prop := {
  ir_tls_port : port (tls_port c);
  ir_hsts : opt_uint32 (hsts_max_age c);
  ir_expiry : opt_uint32 (shortener_default_expiry_seconds c);
  ir_slug_length : uint32 (Z.of_nat (shortener_generated_slug_length c));
  ir_capacity : uint32 (Z.of_N (analytics_queue_capacity c));
  ir_request_id : uint32 (Z.of_nat (request_id_max_length c));
  ir_body : uint32 (Z.of_N (max_request_body_bytes c));
  ir_target : uint32 (Z.of_N (max_request_target_length c));
}.

Lemma fault_bind_inv {A B} (m : CliFault + A) (k : A → CliFault + B) b :
  m ≫= k = inr b → ∃ a, m = inr a ∧ k a = inr b.
Proof. destruct m as [|a]; [done|]. intros H. by exists a. Qed.

Lemma env_uint32_range name raw v : env_uint32 name raw = inr v → uint32 v.
Proof.
  unfold env_uint32. destruct (stoull raw) as [[n p]|] eqn:E; [|done]. destruct (Z.ltb_spec (2 ^ 32 - 1) n); [done|]. intros [= <-].
  unfold uint32. split; [|lia]. unfold stoull in E. destruct (read_sign _) as [s b]. destruct (bool_decide _); [done|].
  destruct (Z.ltb_spec (decimal_value (leading_digits b)) (2 ^ 64)); [|done]. injection E as <- _.
  destruct s; [unfold u64; apply Z.mod_pos_bound; lia|apply leading_digits_value].
Qed.

Lemma env_option_range {A : Type} (P : A → Prop) getenv name parse initial v :
  P initial → (∀ raw x, parse raw = inr x → P x) → env_option getenv name parse initial = inr v → P v.
Proof. intros Hi Hp. unfold env_option. destruct (getenv !! name); [apply Hp|by intros [= <-]]. Qed.

Lemma load_env_range getenv c c' : server_in_range c → load_env getenv c = inr c' → server_in_range c'.
Proof.
  intros [] H. unfold load_env in H. apply fault_bind_inv in H as (expiry & H1 & H).
  apply fault_bind_inv in H as (len & H2 & H). apply fault_bind_inv in H as (private & _ & H). injection H as <-.
  apply (env_option_range opt_uint32) in H1; [|done|].
  2:{ intros raw x (v & Hv%env_uint32_range & [= <-])%fault_bind_inv. done. }
  apply (env_option_range (fun n => uint32 (Z.of_nat n))) in H2; [|done|].
  2:{ intros raw x (v & Hv%env_uint32_range & [= <-])%fault_bind_inv. unfold uint32 in *. lia. }
  by split.
Qed.

Lemma vm_uint32_range desc pos args vm n v : po_run desc pos args = inr vm → vm_uint32 vm n = Some v → uint32 v.
Proof.
  intros Hrun. unfold vm_uint32. destruct (vm !! n) as [[]|] eqn:E; try done. intros [= <-].
  destruct (po_typed _ _ _ _ _ _ Hrun E) as (o & _ & _ & Hk). destruct (opt_kind o); try done. cbn [kind_accepts] in Hk.
  apply andb_true_iff in Hk as [?%Z.leb_le ?%Z.ltb_lt]. by unfold uint32.
Qed.

Lemma parsePort_range raw p : parsePort raw = inr p → uint32 raw → port p.
Proof.
  unfold parsePort, uint32, port. destruct (Z.eqb_spec raw 0), (Z.ltb_spec 65535 raw); try done. intros [= <-]. lia.
Qed.

Lemma default_in_range : server_in_range (cc_server default_cli_config).
Proof. by repeat split. Qed.

(** Values bound to an option or kept. *)
Lemma bound_uint32_range desc pos args vm n z : po_run desc pos args = inr vm → uint32 z → uint32 (bound_uint32 vm n z).
Proof.
  intros Hrun Hz. unfold bound_uint32. destruct (vm_uint32 vm n) eqn:E; [|done]. by eapply vm_uint32_range.
Qed.
Lemma optional_uint32_range desc pos args vm n o : po_run desc pos args = inr vm → opt_uint32 o → opt_uint32 (optional_uint32 vm n o).
Proof.
  intros Hrun Ho. unfold optional_uint32. destruct (vm_uint32 vm n) eqn:E; [|done]. by eapply vm_uint32_range.
Qed.
Lemma port_flag_range vm names raw initial p : uint32 raw → port initial → port_flag vm names raw initial = inr p → port p.
Proof. intros Hr Hi. unfold port_flag. destruct (existsb _ _); [by intros H%parsePort_range|by intros [= <-]]. Qed.
Lemma port_uint32 p : port p → uint32 p.
Proof. unfold port, uint32. lia. Qed.

Lemma convert_range desc pos args vm cfg cfg' :
  po_run desc pos args = inr vm → server_in_range (cc_server cfg) → port (http_port cfg) → convert vm cfg = inr cfg' →
  port (http_port cfg') ∧ server_in_range (cc_server cfg').
Proof.
  intros Hrun [] Hport H. unfold convert in H.
  apply fault_bind_inv in H as (p & Hp & H). apply fault_bind_inv in H as (? & _ & H). apply fault_bind_inv in H as (? & _ & H).
  apply fault_bind_inv in H as (? & _ & H). apply fault_bind_inv in H as (tp & Htp & H). apply fault_bind_inv in H as (? & _ & H).
  apply fault_bind_inv in H as (? & _ & H). apply fault_bind_inv in H as (? & _ & H). injection H as <-.
  apply port_flag_range in Hp; [|do 2 (eapply bound_uint32_range; [exact Hrun|]); by apply port_uint32|done].
  apply port_flag_range in Htp; [|eapply bound_uint32_range; [exact Hrun|]; by apply port_uint32|done].
  assert (Hu : ∀ n z, uint32 z → uint32 (bound_uint32 vm n z)) by (intros; by eapply bound_uint32_range).
  split; [exact Hp|]. split; cbn [cc_server tls_port hsts_max_age shortener_default_expiry_seconds shortener_generated_slug_length
    analytics_queue_capacity request_id_max_length max_request_body_bytes max_request_target_length];
    [exact Htp|by eapply optional_uint32_range|by eapply optional_uint32_range|..];
    match goal with |- uint32 (_ (_ (bound_uint32 vm ?n ?z))) => pose proof (Hu n z ltac:(done)) as Hz end; unfold uint32 in *; lia.
Qed.

(** C31: whatever the arguments and environment variables are, a configuration
    the server is started with has both ports between 1 and 65535 and every
    count within its 32-bit type; anything else makes the process fail before
    it listens. *)
Theorem served_config_in_range iterate_codes iterate_domains visible getenv argv e config :
  main iterate_codes iterate_domains visible getenv argv e = serves config →
  port (http_port config) ∧ server_in_range (cc_server config).
Proof.
  unfold main. destruct (parse visible getenv argv) as [|r] eqn:Hp; [done|]. destruct (pr_help r) eqn:Hh; [done|].
  destruct (pr_command r) eqn:Hcmd; [by destruct (DispatchLinkCommand _ _ _ _ _)|].
  unfold HttpServer_config. destruct (normalizeAndValidateBaseDomain _) as [|domain]; [done|]. intros [= <-].
  unfold parse in Hp. apply fault_bind_inv in Hp as (server & Hs%load_env_range & Hp); [|exact default_in_range].
  set (cfg := with_server default_cli_config server) in *.
  assert (Hps : parse_server visible cfg argv = inr r).
  { destruct argv as [|first rest]; [done|]. destruct (bool_decide (first = "link")); [|done].
    destruct (linkHelpRequested rest).
    - apply fault_bind_inv in Hp as (help & _ & [= <-]). done.
    - apply fault_bind_inv in Hp as ([command c'] & _ & [= <-]). done. }
  unfold parse_server in Hps. destruct (po_run _ _ argv) as [|vm] eqn:Hrun; [done|]. destruct (vm_count vm "help"); [by injection Hps as <-|].
  apply fault_bind_inv in Hps as (cfg' & Hc & [= <-]).
  destruct (convert_range _ _ _ _ cfg _ Hrun Hs ltac:(done) Hc) as [H1 H2]. cbn [pr_config]. split; [exact H1|]. by destruct H2.
Qed.

(** ** Dispatch *)
(** The output of one invocation: JSON on success, a diagnostic otherwise. *)
Definition well_reported (verb : str) (o : CliOutput) : Prop :=
  (exit_code o = 0%Z ∧ out_stderr o = []) ∨
  ((1 ≤ exit_code o ≤ 4)%Z ∧ out_stdout o = [] ∧ ∃ detail, out_stderr o = verb ++ (" failed: " : str) ++ detail ++ [newline]).

Lemma report_with_well {View} (serialize : View → str) verb r : well_reported verb (report_with serialize verb r).
Proof.
  unfold report_with. destruct (ok r) eqn:Hok; [by left|]. right. unfold report_failure. cbn [exit_code out_stdout out_stderr].
  split; [|split; [done|by eexists]]. unfold ok in Hok. apply bool_decide_eq_false in Hok.
  destruct (err_code (res_error r)); [done|simpl; lia..].
Qed.

(** The payload [parseLinkCommand] builds fits its verb. *)
Definition payload_fits (c : LinkCliCommand) : Prop :=
  match lc_verb c, lc_payload c with
  | verb_create, pl_create _ | verb_get, pl_get _ | verb_preview, pl_get _ | verb_update, pl_update _ | verb_del, pl_delete _
  | verb_enable, pl_set_enabled _ true | verb_disable, pl_set_enabled _ false | verb_restore, pl_restore _ | verb_stats, pl_stats _ => True
  | _, _ => False
  end.

Lemma parseSetEnabledArgs_flag args b s b' : parseSetEnabledArgs args b = inr (s, b') → b' = b.
Proof. intros (x & _ & [= _ <-])%fault_bind_inv. done. Qed.

Lemma parseLinkCommand_fits args config c config' : parseLinkCommand args config = inr (c, config') → payload_fits c.
Proof.
  unfold parseLinkCommand. destruct args as [|first [|token rest]]; [done|done|]. intros (verb & _ & H)%fault_bind_inv.
  destruct verb; apply fault_bind_inv in H as (x & Hx & H); try (injection H as <- _; exact I); destruct x as [s b];
    try (injection H as <- _; exact I); apply parseSetEnabledArgs_flag in Hx as ->; by injection H as <- _.
Qed.

(** A [link] command that parses always dispatches (the payload fits its
    verb, so no variant access throws), [enable] and [disable] carry the state
    they name, and the outcome is either exit code 0 with an empty stderr, or an
    exit code between 1 and 4 with an empty stdout and one diagnostic line that
    starts with the verb the user typed. *)
Theorem parsed_command_dispatches iterate_codes iterate_domains first token rest config c config' e :
  parseLinkCommand (first :: token :: rest) config = inr (c, config') →
  verb_token (lc_verb c) = token ∧
  ∃ out, DispatchLinkCommand iterate_codes iterate_domains c config' e = Some out ∧ well_reported token out.
Proof.
  intros H. pose proof (parseLinkCommand_fits _ _ _ _ H) as Hfit. assert (Hverb : verb_token (lc_verb c) = token).
  { cbn [parseLinkCommand] in H. apply fault_bind_inv in H as (verb & Hv & H).
    assert (verb_token verb = token) as <-.
    { unfold parseLinkVerb in Hv. repeat (case_bool_decide as Heq; [injection Hv as <-; by rewrite Heq|]; clear Heq). done. }
    destruct verb; apply fault_bind_inv in H as (x & _ & H); try destruct x; by injection H as <- _. }
  split; [done|]. unfold payload_fits in Hfit. unfold DispatchLinkCommand. rewrite Hverb.
  destruct (lc_verb c), (lc_payload c) as [| | | |s []| |]; try done; eexists; (split; [reflexivity|apply report_with_well]).
Qed.

(** In one-shot mode every verb that names an existing link ([get],
    [preview], [update], [delete], [enable], [disable], [restore]) answers
    not-found with exit code 1, whatever earlier invocations created: each
    process works on a fresh in-memory store. *)
Theorem one_shot_verbs_find_nothing iterate_codes iterate_domains c config e :
  payload_fits c → lc_verb c ≠ verb_create → lc_verb c ≠ verb_stats →
  DispatchLinkCommand iterate_codes iterate_domains c config e =
    Some (mkCliOutput [] (verb_token (lc_verb c) ++ (" failed: Link not found" : str) ++ [newline]) 1).
Proof.
  intros Hfit Hc Hs. unfold payload_fits in Hfit. unfold DispatchLinkCommand.
  destruct (lc_verb c), (lc_payload c) as [|[]| | |s b| |]; try done; reflexivity.
Qed.

(** ** Precedence *)
Lemma server_options_ok cfg : server_in_range (cc_server cfg) → desc_ok (server_options cfg) = true.
Proof.
  intros [_ _ _ H1 H2 H3 H4 H5]. apply andb_true_iff. split; [vm_compute; reflexivity|].
  assert (Hr : ∀ z, uint32 z → (0 <=? z)%Z && (z <? 2 ^ 32)%Z = true).
  { intros z [Hz1 Hz2]. apply andb_true_iff. split; [by apply Z.leb_le|by apply Z.ltb_lt]. }
  cbn [server_options general_opts http_opts tls_opts shortener_opts analytics_opts request_opts positional_hidden app forallb
    opt_kind text_option string_default uint32_option uint32_default andb]. by rewrite !Hr.
Qed.

Lemma render_not_link items first rest : render items = first :: rest → bool_decide (first = "link") = false.
Proof.
  destruct items as [|[n v] items]; [done|]. intros H. apply bool_decide_eq_false_2. intros ->. by destruct v.
Qed.

Lemma load_env_settings getenv server : load_env getenv (cc_server default_cli_config) = inr server →
  shortener_base_domain server = default ("http://localhost:8000" : str) (getenv !! ("SHORTENER_BASE_DOMAIN" : str)) ∧
  shortener_default_redirect_type server = default ("temporary" : str) (getenv !! ("SHORTENER_DEFAULT_REDIRECT_TYPE" : str)) ∧
  Some (shortener_generated_slug_length server) =
    match getenv !! ("SHORTENER_GENERATED_SLUG_LENGTH" : str) with
    | Some raw => Z.to_nat <$> (fst <$> stoull raw) | None => Some 7 end.
Proof.
  intros H. unfold load_env in H. apply fault_bind_inv in H as (? & _ & H). apply fault_bind_inv in H as (len & Hlen & H).
  apply fault_bind_inv in H as (? & _ & H). injection H as <-. cbn [shortener_base_domain shortener_default_redirect_type shortener_generated_slug_length].
  split; [done|]. split; [done|]. unfold env_option in Hlen. destruct (getenv !! ("SHORTENER_GENERATED_SLUG_LENGTH" : str)) as [raw|]; [|by injection Hlen as <-].
  apply fault_bind_inv in Hlen as (v & Hv & [= <-]). unfold env_uint32 in Hv. destruct (stoull raw) as [[n p]|]; [|done].
  destruct (2 ^ 32 - 1 <? n)%Z; [done|]. by injection Hv as <-.
Qed.

Lemma convert_settings vm cfg cfg' : convert vm cfg = inr cfg' →
  shortener_base_domain (cc_server cfg') = bound_string vm "shortener-base-domain" (shortener_base_domain (cc_server cfg)) ∧
  shortener_default_redirect_type (cc_server cfg') =
    bound_string vm "shortener-default-redirect-type" (shortener_default_redirect_type (cc_server cfg)) ∧
  shortener_generated_slug_length (cc_server cfg') =
    Z.to_nat (bound_uint32 vm "shortener-generated-slug-length" (Z.of_nat (shortener_generated_slug_length (cc_server cfg)))).
Proof.
  intros H. unfold convert in H. do 8 (apply fault_bind_inv in H as (? & _ & H)). by injection H as <-.
Qed.

Lemma number_item desc items n o v :
  items_ok desc items = true → find_option desc n = Some (opt n (one_uint32 o)) → v ∈ values_of n items → is_Some (stoull v).
Proof.
  intros [Hall _]%andb_true_iff Ho Hv. apply list_elem_of_omap in Hv as ([m w] & Hin & Hw). cbn [fst snd] in Hw.
  case_bool_decide as Hm; [|done]. subst m w. rewrite forallb_forall in Hall. specialize (Hall (n, Some v)).
  rewrite <- list_elem_of_In in Hall. specialize (Hall Hin). unfold item_ok in Hall. cbn [fst snd] in Hall. rewrite Ho in Hall.
  unfold value_ok in Hall. cbn [opt_kind takes_value andb] in Hall. apply andb_true_iff in Hall as [_ Hs]. by destruct (stoull v).
Qed.

(** The settings of interest in the option table. *)
Lemma server_option_lookups cfg :
  find_option (server_options cfg) "help" = Some (opt "help" no_value) ∧
  find_option (server_options cfg) "shortener-base-domain" = Some (text_option "shortener-base-domain") ∧
  find_option (server_options cfg) "shortener-default-redirect-type" =
    Some (string_default "shortener-default-redirect-type" (shortener_default_redirect_type (cc_server cfg))) ∧
  find_option (server_options cfg) "shortener-generated-slug-length" =
    Some (uint32_default "shortener-generated-slug-length" (Z.of_nat (shortener_generated_slug_length (cc_server cfg)))).
Proof. split_and!; vm_compute; reflexivity. Qed.

Lemma items_settings cfg items :
  server_in_range (cc_server cfg) → items_ok (server_options cfg) items = true →
  let vm := vm_of (server_options cfg) items in
  bound_string vm "shortener-base-domain" (shortener_base_domain (cc_server cfg)) =
    match values_of "shortener-base-domain" items with v :: _ => v | [] => shortener_base_domain (cc_server cfg) end ∧
  bound_string vm "shortener-default-redirect-type" (shortener_default_redirect_type (cc_server cfg)) =
    match values_of "shortener-default-redirect-type" items with v :: _ => v | [] => shortener_default_redirect_type (cc_server cfg) end ∧
  Some (Z.to_nat (bound_uint32 vm "shortener-generated-slug-length" (Z.of_nat (shortener_generated_slug_length (cc_server cfg))))) =
    match values_of "shortener-generated-slug-length" items with
    | v :: _ => Z.to_nat <$> (fst <$> stoull v) | [] => Some (shortener_generated_slug_length (cc_server cfg)) end.
Proof.
  intros Hrange Hitems vm. pose proof (server_options_ok cfg Hrange) as Hd.
  destruct (server_option_lookups cfg) as (_ & Hopt2 & Hopt3 & Hopt4).
  unfold bound_string, bound_uint32, vm_string, vm_uint32, vm.
  rewrite (vm_of_lookup _ items _ _ Hd Hopt2), (vm_of_lookup _ items _ _ Hd Hopt3), (vm_of_lookup _ items _ _ Hd Hopt4).
  unfold value_of. cbn [opt_kind opt_name text_option string_default uint32_default]. split_and!.
  - by destruct (values_of "shortener-base-domain" items).
  - by destruct (values_of "shortener-default-redirect-type" items).
  - destruct (values_of "shortener-generated-slug-length" items) as [|v l] eqn:Ev; [simpl; by rewrite Nat2Z.id|].
    assert (Hnum : is_Some (stoull v)) by (eapply number_item; [exact Hitems|exact Hopt4|rewrite Ev; by left]).
    destruct Hnum as [[z p] Hz]. by rewrite Hz.
Qed.

Lemma parse_server_items visible cfg items r :
  server_in_range (cc_server cfg) → items_ok (server_options cfg) items = true → mentions "help" items = false →
  parse_server visible cfg (render items) = inr r →
  ∃ cfg', convert (vm_of (server_options cfg) items) cfg = inr cfg' ∧ r = mkParseResult cfg' None None.
Proof.
  intros Hrange Hitems Hhelp Hps. pose proof (server_options_ok cfg Hrange) as Hd. unfold parse_server in Hps.
  rewrite po_canonical in Hps by done.
  assert (Hcount : vm_count (vm_of (server_options cfg) items) "help" = false).
  { unfold vm_count. rewrite (vm_of_lookup _ items _ _ Hd (proj1 (server_option_lookups cfg))). unfold value_of. cbn [opt_kind opt_name].
    rewrite Hhelp. apply bool_decide_eq_false_2. by intros [??]. }
  rewrite Hcount in Hps. apply fault_bind_inv in Hps as (cfg' & Hc & Heq). exists cfg'. split; [done|]. by injection Heq as <-.
Qed.

(** For a server start written as [--flag value] pairs, a flag wins over the
    environment variable of the same setting, which wins over the built-in
    default, here for the base domain, the default redirect type and the length
    of generated slugs. *)
Theorem flags_override_environment visible getenv server items r :
  load_env getenv (cc_server default_cli_config) = inr server →
  items_ok (server_options (with_server default_cli_config server)) items = true → mentions "help" items = false →
  parse visible getenv (render items) = inr r →
  shortener_base_domain (cc_server (pr_config r)) =
    (match values_of "shortener-base-domain" items with
     | v :: _ => v | [] => default ("http://localhost:8000" : str) (getenv !! ("SHORTENER_BASE_DOMAIN" : str)) end) ∧
  shortener_default_redirect_type (cc_server (pr_config r)) =
    (match values_of "shortener-default-redirect-type" items with
     | v :: _ => v | [] => default ("temporary" : str) (getenv !! ("SHORTENER_DEFAULT_REDIRECT_TYPE" : str)) end) ∧
  Some (shortener_generated_slug_length (cc_server (pr_config r))) =
    (match values_of "shortener-generated-slug-length" items with
     | v :: _ => Z.to_nat <$> (fst <$> stoull v)
     | [] => match getenv !! ("SHORTENER_GENERATED_SLUG_LENGTH" : str) with
             | Some raw => Z.to_nat <$> (fst <$> stoull raw) | None => Some 7 end end).
Proof.
  intros Henv Hitems Hhelp Hp. pose proof (load_env_range _ _ _ default_in_range Henv) as Hrange.
  unfold parse in Hp. rewrite Henv in Hp. cbn [mbind fault_bind] in Hp.
  assert (Hps : parse_server visible (with_server default_cli_config server) (render items) = inr r).
  { destruct (render items) as [|first rest] eqn:E; [exact Hp|]. rewrite (render_not_link _ _ _ E) in Hp. exact Hp. }
  clear Hp. apply parse_server_items in Hps as (cfg' & Hc & ->); [|exact Hrange|exact Hitems|exact Hhelp].
  apply convert_settings in Hc as (Hc1 & Hc2 & Hc3). cbn [pr_config]. rewrite Hc1, Hc2, Hc3.
  apply load_env_settings in Henv as (<- & <- & <-). by apply items_settings.
Qed.
End roundtrip.

(** ** Help *)
(** The options of a verb. *)
Definition verb_options (verb : LinkCliVerb) : list OptionSpec :=
  match verb with
  | verb_create => create_options
  | verb_get | verb_preview => get_options
  | verb_update => update_options
  | verb_del | verb_enable | verb_disable | verb_restore => slug_options
  | verb_stats => stats_options
  end.

Definition contains (needle text : str) : bool := is_present (find_str needle text).

Definition is_flag_char (c : ascii) : bool := is_lower c || Ascii.eqb c "-".
Fixpoint take_flag (s : str) : str :=
  match s with
  | c :: s' => if is_flag_char c then c :: take_flag s' else []
  | [] => []
  end.

(** The names after each [--] of a text. *)
Fixpoint flags_in (text : str) : list str :=
  match text with
  | [] => []
  | c :: rest => if starts_with " --" text || starts_with "(--" text then take_flag (drop 3 text) :: flags_in rest else flags_in rest
  end.

(** The texts abbreviate the campaign flags as [--campaign-name|-source|...]. *)
Definition shown (o : OptionSpec) (text : str) : bool :=
  contains ((" --" : str) ++ opt_name o) text || contains (("(--" : str) ++ opt_name o) text ||
  (starts_with "campaign-" (opt_name o) && contains (("|-" : str) ++ drop 9 (opt_name o)) text).

(** The help text of every verb names exactly the flags its parser knows: each
    option is shown, and each flag shown is an option (or the wildcard for the
    campaign flags). *)
Theorem help_mirrors_flags (verb : LinkCliVerb) :
  Forall (fun o => shown o (buildLinkVerbHelpText verb) = true) (verb_options verb) ∧
  Forall (fun n : str => n ∈ opt_name <$> verb_options verb ∨ n = "campaign-") (flags_in (buildLinkVerbHelpText verb)).
Proof.
  split.
  - apply forallb_Forall. by destruct verb; vm_compute.
  - apply (bool_decide_unpack _). by destruct verb; vm_compute.
Qed.

(** ** Concrete invocations *)
Module Demo.
#[local] Existing Instance Reference.options.

Definition update : UpdateLinkCommand :=
  mkUpdateLinkCommand "docs" (Some false) (Some None) (Some [("a" : str); ("b" : str)]) (Some {[("k" : str) := ("v" : str)]})
    (Some (Some (mkCampaign (Some ("spring" : str)) None None None None None))).

Lemma update_ok : update_expressible update.
Proof.
  split; cbn [update ul_slug ul_enabled ul_expires_at ul_tags ul_metadata ul_campaign mjoin option_join].
  - by split.
  - by split.
  - intros l [= <-]. split_and!; [|done|done]. repeat constructor; apply find_char_None; reflexivity.
  - intros m [= <-]. split; [|done]. apply map_Forall_singleton. split_and!; [done| | | |]; apply find_char_None; reflexivity.
  - by split_and!.
Qed.

Definition create : CreateLinkCommand :=
  mkCreateLinkCommand "http://example.com/a" (Some ("docs" : str)) (Some permanent) None (Some true) [("x" : str); ("y" : str)]
    {[("k" : str) := ("a=b" : str)]} None.

Lemma create_ok : create_expressible create (Some ("https://s.example" : str)).
Proof.
  split; cbn [create cl_target_url cl_slug cl_expires_at cl_tags cl_metadata cl_campaign]; try done.
  - repeat constructor.
  - apply map_Forall_singleton. split_and!; [done|apply find_char_None; reflexivity|done].
Qed.

Definition env : Env := mkEnv (fun n => Z.of_nat n * ticks_per_second)%Z 0 (fun n => n) 0.
Definition codes (m : gmap Z N) : list (Z * N) := map_to_list m.
Definition domains (m : gmap str N) : list (str * N) := map_to_list m.
Definition variables : gmap str str := {[("SHORTENER_BASE_DOMAIN" : str) := ("https://env.example" : str)]}.
End Demo.

Lemma update_args_roundtrip_witness :
  @parseUpdateArgs Reference.options (render (items_of (update_fields Demo.update))) = inr Demo.update.
Proof. apply (@update_args_roundtrip Reference.options Demo.update Demo.update_ok). Defined.

Lemma create_args_roundtrip_witness :
  @parseCreateArgs Reference.options (render (items_of (create_fields Demo.create (Some ("https://s.example" : str)) true))) default_config =
    inr (Demo.create, set_allow_private true (set_base_domain "https://s.example" default_config)).
Proof.
  apply (@create_args_roundtrip Reference.options Demo.create (Some ("https://s.example" : str)) true default_config Demo.create_ok).
Defined.

Lemma served_config_in_range_witness :
  ∃ config, @main Demo.codes Demo.domains Reference.options [] Demo.variables [("--http-port" : str); ("9000" : str)] Demo.env = serves config ∧
    port (http_port config).
Proof.
  pose (m := @main Demo.codes Demo.domains Reference.options [] Demo.variables [("--http-port" : str); ("9000" : str)] Demo.env).
  pose (config := match m with serves c => c | _ => default_cli_config end).
  assert (Hm : m = serves config) by (vm_compute; reflexivity).
  exists config. split; [exact Hm|].
  apply (@served_config_in_range Reference.options Demo.codes Demo.domains [] Demo.variables _ Demo.env config Hm).
Defined.

Lemma parsed_command_dispatches_witness :
  ∃ c out, @parseLinkCommand Reference.options [("link" : str); ("enable" : str); ("--slug" : str); ("docs" : str)] default_config = inr (c, default_config) ∧
    DispatchLinkCommand Demo.codes Demo.domains c default_config Demo.env = Some out ∧ well_reported "enable" out.
Proof.
  assert (Hp : @parseLinkCommand Reference.options [("link" : str); ("enable" : str); ("--slug" : str); ("docs" : str)] default_config =
    inr (mkLinkCliCommand verb_enable (pl_set_enabled "docs" true), default_config)) by (vm_compute; reflexivity).
  destruct (@parsed_command_dispatches Reference.options Demo.codes Demo.domains _ _ _ _ _ _ Demo.env Hp) as (_ & out & H1 & H2).
  exists (mkLinkCliCommand verb_enable (pl_set_enabled "docs" true)), out. split; [exact Hp|]. split; [exact H1|exact H2].
Defined.

Lemma one_shot_verbs_find_nothing_witness :
  DispatchLinkCommand Demo.codes Demo.domains (mkLinkCliCommand verb_get (pl_get (by_slug "docs"))) default_config Demo.env =
    Some (mkCliOutput [] (("get failed: Link not found" : str) ++ [newline]) 1).
Proof.
  apply (one_shot_verbs_find_nothing Demo.codes Demo.domains (mkLinkCliCommand verb_get (pl_get (by_slug "docs"))) default_config Demo.env);
    [exact I|discriminate|discriminate].
Defined.

Lemma flags_override_environment_witness :
  ∃ r, @parse Reference.options [] Demo.variables (render [(("shortener-default-redirect-type" : str), Some ("permanent" : str))]) = inr r ∧
    shortener_base_domain (cc_server (pr_config r)) = "https://env.example" ∧
    shortener_default_redirect_type (cc_server (pr_config r)) = "permanent".
Proof.
  pose (items := [(("shortener-default-redirect-type" : str), Some ("permanent" : str))]).
  pose (x := @parse Reference.options [] Demo.variables (render items)).
  pose (r := match x with inr r => r | inl _ => mkParseResult default_cli_config None None end).
  pose (server := match load_env Demo.variables (cc_server default_cli_config) with inr c => c | inl _ => default_config end).
  assert (Hx : x = inr r) by (vm_compute; reflexivity).
  assert (Hs : load_env Demo.variables (cc_server default_cli_config) = inr server) by (vm_compute; reflexivity).
  assert (Hi : items_ok (server_options (with_server default_cli_config server)) items = true) by (vm_compute; reflexivity).
  exists r. split; [exact Hx|].
  destruct (@flags_override_environment Reference.options [] Demo.variables server items r Hs Hi eq_refl Hx) as (H1 & H2 & _).
  split; [exact H1|exact H2].
Defined.
