(* ===== verification/SqlRows.v ===== *)
(** * SqlRows: rows, their payload and the errors of the SQL back ends

    [SqlRow] (storage/sql/i_sql_session_factory.hpp), [SqlMetadataRowMapper]
    (src/storage/sql/sql_metadata_row_mapper.cpp) and the two error mappers.
    The payload column goes through Boost's property tree, which is a parameter
    with its documented laws. *)
From stdpp Require Import sorting.
From S2P Require Import Prelude Text Clock LinkJson Storage.

(** ** [MapException] of the two back ends: the text of the exception decides *)
Definition mentions (what : str) (words : list string) : bool :=
  existsb (fun p : string => bool_decide (is_Some (find_str p what))) words.

Module SqliteErrorMapper.
Definition MapException (what : str) : RepoError.t :=
  if mentions what ["UNIQUE"; "unique"] then RepoError.already_exists
  else if mentions what ["database is locked"; "busy"] then RepoError.transient_failure
  else if mentions what ["unable to open"; "no such"] then RepoError.permanent_failure
  else RepoError.permanent_failure.
End SqliteErrorMapper.

Module PostgresErrorMapper.
Definition MapException (what : str) : RepoError.t :=
  if mentions what ["23505"; "unique"] then RepoError.already_exists
  else if mentions what ["42P01"; "undefined table"] then RepoError.permanent_failure
  else if mentions what ["40001"; "40P01"; "connection"; "could not connect"] then RepoError.transient_failure
  else if mentions what ["57014"; "statement timeout"; "timeout"; "canceling statement"]
  then RepoError.transient_failure
  else if mentions what ["28P01"; "password authentication failed"] then RepoError.permanent_failure
  else RepoError.permanent_failure.
End PostgresErrorMapper.

(** ** [SqlRow] *)
Record SqlRow := mkSqlRow {
  sr_id : option str;
  sr_short_code : option str;
  sr_target_url : option str;
  sr_created_at : option Z;
  sr_updated_at : option Z;
  sr_expires_at : option Z;
  sr_is_active : option Z;
  sr_owner_id : option str;
  sr_attributes_json : option str;
}.

(** ** Boost's property tree

    The operations of [boost::property_tree] the mapper calls. [pt_get] and
    [pt_read] answer [None] where the library throws, and so does [pt_write]. *)
Class PropertyTree (T : Type) := {
  pt_empty : T;
  pt_put : str → str → T → T;
  pt_add_child : str → T → T → T;
  pt_get : str → T → option str;
  pt_child : str → T → option T;
  pt_items : T → list (str * str);
  pt_write : T → option str;
  pt_read : str → option T;
}.

(** Characters that JSON text and a database column carry unchanged, and keys
    that are one step of a path (a dot separates steps). *)
Definition plain_char (c : ascii) : bool := (0 <? code c)%N && (code c <? 128)%N.
Definition plain_text (s : str) : bool := forallb plain_char s.
Definition plain_key (k : str) : bool := plain_text k && negb (has_char "." k) && bool_decide (k ≠ []).

(** Trees built from fresh plain keys and plain values. *)
Inductive plain_tree {T} `{PropertyTree T} : T → Prop :=
  | plain_tree_empty : plain_tree pt_empty
  | plain_tree_put k v t :
      plain_tree t → plain_key k = true → plain_text v = true → pt_child k t = None → plain_tree (pt_put k v t)
  | plain_tree_add k a t :
      plain_tree t → plain_tree a → plain_key k = true → pt_child k t = None → plain_tree (pt_add_child k a t).

Class PropertyTreeLaws (T : Type) `{PropertyTree T} := {
  pt_items_empty : pt_items pt_empty = [];
  pt_child_empty k : pt_child k pt_empty = None;
  pt_items_put k v t : plain_key k = true → pt_child k t = None → pt_items (pt_put k v t) = pt_items t ++ [(k, v)];
  pt_child_put k k' v t : plain_key k = true → plain_key k' = true → k ≠ k' → pt_child k' (pt_put k v t) = pt_child k' t;
  pt_get_put k v t : plain_key k = true → pt_child k t = None → pt_get k (pt_put k v t) = Some v;
  pt_get_add k k' a t : plain_key k = true → plain_key k' = true → k ≠ k' → pt_get k' (pt_add_child k a t) = pt_get k' t;
  pt_child_add k a t : plain_key k = true → pt_child k t = None → pt_child k (pt_add_child k a t) = Some a;
  pt_json t : plain_tree t → ∃ s, pt_write t = Some s ∧ pt_read s = Some t;
}.

(** ** The payload column *)
Section mapper.
Context {T : Type} `{PropertyTree T}.

Definition put_all (attrs : list (str * str)) (t : T) : T := fold_left (fun t '(k, v) => pt_put k v t) attrs t.

Definition SerializePayload (id : str) (attrs : gmap str str) : option str :=
  let root := pt_put "id" id pt_empty in
  let attrs_tree := put_all (sorted_items attrs) pt_empty in
  pt_write (pt_add_child "attributes" attrs_tree root).

(** [insert_or_assign] of every pair. *)
Definition assign_all (items : list (str * str)) : gmap str str :=
  fold_left (fun m '(k, v) => <[k := v]> m) items ∅.

Definition DeserializePayload (text : str) : option (str * gmap str str) :=
  root ← pt_read text;
  id ← pt_get "id" root;
  Some (id, match pt_child "attributes" root with Some a => assign_all (pt_items a) | None => ∅ end).

Definition ToEpochSeconds (tp : Z) : Z := Z.quot tp ticks_per_second.
Definition FromEpochSeconds (value : Z) : Z := from_time_t value.

Definition ToCreateRow (request : CreateLinkRequest) (id : str) (now : Z) : option SqlRow :=
  payload ← SerializePayload id (rq_attributes request);
  Some (mkSqlRow (Some id) (Some (rq_short_code request)) (Some (rq_target_url request))
          (Some (ToEpochSeconds now)) (Some (ToEpochSeconds now)) (ToEpochSeconds <$> rq_expires_at request)
          (Some (if rq_is_active request then 1 else 0)%Z) (rq_owner request) (Some payload)).

Definition ToUpdateRow (record : LinkRecord) : option SqlRow :=
  payload ← SerializePayload (lr_id record) (lr_attributes record);
  Some (mkSqlRow (Some (lr_id record)) (Some (lr_short_code record)) (Some (lr_target_url record))
          (Some (ToEpochSeconds (lr_created_at record))) (Some (ToEpochSeconds (lr_updated_at record)))
          (ToEpochSeconds <$> lr_expires_at record)
          (Some (if lr_is_active record then 1 else 0)%Z) (lr_owner record) (Some payload)).

(** The record [FromRow] writes, a failed read left at [RepoError::permanent_failure].
    Fields without a column keep the defaults of [LinkRecord]. *)
Definition FromRow (row : SqlRow) : option LinkRecord * RepoError.t :=
  match sr_short_code row, sr_target_url row, sr_created_at row, sr_updated_at row, sr_is_active row with
  | Some short_code, Some target_url, Some created_at, Some updated_at, Some is_active =>
      let record id attributes :=
        mkLinkRecord id short_code target_url (FromEpochSeconds created_at) (FromEpochSeconds updated_at)
          (FromEpochSeconds <$> sr_expires_at row) None (sr_owner_id row) attributes (negb (is_active =? 0)%Z) 1 in
      match sr_attributes_json row with
      | Some text =>
          match DeserializePayload text with
          | Some (id, attributes) => (Some (record id attributes), RepoError.none)
          | None => (None, RepoError.permanent_failure)
          end
      | None => (Some (record (default short_code (sr_id row)) ∅), RepoError.none)
      end
  | _, _, _, _, _ => (None, RepoError.permanent_failure)
  end.
End mapper.

(** ** Lemmas *)

Lemma sqlite_MapException_fault what : SqliteErrorMapper.MapException what ≠ RepoError.none.
Proof. unfold SqliteErrorMapper.MapException. by repeat case_match. Qed.

Lemma postgres_MapException_fault what : PostgresErrorMapper.MapException what ≠ RepoError.none.
Proof. unfold PostgresErrorMapper.MapException. by repeat case_match. Qed.

(** What the columns keep of a record: whole seconds, no deletion time and the
    default version. *)
Definition whole_seconds (tp : Z) : Z := FromEpochSeconds (ToEpochSeconds tp).

Definition stored (r : LinkRecord) : LinkRecord :=
  mkLinkRecord (lr_id r) (lr_short_code r) (lr_target_url r) (whole_seconds (lr_created_at r))
    (whole_seconds (lr_updated_at r)) (whole_seconds <$> lr_expires_at r) None (lr_owner r) (lr_attributes r)
    (lr_is_active r) 1.

(** Identifiers and attributes the payload carries unchanged. *)
Definition plain_payload (id : str) (attrs : gmap str str) : Prop :=
  plain_text id = true ∧ map_Forall (fun k v => plain_key k = true ∧ plain_text v = true) attrs.

Lemma sorted_items_perm m : sorted_items m ≡ₚ map_to_list m.
Proof. apply merge_sort_Permutation. Qed.

Lemma sorted_items_NoDup m : NoDup (sorted_items m).*1.
Proof. rewrite sorted_items_perm. apply NoDup_fst_map_to_list. Qed.

Lemma assign_all_list_to_map items : NoDup items.*1 → assign_all items = list_to_map items.
Proof.
  unfold assign_all. rewrite <- (right_id_L ∅ (∪) (list_to_map items)). generalize (∅ : gmap str str).
  induction items as [|[k v] items IH]; intros m Hnd; cbn in *; [by rewrite (left_id_L ∅ (∪))|].
  apply NoDup_cons in Hnd as [Hk Hnd]. rewrite IH by done. rewrite <- insert_union_l.
  rewrite <- insert_union_r by by apply not_elem_of_list_to_map_1. done.
Qed.

Lemma assign_all_perm m items : items ≡ₚ map_to_list m → assign_all items = m.
Proof.
  intros Hp. assert (Hnd : NoDup items.*1) by (rewrite Hp; apply NoDup_fst_map_to_list).
  rewrite assign_all_list_to_map by done. by rewrite (list_to_map_proper _ _ Hnd Hp), list_to_map_to_list.
Qed.

Section payload.
Context {T : Type} `{PropertyTreeLaws T}.

Lemma put_all_plain items t :
  plain_tree t → Forall (fun kv => plain_key kv.1 = true ∧ plain_text kv.2 = true ∧ pt_child kv.1 t = None) items →
  NoDup items.*1 →
  plain_tree (put_all items t) ∧ pt_items (put_all items t) = pt_items t ++ items.
Proof.
  revert t. induction items as [|[k v] items IH]; intros t Ht Hall Hnd; cbn in *; [by rewrite app_nil_r|].
  apply Forall_cons in Hall as [(Hk & Hv & Hc) Hall]. apply NoDup_cons in Hnd as [Hnk Hnd]. cbn in *.
  destruct (IH (pt_put k v t)) as [Hp Hi]; [by constructor| |done|].
  - rewrite Forall_forall in Hall |- *. intros [k' v'] Hin. destruct (Hall _ Hin) as (Hk' & Hv' & Hc'). cbn in *.
    split_and!; [done..|]. rewrite pt_child_put; [done..|].
    intros <-. apply Hnk. apply list_elem_of_fmap. by exists (k, v').
  - split; [done|]. unfold put_all in *. rewrite Hi, pt_items_put by done. by rewrite <- app_assoc.
Qed.

(** The tree [SerializePayload] writes. *)
Lemma payload_tree id attrs :
  plain_payload id attrs →
  ∃ t a, SerializePayload id attrs = pt_write t ∧ plain_tree t ∧ pt_get "id" t = Some id ∧
    pt_child "attributes" t = Some a ∧ pt_items a ≡ₚ map_to_list attrs.
Proof.
  intros [Hid Hattrs].
  destruct (put_all_plain (sorted_items attrs) pt_empty) as [Hp Hi]; [constructor| |apply sorted_items_NoDup|].
  { apply Forall_forall. intros [k v] Hin. rewrite sorted_items_perm in Hin. apply elem_of_map_to_list in Hin.
    destruct (Hattrs k v Hin). cbn. by rewrite pt_child_empty. }
  assert (Hroot : plain_tree (pt_put "id" id pt_empty)) by (constructor; [constructor|done..|apply pt_child_empty]).
  assert (Hc : pt_child "attributes" (pt_put "id" id pt_empty) = None)
    by (rewrite pt_child_put by done; apply pt_child_empty).
  eexists _, (put_all (sorted_items attrs) pt_empty). split_and!; [done|by constructor| | |].
  - rewrite pt_get_add by done. apply pt_get_put; [done|apply pt_child_empty].
  - by apply pt_child_add.
  - rewrite Hi, pt_items_empty. apply sorted_items_perm.
Qed.

(** Any reading that shows the same identifier and, in some order, the same
    attributes gives the payload back. *)
Lemma DeserializePayload_same text t a id attrs :
  pt_read text = Some t → pt_get "id" t = Some id → pt_child "attributes" t = Some a →
  pt_items a ≡ₚ map_to_list attrs → DeserializePayload text = Some (id, attrs).
Proof.
  intros Hr Hg Hc Hi. unfold DeserializePayload, mbind, option_bind. rewrite Hr, Hg, Hc.
  by rewrite (assign_all_perm attrs).
Qed.

Lemma payload_roundtrip id attrs :
  plain_payload id attrs →
  ∃ text, SerializePayload id attrs = Some text ∧ DeserializePayload text = Some (id, attrs).
Proof.
  intros Hp. destruct (payload_tree id attrs Hp) as (t & a & -> & Ht & Hg & Hc & Hi).
  destruct (pt_json t Ht) as (s & -> & Hr). exists s. split; [done|]. by eapply DeserializePayload_same.
Qed.
End payload.
