(* ===== verification/SqlSessions.v ===== *)
(** * SqlSessions: the SQLite and PostgreSQL sessions

    src/storage/sqlite/ and src/storage/postgres/. The dialects' statements are
    functions on the [links] table; the sessions run them, convert the rows and
    turn exceptions into [RepoError]. What the database may do by itself is a
    stream of faults: every statement may throw, without effect or, when only its
    acknowledgement is lost, after it has taken effect. The
    driver's own behaviour (messages, column types, order of equal keys) is a
    parameter with its documented laws. *)
From stdpp Require Import sorting.
From S2P Require Import Prelude Text Clock LinkJson Storage SqlRows.

(** ** The database as a session sees it *)

(** A row of [links] beside its key, the short code. The flag column is an
    integer in SQLite and a boolean in PostgreSQL. *)
Record LinksRow (Flag : Type) := mkLinksRow {
  c_id : str;
  c_target_url : str;
  c_created_at : Z;
  c_updated_at : Z;
  c_expires_at : option Z;
  c_is_active : Flag;
  c_owner_id : option str;
  c_attributes_json : option str;
}.
Arguments mkLinksRow {Flag} _ _ _ _ _ _ _ _.
Arguments c_id {Flag} _.
Arguments c_target_url {Flag} _.
Arguments c_created_at {Flag} _.
Arguments c_updated_at {Flag} _.
Arguments c_expires_at {Flag} _.
Arguments c_is_active {Flag} _.
Arguments c_owner_id {Flag} _.
Arguments c_attributes_json {Flag} _.

(** [None]: there is no table [links] yet. *)
Abbreviation Database Flag := (option (gmap str (LinksRow Flag))).

Record SqlWorld (Flag : Type) := mkSqlWorld {
  sw_links : Database Flag;
  (** The exception a statement throws, and whether it took effect all the same. *)
  sw_faults : nat → option (str * bool);
  sw_tick : nat;
}.
Arguments mkSqlWorld {Flag} _ _ _.
Arguments sw_links {Flag} _.
Arguments sw_faults {Flag} _ _.
Arguments sw_tick {Flag} _.

(** A statement: the text of the exception it throws, or its result and the
    database after it. *)
Definition Stmt (Flag A : Type) : Type := Database Flag → str + (A * Database Flag).

(** Code that may throw. *)
Definition Exec (Flag A : Type) : Type := ST (SqlWorld Flag) (str + A).

Definition exec_ret {Flag A} (a : A) : Exec Flag A := fun w => (inr a, w).
Definition exec_throw {Flag A} (what : str) : Exec Flag A := fun w => (inl what, w).
Definition exec_bind {Flag A B} (m : Exec Flag A) (k : A → Exec Flag B) : Exec Flag B := fun w =>
  match m w with
  | (inl what, w') => (inl what, w')
  | (inr a, w') => k a w'
  end.
Notation "x <~ m ; k" := (exec_bind m (fun x => k)) (at level 20, m at level 100, k at level 200, right associativity).

(** [session_ << statement]: one statement, all or nothing. A fault may hit it
    before the database applies it, or after: the answer is lost either way. *)
Definition execute {Flag A} (sql : Stmt Flag A) : Exec Flag A := fun w =>
  let next db := mkSqlWorld db (sw_faults w) (S (sw_tick w)) in
  match sw_faults w (sw_tick w), sql (sw_links w) with
  | None, inr (a, db) => (inr a, next db)
  | None, inl what => (inl what, next (sw_links w))
  | Some (what, true), inr (_, db) => (inl what, next db)
  | Some (what, _), _ => (inl what, next (sw_links w))
  end.

(** ** SOCI rows *)
Inductive Cell := cell_null | cell_text (s : str) | cell_integer (v : Z) | cell_long_long (v : Z).

Abbreviation SociRow := (list (string * Cell)).

Definition cell (r : SociRow) (name : string) : option Cell :=
  snd <$> List.find (fun kv => String.eqb kv.1 name) r.

Definition bad_cast : str := "std::bad_cast".
Definition no_column : str := "Column not found".

(** [GetOpt<T>] at the two types the sessions use, and [GetOptLL]. *)
Definition GetOpt {A} (get : Cell → option A) (r : SociRow) (name : string) : str + option A :=
  match cell r name with
  | None => inl no_column
  | Some cell_null => inr None
  | Some c => match get c with Some v => inr (Some v) | None => inl bad_cast end
  end.

Definition get_string (c : Cell) : option str := match c with cell_text s => Some s | _ => None end.
Definition get_int (c : Cell) : option Z := match c with cell_integer v => Some v | _ => None end.
Definition get_long_long (c : Cell) : option Z := match c with cell_long_long v => Some v | _ => None end.
Definition get_either (c : Cell) : option Z :=
  match c with cell_long_long v => Some v | _ => get_int c end.

Definition sum_bind {A B} (m : str + A) (k : A → str + B) : str + B :=
  match m with inl what => inl what | inr a => k a end.

Definition RowFromSoci (get_seconds : Cell → option Z) (r : SociRow) : str + SqlRow :=
  sum_bind (GetOpt get_string r "id") (fun id =>
  sum_bind (GetOpt get_string r "short_code") (fun short_code =>
  sum_bind (GetOpt get_string r "target_url") (fun target_url =>
  sum_bind (GetOpt get_seconds r "created_at") (fun created_at =>
  sum_bind (GetOpt get_seconds r "updated_at") (fun updated_at =>
  sum_bind (GetOpt get_seconds r "expires_at") (fun expires_at =>
  sum_bind (GetOpt get_int r "is_active") (fun is_active =>
  sum_bind (GetOpt get_string r "owner_id") (fun owner_id =>
  sum_bind (GetOpt get_string r "attributes_json") (fun attributes_json =>
  inr (mkSqlRow id short_code target_url created_at updated_at expires_at is_active owner_id attributes_json)))))))))).

(** The loop over a result set, appending to [rows]: moving to the next row may
    throw as well, and leaves the rows appended so far. *)
Fixpoint fetch_rows {Flag} (get_seconds : Cell → option Z) (rs : list SociRow) :
    ST (SqlWorld Flag * list SqlRow) (str + unit) := fun '(w, rows) =>
  match rs with
  | [] => (inr tt, (w, rows))
  | r :: rs' =>
      match RowFromSoci get_seconds r with
      | inl what => (inl what, (w, rows))
      | inr row =>
          match execute (fun db => inr (tt, db)) w with
          | (inl what, w') => (inl what, (w', rows ++ [row]))
          | (inr _, w') => fetch_rows get_seconds rs' (w', rows ++ [row])
          end
      end
  end.

Definition lift_sum {Flag A} (m : str + A) : Exec Flag A := match m with inl what => exec_throw what | inr a => exec_ret a end.

(** ** Parameters of the statements *)
Inductive indicator := i_ok | i_null.

Definition ToSociIndicator {A} (zero : A) (opt : option A) : A * indicator :=
  match opt with Some v => (v, i_ok) | None => (zero, i_null) end.

(** [soci::use(value, indicator)]: what the statement sees. *)
Definition use {A} (bound : A * indicator) : option A :=
  match bound.2 with i_ok => Some bound.1 | i_null => None end.

Record InsertParams := mkInsertParams {
  ip_id : str;
  ip_short_code : str;
  ip_target_url : str;
  ip_created_at : Z;
  ip_updated_at : Z;
  ip_expires_at : option Z;
  ip_is_active : Z;
  ip_owner_id : option str;
  ip_attributes_json : option str;
}.

Record UpdateParams := mkUpdateParams {
  up_target_url : str;
  up_updated_at : Z;
  up_expires_at : option Z;
  up_is_active : Z;
  up_owner_id : option str;
  up_attributes_json : option str;
  up_short_code : str;
}.

(** The locals [InsertLink] and [UpdateLink] bind; both sessions spell them alike. *)
Definition insert_params (row : SqlRow) : InsertParams :=
  mkInsertParams (default [] (sr_id row)) (default [] (sr_short_code row)) (default [] (sr_target_url row))
    (default 0%Z (sr_created_at row)) (default 0%Z (sr_updated_at row))
    (use (ToSociIndicator 0%Z (sr_expires_at row))) (default 0%Z (sr_is_active row))
    (use (ToSociIndicator [] (sr_owner_id row))) (use (ToSociIndicator [] (sr_attributes_json row))).

Definition update_params (row : SqlRow) : UpdateParams :=
  mkUpdateParams (default [] (sr_target_url row)) (default 0%Z (sr_updated_at row))
    (use (ToSociIndicator 0%Z (sr_expires_at row))) (default 0%Z (sr_is_active row))
    (use (ToSociIndicator [] (sr_owner_id row))) (use (ToSociIndicator [] (sr_attributes_json row)))
    (default [] (sr_short_code row)).

(** [static_cast<int>] of a [std::size_t]. *)
Definition to_int32 (n : nat) : Z := (Z.of_nat n + 2 ^ 31) mod 2 ^ 32 - 2 ^ 31.

(** ** The dialects *)
Class SqlDialect (Flag : Type) := {
  BootstrapSchemaSql : Stmt Flag unit;
  InsertSql : InsertParams → Stmt Flag unit;
  SelectByShortCodeSql : str → Stmt Flag (list SociRow);
  UpdateSql : UpdateParams → Stmt Flag nat;
  DeleteSql : str → Stmt Flag unit;
  ExistsSql : str → Stmt Flag Z;
  ListSql : option str → Z → Z → Z → Stmt Flag (list SociRow);
}.

(** ** [ISqlSession] and [ISqlSessionFactory] *)
Class ISqlSession (Flag : Type) := {
  sess_Create : ST (SqlWorld Flag) (bool * RepoError.t);
  sess_Bootstrap : Stmt Flag unit → ST (SqlWorld Flag) (bool * RepoError.t);
  sess_InsertLink : (InsertParams → Stmt Flag unit) → SqlRow → ST (SqlWorld Flag) (bool * RepoError.t);
  sess_SelectByShortCode : (str → Stmt Flag (list SociRow)) → str → ST (SqlWorld Flag) (option SqlRow * RepoError.t);
  sess_UpdateLink : (UpdateParams → Stmt Flag nat) → SqlRow → ST (SqlWorld Flag) (bool * RepoError.t);
  sess_DeleteLink : (str → Stmt Flag unit) → str → ST (SqlWorld Flag) (bool * RepoError.t);
  (** The returned flag, then [*exists]. *)
  sess_Exists : (str → Stmt Flag Z) → str → ST (SqlWorld Flag) (bool * bool * RepoError.t);
  sess_List : (option str → Z → Z → Z → Stmt Flag (list SociRow)) → option str → bool → nat → nat →
    ST (SqlWorld Flag) (list SqlRow * RepoError.t);
}.

Inductive SqlBackendKind := backend_sqlite | backend_postgres.
#[export] Instance SqlBackendKind_eq_dec : EqDecision SqlBackendKind.
Proof. solve_decision. Defined.

Record SqlConnectionConfig := mkSqlConnectionConfig {
  scc_backend : SqlBackendKind;
  scc_dsn : str;
  scc_busy_timeout : Z;
  scc_connect_timeout : Z;
  scc_statement_timeout : Z;
  scc_application_name : option str;
  scc_max_retries : nat;
}.

(** ** What the drivers do by themselves *)
Class SqlDriver (Flag : Type) := {
  (** Opening a connection: it may see another database. *)
  dr_open : str → Stmt Flag unit;
  (** A statement that only sets an option of the connection. *)
  dr_setting : str → Stmt Flag unit;
  dr_no_table : str;
  dr_duplicate_key : str → str;
  dr_negative_limit : str;
  (** SQLite: the cell of an [INTEGER] column. *)
  dr_integer : Z → Cell;
  (** PostgreSQL: [to_timestamp], read back in seconds, and the cast to [JSONB]. *)
  dr_to_timestamp : Z → str + Z;
  dr_jsonb : str → str + str;
  (** [ORDER BY created_at]. *)
  dr_order : list (str * LinksRow Flag) → list (str * LinksRow Flag);
}.

Definition text_cell (o : option str) : Cell := match o with Some s => cell_text s | None => cell_null end.

Section statements.
Context {Flag : Type} `{SqlDriver Flag}.

Definition on_links {A} (f : gmap str (LinksRow Flag) → str + (A * gmap str (LinksRow Flag))) : Stmt Flag A := fun db =>
  match db with
  | None => inl dr_no_table
  | Some links => match f links with inl what => inl what | inr (a, links') => inr (a, Some links') end
  end.

(** [CREATE TABLE IF NOT EXISTS links]. *)
Definition create_links : Stmt Flag unit := fun db => inr (tt, Some (default ∅ db)).

(** [INSERT INTO links]: the short code is the primary key. *)
Definition insert_row (key : str) (row : LinksRow Flag) : Stmt Flag unit :=
  on_links (fun links =>
    match links !! key with
    | Some _ => inl (dr_duplicate_key key)
    | None => inr (tt, <[key := row]> links)
    end).

(** [UPDATE links SET ... WHERE short_code = :short_code], with the number of
    rows it changed. *)
Definition update_row (key : str) (set : LinksRow Flag → LinksRow Flag) : Stmt Flag nat :=
  on_links (fun links =>
    match links !! key with
    | Some row => inr (1, <[key := set row]> links)
    | None => inr (0, links)
    end).

(** [SELECT ... FROM links WHERE short_code = :short_code]. *)
Definition select_row (cells : str → LinksRow Flag → SociRow) (key : str) : Stmt Flag (list SociRow) :=
  on_links (fun links => inr (match links !! key with Some row => [cells key row] | None => [] end, links)).

Definition delete_row (key : str) : Stmt Flag unit := on_links (fun links => inr (tt, delete key links)).

(** [SELECT COUNT(1) FROM links WHERE short_code = :short_code]. *)
Definition count_rows (key : str) : Stmt Flag Z :=
  on_links (fun links => inr (match links !! key with Some _ => 1 | None => 0 end%Z, links)).

(** The [WHERE] clause of the list, a comparison with NULL being false. *)
Definition list_where (active : LinksRow Flag → bool) (owner_id : option str) (include_inactive : Z)
    (kr : str * LinksRow Flag) : bool :=
  (bool_decide (owner_id = None) || match owner_id, c_owner_id kr.2 with Some o, Some o' => bool_decide (o' = o) | _, _ => false end)
  && ((include_inactive =? 1)%Z || active kr.2).

Definition ordered_rows (active : LinksRow Flag → bool) (owner_id : option str) (include_inactive : Z)
    (links : gmap str (LinksRow Flag)) : list (str * LinksRow Flag) :=
  dr_order (List.filter (list_where active owner_id include_inactive) (map_to_list links)).
End statements.

(** ** SQLite *)
Module Sqlite.
Section dialect.
Context `{SqlDriver Z}.

(** The columns of the two [SELECT]s. *)
Definition cells (key : str) (row : LinksRow Z) : SociRow :=
  [("id"%string, cell_text (c_id row)); ("short_code"%string, cell_text key);
   ("target_url"%string, cell_text (c_target_url row)); ("created_at"%string, dr_integer (c_created_at row));
   ("updated_at"%string, dr_integer (c_updated_at row));
   ("expires_at"%string, match c_expires_at row with Some v => dr_integer v | None => cell_null end);
   ("is_active"%string, dr_integer (c_is_active row)); ("owner_id"%string, text_cell (c_owner_id row));
   ("attributes_json"%string, text_cell (c_attributes_json row))].

Definition Insert (p : InsertParams) : Stmt Z unit :=
  insert_row (ip_short_code p)
    (mkLinksRow (ip_id p) (ip_target_url p) (ip_created_at p) (ip_updated_at p) (ip_expires_at p) (ip_is_active p)
       (ip_owner_id p) (ip_attributes_json p)).

Definition Update (p : UpdateParams) : Stmt Z nat :=
  update_row (up_short_code p) (fun row =>
    mkLinksRow (c_id row) (up_target_url p) (c_created_at row) (up_updated_at p) (up_expires_at p) (up_is_active p)
      (up_owner_id p) (up_attributes_json p)).

(** A negative [LIMIT] is no limit and a negative [OFFSET] is none. *)
Definition page {A} (limit offset : Z) (l : list A) : list A :=
  let rest := drop (Z.to_nat offset) l in
  if (limit <? 0)%Z then rest else take (Z.to_nat limit) rest.

Definition is_active (row : LinksRow Z) : bool := (c_is_active row =? 1)%Z.

Definition List (owner_id : option str) (include_inactive limit offset : Z) : Stmt Z (list SociRow) :=
  on_links (fun links =>
    inr (map (fun kr => cells kr.1 kr.2) (page limit offset (ordered_rows is_active owner_id include_inactive links)),
         links)).

#[export] Instance SqliteSqlDialect : SqlDialect Z := {
  BootstrapSchemaSql := create_links;
  InsertSql := Insert;
  SelectByShortCodeSql := select_row cells;
  UpdateSql := Update;
  DeleteSql := delete_row;
  ExistsSql := count_rows;
  ListSql := List;
}.
End dialect.

Section session.
Context `{SqlDriver Z} (config : SqlConnectionConfig).

(** The [catch] of every operation. *)
Definition guarded {A} (m : Exec Z A) : ST (SqlWorld Z) (option A * RepoError.t) := fun w =>
  match m w with
  | (inr a, w') => ((Some a, RepoError.none), w')
  | (inl what, w') => ((None, SqliteErrorMapper.MapException what), w')
  end.

Definition succeeded {A} (m : ST (SqlWorld Z) (option A * RepoError.t)) : ST (SqlWorld Z) (bool * RepoError.t) :=
  '(o, e) ← m; mret (bool_decide (is_Some o), e).

Definition open_session : Exec Z unit :=
  _ <~ execute (dr_open (scc_dsn config));
  execute (dr_setting (("PRAGMA busy_timeout = " : str) ++ dec (scc_busy_timeout config) ++ (";" : str))).

Definition Create : ST (SqlWorld Z) (bool * RepoError.t) :=
  if negb (bool_decide (scc_backend config = backend_sqlite)) || bool_decide (scc_dsn config = [])
  then mret (false, RepoError.invalid_argument)
  else succeeded (guarded open_session).

Definition Bootstrap (sql : Stmt Z unit) : ST (SqlWorld Z) (bool * RepoError.t) := succeeded (guarded (execute sql)).

Definition InsertLink (sql : InsertParams → Stmt Z unit) (row : SqlRow) : ST (SqlWorld Z) (bool * RepoError.t) :=
  succeeded (guarded (execute (sql (insert_params row)))).

Definition SelectByShortCode (sql : str → Stmt Z (list SociRow)) (short_code : str) :
    ST (SqlWorld Z) (option SqlRow * RepoError.t) :=
  '(o, e) ← guarded (rs <~ execute (sql short_code);
                      match rs with
                      | [] => exec_ret None
                      | r :: _ => row <~ lift_sum (RowFromSoci get_either r); exec_ret (Some row)
                      end);
  mret match o with
       | Some None => (None, RepoError.not_found)
       | Some (Some row) => (Some row, RepoError.none)
       | None => (None, e)
       end.

(** [SELECT changes()] reads the count of the statement before it. *)
Definition UpdateLink (sql : UpdateParams → Stmt Z nat) (row : SqlRow) : ST (SqlWorld Z) (bool * RepoError.t) :=
  '(o, e) ← guarded (changes <~ execute (sql (update_params row)); execute (fun db => inr (changes, db)));
  mret match o with
       | Some affected => if affected =? 0 then (false, RepoError.not_found) else (true, RepoError.none)
       | None => (false, e)
       end.

Definition DeleteLink (sql : str → Stmt Z unit) (short_code : str) : ST (SqlWorld Z) (bool * RepoError.t) :=
  succeeded (guarded (execute (sql short_code))).

Definition Exists (sql : str → Stmt Z Z) (short_code : str) : ST (SqlWorld Z) (bool * bool * RepoError.t) :=
  '(o, e) ← guarded (execute (sql short_code));
  mret match o with
       | Some count => ((true, (0 <? count)%Z), RepoError.none)
       | None => ((false, false), e)
       end.

Definition list_rows (sql : option str → Z → Z → Z → Stmt Z (list SociRow)) (owner : option str)
    (include_inactive : bool) (limit offset : nat) : ST (SqlWorld Z) (list SqlRow * RepoError.t) :=
  '(o, e) ← guarded (rs <~ execute (sql (use (ToSociIndicator [] owner)) (if include_inactive then 1 else 0)%Z
                                      (to_int32 limit) (to_int32 offset));
                      fun w => let '(r, (w', rows)) := fetch_rows get_either rs (w, []) in
                               match r with inl what => (inl what, w') | inr _ => (inr rows, w') end);
  mret (default [] o, e).

#[export] Instance SqliteSession : ISqlSession Z := {
  sess_Create := Create;
  sess_Bootstrap := Bootstrap;
  sess_InsertLink := InsertLink;
  sess_SelectByShortCode := SelectByShortCode;
  sess_UpdateLink := UpdateLink;
  sess_DeleteLink := DeleteLink;
  sess_Exists := Exists;
  sess_List := list_rows;
}.
End session.
End Sqlite.

(** ** PostgreSQL *)
Module Postgres.
Section dialect.
Context `{SqlDriver bool}.

(** The columns of the two [SELECT]s, times as [BIGINT] seconds. *)
Definition cells (key : str) (row : LinksRow bool) : SociRow :=
  [("id"%string, cell_text (c_id row)); ("short_code"%string, cell_text key);
   ("target_url"%string, cell_text (c_target_url row)); ("created_at"%string, cell_long_long (c_created_at row));
   ("updated_at"%string, cell_long_long (c_updated_at row));
   ("expires_at"%string, match c_expires_at row with Some v => cell_long_long v | None => cell_null end);
   ("is_active"%string, cell_integer (if c_is_active row then 1 else 0)%Z); ("owner_id"%string, text_cell (c_owner_id row));
   ("attributes_json"%string, text_cell (c_attributes_json row))].

(** A conversion of a parameter, NULL staying NULL. *)
Definition convert {A} (f : A → str + A) (o : option A) : str + option A :=
  match o with None => inr None | Some v => sum_bind (f v) (fun v' => inr (Some v')) end.

Definition Insert (p : InsertParams) : Stmt bool unit := fun db =>
  sum_bind (dr_to_timestamp (ip_created_at p)) (fun created_at =>
  sum_bind (dr_to_timestamp (ip_updated_at p)) (fun updated_at =>
  sum_bind (convert dr_to_timestamp (ip_expires_at p)) (fun expires_at =>
  sum_bind (convert dr_jsonb (ip_attributes_json p)) (fun attributes =>
  insert_row (ip_short_code p)
    (mkLinksRow (ip_id p) (ip_target_url p) created_at updated_at expires_at (negb (ip_is_active p =? 0)%Z)
       (ip_owner_id p) attributes) db)))).

Definition Update (p : UpdateParams) : Stmt bool nat := fun db =>
  sum_bind (dr_to_timestamp (up_updated_at p)) (fun updated_at =>
  sum_bind (convert dr_to_timestamp (up_expires_at p)) (fun expires_at =>
  sum_bind (convert dr_jsonb (up_attributes_json p)) (fun attributes =>
  update_row (up_short_code p) (fun row =>
    mkLinksRow (c_id row) (up_target_url p) (c_created_at row) updated_at expires_at (negb (up_is_active p =? 0)%Z)
      (up_owner_id p) attributes) db))).

(** A negative [LIMIT] or [OFFSET] is an error. *)
Definition List (owner_id : option str) (include_inactive limit offset : Z) : Stmt bool (list SociRow) :=
  on_links (fun links =>
    if (limit <? 0)%Z || (offset <? 0)%Z then inl dr_negative_limit
    else inr (map (fun kr => cells kr.1 kr.2)
                (take (Z.to_nat limit) (drop (Z.to_nat offset) (ordered_rows c_is_active owner_id include_inactive links))),
              links)).

#[export] Instance PostgresSqlDialect : SqlDialect bool := {
  BootstrapSchemaSql := create_links;
  InsertSql := Insert;
  SelectByShortCodeSql := select_row cells;
  UpdateSql := Update;
  DeleteSql := delete_row;
  ExistsSql := count_rows;
  ListSql := List;
}.
End dialect.

(** ** [RunWithRetry]

    The lambda runs on the database and on the locals it captures; what it did
    to the locals before it threw stays. [attempt] counts up to [max_retries], so
    [S max_retries] rounds are enough. *)
Section retry.
Context {Flag Locals : Type} (fn : ST (SqlWorld Flag * Locals) (str + unit)).

Fixpoint retry_loop (rounds attempt max_retries : nat) (retryable : bool) :
    ST (SqlWorld Flag * Locals) (bool * RepoError.t) := fun s =>
  match rounds with
  | 0 => ((false, RepoError.transient_failure), s)
  | S rounds' =>
      match fn s with
      | (inr _, s') => ((true, RepoError.none), s')
      | (inl what, s') =>
          if bool_decide (what = ("not_found" : str)) then ((false, RepoError.not_found), s')
          else
            let mapped := PostgresErrorMapper.MapException what in
            let transient := match mapped with RepoError.transient_failure => true | _ => false end in
            if negb (retryable && transient && (attempt <? max_retries)) then ((false, mapped), s')
            else retry_loop rounds' (S attempt) max_retries retryable s'
      end
  end.

Definition RunWithRetry (max_retries : nat) (retryable : bool) : ST (SqlWorld Flag * Locals) (bool * RepoError.t) :=
  retry_loop (S max_retries) 0 max_retries retryable.
End retry.

(** A lambda that captures nothing it writes. *)
Definition no_locals {Flag} (m : Exec Flag unit) : ST (SqlWorld Flag * unit) (str + unit) := fun '(w, _) =>
  let '(r, w') := m w in (r, (w', tt)).

Section session.
Context `{SqlDriver bool} (config : SqlConnectionConfig).

Definition BuildPostgresConnectString : str :=
  let connect_timeout_secs := Z.max 1 (Z.quot (scc_connect_timeout config) 1000) in
  scc_dsn config ++ (" connect_timeout=" : str) ++ dec connect_timeout_secs ++
  match scc_application_name config with
  | Some name => (" application_name=" : str) ++ name
  | None => []
  end.

Definition open_session : Exec bool unit :=
  _ <~ execute (dr_open BuildPostgresConnectString);
  execute (dr_setting (("SET statement_timeout = " : str) ++ dec (scc_statement_timeout config) ++ (";" : str))).

Definition Create : ST (SqlWorld bool) (bool * RepoError.t) := fun w =>
  if negb (bool_decide (scc_backend config = backend_postgres)) || bool_decide (scc_dsn config = [])
  then ((false, RepoError.invalid_argument), w)
  else match open_session w with
  | (inr _, w') => ((true, RepoError.none), w')
  | (inl what, w') => ((false, PostgresErrorMapper.MapException what), w')
  end.

Definition run {Locals} (fn : ST (SqlWorld bool * Locals) (str + unit)) (retryable : bool) (l : Locals) :
    ST (SqlWorld bool) (bool * RepoError.t * Locals) := fun w =>
  let '(r, (w', l')) := RunWithRetry fn (scc_max_retries config) retryable (w, l) in ((r, l'), w').

Definition run_unit (m : Exec bool unit) (retryable : bool) : ST (SqlWorld bool) (bool * RepoError.t) :=
  '(r, _) ← run (no_locals m) retryable tt; mret r.

Definition Bootstrap (sql : Stmt bool unit) : ST (SqlWorld bool) (bool * RepoError.t) := run_unit (execute sql) true.

Definition InsertLink (sql : InsertParams → Stmt bool unit) (row : SqlRow) : ST (SqlWorld bool) (bool * RepoError.t) :=
  run_unit (execute (sql (insert_params row))) false.

Definition select_fn (sql : str → Stmt bool (list SociRow)) (short_code : str) :
    ST (SqlWorld bool * option SqlRow) (str + unit) := fun '(w, out) =>
  match execute (sql short_code) w with
  | (inl what, w') => (inl what, (w', out))
  | (inr [], w') => (inr tt, (w', None))
  | (inr (r :: _), w') =>
      match RowFromSoci get_long_long r with
      | inl what => (inl what, (w', out))
      | inr row => (inr tt, (w', Some row))
      end
  end.

Definition SelectByShortCode (sql : str → Stmt bool (list SociRow)) (short_code : str) :
    ST (SqlWorld bool) (option SqlRow * RepoError.t) :=
  '((ok, e), out) ← run (select_fn sql short_code) true None;
  mret (if negb ok then (None, e)
        else match out with None => (None, RepoError.not_found) | Some row => (Some row, e) end).

Definition UpdateLink (sql : UpdateParams → Stmt bool nat) (row : SqlRow) : ST (SqlWorld bool) (bool * RepoError.t) :=
  run_unit (_ <~ execute (sql (update_params row));
            affected <~ execute (count_rows (up_short_code (update_params row)));
            if (affected =? 0)%Z then exec_throw ("not_found" : str) else exec_ret tt) false.

Definition DeleteLink (sql : str → Stmt bool unit) (short_code : str) : ST (SqlWorld bool) (bool * RepoError.t) :=
  run_unit (execute (sql short_code)) false.

Definition count_fn (sql : str → Stmt bool Z) (short_code : str) : ST (SqlWorld bool * Z) (str + unit) := fun '(w, count) =>
  match execute (sql short_code) w with
  | (inl what, w') => (inl what, (w', count))
  | (inr n, w') => (inr tt, (w', n))
  end.

Definition Exists (sql : str → Stmt bool Z) (short_code : str) : ST (SqlWorld bool) (bool * bool * RepoError.t) :=
  '((ok, e), count) ← run (count_fn sql short_code) true 0%Z;
  mret ((ok, (0 <? count)%Z), e).

Definition list_fn (sql : option str → Z → Z → Z → Stmt bool (list SociRow)) (owner : option str)
    (include_inactive : bool) (limit offset : nat) : ST (SqlWorld bool * list SqlRow) (str + unit) := fun '(w, rows) =>
  match execute (sql (use (ToSociIndicator [] owner)) (if include_inactive then 1 else 0)%Z (to_int32 limit) (to_int32 offset)) w with
  | (inl what, w') => (inl what, (w', rows))
  | (inr rs, w') => fetch_rows get_long_long rs (w', rows)
  end.

Definition list_rows (sql : option str → Z → Z → Z → Stmt bool (list SociRow)) (owner : option str)
    (include_inactive : bool) (limit offset : nat) : ST (SqlWorld bool) (list SqlRow * RepoError.t) :=
  '((ok, e), rows) ← run (list_fn sql owner include_inactive limit offset) true [];
  mret (if negb ok then ([], e) else (rows, e)).

#[export] Instance PostgresSession : ISqlSession bool := {
  sess_Create := Create;
  sess_Bootstrap := Bootstrap;
  sess_InsertLink := InsertLink;
  sess_SelectByShortCode := SelectByShortCode;
  sess_UpdateLink := UpdateLink;
  sess_DeleteLink := DeleteLink;
  sess_Exists := Exists;
  sess_List := list_rows;
}.
End session.
End Postgres.
