(* ===== verification/SqlRepository.v ===== *)
(** * SqlRepository: [SqlMetadataRepository] over any SQL session

    src/storage/sql/sql_metadata_repository.cpp. The repository is written
    against [ISqlSession] and [SqlDialect]; its theorems are proved against the
    contract [SqlSessionSpec], which the two back ends meet in SqlBackends. *)
From S2P Require Import Prelude Text Clock LinkJson Storage SqlRows SqlSessions.

(** ** The repository *)
Section repository.
Context {Flag T : Type} `{ISqlSession Flag} `{SqlDialect Flag} `{PropertyTree T}.

(** [bootstrapped_] and the database behind the session factory. *)
Abbreviation Repo := (bool * SqlWorld Flag)%type.

Definition on_world {A} (m : ST (SqlWorld Flag) A) : ST Repo A := fun '(b, w) => let '(a, w') := m w in (a, (b, w')).

Definition EnsureBootstrapped : ST Repo (bool * RepoError.t) := fun '(bootstrapped, w) =>
  if bootstrapped then ((true, RepoError.none), (bootstrapped, w))
  else match sess_Bootstrap BootstrapSchemaSql w with
  | ((true, e), w') => ((true, e), (true, w'))
  | ((false, e), w') => ((false, e), (false, w'))
  end.

(** The head of every method: a session, the schema, then the statement. *)
Definition with_session {R} (failed : RepoError.t → R) (body : ST (SqlWorld Flag) R) : ST Repo R :=
  '(session, e) ← on_world sess_Create;
  if negb session then mret (failed e) else
  '(ready, e) ← EnsureBootstrapped;
  if negb ready then mret (failed e) else on_world body.

(** [None]: an exception of the property tree leaves the method. *)
Definition CreateLink (request : CreateLinkRequest) (id : str) (now : Z) : ST Repo (option (bool * RepoError.t)) :=
  if negb (isValid request) then mret (Some (false, RepoError.invalid_argument))
  else with_session (fun e => Some (false, e))
    match ToCreateRow (T := T) request id now with
    | None => mret None
    | Some row => r ← sess_InsertLink InsertSql row; mret (Some r)
    end.

Definition GetByShortCode (short_code : str) : ST Repo (option LinkRecord * RepoError.t) :=
  with_session (fun e => (None, e))
    ('(row, e) ← sess_SelectByShortCode SelectByShortCodeSql short_code;
     mret match row with
          | None => (None, e)
          | Some row => FromRow (T := T) row
          end).

Definition UpdateLink (record : LinkRecord) : ST Repo (option (bool * RepoError.t)) :=
  with_session (fun e => Some (false, e))
    match ToUpdateRow (T := T) record with
    | None => mret None
    | Some row => r ← sess_UpdateLink UpdateSql row; mret (Some r)
    end.

Definition DeleteLink (short_code : str) : ST Repo (bool * RepoError.t) :=
  with_session (fun e => (false, e)) (sess_DeleteLink DeleteSql short_code).

(** The mapping loop of [ListLinks]; [error] keeps the value of the last step. *)
Fixpoint map_rows (rows : list SqlRow) (out : list LinkRecord) (error : RepoError.t) : list LinkRecord * RepoError.t :=
  match rows with
  | [] => (out, error)
  | row :: rows' =>
      match FromRow (T := T) row with
      | (Some mapped, e) => map_rows rows' (out ++ [mapped]) e
      | (None, e) => ([], e)
      end
  end.

Definition ListLinks (query : ListLinksQuery) : ST Repo (list LinkRecord * RepoError.t) :=
  with_session (fun e => ([], e))
    ('(rows, e) ← sess_List ListSql (q_owner query) (q_include_inactive query) (q_limit query) (q_offset query);
     mret (map_rows rows [] e)).

Definition Exists (short_code : str) : ST Repo (bool * RepoError.t) :=
  with_session (fun e => (false, e))
    ('((ok, exists_), e) ← sess_Exists ExistsSql short_code;
     mret (if negb ok then (false, e) else (exists_, e))).
End repository.

(** ** What a world promises *)

(** No statement fails from here on. *)
Definition quiet {Flag} (w : SqlWorld Flag) : Prop := ∀ n, sw_tick w ≤ n → sw_faults w n = None.

(** The database goes on: the same faults, read further. *)
Definition goes_on {Flag} (w w' : SqlWorld Flag) : Prop := sw_faults w' = sw_faults w ∧ sw_tick w ≤ sw_tick w'.

#[export] Instance goes_on_preorder {Flag} : PreOrder (@goes_on Flag).
Proof.
  split; [by split|]. intros w1 w2 w3 [H1 H2] [H3 H4]. split; [congruence|lia].
Qed.

Lemma quiet_goes_on {Flag} (w w' : SqlWorld Flag) : goes_on w w' → quiet w → quiet w'.
Proof. intros [Hf Ht] Hq n Hn. rewrite Hf. apply Hq. lia. Qed.

(** No driver's message is the word the PostgreSQL session throws itself. *)
Definition driver_messages {Flag} (w : SqlWorld Flag) : Prop :=
  ∀ n took_effect, sw_faults w n ≠ Some (("not_found" : str), took_effect).

Lemma driver_messages_goes_on {Flag} (w w' : SqlWorld Flag) : goes_on w w' → driver_messages w → driver_messages w'.
Proof. intros [Hf _] H n b. rewrite Hf. apply H. Qed.

(** ** The contract of a session *)

(** The errors a failing statement is mapped to. *)
Definition is_fault (e : RepoError.t) : Prop := e ≠ RepoError.none ∧ e ≠ RepoError.not_found.

(** A row and the record it stands for. *)
Record row_holds {Flag T} `{PropertyTree T} (fits : Z → Prop) (flag : bool → Flag)
    (key : str) (row : LinksRow Flag) (r : LinkRecord) : Prop := {
  rh_fits : fits (c_created_at row) ∧ fits (c_updated_at row) ∧ (∀ v, c_expires_at row = Some v → fits v);
  rh_flag : c_is_active row = flag (lr_is_active r);
  rh_payload : ∃ text, c_attributes_json row = Some text ∧ DeserializePayload text = Some (lr_id r, lr_attributes r);
  rh_record : r = mkLinkRecord (lr_id r) key (c_target_url row) (FromEpochSeconds (c_created_at row))
                (FromEpochSeconds (c_updated_at row)) (FromEpochSeconds <$> c_expires_at row) None (c_owner_id row)
                (lr_attributes r) (lr_is_active r) 1;
}.

(** The table [links] holds exactly the records of [t]. *)
Definition holds {Flag T} `{PropertyTree T} (fits : Z → Prop) (flag : bool → Flag)
    (w : SqlWorld Flag) (t : gmap str LinkRecord) : Prop :=
  driver_messages w ∧
  ∃ links, sw_links w = Some links ∧ ∀ key, option_Forall2 (row_holds fits flag key) (links !! key) (t !! key).

(** Records whose times fit the columns and whose payload is plain. *)
Definition storable (fits : Z → Prop) (r : LinkRecord) : Prop :=
  plain_payload (lr_id r) (lr_attributes r) ∧ fits (ToEpochSeconds (lr_created_at r)) ∧
  fits (ToEpochSeconds (lr_updated_at r)) ∧ (∀ v, lr_expires_at r = Some v → fits (ToEpochSeconds v)).

(** An update leaves the column [created_at] as it was. *)
Definition restamped (old r : LinkRecord) : LinkRecord :=
  mkLinkRecord (lr_id r) (lr_short_code r) (lr_target_url r) (lr_created_at old) (whole_seconds (lr_updated_at r))
    (whole_seconds <$> lr_expires_at r) None (lr_owner r) (lr_attributes r) (lr_is_active r) 1.

(** The records a list may show. *)
Definition wanted (owner : option str) (include_inactive : bool) (r : LinkRecord) : bool :=
  (bool_decide (owner = None) || bool_decide (lr_owner r = owner)) && (include_inactive || lr_is_active r).

Definition pages_of (owner : option str) (include_inactive : bool) (limit offset : nat) (t : gmap str LinkRecord)
    (answer : list LinkRecord) : Prop :=
  ∃ l, l ≡ₚ List.filter (wanted owner include_inactive) (map snd (map_to_list t)) ∧
    Sorted (fun r1 r2 => lr_created_at r1 ≤ lr_created_at r2)%Z l ∧ answer = take limit (drop offset l).

(** A list without an error shows wanted records of the table and, when [exact],
    just the page asked for. *)
Definition listing (exact : Prop) (owner : option str) (include_inactive : bool) (limit offset : nat)
    (t : gmap str LinkRecord) (answer : list LinkRecord) : Prop :=
  (exact → pages_of owner include_inactive limit offset t answer) ∧
  (∀ r, r ∈ answer → wanted owner include_inactive r = true ∧ ∃ code, t !! code = Some r).

Class SqlSessionSpec (Flag T : Type) `{ISqlSession Flag} `{SqlDialect Flag} `{PropertyTree T} := {
  fits : Z → Prop;
  flag : bool → Flag;
  (** A list is never read in more than one attempt. *)
  lists_once : Prop;
  open_law w :
    let '((ok, e), w') := sess_Create w in
    goes_on w w' ∧ sw_links w' = sw_links w ∧
    ((ok = true ∧ e = RepoError.none) ∨ (ok = false ∧ is_fault e ∧ ¬ quiet w));
  bootstrap_law w :
    driver_messages w →
    let '((ok, e), w') := sess_Bootstrap BootstrapSchemaSql w in
    goes_on w w' ∧ ((ok = true ∧ e = RepoError.none ∧ sw_links w' = Some (default ∅ (sw_links w))) ∨
                    (ok = false ∧ is_fault e ∧ ¬ quiet w ∧
                     (sw_links w' = sw_links w ∨ sw_links w' = Some (default ∅ (sw_links w)))));
  insert_law w t r row :
    holds fits flag w t → storable fits r → ToUpdateRow r = Some row →
    let '((ok, e), w') := sess_InsertLink InsertSql row w in
    goes_on w w' ∧
    ((ok = true ∧ e = RepoError.none ∧ t !! lr_short_code r = None ∧ holds fits flag w' (<[lr_short_code r := stored r]> t)) ∨
     (ok = false ∧ is_fault e ∧ holds fits flag w' t ∧
      (quiet w → e = RepoError.already_exists ∧ is_Some (t !! lr_short_code r))) ∨
     (ok = false ∧ is_fault e ∧ ¬ quiet w ∧ t !! lr_short_code r = None ∧
      holds fits flag w' (<[lr_short_code r := stored r]> t)));
  select_law w t key :
    holds fits flag w t →
    let '((o, e), w') := sess_SelectByShortCode SelectByShortCodeSql key w in
    goes_on w w' ∧ holds fits flag w' t ∧
    match o with
    | Some row => e = RepoError.none ∧ ∃ r, t !! key = Some r ∧ FromRow row = (Some r, RepoError.none)
    | None => (e = RepoError.not_found ∧ t !! key = None) ∨ (is_fault e ∧ ¬ quiet w)
    end;
  update_law w t r row :
    holds fits flag w t → storable fits r → ToUpdateRow r = Some row →
    let '((ok, e), w') := sess_UpdateLink UpdateSql row w in
    goes_on w w' ∧
    let applied old := t !! lr_short_code r = Some old ∧ holds fits flag w' (<[lr_short_code r := restamped old r]> t) in
    ((ok = true ∧ e = RepoError.none ∧ ∃ old, applied old) ∨
     (ok = false ∧ e = RepoError.not_found ∧ t !! lr_short_code r = None ∧ holds fits flag w' t) ∨
     (ok = false ∧ is_fault e ∧ ¬ quiet w ∧
      (holds fits flag w' t ∨ ∃ old, applied old)));
  delete_law w t key :
    holds fits flag w t →
    let '((ok, e), w') := sess_DeleteLink DeleteSql key w in
    goes_on w w' ∧
    ((ok = true ∧ e = RepoError.none ∧ holds fits flag w' (delete key t)) ∨
     (ok = false ∧ is_fault e ∧ ¬ quiet w ∧ (holds fits flag w' t ∨ holds fits flag w' (delete key t))));
  exists_law w t key :
    holds fits flag w t →
    let '((ok, found, e), w') := sess_Exists ExistsSql key w in
    goes_on w w' ∧ holds fits flag w' t ∧
    ((ok = true ∧ e = RepoError.none ∧ found = bool_decide (is_Some (t !! key))) ∨
     (ok = false ∧ is_fault e ∧ ¬ quiet w));
  list_law w t owner include_inactive limit offset :
    holds fits flag w t →
    let '((rows, e), w') := sess_List ListSql owner include_inactive limit offset w in
    goes_on w w' ∧ holds fits flag w' t ∧
    ((Z.of_nat limit < 2 ^ 31)%Z → (Z.of_nat offset < 2 ^ 31)%Z →
     (e = RepoError.none ∧ ∃ answer, listing (quiet w ∨ lists_once) owner include_inactive limit offset t answer ∧
        Forall2 (fun row r => FromRow row = (Some r, RepoError.none)) rows answer) ∨
     (rows = [] ∧ is_fault e ∧ ¬ quiet w));
}.

(** ** The abstract repository

    A table of records keyed by short code. When the database is [calm] every
    method gives the one answer the table determines; otherwise it may also
    report a fault, and then the table is as before or, an answer having been lost,
    the whole operation has been applied. A list read again after a fault may
    repeat rows; one that is read [once] is exact or reports the fault. *)
Inductive SqlOp :=
  | op_create (request : CreateLinkRequest) (id : str) (now : Z)
  | op_get (short_code : str)
  | op_update (record : LinkRecord)
  | op_delete (short_code : str)
  | op_exists (short_code : str)
  | op_list (query : ListLinksQuery).

Inductive Answer :=
  | ans_done (ok : bool) (e : RepoError.t)
  | ans_record (r : option LinkRecord) (e : RepoError.t)
  | ans_list (l : list LinkRecord) (e : RepoError.t)
  | ans_threw.

(** What a fault looks like. *)
Definition faulty (ans : Answer) : Prop :=
  match ans with
  | ans_done ok e => ok = false ∧ is_fault e
  | ans_record r e => r = None ∧ is_fault e
  | ans_list l e => l = [] ∧ is_fault e
  | ans_threw => False
  end.

Inductive table_step (calm once : Prop) (t : gmap str LinkRecord) : SqlOp → Answer → gmap str LinkRecord → Prop :=
  | step_invalid rq id now :
      isValid rq = false → table_step calm once t (op_create rq id now) (ans_done false RepoError.invalid_argument) t
  | step_created rq id now :
      isValid rq = true → t !! rq_short_code rq = None →
      table_step calm once t (op_create rq id now) (ans_done true RepoError.none)
        (<[rq_short_code rq := stored (new_record rq id now)]> t)
  | step_duplicate rq id now :
      isValid rq = true → is_Some (t !! rq_short_code rq) →
      table_step calm once t (op_create rq id now) (ans_done false RepoError.already_exists) t
  | step_found code r : t !! code = Some r → table_step calm once t (op_get code) (ans_record (Some r) RepoError.none) t
  | step_missing code : t !! code = None → table_step calm once t (op_get code) (ans_record None RepoError.not_found) t
  | step_updated r old :
      t !! lr_short_code r = Some old →
      table_step calm once t (op_update r) (ans_done true RepoError.none) (<[lr_short_code r := restamped old r]> t)
  | step_update_missing r :
      t !! lr_short_code r = None → table_step calm once t (op_update r) (ans_done false RepoError.not_found) t
  | step_deleted code : table_step calm once t (op_delete code) (ans_done true RepoError.none) (delete code t)
  | step_exists code :
      table_step calm once t (op_exists code) (ans_done (bool_decide (is_Some (t !! code))) RepoError.none) t
  | step_listed q l :
      listing (calm ∨ once) (q_owner q) (q_include_inactive q) (q_limit q) (q_offset q) t l →
      table_step calm once t (op_list q) (ans_list l RepoError.none) t
  | step_fault op ans : ¬ calm → faulty ans → table_step calm once t op ans t
  | step_unreported_create rq id now ans :
      ¬ calm → faulty ans → isValid rq = true → t !! rq_short_code rq = None →
      table_step calm once t (op_create rq id now) ans (<[rq_short_code rq := stored (new_record rq id now)]> t)
  | step_unreported_delete code ans :
      ¬ calm → faulty ans → table_step calm once t (op_delete code) ans (delete code t)
  | step_unreported_update r old ans :
      ¬ calm → faulty ans → t !! lr_short_code r = Some old →
      table_step calm once t (op_update r) ans (<[lr_short_code r := restamped old r]> t).

Inductive table_run (calm once : Prop) : gmap str LinkRecord → list SqlOp → list Answer → gmap str LinkRecord → Prop :=
  | run_nil t : table_run calm once t [] [] t
  | run_cons t op ans t1 ops answers t2 :
      table_step calm once t op ans t1 → table_run calm once t1 ops answers t2 →
      table_run calm once t (op :: ops) (ans :: answers) t2.

(** Operations whose data the columns and the payload carry, and lists whose
    limit and offset fit an [int]. *)
Definition op_fits (fits : Z → Prop) (op : SqlOp) : Prop :=
  match op with
  | op_create rq id now => storable fits (new_record rq id now)
  | op_update r => storable fits r
  | op_list q => (Z.of_nat (q_limit q) < 2 ^ 31)%Z ∧ (Z.of_nat (q_offset q) < 2 ^ 31)%Z
  | _ => True
  end.

(** The repository and its table: before the schema exists the table is empty. *)
Definition represents_table {Flag T} `{PropertyTree T} (fits : Z → Prop) (flag : bool → Flag)
    (s : bool * SqlWorld Flag) (t : gmap str LinkRecord) : Prop :=
  driver_messages s.2 ∧
  (holds (T := T) fits flag s.2 t ∨ (s.1 = false ∧ sw_links s.2 = None ∧ t = ∅)).

Section refinement.
Context {Flag T : Type} `{SqlSessionSpec Flag T}.
Abbreviation Repo := (bool * SqlWorld Flag)%type.

Definition run_op (op : SqlOp) : ST Repo Answer :=
  let done (o : option (bool * RepoError.t)) := match o with Some (ok, e) => ans_done ok e | None => ans_threw end in
  match op with
  | op_create rq id now => o ← CreateLink (T := T) rq id now; mret (done o)
  | op_get code => '(o, e) ← GetByShortCode (T := T) code; mret (ans_record o e)
  | op_update r => o ← UpdateLink (T := T) r; mret (done o)
  | op_delete code => '(ok, e) ← DeleteLink code; mret (ans_done ok e)
  | op_exists code => '(ok, e) ← Exists code; mret (ans_done ok e)
  | op_list q => '(l, e) ← ListLinks (T := T) q; mret (ans_list l e)
  end.

Fixpoint run_ops (ops : list SqlOp) : ST Repo (list Answer) :=
  match ops with
  | [] => mret []
  | op :: ops' => ans ← run_op op; answers ← run_ops ops'; mret (ans :: answers)
  end.

Abbreviation represents := (represents_table (T := T) fits flag).

Lemma holds_same_links (w w' : SqlWorld Flag) t :
  goes_on w w' → sw_links w' = sw_links w → holds fits flag w t → holds fits flag w' t.
Proof. intros Hg Hl [Hm Hh]. split; [by eapply driver_messages_goes_on|]. by rewrite Hl. Qed.

Lemma represents_same_links b (w w' : SqlWorld Flag) t :
  goes_on w w' → sw_links w' = sw_links w → represents (b, w) t → represents (b, w') t.
Proof.
  intros Hg Hl [Hm Hh]. split; [by eapply driver_messages_goes_on|]. cbn in *.
  destruct Hh as [Hh|(-> & Hn & ->)]; [left; by eapply holds_same_links|right; by rewrite Hl].
Qed.

Lemma holds_empty (w : SqlWorld Flag) : driver_messages w → sw_links w = Some ∅ → holds fits flag w ∅.
Proof. intros Hm Hl. split; [done|]. exists ∅. split; [done|]. intros key. rewrite !lookup_empty. constructor. Qed.

(** A method either fails before its statement, changing nothing, or runs its
    statement on a database that holds the table. *)
Lemma with_session_cases {R} failed (body : ST (SqlWorld Flag) R) s t :
  represents s t →
  (∃ e s', with_session failed body s = (failed e, s') ∧ is_fault e ∧ ¬ quiet s.2 ∧ goes_on s.2 s'.2 ∧ represents s' t) ∨
  (∃ w, goes_on s.2 w ∧ holds fits flag w t ∧
     with_session failed body s = let '(r, w') := body w in (r, (true, w'))).
Proof.
  destruct s as [b w]. intros Hr. cbn. unfold with_session, on_world. rewrite ST_bind_eq.
  pose proof (open_law w) as Ho. destruct (sess_Create w) as [[ok e] w1]. destruct Ho as (Hg1 & Hl1 & Ho). cbn.
  destruct Ho as [[-> ->]|(-> & Hf & Hq)]; cbn;
    [|left; eexists _, _; split_and!; [reflexivity|done..|]; by eapply represents_same_links].
  assert (Hr1 : represents (b, w1) t) by by eapply represents_same_links.
  rewrite ST_bind_eq. unfold EnsureBootstrapped. destruct b; cbn.
  { right. exists w1. split_and!; [done| |by destruct (body w1)]. by destruct Hr1 as [_ [?|(? & _)]]. }
  pose proof (bootstrap_law w1 (proj1 Hr1)) as Hb.
  destruct (sess_Bootstrap BootstrapSchemaSql w1) as [[ok e] w2]. destruct Hb as (Hg2 & [(-> & -> & Hl2)|(-> & Hf & Hq & Hl2)]); cbn.
  - right. exists w2. split_and!; [by etrans| |by destruct (body w2)].
    destruct Hr1 as [Hm [Hh|(_ & Hn & ->)]]; cbn in *.
    + eapply holds_same_links; [done| |done]. destruct Hh as [_ (links & Hls & _)]. by rewrite Hl2, Hls.
    + apply holds_empty; [by eapply driver_messages_goes_on|]. by rewrite Hl2, Hn.
  - left. eexists _, _. split_and!; [reflexivity|done| |cbn; by etrans|].
    { intros Hq'. by eapply Hq, quiet_goes_on. }
    destruct Hl2 as [Hl2|Hl2]; [by eapply represents_same_links|]. destruct Hr1 as [Hm Hr1].
    split; [by eapply driver_messages_goes_on|]. left. destruct Hr1 as [Hh|(_ & Hn & ->)]; cbn in *.
    + eapply holds_same_links; [done| |done]. destruct Hh as [_ (links & Hls & _)]. by rewrite Hl2, Hls.
    + apply holds_empty; [by eapply driver_messages_goes_on|]. by rewrite Hl2, Hn.
Qed.

Context {LAWS : PropertyTreeLaws T}.

Lemma ToUpdateRow_storable r : storable fits r → ∃ row, ToUpdateRow (T := T) r = Some row.
Proof.
  intros [Hp _]. destruct (payload_roundtrip _ _ Hp) as (text & Ht & _). unfold ToUpdateRow. rewrite Ht. by eexists.
Qed.

Definition refines_step (op : SqlOp) : Prop :=
  ∀ s t, represents s t → op_fits fits op →
    let '(ans, s') := run_op op s in
    goes_on s.2 s'.2 ∧ ∃ t', table_step (quiet s.2) lists_once t op ans t' ∧ represents s' t'.

(** Closes the case of a failed session and hands over the world of the
    statement otherwise. *)
Ltac open_statement s t Hs Hg Hh :=
  match goal with |- context [with_session ?failed ?body s] =>
    destruct (with_session_cases failed body s t Hs) as [(e & s' & -> & He & Hq & Hg & Hr)|(w & Hg & Hh & ->)]
  end;
  [cbn; split; [done|]; exists t; split; [by apply step_fault|done]|].

Lemma represents_holds w t : holds fits flag w t → represents (true, w) t.
Proof. intros Hh. split; [apply Hh|by left]. Qed.

Lemma not_quiet_before w w' : goes_on w w' → ¬ quiet w' → ¬ quiet (Flag := Flag) w.
Proof. intros Hg Hn Hq. by eapply Hn, quiet_goes_on. Qed.

Lemma create_refines rq id now : refines_step (op_create rq id now).
Proof.
  intros s t Hs Hop. cbn. unfold CreateLink. destruct (isValid rq) eqn:Hv; cbn.
  2:{ split; [done|]. exists t. split; [by constructor|done]. }
  rewrite ST_bind_eq. open_statement s t Hs Hg Hh.
  destruct (ToUpdateRow_storable (new_record rq id now) Hop) as [row Hrow].
  change (ToCreateRow rq id now) with (ToUpdateRow (T := T) (new_record rq id now)). rewrite Hrow, ST_bind_eq.
  pose proof (insert_law w t (new_record rq id now) row Hh Hop Hrow) as Hi.
  destruct (sess_InsertLink InsertSql row w) as [[ok e] w']. destruct Hi as [Hg' Hi]. cbn.
  split; [by etrans|]. destruct Hi as [(-> & -> & Hnone & Hh')|[(-> & Hf & Hh' & Hq)|(-> & Hf & Hq & Hnone & Hh')]].
  - eexists. split; [by constructor|by apply represents_holds].
  - exists t. split; [|by apply represents_holds].
    destruct e; try (apply step_fault; [|done]; intros Hq'; destruct (Hq (quiet_goes_on _ _ Hg Hq')) as [? _]; done).
    destruct (t !! rq_short_code rq) eqn:Et; [apply step_duplicate; [done|by rewrite Et]|].
    apply step_fault; [|done]. intros Hq'. destruct (Hq (quiet_goes_on _ _ Hg Hq')) as [_ Hsome].
    cbn in Hsome. rewrite Et in Hsome. by destruct Hsome.
  - eexists. split; [apply step_unreported_create; [by eapply not_quiet_before|done..]|by apply represents_holds].
Qed.

Lemma get_refines code : refines_step (op_get code).
Proof.
  intros s t Hs _. cbn. rewrite ST_bind_eq. unfold GetByShortCode. open_statement s t Hs Hg Hh.
  rewrite ST_bind_eq. pose proof (select_law w t code Hh) as Hl.
  destruct (sess_SelectByShortCode SelectByShortCodeSql code w) as [[o e] w']. destruct Hl as (Hg' & Hh' & Hl).
  destruct o as [row|]; cbn.
  - destruct Hl as (-> & r & Hr & ->). cbn. split; [by etrans|]. exists t. split; [by constructor|by apply represents_holds].
  - split; [by etrans|]. exists t. split; [|by apply represents_holds].
    destruct Hl as [[-> Hnone]|[Hf Hq]]; [by constructor|]. apply step_fault; [by eapply not_quiet_before|done].
Qed.

Lemma update_refines r : refines_step (op_update r).
Proof.
  intros s t Hs Hop. cbn. rewrite ST_bind_eq. unfold UpdateLink. open_statement s t Hs Hg Hh.
  destruct (ToUpdateRow_storable r Hop) as [row Hrow]. rewrite Hrow, ST_bind_eq.
  pose proof (update_law w t r row Hh Hop Hrow) as Hi.
  destruct (sess_UpdateLink UpdateSql row w) as [[ok e] w']. destruct Hi as [Hg' Hi]. cbn.
  split; [by etrans|].
  destruct Hi as [(-> & -> & old & Ho & Hh')|[(-> & -> & Ho & Hh')|(-> & Hf & Hq & [Hh'|(old & Ho & Hh')])]].
  - eexists. split; [by apply step_updated|by apply represents_holds].
  - exists t. split; [by apply step_update_missing|by apply represents_holds].
  - exists t. split; [apply step_fault; [by eapply not_quiet_before|done]|by apply represents_holds].
  - eexists. split; [apply step_unreported_update; [by eapply not_quiet_before|done|done]|by apply represents_holds].
Qed.

Lemma delete_refines code : refines_step (op_delete code).
Proof.
  intros s t Hs _. cbn. rewrite ST_bind_eq. unfold DeleteLink. open_statement s t Hs Hg Hh.
  pose proof (delete_law w t code Hh) as Hl.
  destruct (sess_DeleteLink DeleteSql code w) as [[ok e] w']. destruct Hl as [Hg' Hl]. cbn. split; [by etrans|].
  destruct Hl as [(-> & -> & Hh')|(-> & Hf & Hq & [Hh'|Hh'])].
  - eexists. split; [by constructor|by apply represents_holds].
  - exists t. split; [apply step_fault; [by eapply not_quiet_before|done]|by apply represents_holds].
  - eexists. split; [apply step_unreported_delete; [by eapply not_quiet_before|done]|by apply represents_holds].
Qed.

Lemma exists_refines code : refines_step (op_exists code).
Proof.
  intros s t Hs _. cbn. rewrite ST_bind_eq. unfold Exists. open_statement s t Hs Hg Hh. rewrite ST_bind_eq.
  pose proof (exists_law w t code Hh) as Hl.
  destruct (sess_Exists ExistsSql code w) as [[[ok found] e] w']. destruct Hl as (Hg' & Hh' & Hl). cbn.
  destruct Hl as [(-> & -> & ->)|(-> & Hf & Hq)]; cbn; (split; [by etrans|]); exists t; (split; [|by apply represents_holds]).
  - by constructor.
  - apply step_fault; [by eapply not_quiet_before|done].
Qed.

Lemma map_rows_all rows answer out e :
  Forall2 (fun row r => FromRow (T := T) row = (Some r, RepoError.none)) rows answer → e = RepoError.none →
  map_rows (T := T) rows out e = (out ++ answer, RepoError.none).
Proof.
  intros Hall. revert out e. induction Hall as [|row r rows answer Hr _ IH]; intros out e ->; cbn; [by rewrite app_nil_r|].
  rewrite Hr, IH by done. by rewrite <- app_assoc.
Qed.

Lemma list_refines q : refines_step (op_list q).
Proof.
  intros s t Hs [Hlim Hoff]. cbn. rewrite ST_bind_eq. unfold ListLinks. open_statement s t Hs Hg Hh. rewrite ST_bind_eq.
  pose proof (list_law w t (q_owner q) (q_include_inactive q) (q_limit q) (q_offset q) Hh) as Hl.
  destruct (sess_List _ _ _ _ _ w) as [[rows e] w']. destruct Hl as (Hg' & Hh' & Hl). cbn.
  destruct (map_rows rows [] e) as [l e'] eqn:Em. cbn. split; [by etrans|]. exists t. split; [|by apply represents_holds].
  destruct (Hl Hlim Hoff) as [(-> & answer & [Hp Hin] & Hall)|(-> & Hf & Hq)].
  - rewrite (map_rows_all rows answer) in Em by done. injection Em as <- <-. apply step_listed. split; [|done].
    intros [Hq|Ho]; apply Hp; [left; by eapply quiet_goes_on|by right].
  - injection Em as <- <-. apply step_fault; [by eapply not_quiet_before|done].
Qed.

Lemma step_refines op : refines_step op.
Proof.
  destruct op; [apply create_refines|apply get_refines|apply update_refines|apply delete_refines
    |apply exists_refines|apply list_refines].
Qed.

Lemma table_step_calm (calm calm' once : Prop) t op ans t' :
  (calm' → calm) → table_step calm once t op ans t' → table_step calm' once t op ans t'.
Proof.
  intros Hc Hs. destruct Hs as [| | | | | | | | |q l [Hpage Hin]| | | |]; try (by constructor; eauto); try (by econstructor; eauto).
  constructor. split; [|done]. intros [Hq|Ho]; apply Hpage; auto.
Qed.

Lemma table_run_calm (calm calm' once : Prop) t ops answers t' :
  (calm' → calm) → table_run calm once t ops answers t' → table_run calm' once t ops answers t'.
Proof. intros Hc Hr. induction Hr; econstructor; eauto using table_step_calm. Qed.

(** Any sequence of methods answers as the table does. *)
Lemma run_refines ops s t :
  represents s t → Forall (op_fits fits) ops →
  let '(answers, s') := run_ops ops s in
  goes_on s.2 s'.2 ∧ ∃ t', table_run (quiet s.2) lists_once t ops answers t' ∧ represents s' t'.
Proof.
  revert s t. induction ops as [|op ops IH]; intros s t Hs Hops.
  - cbn. split; [done|]. exists t. split; [constructor|done].
  - apply Forall_cons in Hops as [Hop Hops]. cbn [run_ops]. rewrite ST_bind_eq.
    pose proof (step_refines op s t Hs Hop) as H1'. destruct (run_op op s) as [ans s1]. destruct H1' as (Hg1 & t1 & Hst & Hs1).
    cbn [fst snd]. rewrite ST_bind_eq. specialize (IH s1 t1 Hs1 Hops). destruct (run_ops ops s1) as [answers s2].
    destruct IH as (Hg2 & t2 & Hrun & Hs2). cbn. split; [by etrans|]. exists t2. split; [|done].
    econstructor; [done|]. eapply table_run_calm; [|done]. by apply quiet_goes_on.
Qed.
End refinement.
