(* ===== verification/SqlBackends.v ===== *)
(** * SqlBackends: the SQLite and PostgreSQL sessions meet the contract

    The laws of the drivers, the proof that both sessions meet
    [SqlSessionSpec], and the theorems about the repository on each back end. *)
From stdpp Require Import sorting.
From S2P Require Import Prelude Text Clock LinkJson Storage SqlRows SqlSessions SqlRepository.

(** ** Statements *)

(** A statement works, throws by itself, or meets a fault: then it has changed
    nothing, or everything it was to change. *)
Lemma execute_cases {Flag A} (sql : Stmt Flag A) (w : SqlWorld Flag) :
  let '(r, w') := execute sql w in
  goes_on w w' ∧
  ((∃ what b, sw_faults w (sw_tick w) = Some (what, b) ∧ r = inl what ∧
      (sw_links w' = sw_links w ∨ ∃ a, sql (sw_links w) = inr (a, sw_links w')) ∧ ¬ quiet w) ∨
   match sql (sw_links w) with
   | inl what => r = inl what ∧ sw_links w' = sw_links w
   | inr (a, db) => r = inr a ∧ sw_links w' = db
   end).
Proof.
  unfold execute. destruct (sw_faults w (sw_tick w)) as [[what b]|] eqn:Ef.
  - assert (Hq : ¬ quiet w) by (intros Hq; rewrite Hq in Ef by lia; done).
    destruct b, (sql (sw_links w)) as [what'|[a db]]; (split; [split; cbn; [done|lia]|]);
      left; eexists _, _; split_and!; eauto.
  - destruct (sql (sw_links w)) as [what|[a db]]; (split; [split; cbn; [done|lia]|]; by right).
Qed.

(** A statement that only reads. *)
Lemma execute_reads {Flag A} (sql : Stmt Flag A) (w : SqlWorld Flag) :
  (∀ a db, sql (sw_links w) = inr (a, db) → db = sw_links w) →
  let '(r, w') := execute sql w in
  goes_on w w' ∧ sw_links w' = sw_links w ∧
  ((∃ what b, sw_faults w (sw_tick w) = Some (what, b) ∧ r = inl what ∧ ¬ quiet w) ∨
   r = match sql (sw_links w) with inl what => inl what | inr (a, _) => inr a end).
Proof.
  intros Hread. pose proof (execute_cases sql w) as He. destruct (execute sql w) as [r w'].
  destruct He as [Hg [(what & b & Hf & -> & Hl & Hq)|He]]; (split; [done|]).
  - split; [|left; by eauto]. destruct Hl as [Hl|[a Ha]]; [done|by eapply Hread].
  - destruct (sql (sw_links w)) as [what|[a db]]; destruct He as [-> Hl]; (split; [|by right]); [done|].
    rewrite Hl. by eapply Hread.
Qed.

(** The statements of the reads. *)
Lemma on_links_reads {Flag A} `{SqlDriver Flag} (f : gmap str (LinksRow Flag) → str + A) db a db' :
  on_links (fun links => match f links with inl what => inl what | inr a => inr (a, links) end) db = inr (a, db') → db' = db.
Proof. unfold on_links. destruct db as [links|]; [|done]. destruct (f links); [done|]. by intros [= _ <-]. Qed.

Lemma select_row_reads {Flag} `{SqlDriver Flag} cells key db a db' : select_row cells key db = inr (a, db') → db' = db.
Proof. exact (on_links_reads (fun links => inr _) db a db'). Qed.

Lemma count_rows_reads {Flag} `{SqlDriver Flag} key db a db' : count_rows key db = inr (a, db') → db' = db.
Proof. exact (on_links_reads (fun links => inr _) db a db'). Qed.

(** ** Records and rows *)
Section rows.
Context {Flag T : Type} `{PropertyTreeLaws T} (fits : Z → Prop) (flag : bool → Flag).

Lemma ToUpdateRow_inv r row :
  plain_payload (lr_id r) (lr_attributes r) → ToUpdateRow (T := T) r = Some row →
  ∃ text, SerializePayload (T := T) (lr_id r) (lr_attributes r) = Some text ∧
    DeserializePayload (T := T) text = Some (lr_id r, lr_attributes r) ∧
    row = mkSqlRow (Some (lr_id r)) (Some (lr_short_code r)) (Some (lr_target_url r))
            (Some (ToEpochSeconds (lr_created_at r))) (Some (ToEpochSeconds (lr_updated_at r)))
            (ToEpochSeconds <$> lr_expires_at r) (Some (if lr_is_active r then 1 else 0)%Z) (lr_owner r) (Some text).
Proof.
  intros Hp. destruct (payload_roundtrip _ _ Hp) as (text & Ht & Hd). unfold ToUpdateRow. rewrite Ht. cbn.
  intros [= <-]. by exists text.
Qed.

Lemma use_indicator {A} (zero : A) o : use (ToSociIndicator zero o) = o.
Proof. by destruct o. Qed.

(** The row an insertion writes. *)
Lemma row_holds_stored r text id :
  storable fits r → DeserializePayload (T := T) text = Some (lr_id r, lr_attributes r) →
  row_holds (T := T) fits flag (lr_short_code r)
    (mkLinksRow id (lr_target_url r) (ToEpochSeconds (lr_created_at r)) (ToEpochSeconds (lr_updated_at r))
       (ToEpochSeconds <$> lr_expires_at r) (flag (lr_is_active r)) (lr_owner r) (Some text)) (stored r).
Proof.
  intros (Hp & Hc & Hu & He) Hd. split; cbn; [| done | by exists text |].
  - split_and!; [done..|]. intros v Hv. destruct (lr_expires_at r) as [x|]; simplify_eq/=. by apply He.
  - unfold stored. f_equal. by destruct (lr_expires_at r).
Qed.

(** The row an update writes. *)
Lemma row_holds_restamped r text row old :
  storable fits r → DeserializePayload (T := T) text = Some (lr_id r, lr_attributes r) →
  row_holds (T := T) fits flag (lr_short_code r) row old →
  row_holds (T := T) fits flag (lr_short_code r)
    (mkLinksRow (c_id row) (lr_target_url r) (c_created_at row) (ToEpochSeconds (lr_updated_at r))
       (ToEpochSeconds <$> lr_expires_at r) (flag (lr_is_active r)) (lr_owner r) (Some text)) (restamped old r).
Proof.
  intros (Hp & Hc & Hu & He) Hd Hold. split; cbn; [| done | by exists text |].
  - split_and!; [by destruct Hold as [(? & _)]|done|]. intros v Hv.
    destruct (lr_expires_at r) as [x|]; simplify_eq/=. by apply He.
  - unfold restamped. f_equal; [by rewrite (rh_record _ _ _ _ _ Hold)|by destruct (lr_expires_at r)].
Qed.

Lemma holds_links w t links :
  sw_links w = Some links → holds (T := T) fits flag w t →
  ∀ key, option_Forall2 (row_holds (T := T) fits flag key) (links !! key) (t !! key).
Proof. intros Hl [_ (links' & Hl' & Hh)]. rewrite Hl in Hl'. by injection Hl' as <-. Qed.

Lemma holds_insert w w' t links row r key :
  holds (T := T) fits flag w t → sw_links w = Some links → goes_on w w' → sw_links w' = Some (<[key := row]> links) →
  row_holds (T := T) fits flag key row r → holds (T := T) fits flag w' (<[key := r]> t).
Proof.
  intros Hh Hl Hg Hl' Hr. split; [eapply driver_messages_goes_on; [done|apply Hh]|].
  eexists. split; [done|]. intros k. destruct (decide (k = key)) as [->|Hk].
  - rewrite !lookup_insert_eq. by constructor.
  - rewrite !lookup_insert_ne by done. by eapply holds_links.
Qed.

Lemma holds_delete w w' t links key :
  holds (T := T) fits flag w t → sw_links w = Some links → goes_on w w' → sw_links w' = Some (delete key links) →
  holds (T := T) fits flag w' (delete key t).
Proof.
  intros Hh Hl Hg Hl'. split; [eapply driver_messages_goes_on; [done|apply Hh]|].
  eexists. split; [done|]. intros k. destruct (decide (k = key)) as [->|Hk].
  - rewrite !lookup_delete_eq. constructor.
  - rewrite !lookup_delete_ne by done. by eapply holds_links.
Qed.

Lemma holds_same w w' t :
  goes_on w w' → sw_links w' = sw_links w → holds (T := T) fits flag w t → holds (T := T) fits flag w' t.
Proof. intros Hg Hl [Hm Hh]. split; [by eapply driver_messages_goes_on|]. by rewrite Hl. Qed.

Lemma holds_lookup w t links key :
  holds (T := T) fits flag w t → sw_links w = Some links →
  match links !! key with
  | Some row => ∃ r, t !! key = Some r ∧ row_holds (T := T) fits flag key row r
  | None => t !! key = None
  end.
Proof.
  intros Hh Hl. pose proof (holds_links w t links Hl Hh key) as Hk. inversion Hk as [row r Hr E1 E2|E1 E2]; [by exists r|done].
Qed.
End rows.

(** ** Lists *)

(** [ORDER BY created_at]. *)
Definition sorts_rows {Flag} (order : list (str * LinksRow Flag) → list (str * LinksRow Flag)) : Prop :=
  ∀ l, order l ≡ₚ l ∧ Sorted (fun a b => c_created_at a.2 ≤ c_created_at b.2)%Z (order l).

Lemma FromEpochSeconds_exact v : (-9223372036 ≤ v ≤ 9223372036)%Z → FromEpochSeconds v = (v * ticks_per_second)%Z.
Proof. intros Hv. unfold FromEpochSeconds, from_time_t, wrap64, ticks_per_second. rewrite Z.mod_small by lia. lia. Qed.

Lemma Sorted_map_mono {A B} (R : A → A → Prop) (S : B → B → Prop) (f : A → B) (P : A → Prop) l :
  (∀ x y, P x → P y → R x y → S (f x) (f y)) → Forall P l → Sorted R l → Sorted S (map f l).
Proof.
  intros Hf HP HR. induction HR as [|x l HR IH Hd]; cbn; [constructor|]. apply Forall_cons in HP as [Hx HP].
  constructor; [by apply IH|]. destruct Hd as [|y l]; cbn; [constructor|]. constructor.
  apply Forall_cons in HP as [Hy _]. by apply Hf.
Qed.

Lemma bool_filter_perm {A} (P : A → bool) l1 l2 : l1 ≡ₚ l2 → List.filter P l1 ≡ₚ List.filter P l2.
Proof.
  induction 1 as [|x l1 l2 _ IH|x y l|l1 l2 l3 _ IH1 _ IH2]; cbn; [done| | |by etrans].
  - destruct (P x); by rewrite ?IH.
  - destruct (P x), (P y); done || constructor.
Qed.

Section lists.
Context {Flag T : Type} `{SqlDriver Flag} `{PropertyTreeLaws T} (fits : Z → Prop) (flag : bool → Flag).
Context (fits_bounded : ∀ v, fits v → (-9223372036 ≤ v ≤ 9223372036)%Z).
Context (active : LinksRow Flag → bool) (active_flag : ∀ row b, c_is_active row = flag b → active row = b).
Context (order_sorts : sorts_rows dr_order).

(** The table and its records side by side. *)
Abbreviation Pair := (str * (LinksRow Flag * LinkRecord))%type.
Definition pair_holds (p : Pair) : Prop := row_holds (T := T) fits flag p.1 p.2.1 p.2.2.
Definition pair_row (p : Pair) : str * LinksRow Flag := (p.1, p.2.1).
Definition pair_record (p : Pair) : LinkRecord := p.2.2.

Lemma holds_pairs w t links :
  holds (T := T) fits flag w t → sw_links w = Some links →
  ∃ L, map_to_list links ≡ₚ map pair_row L ∧ map snd (map_to_list t) ≡ₚ map pair_record L ∧ Forall pair_holds L.
Proof.
  intros Hh Hl. exists (map_to_list (map_zip links t)).
  assert (Hd : ∀ k, is_Some (links !! k) ↔ is_Some (t !! k)).
  { intros k. pose proof (holds_links (T := T) fits flag w t links Hl Hh k) as Hk. inversion Hk; split; intros [? ?]; first [done|by eexists]. }
  split_and!.
  - rewrite <- (fst_map_zip links t) at 1 by (intros k Hk; by apply Hd). rewrite map_to_list_fmap. reflexivity.
  - rewrite <- (snd_map_zip links t) at 1 by (intros k Hk; by apply Hd). rewrite map_to_list_fmap.
    change (map snd ?l) with (snd <$> l). rewrite <- list_fmap_compose. reflexivity.
  - apply Forall_forall. intros [k [row r]] Hin. apply elem_of_map_to_list, map_lookup_zip_Some in Hin as [E1 E2].
    pose proof (holds_links (T := T) fits flag w t links Hl Hh k) as Hk. cbn in *. rewrite E1, E2 in Hk. by inversion Hk.
Qed.

Lemma where_wanted owner inc p :
  pair_holds p →
  list_where active owner (if inc : bool then 1 else 0)%Z (pair_row p) = wanted owner inc (pair_record p).
Proof.
  destruct p as [k [row r]]. unfold pair_holds. cbn. intros [_ Hflag _ Hr]. unfold list_where, wanted, pair_record. cbn.
  apply (f_equal lr_owner) in Hr. cbn in Hr. rewrite (active_flag _ _ Hflag), Hr. f_equal; [|by destruct inc].
  destruct owner as [o|]; cbn; [|done]. destruct (c_owner_id row) as [o'|]; cbn; [|by rewrite bool_decide_eq_false_2].
  apply bool_decide_ext. naive_solver.
Qed.

Lemma pair_sorted L :
  Forall pair_holds L → Sorted (fun a b => c_created_at a.2 ≤ c_created_at b.2)%Z (map pair_row L) →
  Sorted (fun r1 r2 => lr_created_at r1 ≤ lr_created_at r2)%Z (map pair_record L).
Proof.
  intros HL HS. assert (HS' : Sorted (fun p q : Pair => c_created_at p.2.1 ≤ c_created_at q.2.1)%Z L).
  { clear HL. induction L as [|p L IH]; [constructor|]. cbn in HS. inversion HS as [|? ? HS1 HS2]; subst.
    constructor; [by apply IH|]. destruct L; constructor. by inversion HS2. }
  eapply Sorted_map_mono; [|exact HL|exact HS'].
  intros [k [row r]] [k' [row' r']] [(Hf & _) _ _ Hr] [(Hf' & _) _ _ Hr'] Hle. cbn in *.
  apply (f_equal lr_created_at) in Hr, Hr'. cbn in Hr, Hr'. unfold pair_record. cbn. rewrite Hr, Hr'.
  rewrite !FromEpochSeconds_exact by auto. unfold ticks_per_second. lia.
Qed.

(** The rows of a list, in order, with the records they stand for. *)
Lemma ordered_records w t links owner inc :
  holds (T := T) fits flag w t → sw_links w = Some links →
  ∃ L, ordered_rows active owner (if inc : bool then 1 else 0)%Z links = map pair_row L ∧ Forall pair_holds L ∧
    map pair_record L ≡ₚ List.filter (wanted owner inc) (map snd (map_to_list t)) ∧
    Sorted (fun r1 r2 => lr_created_at r1 ≤ lr_created_at r2)%Z (map pair_record L).
Proof.
  intros Hh Hl. destruct (holds_pairs w t links Hh Hl) as (L & Hlinks & Ht & HL). unfold ordered_rows.
  set (P := list_where active owner _).
  destruct (order_sorts (List.filter P (map_to_list links))) as [Hp Hs].
  assert (Hp' : dr_order (List.filter P (map_to_list links)) ≡ₚ map pair_row (List.filter (fun p => P (pair_row p)) L)).
  { rewrite Hp. etrans; [apply bool_filter_perm, Hlinks|]. rewrite List.filter_map_swap. done. }
  destruct (Permutation_map_inv _ _ Hp') as (L' & HL' & Hperm). exists L'.
  assert (Hall : Forall pair_holds L').
  { rewrite <- Hperm. apply Forall_forall. intros p Hin. apply list_elem_of_In, filter_In in Hin as [Hin _].
    rewrite Forall_forall in HL. by apply HL, list_elem_of_In. }
  split_and!; [done|done| |].
  - rewrite <- Hperm. etrans; [|symmetry; apply bool_filter_perm, Ht]. rewrite List.filter_map_swap.
    rewrite (filter_ext_in (fun p => P (pair_row p)) (fun p => wanted owner inc (pair_record p))); [done|].
    intros p Hin. apply where_wanted. rewrite Forall_forall in HL. by apply HL, list_elem_of_In.
  - apply pair_sorted; [done|]. by rewrite <- HL'.
Qed.
End lists.

(** A page of the wanted records in order. *)
Lemma listing_page exact owner inc limit offset t l :
  l ≡ₚ List.filter (wanted owner inc) (map snd (map_to_list t)) →
  Sorted (fun r1 r2 => lr_created_at r1 ≤ lr_created_at r2)%Z l →
  listing exact owner inc limit offset t (take limit (drop offset l)).
Proof.
  intros Hp Hs. split; [intros _; by exists l|]. intros r Hin.
  assert (Hj : r ∈ l).
  { rewrite <- (take_drop offset l), <- (take_drop limit (drop offset l)). set_solver. }
  rewrite Hp in Hj. apply list_elem_of_In, filter_In in Hj as [Hj Hw]. split; [done|].
  apply in_map_iff in Hj as ([code r'] & <- & Hj). exists code. by apply elem_of_map_to_list, list_elem_of_In.
Qed.

(** ** SQLite meets the contract *)
Definition int32 (v : Z) : Prop := (- 2 ^ 31 ≤ v < 2 ^ 31)%Z.
Definition sqlite_flag (b : bool) : Z := if b then 1 else 0.

(** A file database: opening it shows what it held. [INTEGER] columns come back as
    [int] where the value is one. *)
Class SqliteDriverLaws `{SqlDriver Z} (dsn : str) := {
  sq_open db : dr_open dsn db = inr (tt, db);
  sq_setting text db : dr_setting text db = inr (tt, db);
  sq_duplicate key : mentions (dr_duplicate_key key) ["UNIQUE"; "unique"] = true;
  sq_integer v : int32 v → dr_integer v = cell_integer v;
  sq_order : sorts_rows dr_order;
}.

Lemma to_int32_small n : (Z.of_nat n < 2 ^ 31)%Z → to_int32 n = Z.of_nat n.
Proof. intros Hn. unfold to_int32. rewrite Z.mod_small by lia. lia. Qed.

(** Reading a result set row by row. *)
Lemma fetch_rows_cases {Flag T} `{PropertyTree T} get rs (l : list LinkRecord) (w : SqlWorld Flag) rows :
  Forall2 (fun r record => ∃ row, RowFromSoci get r = inr row ∧ FromRow (T := T) row = (Some record, RepoError.none)) rs l →
  let '(res, (w', rows')) := fetch_rows get rs (w, rows) in
  goes_on w w' ∧ sw_links w' = sw_links w ∧
  ∃ new n, rows' = rows ++ new ∧ Forall2 (fun row record => FromRow (T := T) row = (Some record, RepoError.none)) new (take n l) ∧
    match res with
    | inr _ => take n l = l
    | inl what => ¬ quiet w ∧ (driver_messages w → what ≠ ("not_found" : str))
    end.
Proof.
  intros Hall. revert w rows. induction Hall as [|r record rs l (row & Hr & Hf) _ IH]; intros w rows; cbn [fetch_rows].
  - split_and!; [done..|]. exists [], 0. by rewrite app_nil_r.
  - rewrite Hr. pose proof (execute_reads (fun db => inr (tt, db)) w ltac:(by intros; simplify_eq/=)) as He.
    destruct (execute _ w) as [[what|[]] w1]; destruct He as [Hg [Hl [(what' & b & Hw & E & Hq)|E]]]; simplify_eq/=.
    + split_and!; [done..|]. exists [row], 1. split_and!; [done|by repeat constructor|done|]. intros Hm ->. by eapply Hm.
    + specialize (IH w1 (rows ++ [row])). destruct (fetch_rows get rs _) as [res [w2 rows2]].
      destruct IH as (Hg2 & Hl2 & new & n & -> & Hnew & Hres). split_and!; [by etrans|congruence|].
      exists (row :: new), (S n). split_and!; [by rewrite <- app_assoc|by constructor|].
      destruct res as [what|[]]; [|by rewrite <- Hres at 2].
      destruct Hres as [Hq Hm]. split; [intros Hq'; by eapply Hq, quiet_goes_on|].
      intros Hm'. by eapply Hm, driver_messages_goes_on.
Qed.

Lemma fetch_rows_frame {Flag} get rs (s : SqlWorld Flag * list SqlRow) :
  goes_on s.1 (fetch_rows get rs s).2.1 ∧ sw_links (fetch_rows get rs s).2.1 = sw_links s.1.
Proof.
  revert s. induction rs as [|r rs IH]; intros [w rows]; cbn [fetch_rows]; [done|].
  destruct (RowFromSoci get r) as [what|row]; [done|]. pose proof (execute_reads (fun db => inr (tt, db)) w ltac:(by intros; simplify_eq/=)) as He.
  destruct (execute _ w) as [[what|[]] w1]; destruct He as [Hg [Hl [(what' & b & _ & E & _)|E]]]; simplify_eq/=; [done|].
  destruct (IH (w1, rows ++ [row])) as [Hg2 Hl2]. cbn in *. split; [by etrans|congruence].
Qed.

Module SqliteSpec.
Lemma sq_fault what : is_fault (SqliteErrorMapper.MapException what).
Proof. unfold SqliteErrorMapper.MapException. split; by repeat case_match. Qed.

(** One statement under its [catch]. *)
Lemma guarded_execute {A} (sql : Stmt Z A) w :
  let '((o, e), w') := Sqlite.guarded (execute sql) w in
  goes_on w w' ∧
  ((o = None ∧ is_fault e ∧ ¬ quiet w ∧ (sw_links w' = sw_links w ∨ ∃ a, sql (sw_links w) = inr (a, sw_links w'))) ∨
   match sql (sw_links w) with
   | inl what => o = None ∧ e = SqliteErrorMapper.MapException what ∧ sw_links w' = sw_links w
   | inr (a, db) => o = Some a ∧ e = RepoError.none ∧ sw_links w' = db
   end).
Proof.
  unfold Sqlite.guarded. pose proof (execute_cases sql w) as He. destruct (execute sql w) as [[what|a] w'];
    destruct He as [Hg [(what' & b & _ & E & Hl & Hq)|He]]; simplify_eq/=.
  - split; [done|]. left. split_and!; [done|apply sq_fault|done..].
  - split; [done|]. right. destruct (sql (sw_links w)) as [what'|[a db]]; destruct He as [E Hl]; by simplify_eq.
  - split; [done|]. right. destruct (sql (sw_links w)) as [what'|[a' db]]; destruct He as [E Hl]; by simplify_eq.
Qed.

Lemma succeeded_eq {A} (m : ST (SqlWorld Z) (option A * RepoError.t)) w :
  Sqlite.succeeded m w = let '((o, e), w') := m w in ((bool_decide (is_Some o), e), w').
Proof. unfold Sqlite.succeeded. rewrite ST_bind_eq. by destruct (m w) as [[o e] w']. Qed.

Lemma sq_bootstrap_ok w :
  let '((ok, e), w') := Sqlite.Bootstrap create_links w in
  goes_on w w' ∧ ((ok = true ∧ e = RepoError.none ∧ sw_links w' = Some (default ∅ (sw_links w))) ∨
                  (ok = false ∧ is_fault e ∧ ¬ quiet w ∧
                   (sw_links w' = sw_links w ∨ sw_links w' = Some (default ∅ (sw_links w))))).
Proof.
  unfold Sqlite.Bootstrap. rewrite succeeded_eq. pose proof (guarded_execute create_links w) as He.
  destruct (Sqlite.guarded _ w) as [[o e] w']. destruct He as [Hg [(-> & Hf & Hq & Hl)|(-> & -> & Hl)]]; split; [done| |done|].
  - right. split_and!; [done..|]. destruct Hl as [Hl|[a Ha]]; [by left|]. right. by injection Ha.
  - by left.
Qed.

Section sqlite.
Context {T : Type} `{PropertyTreeLaws T} `{SqlDriver Z} (config : SqlConnectionConfig).
Context (is_sqlite : scc_backend config = backend_sqlite) (has_dsn : scc_dsn config ≠ []).
Context {LAWS : SqliteDriverLaws (scc_dsn config)}.

Lemma duplicate_mapped key : SqliteErrorMapper.MapException (dr_duplicate_key key) = RepoError.already_exists.
Proof. unfold SqliteErrorMapper.MapException. by rewrite sq_duplicate. Qed.

Abbreviation holds' := (holds (T := T) int32 sqlite_flag).

Lemma sq_insert_ok w t r row :
  holds' w t → storable int32 r → ToUpdateRow (T := T) r = Some row →
  let '((ok, e), w') := Sqlite.InsertLink Sqlite.Insert row w in
  goes_on w w' ∧
  ((ok = true ∧ e = RepoError.none ∧ t !! lr_short_code r = None ∧ holds' w' (<[lr_short_code r := stored r]> t)) ∨
   (ok = false ∧ is_fault e ∧ holds' w' t ∧ (quiet w → e = RepoError.already_exists ∧ is_Some (t !! lr_short_code r))) ∨
   (ok = false ∧ is_fault e ∧ ¬ quiet w ∧ t !! lr_short_code r = None ∧ holds' w' (<[lr_short_code r := stored r]> t))).
Proof.
  intros Hh Hst Hrow. destruct (ToUpdateRow_inv r row (proj1 Hst) Hrow) as (text & _ & Hd & ->).
  unfold Sqlite.InsertLink. rewrite succeeded_eq. pose proof Hh as [_ (links & Hl & _)].
  match goal with |- context [execute ?sql] => pose proof (guarded_execute sql w) as He end.
  destruct (Sqlite.guarded _ w) as [[o e] w']. destruct He as [Hg He]. split; [done|].
  unfold Sqlite.Insert, insert_row, on_links in He. rewrite Hl in He. cbn in He. rewrite !use_indicator in He.
  pose proof (holds_lookup int32 sqlite_flag w t links (lr_short_code r) Hh Hl) as Hk.
  destruct He as [(-> & Hf & Hq & [Hl'|[a Ha]])|He].
  - right. left. split_and!; [done|done|eapply holds_same; [done|by rewrite Hl, Hl'|done]|]. intros Hq'. by destruct (Hq Hq').
  - right. right. destruct (links !! lr_short_code r) as [old|]; [discriminate|]. injection Ha as _ Hl'.
    split_and!; [done..|]. eapply holds_insert; [done..|]. by apply row_holds_stored.
  - destruct (links !! lr_short_code r) as [old|]; destruct He as (-> & -> & Hl').
    + right. left. destruct Hk as (r' & Hr' & _). split_and!; [done|apply sq_fault| |].
      * eapply holds_same; [done|by rewrite Hl, Hl'|done].
      * rewrite duplicate_mapped, Hr'. by eauto.
    + left. split_and!; [done..|]. eapply holds_insert; [done..|]. by apply row_holds_stored.
Qed.

Lemma sq_open_ok w :
  let '((ok, e), w') := Sqlite.Create config w in
  goes_on w w' ∧ sw_links w' = sw_links w ∧
  ((ok = true ∧ e = RepoError.none) ∨ (ok = false ∧ is_fault e ∧ ¬ quiet w)).
Proof.
  unfold Sqlite.Create. rewrite is_sqlite, (bool_decide_eq_false_2 _ has_dsn). cbn [negb orb bool_decide].
  rewrite bool_decide_eq_true_2 by done. cbn [negb orb]. rewrite succeeded_eq.
  unfold Sqlite.guarded, Sqlite.open_session, exec_bind.
  pose proof (execute_reads (dr_open (scc_dsn config)) w ltac:(by intros; rewrite sq_open in *; simplify_eq/=)) as H1'.
  rewrite sq_open in H1'.
  destruct (execute (dr_open _) w) as [[what|[]] w1]; destruct H1' as [Hg1 [Hl1 [(what1 & b1 & _ & E1 & Hq1)|E1]]]; simplify_eq/=.
  { split_and!; [done..|]. right. split_and!; [done|apply sq_fault|done]. }
  match goal with |- context [execute ?sql w1] =>
    pose proof (execute_reads sql w1 ltac:(by intros; rewrite sq_setting in *; simplify_eq/=)) as H2' end.
  rewrite sq_setting in H2'.
  destruct (execute _ w1) as [[what|[]] w2]; destruct H2' as [Hg2 [Hl2 [(what2 & b2 & _ & E2 & Hq2)|E2]]]; simplify_eq/=.
  - split_and!; [by etrans|congruence|]. right. split_and!; [done|apply sq_fault|]. intros Hq. by eapply Hq2, quiet_goes_on.
  - split_and!; [by etrans|congruence|]. by left.
Qed.

(** A row of the table reads back as its record. *)
Lemma sq_cells_read_back key row r :
  row_holds (T := T) int32 sqlite_flag key row r →
  ∃ sr, RowFromSoci get_either (Sqlite.cells key row) = inr sr ∧ FromRow (T := T) sr = (Some r, RepoError.none).
Proof.
  intros [(Hc & Hu & He) Hflag (text & Htext & Hd) Hr].
  assert (Ha : int32 (c_is_active row)) by (rewrite Hflag; unfold int32; by destruct (lr_is_active r)).
  exists (mkSqlRow (Some (c_id row)) (Some key) (Some (c_target_url row)) (Some (c_created_at row)) (Some (c_updated_at row))
            (c_expires_at row) (Some (c_is_active row)) (c_owner_id row) (Some text)).
  split.
  - unfold RowFromSoci, Sqlite.cells. rewrite Htext, !sq_integer by done.
    destruct (c_expires_at row) as [v|]; [rewrite sq_integer by (by apply He)|];
      destruct (c_owner_id row); reflexivity.
  - unfold FromRow. cbn [sr_short_code sr_target_url sr_created_at sr_updated_at sr_is_active sr_attributes_json].
    rewrite Hd, Hflag. rewrite Hr. by destruct (lr_is_active r).
Qed.

Lemma sq_select_ok w t key :
  holds' w t →
  let '((o, e), w') := Sqlite.SelectByShortCode (select_row Sqlite.cells) key w in
  goes_on w w' ∧ holds' w' t ∧
  match o with
  | Some row => e = RepoError.none ∧ ∃ r, t !! key = Some r ∧ FromRow (T := T) row = (Some r, RepoError.none)
  | None => (e = RepoError.not_found ∧ t !! key = None) ∨ (is_fault e ∧ ¬ quiet w)
  end.
Proof.
  intros Hh. pose proof Hh as [_ (links & Hl & _)].
  unfold Sqlite.SelectByShortCode. rewrite ST_bind_eq. unfold Sqlite.guarded, exec_bind.
  pose proof (execute_reads (select_row Sqlite.cells key) w (select_row_reads _ _ _)) as He. rewrite Hl in He. cbn in He.
  pose proof (holds_lookup int32 sqlite_flag w t links key Hh Hl) as Hk.
  destruct (execute _ w) as [[what|rs] w']; destruct He as [Hg [Hl1 [(what1 & b1 & _ & E1 & Hq1)|E1]]]; simplify_eq/=.
  { split_and!; [done|eapply holds_same; [done|by rewrite Hl|done]|]. right. split; [apply sq_fault|done]. }
  assert (Hh' : holds' w' t) by (eapply holds_same; [done|by rewrite Hl, Hl1|done]).
  destruct (links !! key) as [row|].
  - destruct Hk as (r & Ht & Hrow). destruct (sq_cells_read_back key row r Hrow) as (sr & Hs & Hf). rewrite Hs. cbn.
    split_and!; [done..|]. by exists r.
  - cbn. split_and!; [done..|]. by left.
Qed.

Lemma sq_update_ok w t r row :
  holds' w t → storable int32 r → ToUpdateRow (T := T) r = Some row →
  let '((ok, e), w') := Sqlite.UpdateLink Sqlite.Update row w in
  goes_on w w' ∧
  let applied old := t !! lr_short_code r = Some old ∧ holds' w' (<[lr_short_code r := restamped old r]> t) in
  ((ok = true ∧ e = RepoError.none ∧ ∃ old, applied old) ∨
   (ok = false ∧ e = RepoError.not_found ∧ t !! lr_short_code r = None ∧ holds' w' t) ∨
   (ok = false ∧ is_fault e ∧ ¬ quiet w ∧ (holds' w' t ∨ ∃ old, applied old))).
Proof.
  intros Hh Hst Hrow. destruct (ToUpdateRow_inv r row (proj1 Hst) Hrow) as (text & _ & Hd & ->).
  pose proof Hh as [_ (links & Hl & _)]. pose proof (holds_lookup int32 sqlite_flag w t links (lr_short_code r) Hh Hl) as Hk.
  unfold Sqlite.UpdateLink. rewrite ST_bind_eq. unfold Sqlite.guarded, exec_bind.
  match goal with |- context [execute ?sql w] => pose proof (execute_cases sql w) as He end.
  rewrite Hl in He. cbn in He.
  rewrite !use_indicator in He.
  destruct (execute _ w) as [[what|n] w1]; destruct He as [Hg1 [(what1 & b1 & _ & E1 & Hl1 & Hq1)|He]].
  { split; [done|]. right. right. split_and!; [done|apply sq_fault|done|].
    destruct Hl1 as [Hl1|[a Ha]]; [left; eapply holds_same; [done|by rewrite Hl|done]|].
    destruct (links !! lr_short_code r) as [old|]; injection Ha as _ Hl1.
    - right. destruct Hk as (o & Ho & Hrh). exists o. split; [done|]. eapply holds_insert; [done..|]. by apply row_holds_restamped.
    - left. eapply holds_same; [done|by rewrite Hl|done]. }
  { destruct (links !! lr_short_code r); by destruct He. }
  { discriminate. }
  match goal with |- context [execute ?sql w1] => pose proof (execute_reads sql w1 ltac:(by intros; simplify_eq/=)) as He2 end.
  destruct (execute _ w1) as [[what|n2] w2]; destruct He2 as [Hg2 [Hl2 [(what2 & b2 & _ & E2 & Hq2)|E2]]]; try discriminate;
    destruct (links !! lr_short_code r) as [old|];
    destruct He as [E Hl1]; injection E as ->; rewrite Hl1 in Hl2; try injection E2 as ->; (split; [by etrans|]); cbn.
  - destruct Hk as (o & Ho & Hrh). right. right. split_and!; [done|apply sq_fault|intros Hq; by eapply Hq2, quiet_goes_on|].
    right. exists o. split; [done|]. eapply holds_insert; [done|done|by etrans|done|]. by apply row_holds_restamped.
  - right. right. split_and!; [done|apply sq_fault|intros Hq; by eapply Hq2, quiet_goes_on|].
    left. eapply (holds_same _ _ w); [by etrans|by rewrite Hl2, Hl|done].
  - destruct Hk as (o & Ho & Hrh). left. split_and!; [done..|]. exists o. split; [done|].
    eapply holds_insert; [done|done|by etrans|done|]. by apply row_holds_restamped.
  - right. left. split_and!; [done..|]. eapply (holds_same _ _ w); [by etrans|by rewrite Hl2, Hl|done].
Qed.

Lemma sq_delete_ok w t key :
  holds' w t →
  let '((ok, e), w') := Sqlite.DeleteLink delete_row key w in
  goes_on w w' ∧
  ((ok = true ∧ e = RepoError.none ∧ holds' w' (delete key t)) ∨ 
   (ok = false ∧ is_fault e ∧ ¬ quiet w ∧ (holds' w' t ∨ holds' w' (delete key t)))).
Proof.
  intros Hh. pose proof Hh as [_ (links & Hl & _)]. unfold Sqlite.DeleteLink. rewrite succeeded_eq.
  pose proof (guarded_execute (delete_row key) w) as He. destruct (Sqlite.guarded _ w) as [[o e] w'].
  rewrite Hl in He. cbn in He. destruct He as [Hg [(-> & Hf & Hq & Hl')|(-> & -> & Hl')]]; (split; [done|]).
  - right. split_and!; [done..|]. destruct Hl' as [Hl'|[a Ha]].
    + left. eapply (holds_same _ _ w); [done|by rewrite Hl', Hl|done].
    + right. injection Ha as _ Hl'. by eapply holds_delete.
  - left. split_and!; [done..|]. by eapply holds_delete.
Qed.

Lemma sq_exists_ok w t key :
  holds' w t →
  let '((ok, found, e), w') := Sqlite.Exists count_rows key w in
  goes_on w w' ∧ holds' w' t ∧
  ((ok = true ∧ e = RepoError.none ∧ found = bool_decide (is_Some (t !! key))) ∨ (ok = false ∧ is_fault e ∧ ¬ quiet w)).
Proof.
  intros Hh. pose proof Hh as [_ (links & Hl & _)]. unfold Sqlite.Exists. rewrite ST_bind_eq.
  pose proof (guarded_execute (count_rows key) w) as He. pose proof (holds_lookup int32 sqlite_flag w t links key Hh Hl) as Hk.
  destruct (Sqlite.guarded _ w) as [[o e] w'].
  assert (Hl' : sw_links w' = Some links).
  { destruct He as [_ [(_ & _ & _ & [->|[a Ha]])|He]]; [done|by apply count_rows_reads in Ha as ->|].
    rewrite Hl in He. by destruct He as (_ & _ & ->). }
  rewrite Hl in He. cbn in He. destruct He as [Hg [(-> & Hf & Hq & _)|(-> & -> & _)]]; cbn;
    (split_and!; [done|eapply (holds_same _ _ w); [done|by rewrite Hl', Hl|done]|]).
  - by right.
  - left. split_and!; [done..|]. destruct (links !! key); [destruct Hk as (r & -> & _)|rewrite Hk]; done.
Qed.

Lemma page_small {A} limit offset (l : list A) :
  (Z.of_nat limit < 2 ^ 31)%Z → (Z.of_nat offset < 2 ^ 31)%Z →
  Sqlite.page (to_int32 limit) (to_int32 offset) l = take limit (drop offset l).
Proof.
  intros Hlim Hoff. unfold Sqlite.page. rewrite !to_int32_small, !Nat2Z.id by done.
  destruct (Z.ltb_spec (Z.of_nat limit) 0); [lia|done].
Qed.

Lemma page_map {A B} (f : A → B) limit offset l : Sqlite.page limit offset (map f l) = map f (Sqlite.page limit offset l).
Proof. unfold Sqlite.page. rewrite skipn_map, firstn_map. by destruct (limit <? 0)%Z. Qed.

Lemma page_Forall {A} (P : A → Prop) limit offset l : Forall P l → Forall P (Sqlite.page limit offset l).
Proof. intros Hl. unfold Sqlite.page. destruct (limit <? 0)%Z; auto using Forall_take, Forall_drop. Qed.

Lemma flag_active row b : c_is_active row = sqlite_flag b → Sqlite.is_active row = b.
Proof. unfold Sqlite.is_active. intros ->. by destruct b. Qed.

Lemma int32_bounded v : int32 v → (-9223372036 ≤ v ≤ 9223372036)%Z.
Proof. unfold int32. lia. Qed.

Lemma sq_rows_read_back L :
  Forall (pair_holds (T := T) int32 sqlite_flag) L →
  Forall2 (fun r record => ∃ row, RowFromSoci get_either r = inr row ∧ FromRow (T := T) row = (Some record, RepoError.none))
    (map (fun kr => Sqlite.cells kr.1 kr.2) (map pair_row L)) (map pair_record L).
Proof.
  rewrite map_map. induction 1 as [|[k [row r]] L Hp _ IH]; cbn; constructor; [|done]. by apply sq_cells_read_back.
Qed.

Lemma sq_list_ok w t owner inc limit offset :
  holds' w t →
  let '((rows, e), w') := Sqlite.list_rows Sqlite.List owner inc limit offset w in
  goes_on w w' ∧ holds' w' t ∧
  ((Z.of_nat limit < 2 ^ 31)%Z → (Z.of_nat offset < 2 ^ 31)%Z →
   (e = RepoError.none ∧ ∃ answer, listing (quiet w ∨ True) owner inc limit offset t answer ∧
      Forall2 (fun row r => FromRow (T := T) row = (Some r, RepoError.none)) rows answer) ∨
   (rows = [] ∧ is_fault e ∧ ¬ quiet w)).
Proof.
  intros Hh. pose proof Hh as [_ (links & Hl & _)].
  destruct (ordered_records int32 sqlite_flag int32_bounded Sqlite.is_active flag_active sq_order w t links owner inc Hh Hl)
    as (L & HL & Hall & Hperm & Hsort).
  unfold Sqlite.list_rows. rewrite ST_bind_eq, use_indicator. unfold Sqlite.guarded, exec_bind.
  match goal with |- context [execute ?sql w] =>
    pose proof (execute_reads sql w (fun a db => on_links_reads (fun links => inr _) _ a db)) as He end.
  rewrite Hl in He. unfold Sqlite.List in He. cbn in He.
  destruct (execute _ w) as [[what|rs] w1]; destruct He as [Hg1 [Hl1 [(what1 & b1 & _ & E1 & Hq1)|E1]]]; simplify_eq/=.
  { split_and!; [done|eapply (holds_same _ _ w); [done|by rewrite Hl1, Hl|done]|]. intros _ _. right. split_and!; [done|apply sq_fault|done]. }
  rewrite HL, page_map. set (L' := Sqlite.page _ _ L).
  pose proof (fetch_rows_cases get_either _ _ w1 [] (sq_rows_read_back L' (page_Forall _ _ _ _ Hall))) as Hf.
  destruct (fetch_rows _ _ _) as [res [w2 rows]]. destruct Hf as (Hg2 & Hl2 & Hf).
  assert (Hh2 : holds' w2 t) by (eapply (holds_same _ _ w); [by etrans|by rewrite Hl2, Hl1, Hl|done]).
  destruct Hf as (new & n & -> & Hnew & Hres).
  destruct res as [what|[]]; cbn; (split_and!; [by etrans|done|]); intros Hlim Hoff.
  { right. split_and!; [done|apply sq_fault|intros Hq; by eapply (proj1 Hres), quiet_goes_on]. }
  left. split; [done|]. rewrite Hres in Hnew. exists (map pair_record L'). split; [|done].
  subst L'. rewrite <- page_map, page_small by done. by apply listing_page.
Qed.

#[export] Instance SqliteSessionSpec :
  @SqlSessionSpec Z T (Sqlite.SqliteSession config) Sqlite.SqliteSqlDialect _.
Proof.
  refine (@Build_SqlSessionSpec Z T (Sqlite.SqliteSession config) Sqlite.SqliteSqlDialect _ int32 sqlite_flag True
    sq_open_ok (fun w _ => sq_bootstrap_ok w) sq_insert_ok sq_select_ok sq_update_ok sq_delete_ok sq_exists_ok sq_list_ok).
Defined.
End sqlite.
End SqliteSpec.

(** ** [RunWithRetry] *)
Section retry.
Context {Flag Locals : Type} (fn : ST (SqlWorld Flag * Locals) (str + unit)).

(** The verdict on one attempt. *)
Definition verdict (r : str + unit) : bool * RepoError.t :=
  match r with
  | inr _ => (true, RepoError.none)
  | inl what =>
      if bool_decide (what = ("not_found" : str)) then (false, RepoError.not_found)
      else (false, PostgresErrorMapper.MapException what)
  end.

Lemma retry_once n s : Postgres.RunWithRetry fn n false s = (verdict (fn s).1, (fn s).2).
Proof.
  unfold Postgres.RunWithRetry. cbn. destruct (fn s) as [[what|[]] s']; cbn; [|done]. by destruct (bool_decide _).
Qed.

Lemma retry_first n retryable s :
  (fn s).1 = inr tt → Postgres.RunWithRetry fn n retryable s = ((true, RepoError.none), (fn s).2).
Proof. unfold Postgres.RunWithRetry. cbn. destruct (fn s) as [r s']. cbn. by intros ->. Qed.

(** The state before attempt [k], counting from zero. *)
Fixpoint before_attempt (k : nat) (s : SqlWorld Flag * Locals) : SqlWorld Flag * Locals :=
  match k with 0 => s | S k' => before_attempt k' (fn s).2 end.

Definition transient (r : str + unit) : Prop := verdict r = (false, RepoError.transient_failure).

Lemma retry_loop_attempts rounds attempt n retryable s :
  rounds + attempt = S n → 0 < rounds →
  ∃ k, k ≤ n - attempt ∧ (retryable = false → k = 0) ∧
    (∀ j, j < k → transient (fn (before_attempt j s)).1) ∧
    Postgres.retry_loop fn rounds attempt n retryable s
    = (verdict (fn (before_attempt k s)).1, before_attempt (S k) s) ∧
    (retryable = true → transient (fn (before_attempt k s)).1 → k = n - attempt).
Proof.
  revert attempt s. induction rounds as [|rounds IH]; intros attempt s Hsum Hpos; [lia|].
  cbn [Postgres.retry_loop]. destruct (fn s) as [r s'] eqn:Ef.
  assert (Hstop : verdict r ≠ (false, RepoError.transient_failure) ∨ retryable = false ∨ n ≤ attempt →
    ∃ k, k ≤ n - attempt ∧ (retryable = false → k = 0) ∧ (∀ j, j < k → transient (fn (before_attempt j s)).1) ∧
      (verdict r, s') = (verdict (fn (before_attempt k s)).1, before_attempt (S k) s) ∧
      (retryable = true → transient (fn (before_attempt k s)).1 → k = n - attempt)).
  { intros Hc. exists 0. cbn. rewrite Ef. cbn. split_and!; [lia|done|lia|done|]. intros -> Htr. destruct Hc as [Hc|[Hc|Hc]]; [done|done|lia]. }
  destruct r as [what|[]]; cbn [verdict] in Hstop |- *; [|by apply Hstop; left].
  destruct (bool_decide (what = _)) eqn:Enf; [by apply Hstop; left|].
  cbv zeta. destruct (_ && (attempt <? n)) eqn:Eretry; cbn [negb].
  - apply andb_true_iff in Eretry as [Er Elt]. apply andb_true_iff in Er as [-> Etr]. apply Nat.ltb_lt in Elt.
    destruct (IH (S attempt) s') as (k & Hk & _ & Hj & Hloop & Hlast); [lia|lia|].
    exists (S k). split_and!; [lia|done| | |].
    + intros [|j] Hj'; cbn; rewrite Ef; cbn; [|apply Hj; lia]. unfold transient, verdict. rewrite Enf. by destruct (PostgresErrorMapper.MapException what).
    + cbn. rewrite Ef. cbn. exact Hloop.
    + cbn. rewrite Ef. cbn. intros _ Htr. rewrite (Hlast eq_refl Htr). lia.
  - apply Hstop. apply andb_false_iff in Eretry as [Er|Elt]; [|right; right; by apply Nat.ltb_ge in Elt].
    apply andb_false_iff in Er as [->|Etr]; [by right; left|]. left. intros [= Em]. by rewrite Em in Etr.
Qed.

Lemma retry_attempts n retryable s :
  ∃ k, k ≤ n ∧ (retryable = false → k = 0) ∧
    (∀ j, j < k → transient (fn (before_attempt j s)).1) ∧
    Postgres.RunWithRetry fn n retryable s = (verdict (fn (before_attempt k s)).1, before_attempt (S k) s) ∧
    (retryable = true → transient (fn (before_attempt k s)).1 → k = n).
Proof.
  destruct (retry_loop_attempts (S n) 0 n retryable s) as (k & Hk & Hrest); [lia|lia|].
  rewrite Nat.sub_0_r in *. by exists k.
Qed.

Lemma before_attempt_S k s : before_attempt (S k) s = (fn (before_attempt k s)).2.
Proof. revert s. induction k as [|k IH]; intros s; [done|]. cbn in IH |- *. by rewrite IH. Qed.

(** Attempts that leave the table alone. *)
Lemma retry_frame :
  (∀ s, goes_on s.1 (fn s).2.1 ∧ sw_links (fn s).2.1 = sw_links s.1) →
  ∀ n retryable s,
    goes_on s.1 (Postgres.RunWithRetry fn n retryable s).2.1 ∧
    sw_links (Postgres.RunWithRetry fn n retryable s).2.1 = sw_links s.1.
Proof.
  intros Hfn n retryable s. destruct (retry_attempts n retryable s) as (k & _ & _ & _ & -> & _). cbn [snd].
  generalize (S k). clear k. intros k. induction k as [|k [Hg Hl]]; [done|].
  rewrite before_attempt_S. destruct (Hfn (before_attempt k s)) as [Hg' Hl']. split; [by etrans|congruence].
Qed.

(** An invariant of failing attempts. *)
Lemma retry_cases (Inv Post : SqlWorld Flag * Locals → Prop) n s :
  (∀ s, Inv s → goes_on s.1 (fn s).2.1 ∧
     match (fn s).1 with
     | inr _ => Post (fn s).2
     | inl what => Inv (fn s).2 ∧ what ≠ ("not_found" : str) ∧ ¬ quiet s.1
     end) →
  Inv s →
  let '((ok, e), s') := Postgres.RunWithRetry fn n true s in
  goes_on s.1 s'.1 ∧ ((ok = true ∧ e = RepoError.none ∧ Post s') ∨ (ok = false ∧ is_fault e ∧ Inv s' ∧ ¬ quiet s.1)).
Proof.
  intros Hstep Hs. destruct (retry_attempts n true s) as (k & _ & _ & Hj & -> & _).
  assert (Hb : ∀ k s, (∀ j, j < k → transient (fn (before_attempt j s)).1) → Inv s →
    Inv (before_attempt k s) ∧ goes_on s.1 (before_attempt k s).1).
  { clear k s Hj Hs. induction k as [|k IH]; intros s Hj Hs; [done|]. destruct (Hstep s Hs) as [Hg Hm].
    pose proof (Hj 0 ltac:(lia)) as H0. cbn in H0 |- *. destruct ((fn s).1) as [what|]; [|done].
    destruct Hm as (Hi & _). destruct (IH (fn s).2) as [Hi' Hg']; [|done|]; [intros j Hlt; apply (Hj (S j)); lia|].
    split; [done|by etrans]. }
  destruct (Hb k s Hj Hs) as [Hi Hg]. destruct (Hstep _ Hi) as [Hg1 Hm].
  rewrite before_attempt_S. unfold verdict. destruct ((fn (before_attempt k s)).1) as [what|[]].
  - destruct Hm as (Hi' & Hnf & Hq). rewrite bool_decide_eq_false_2 by done. split; [by etrans|].
    right. split_and!; [done| |done|intros Hq'; by eapply Hq, quiet_goes_on].
    split; [apply postgres_MapException_fault|]. unfold PostgresErrorMapper.MapException. by repeat case_match.
  - split; [by etrans|]. by left.
Qed.
End retry.

(** Attempts that append to their locals what [reads] relates to a list: however
    many there are, nothing else is collected, and one attempt collects the list. *)
Lemma retry_collects {Flag R S} (fn : ST (SqlWorld Flag * list R) (str + unit)) (Inv : SqlWorld Flag → Prop)
    (reads : R → S → Prop) (page : list S) n w :
  (∀ r x y, reads r x → reads r y → x = y) →
  (∀ w rows, Inv w →
     let '(res, (w', rows')) := fn (w, rows) in
     goes_on w w' ∧ Inv w' ∧ ∃ new n, rows' = rows ++ new ∧ Forall2 reads new (take n page) ∧
       match res with inr _ => take n page = page | inl what => ¬ quiet w ∧ what ≠ ("not_found" : str) end) →
  Inv w →
  let '((ok, e), (_, rows)) := Postgres.RunWithRetry fn n true (w, []) in
  (ok = true ∧ e = RepoError.none ∧ ∃ answer, Forall2 reads rows answer ∧ (∀ x, x ∈ answer → x ∈ page) ∧
     (quiet w ∨ n = 0 → answer = page)) ∨
  (ok = false ∧ is_fault e ∧ ¬ quiet w).
Proof.
  intros Hfun Hstep Hw.
  pose (Reads := fun s : SqlWorld Flag * list R => Inv s.1 ∧ ∃ answer, Forall2 reads s.2 answer ∧ ∀ x, x ∈ answer → x ∈ page).
  assert (Hreads : ∀ s, Reads s → goes_on s.1 (fn s).2.1 ∧ Reads (fn s).2 ∧
    match (fn s).1 with inr _ => True | inl what => what ≠ ("not_found" : str) ∧ ¬ quiet s.1 end).
  { intros [w1 rows1] (Hi & answer & Hrows & Hsub). specialize (Hstep w1 rows1 Hi).
    destruct (fn (w1, rows1)) as [res [w2 rows2]]. destruct Hstep as (Hg & Hi' & new & m & -> & Hnew & Hres).
    split; [done|]. split; [|destruct res; [by destruct Hres|done]]. split; [done|].
    exists (answer ++ take m page). split; [by apply Forall2_app|]. intros x [Hx|Hx]%elem_of_app; [by apply Hsub|].
    rewrite <- (take_drop m page). apply elem_of_app. by left. }
  pose proof (retry_cases fn Reads Reads n (w, [])) as Hr. pose proof (retry_first fn n true (w, [])) as Hfirst.
  pose proof (retry_attempts fn n true (w, [])) as (k & Hk & _ & _ & Hrun & _).
  destruct (Postgres.RunWithRetry fn n true (w, [])) as [[ok e] [w' rows]].
  destruct Hr as [_ [(-> & -> & _ & answer & Hrows & Hsub)|(-> & Hf & _ & Hq)]]; [| | |by right].
  { intros s Hs. destruct (Hreads s Hs) as (Hg & Hr & Hm). split; [done|]. by destruct (fn s).1. }
  { split; [done|]. exists []. split; [constructor|]. intros x Hx. by apply not_elem_of_nil in Hx. }
  left. split_and!; [done..|]. exists answer. split_and!; [done..|]. intros Hexact.
  specialize (Hstep w [] Hw).
  assert (Hone : (fn (w, [])).1 = inr tt ∧ (fn (w, [])).2.2 = rows).
  { destruct (fn (w, [])) as [[what|[]] [w1 rows1]] eqn:Efn; cbn in Hfirst |- *.
    - destruct Hstep as (_ & _ & _ & _ & _ & _ & Hq & _). destruct Hexact as [Hexact|Hexact]; [done|].
      replace k with 0 in Hrun by lia. cbn [before_attempt] in Hrun. rewrite Efn in Hrun. cbn in Hrun. by case_bool_decide.
    - specialize (Hfirst eq_refl). by simplify_eq. }
  destruct (fn (w, [])) as [res [w1 rows1]]. cbn in Hone. destruct Hone as [-> ->].
  destruct Hstep as (_ & _ & new & m & -> & Hnew & Hres). rewrite Hres in Hnew. cbn in Hrows.
  clear -Hfun Hrows Hnew. revert answer Hrows. induction Hnew as [|r x new page Hr _ IH]; intros answer Hrows; inversion Hrows; subst; [done|].
  f_equal; [by eapply Hfun|by apply IH].
Qed.

(** ** PostgreSQL meets the contract *)
Definition pg_fits (v : Z) : Prop := (-9223372036 ≤ v ≤ 9223372036)%Z.
Definition pg_flag (b : bool) : bool := b.

(** [JSONB] keeps the members of an object, not their order or spacing. *)
Class PostgresDriverLaws (T : Type) `{PropertyTree T} `{SqlDriver bool} (connect_string : str) := {
  pg_open db : dr_open connect_string db = inr (tt, db);
  pg_setting text db : dr_setting text db = inr (tt, db);
  pg_duplicate key : mentions (dr_duplicate_key key) ["23505"; "unique"] = true;
  pg_timestamp v : pg_fits v → dr_to_timestamp v = inr v;
  pg_jsonb t s : plain_tree t → pt_write t = Some s →
    ∃ s' t', dr_jsonb s = inr s' ∧ pt_read s' = Some t' ∧
      (∀ k, plain_key k = true → pt_get k t' = pt_get k t) ∧
      (∀ k a, plain_key k = true → pt_child k t = Some a → ∃ a', pt_child k t' = Some a' ∧ pt_items a' ≡ₚ pt_items a);
  pg_order : sorts_rows dr_order;
}.

Module PostgresSpec.
Section postgres.
Context {T : Type} `{PropertyTreeLaws T} `{SqlDriver bool} (config : SqlConnectionConfig).
Context (is_postgres : scc_backend config = backend_postgres) (has_dsn : scc_dsn config ≠ []).
Context {LAWS : PostgresDriverLaws T (Postgres.BuildPostgresConnectString config)}.

Lemma pg_fault what : is_fault (PostgresErrorMapper.MapException what).
Proof. unfold PostgresErrorMapper.MapException. split; by repeat case_match. Qed.

Lemma verdict_fault what : what ≠ ("not_found" : str) → verdict (inl what) = (false, PostgresErrorMapper.MapException what).
Proof. intros Hw. unfold verdict. by rewrite bool_decide_eq_false_2. Qed.

Lemma duplicate_verdict key : verdict (inl (dr_duplicate_key key)) = (false, RepoError.already_exists).
Proof.
  pose proof (pg_duplicate key) as Hd. rewrite verdict_fault.
  - unfold PostgresErrorMapper.MapException. by rewrite Hd.
  - intros E. rewrite E in Hd. vm_compute in Hd. discriminate.
Qed.

Lemma jsonb_payload id attrs text :
  plain_payload id attrs → SerializePayload (T := T) id attrs = Some text →
  ∃ text', dr_jsonb text = inr text' ∧ DeserializePayload (T := T) text' = Some (id, attrs).
Proof.
  intros Hp Ht. destruct (payload_tree (T := T) id attrs Hp) as (t & a & Ht' & Hpl & Hg & Hc & Hi). rewrite Ht in Ht'.
  destruct (pg_jsonb t text Hpl (eq_sym Ht')) as (s' & t' & Hj & Hr & Hg' & Hc').
  exists s'. split; [done|]. destruct (Hc' "attributes" a) as (a' & Ha' & Hi'); [done|done|].
  eapply DeserializePayload_same; [done|by rewrite Hg'|done|by rewrite Hi'].
Qed.

Lemma convert_timestamp o : (∀ v, o = Some v → pg_fits v) → Postgres.convert dr_to_timestamp o = inr o.
Proof. intros Ho. destruct o as [v|]; cbn; [|done]. by rewrite pg_timestamp by by apply Ho. Qed.

Lemma expires_fit r : storable pg_fits r → ∀ v, ToEpochSeconds <$> lr_expires_at r = Some v → pg_fits v.
Proof. intros (_ & _ & _ & He) v Hv. destruct (lr_expires_at r) as [x|]; simplify_eq/=. by apply He. Qed.

Lemma run_unit_once m w : Postgres.run_unit config m false w = (verdict (m w).1, (m w).2).
Proof.
  unfold Postgres.run_unit, Postgres.run. rewrite ST_bind_eq, retry_once. unfold Postgres.no_locals. cbn.
  by destruct (m w).
Qed.

Lemma run_unit_retried m w :
  Postgres.run_unit config m true w
  = let '(r, (w', _)) := Postgres.RunWithRetry (Postgres.no_locals m) (scc_max_retries config) true (w, tt) in (r, w').
Proof.
  unfold Postgres.run_unit, Postgres.run. rewrite ST_bind_eq. by destruct (Postgres.RunWithRetry _ _ _ _) as [r [w' []]].
Qed.

Abbreviation holds' := (holds (T := T) pg_fits pg_flag).

(** The message of a fault is never the session's own word. *)
Lemma driver_fault w t what b n : holds' w t → sw_faults w n = Some (what, b) → what ≠ ("not_found" : str).
Proof. intros [Hm _] Hf ->. by eapply Hm. Qed.

(** The row both statements write for a record. *)
Definition row_of (r : LinkRecord) (id : str) (created_at : Z) (text : str) : LinksRow bool :=
  mkLinksRow id (lr_target_url r) created_at (ToEpochSeconds (lr_updated_at r))
    (ToEpochSeconds <$> lr_expires_at r) (lr_is_active r) (lr_owner r) (Some text).

Lemma active_flag (b : bool) : negb ((if b then 1 else 0) =? 0)%Z = b.
Proof. by destruct b. Qed.

Lemma Insert_statement r row links :
  storable pg_fits r → ToUpdateRow (T := T) r = Some row →
  ∃ text, DeserializePayload (T := T) text = Some (lr_id r, lr_attributes r) ∧
    Postgres.Insert (insert_params row) (Some links)
    = match links !! lr_short_code r with
      | Some _ => inl (dr_duplicate_key (lr_short_code r))
      | None => inr (tt, Some (<[lr_short_code r := row_of r (lr_id r) (ToEpochSeconds (lr_created_at r)) text]> links))
      end.
Proof.
  intros Hst Hrow. destruct (ToUpdateRow_inv r row (proj1 Hst) Hrow) as (text & Hs & _ & ->).
  destruct (jsonb_payload _ _ _ (proj1 Hst) Hs) as (text' & Hj & Hd). exists text'. split; [done|].
  pose proof (expires_fit r Hst) as He. destruct Hst as (_ & Hc & Hu & _).
  unfold Postgres.Insert. cbn. rewrite !use_indicator, (pg_timestamp _ Hc), (pg_timestamp _ Hu). cbn.
  rewrite (convert_timestamp _ He). cbn. rewrite Hj. cbn. rewrite active_flag. by destruct (links !! lr_short_code r).
Qed.

Lemma Update_statement r row links :
  storable pg_fits r → ToUpdateRow (T := T) r = Some row →
  ∃ text, DeserializePayload (T := T) text = Some (lr_id r, lr_attributes r) ∧
    Postgres.Update (update_params row) (Some links)
    = match links !! lr_short_code r with
      | Some old => inr (1, Some (<[lr_short_code r := row_of r (c_id old) (c_created_at old) text]> links))
      | None => inr (0, Some links)
      end.
Proof.
  intros Hst Hrow. destruct (ToUpdateRow_inv r row (proj1 Hst) Hrow) as (text & Hs & _ & ->).
  destruct (jsonb_payload _ _ _ (proj1 Hst) Hs) as (text' & Hj & Hd). exists text'. split; [done|].
  pose proof (expires_fit r Hst) as He. destruct Hst as (_ & Hc & Hu & _).
  unfold Postgres.Update. cbn. rewrite !use_indicator, (pg_timestamp _ Hu). cbn.
  rewrite (convert_timestamp _ He). cbn. rewrite Hj. cbn. rewrite active_flag. by destruct (links !! lr_short_code r).
Qed.

Lemma pg_insert_ok w t r row :
  holds' w t → storable pg_fits r → ToUpdateRow (T := T) r = Some row →
  let '((ok, e), w') := Postgres.InsertLink config Postgres.Insert row w in
  goes_on w w' ∧
  ((ok = true ∧ e = RepoError.none ∧ t !! lr_short_code r = None ∧ holds' w' (<[lr_short_code r := stored r]> t)) ∨
   (ok = false ∧ is_fault e ∧ holds' w' t ∧ (quiet w → e = RepoError.already_exists ∧ is_Some (t !! lr_short_code r))) ∨
   (ok = false ∧ is_fault e ∧ ¬ quiet w ∧ t !! lr_short_code r = None ∧ holds' w' (<[lr_short_code r := stored r]> t))).
Proof.
  intros Hh Hst Hrow. pose proof Hh as [_ (links & Hl & _)].
  destruct (Insert_statement r row links Hst Hrow) as (text & Hd & Hsql).
  unfold Postgres.InsertLink. rewrite run_unit_once.
  pose proof (execute_cases (Postgres.Insert (insert_params row)) w) as He. rewrite Hl, Hsql in He.
  pose proof (holds_lookup pg_fits pg_flag w t links (lr_short_code r) Hh Hl) as Hk.
  destruct (execute _ w) as [res w']. destruct He as [Hg He]. cbn [fst snd].
  destruct He as [(what & b & Hf & -> & Hl' & Hq)|He].
  { rewrite verdict_fault by by eapply driver_fault. split; [done|]. right. destruct Hl' as [Hl'|[a Ha]].
    - left. split_and!; [done|apply pg_fault|eapply (holds_same _ _ w); [done|by rewrite Hl', Hl|done]|]. intros Hq'. by destruct (Hq Hq').
    - right. destruct (links !! lr_short_code r) as [old|]; [discriminate|]. injection Ha as _ Hl'.
      split_and!; [done|apply pg_fault|done|done|]. eapply holds_insert; [done..|]. by apply row_holds_stored. }
  destruct (links !! lr_short_code r) as [old|]; destruct He as [-> Hl'].
  - rewrite duplicate_verdict. split; [done|]. right. left. destruct Hk as (r' & -> & _).
    split_and!; [done|done|eapply (holds_same _ _ w); [done|by rewrite Hl', Hl|done]|by eauto].
  - split; [done|]. left. split_and!; [done..|]. eapply holds_insert; [done..|]. by apply row_holds_stored.
Qed.

Lemma pg_open_ok w :
  let '((ok, e), w') := Postgres.Create config w in
  goes_on w w' ∧ sw_links w' = sw_links w ∧
  ((ok = true ∧ e = RepoError.none) ∨ (ok = false ∧ is_fault e ∧ ¬ quiet w)).
Proof.
  unfold Postgres.Create. rewrite is_postgres, (bool_decide_eq_false_2 _ has_dsn).
  rewrite bool_decide_eq_true_2 by done. cbn [negb orb]. unfold Postgres.open_session, exec_bind.
  pose proof (execute_reads (dr_open (Postgres.BuildPostgresConnectString config)) w
    ltac:(by intros; rewrite pg_open in *; simplify_eq/=)) as H1'. rewrite pg_open in H1'.
  destruct (execute (dr_open _) w) as [[what|[]] w1]; destruct H1' as [Hg1 [Hl1 [(what1 & b1 & _ & E1 & Hq1)|E1]]]; simplify_eq/=.
  { split_and!; [done..|]. right. split_and!; [done|apply pg_fault|done]. }
  match goal with |- context [execute ?sql w1] =>
    pose proof (execute_reads sql w1 ltac:(by intros; rewrite pg_setting in *; simplify_eq/=)) as H2' end.
  rewrite pg_setting in H2'.
  destruct (execute _ w1) as [[what|[]] w2]; destruct H2' as [Hg2 [Hl2 [(what2 & b2 & _ & E2 & Hq2)|E2]]]; simplify_eq/=.
  - split_and!; [by etrans|congruence|]. right. split_and!; [done|apply pg_fault|]. intros Hq. by eapply Hq2, quiet_goes_on.
  - split_and!; [by etrans|congruence|]. by left.
Qed.

(** A lambda of one statement that does not throw by itself. *)
Lemma statement_attempt {A Locals} (sql : Stmt bool A) (fn : ST (SqlWorld bool * Locals) (str + unit)) w l a db x :
  driver_messages w → sql (sw_links w) = inr (a, db) →
  (∀ what w', execute sql w = (inl what, w') → fn (w, l) = (inl what, (w', l))) →
  (∀ w', execute sql w = (inr a, w') → fn (w, l) = (inr tt, (w', x))) →
  goes_on w (fn (w, l)).2.1 ∧
  match (fn (w, l)).1 with
  | inr _ => (fn (w, l)).2.2 = x ∧ sw_links (fn (w, l)).2.1 = db
  | inl what => (sw_links (fn (w, l)).2.1 = sw_links w ∨ sw_links (fn (w, l)).2.1 = db) ∧ what ≠ ("not_found" : str) ∧ ¬ quiet w
  end.
Proof.
  intros Hm Hsql Hthrow Hret. pose proof (execute_cases sql w) as He. rewrite Hsql in He.
  destruct (execute sql w) as [[what|a'] w'] eqn:E; destruct He as [Hg [(what' & b & Hf & E' & Hl & Hq)|[E' Hl]]]; simplify_eq/=.
  - rewrite (Hthrow _ _ eq_refl). cbn. split_and!; [done| | |done]; [|intros ->; by eapply Hm].
    destruct Hl as [Hl|[a' Ha]]; [by left|right; congruence].
  - by rewrite (Hret _ eq_refl).
Qed.

Lemma pg_bootstrap_ok w :
  driver_messages w →
  let '((ok, e), w') := Postgres.Bootstrap config create_links w in
  goes_on w w' ∧ ((ok = true ∧ e = RepoError.none ∧ sw_links w' = Some (default ∅ (sw_links w))) ∨
                  (ok = false ∧ is_fault e ∧ ¬ quiet w ∧
                   (sw_links w' = sw_links w ∨ sw_links w' = Some (default ∅ (sw_links w))))).
Proof.
  intros Hm. unfold Postgres.Bootstrap. rewrite run_unit_retried.
  pose proof (retry_cases (Postgres.no_locals (execute create_links))
    (fun s => driver_messages s.1 ∧ (sw_links s.1 = sw_links w ∨ sw_links s.1 = Some (default ∅ (sw_links w)))) (fun s => sw_links s.1 = Some (default ∅ (sw_links w)))
    (scc_max_retries config) (w, tt)) as Hr.
  destruct (Postgres.RunWithRetry _ _ _ _) as [[ok e] [w' []]]. cbn in Hr. destruct Hr as [Hg Hr]; [|by auto|].
  - intros [w1 []] [Hm1 Hl1]. cbn [fst] in Hm1, Hl1.
    destruct (statement_attempt create_links (Postgres.no_locals (execute create_links)) w1 tt tt
      (Some (default ∅ (sw_links w1))) tt) as [Hg Hc]; [done|done| | |].
    + intros what w2 E. unfold Postgres.no_locals. by rewrite E.
    + intros w2 E. unfold Postgres.no_locals. by rewrite E.
    + assert (Hd : default ∅ (sw_links w1) = default ∅ (sw_links w)) by by destruct Hl1 as [->| ->].
      rewrite Hd in Hc. split; [done|]. destruct (Postgres.no_locals _ (w1, tt)) as [[what|] s2]; [|by destruct Hc].
      destruct Hc as (Hl2 & Hnf & Hq). split_and!; [by eapply driver_messages_goes_on| |done..].
      destruct Hl2 as [->| ->]; [done|by right].
  - split; [done|]. destruct Hr as [?|(-> & Hf & [_ Hl] & Hq)]; [by left|by right].
Qed.

(** A retried read: the table is not changed and, unless a pg_fault is reported, the
    locals hold the result. *)
Lemma read_retried {A Locals} (sql : Stmt bool A) (fn : ST (SqlWorld bool * Locals) (str + unit)) l0 w t links a x :
  holds' w t → sw_links w = Some links → sql (Some links) = inr (a, Some links) →
  (∀ w l what w', execute sql w = (inl what, w') → fn (w, l) = (inl what, (w', l))) →
  (∀ w l w', execute sql w = (inr a, w') → fn (w, l) = (inr tt, (w', x))) →
  let '((ok, e, l'), w') := Postgres.run config fn true l0 w in
  goes_on w w' ∧ holds' w' t ∧
  ((ok = true ∧ e = RepoError.none ∧ l' = x) ∨ (ok = false ∧ is_fault e ∧ ¬ quiet w)).
Proof.
  intros Hh Hl Hsql Hthrow Hret. unfold Postgres.run.
  pose proof (retry_cases fn (fun s => holds' s.1 t ∧ sw_links s.1 = Some links)
    (fun s => holds' s.1 t ∧ s.2 = x) (scc_max_retries config) (w, l0)) as Hr.
  destruct (Postgres.RunWithRetry _ _ _ _) as [[ok e] [w' l']]. cbn in Hr. destruct Hr as [Hg Hr]; [|done|].
  - intros [w1 l] [Hh1 Hl1]. cbn in *.
    destruct (statement_attempt sql fn w1 l a (Some links) x) as [Hg Hc];
      [apply Hh1|by rewrite Hl1|by intros; apply Hthrow|by intros; apply Hret|].
    split; [done|]. destruct (fst (fn (w1, l))) as [what|].
    + destruct Hc as (Hl2 & Hnf & Hq). rewrite Hl1 in Hl2.
      assert (Hl2' : sw_links (fn (w1, l)).2.1 = Some links) by by destruct Hl2.
      split_and!; [eapply (holds_same _ _ w1); [done|congruence|done]|done..].
    + destruct Hc as [Hx Hl2]. split; [|done]. eapply (holds_same _ _ w1); [done|congruence|done].
  - split; [done|]. destruct Hr as [(-> & -> & Hh' & ->)|(-> & Hf & [Hh' _] & Hq)]; (split; [done|]); [by left|by right].
Qed.

Lemma pg_cells_read_back key row r :
  row_holds (T := T) pg_fits pg_flag key row r →
  ∃ sr, RowFromSoci get_long_long (Postgres.cells key row) = inr sr ∧ FromRow (T := T) sr = (Some r, RepoError.none).
Proof.
  intros [_ Hflag (text & Htext & Hd) Hr].
  exists (mkSqlRow (Some (c_id row)) (Some key) (Some (c_target_url row)) (Some (c_created_at row)) (Some (c_updated_at row))
            (c_expires_at row) (Some (if c_is_active row then 1 else 0)%Z) (c_owner_id row) (Some text)).
  split.
  - unfold RowFromSoci, Postgres.cells. rewrite Htext.
    destruct (c_expires_at row) as [v|], (c_owner_id row); reflexivity.
  - unfold FromRow. cbn [sr_short_code sr_target_url sr_created_at sr_updated_at sr_is_active sr_attributes_json].
    rewrite Hd, Hflag. rewrite Hr. by destruct (lr_is_active r).
Qed.

Lemma pg_select_ok w t key :
  holds' w t →
  let '((o, e), w') := Postgres.SelectByShortCode config (select_row Postgres.cells) key w in
  goes_on w w' ∧ holds' w' t ∧
  match o with
  | Some row => e = RepoError.none ∧ ∃ r, t !! key = Some r ∧ FromRow (T := T) row = (Some r, RepoError.none)
  | None => (e = RepoError.not_found ∧ t !! key = None) ∨ (is_fault e ∧ ¬ quiet w)
  end.
Proof.
  intros Hh. pose proof Hh as [_ (links & Hl & _)]. unfold Postgres.SelectByShortCode. rewrite ST_bind_eq.
  pose proof (holds_lookup pg_fits pg_flag w t links key Hh Hl) as Hk.
  pose proof (read_retried (select_row Postgres.cells key) (Postgres.select_fn (select_row Postgres.cells) key) None w t links
    (match links !! key with Some row => [Postgres.cells key row] | None => [] end)) as Hr.
  pose proof (fun x => Hr x Hh Hl eq_refl) as Hr'. clear Hr. rename Hr' into Hr.
  destruct (links !! key) as [row|].
  - destruct Hk as (r & Ht & Hrow). destruct (pg_cells_read_back key row r Hrow) as (sr & Hs & Hf).
    specialize (Hr (Some sr)). destruct (Postgres.run _ _ _ _ w) as [[[ok e] l'] w'].
    destruct Hr as (Hg & Hh' & Hr).
    { intros w1 l what w2 E. unfold Postgres.select_fn. by rewrite E. }
    { intros w1 l w2 E. unfold Postgres.select_fn. by rewrite E, Hs. }
    destruct Hr as [(-> & -> & ->)|(-> & Hfault & Hq)]; cbn; (split_and!; [done..|]); [by exists r|by right].
  - specialize (Hr None). destruct (Postgres.run _ _ _ _ w) as [[[ok e] l'] w'].
    destruct Hr as (Hg & Hh' & Hr).
    { intros w1 l what w2 E. unfold Postgres.select_fn. by rewrite E. }
    { intros w1 l w2 E. unfold Postgres.select_fn. by rewrite E. }
    destruct Hr as [(-> & -> & ->)|(-> & Hfault & Hq)]; cbn; (split_and!; [done..|]); [by left|by right].
Qed.

Lemma pg_delete_ok w t key :
  holds' w t →
  let '((ok, e), w') := Postgres.DeleteLink config delete_row key w in
  goes_on w w' ∧
  ((ok = true ∧ e = RepoError.none ∧ holds' w' (delete key t)) ∨ 
   (ok = false ∧ is_fault e ∧ ¬ quiet w ∧ (holds' w' t ∨ holds' w' (delete key t)))).
Proof.
  intros Hh. pose proof Hh as [_ (links & Hl & _)]. unfold Postgres.DeleteLink. rewrite run_unit_once.
  pose proof (execute_cases (delete_row key) w) as He. rewrite Hl in He. cbn in He.
  destruct (execute _ w) as [res w']. destruct He as [Hg [(what & b & Hf & -> & Hl' & Hq)|[-> Hl']]]; cbn [fst snd].
  - rewrite verdict_fault by by eapply driver_fault. split; [done|]. right. split_and!; [done|apply pg_fault|done|].
    destruct Hl' as [Hl'|[a Ha]].
    + left. eapply (holds_same _ _ w); [done|by rewrite Hl', Hl|done].
    + right. injection Ha as _ Hl'. by eapply holds_delete.
  - split; [done|]. left. split_and!; [done..|]. by eapply holds_delete.
Qed.

Lemma pg_exists_ok w t key :
  holds' w t →
  let '((ok, found, e), w') := Postgres.Exists config count_rows key w in
  goes_on w w' ∧ holds' w' t ∧
  ((ok = true ∧ e = RepoError.none ∧ found = bool_decide (is_Some (t !! key))) ∨ (ok = false ∧ is_fault e ∧ ¬ quiet w)).
Proof.
  intros Hh. pose proof Hh as [_ (links & Hl & _)]. unfold Postgres.Exists. rewrite ST_bind_eq.
  pose proof (holds_lookup pg_fits pg_flag w t links key Hh Hl) as Hk.
  pose proof (read_retried (count_rows key) (Postgres.count_fn count_rows key) 0%Z w t links _
    (match links !! key with Some _ => 1 | None => 0 end)%Z Hh Hl eq_refl) as Hr.
  destruct (Postgres.run _ _ _ _ w) as [[[ok e] count] w']. destruct Hr as (Hg & Hh' & Hr).
  { intros w1 l what w2 E. unfold Postgres.count_fn. by rewrite E. }
  { intros w1 l w2 E. unfold Postgres.count_fn. by rewrite E. }
  destruct Hr as [(-> & -> & ->)|(-> & Hfault & Hq)]; cbn; (split_and!; [done..|]); [left|by right].
  split_and!; [done..|]. destruct (links !! key); [destruct Hk as (r & -> & _)|rewrite Hk]; done.
Qed.

Lemma pg_update_ok w t r row :
  holds' w t → storable pg_fits r → ToUpdateRow (T := T) r = Some row →
  let '((ok, e), w') := Postgres.UpdateLink config Postgres.Update row w in
  goes_on w w' ∧
  let applied old := t !! lr_short_code r = Some old ∧ holds' w' (<[lr_short_code r := restamped old r]> t) in
  ((ok = true ∧ e = RepoError.none ∧ ∃ old, applied old) ∨
   (ok = false ∧ e = RepoError.not_found ∧ t !! lr_short_code r = None ∧ holds' w' t) ∨
   (ok = false ∧ is_fault e ∧ ¬ quiet w ∧ (holds' w' t ∨ ∃ old, applied old))).
Proof.
  intros Hh Hst Hrow. pose proof Hh as [_ (links & Hl & _)].
  destruct (Update_statement r row links Hst Hrow) as (text & Hd & Hsql).
  assert (Hcode : up_short_code (update_params row) = lr_short_code r).
  { by destruct (ToUpdateRow_inv r row (proj1 Hst) Hrow) as (? & _ & _ & ->). }
  unfold Postgres.UpdateLink. rewrite run_unit_once, Hcode. unfold exec_bind.
  pose proof (execute_cases (Postgres.Update (update_params row)) w) as He. rewrite Hl, Hsql in He.
  pose proof (holds_lookup pg_fits pg_flag w t links (lr_short_code r) Hh Hl) as Hk.
  destruct (execute _ w) as [[what|n] w1]; destruct He as [Hg1 [(what1 & b1 & Hf1 & E1 & Hl1 & Hq1)|He]].
  { injection E1 as <-. cbn [fst snd]. rewrite verdict_fault by by eapply driver_fault. split; [done|]. right. right.
    split_and!; [done|apply pg_fault|done|].
    destruct Hl1 as [Hl1|[a Ha]]; [left; eapply (holds_same _ _ w); [done|by rewrite Hl|done]|].
    destruct (links !! lr_short_code r) as [old|]; injection Ha as _ Hl1.
    - right. destruct Hk as (o & Ho & Hrh). exists o. split; [done|]. eapply holds_insert; [done..|]. by apply row_holds_restamped.
    - left. eapply (holds_same _ _ w); [done|by rewrite Hl|done]. }
  { destruct (links !! lr_short_code r); by destruct He. }
  { discriminate. }
  assert (Hafter : ∀ w2, goes_on w1 w2 → sw_links w2 = sw_links w1 →
    match links !! lr_short_code r with
    | Some _ => ∃ old, t !! lr_short_code r = Some old ∧ holds' w2 (<[lr_short_code r := restamped old r]> t)
    | None => t !! lr_short_code r = None ∧ holds' w2 t
    end).
  { intros w2 Hg2 Hl2. destruct (links !! lr_short_code r) as [old|]; destruct He as [_ He].
    - destruct Hk as (o & Ho & Hrh). exists o. split; [done|]. eapply holds_insert; [done|done|by etrans|by rewrite Hl2|].
      by apply row_holds_restamped.
    - split; [done|]. eapply (holds_same _ _ w); [by etrans|by rewrite Hl2, He, Hl|done]. }
  pose proof (execute_reads (count_rows (lr_short_code r)) w1 (count_rows_reads _ _)) as He2.
  assert (Hm1 : driver_messages w1) by (eapply driver_messages_goes_on; [done|apply Hh]).
  assert (Hl1 : sw_links w1 = Some match links !! lr_short_code r with
    | Some old => <[lr_short_code r := row_of r (c_id old) (c_created_at old) text]> links | None => links end)
    by (destruct (links !! lr_short_code r); by destruct He).
  rewrite Hl1 in He2. cbn in He2.
  destruct (execute _ w1) as [[what|cnt] w2]; destruct He2 as [Hg2 [Hl2 [(what2 & b2 & Hf2 & E2 & Hq2)|E2]]]; try discriminate;
    specialize (Hafter w2 Hg2); rewrite Hl2, Hl1 in Hafter; specialize (Hafter eq_refl).
  - injection E2 as <-. cbn [fst snd]. rewrite verdict_fault by (intros ->; by eapply Hm1). split; [by etrans|]. right. right.
    split_and!; [done|apply pg_fault|intros Hq; by eapply Hq2, quiet_goes_on|].
    destruct (links !! lr_short_code r); [by right|left; apply Hafter].
  - injection E2 as ->. destruct (links !! lr_short_code r) eqn:Elink.
    + rewrite lookup_insert_eq. split; [by etrans|]. by left.
    + rewrite Elink. split; [by etrans|]. right. left. by destruct Hafter.
Qed.

Lemma pg_rows_read_back L :
  Forall (pair_holds (T := T) pg_fits pg_flag) L →
  Forall2 (fun r record => ∃ row, RowFromSoci get_long_long r = inr row ∧ FromRow (T := T) row = (Some record, RepoError.none))
    (map (fun kr => Postgres.cells kr.1 kr.2) (map pair_row L)) (map pair_record L).
Proof.
  rewrite map_map. induction 1 as [|[k [row r]] L Hp _ IH]; cbn; constructor; [|done]. by apply pg_cells_read_back.
Qed.

Lemma List_reads owner inc limit offset db a db' : Postgres.List owner inc limit offset db = inr (a, db') → db' = db.
Proof.
  unfold Postgres.List, on_links. destruct db as [links|]; [|done]. destruct (_ || _); [done|]. by intros [= _ <-].
Qed.

Lemma list_fn_frame owner inc limit offset s :
  goes_on s.1 (Postgres.list_fn Postgres.List owner inc limit offset s).2.1 ∧
  sw_links (Postgres.list_fn Postgres.List owner inc limit offset s).2.1 = sw_links s.1.
Proof.
  destruct s as [w rows]. unfold Postgres.list_fn.
  match goal with |- context [execute ?sql w] => pose proof (execute_reads sql w (List_reads _ _ _ _ _)) as He end.
  destruct (execute _ w) as [[what|rs] w1]; destruct He as (Hg & Hl1 & _); [done|].
  pose proof (fetch_rows_frame get_long_long rs (w1, rows)) as [Hg2 Hl2]. cbn in *. split; [by etrans|congruence].
Qed.

(** One attempt at a list appends rows of the page, all of them if it returns. *)
Lemma list_attempt w t links L owner inc limit offset rows :
  holds' w t → sw_links w = Some links → (Z.of_nat limit < 2 ^ 31)%Z → (Z.of_nat offset < 2 ^ 31)%Z →
  ordered_rows c_is_active owner (if inc : bool then 1 else 0)%Z links = map pair_row L →
  Forall (pair_holds (T := T) pg_fits pg_flag) L →
  let page := take limit (drop offset (map pair_record L)) in
  let '(res, (w', rows')) := Postgres.list_fn Postgres.List owner inc limit offset (w, rows) in
  goes_on w w' ∧ (holds' w' t ∧ sw_links w' = Some links) ∧
  ∃ new n, rows' = rows ++ new ∧ Forall2 (fun row r => FromRow (T := T) row = (Some r, RepoError.none)) new (take n page) ∧
    match res with inr _ => take n page = page | inl what => ¬ quiet w ∧ what ≠ ("not_found" : str) end.
Proof.
  intros Hh Hl Hlim Hoff HL Hall page. pose proof (list_fn_frame owner inc limit offset (w, rows)) as [Hg Hlw]. cbn [fst] in Hg, Hlw.
  unfold Postgres.list_fn in *. rewrite use_indicator in *.
  match goal with |- context [execute ?sql w] => pose proof (execute_reads sql w (List_reads _ _ _ _ _)) as He end.
  rewrite Hl in He. unfold Postgres.List in He at 2. cbn [on_links] in He. unfold page.
  rewrite !to_int32_small in * by done.
  rewrite (proj2 (Z.ltb_ge _ _)), (proj2 (Z.ltb_ge (Z.of_nat offset) 0)) in He by lia. cbn [orb] in He.
  rewrite HL, !Nat2Z.id, skipn_map, firstn_map in He.
  destruct (execute _ w) as [res w1]. destruct He as [Hg1 [Hl1 [(what1 & b1 & Hw & -> & Hq1)| ->]]].
  { split_and!; [done|by eapply (holds_same _ _ w)|done|]. exists [], 0. rewrite app_nil_r.
    split_and!; [done|constructor|done|]. intros ->. by eapply (proj1 Hh). }
  pose proof (fetch_rows_cases get_long_long _ _ w1 rows (pg_rows_read_back (take limit (drop offset L))
    (Forall_take _ _ _ (Forall_drop _ _ _ Hall)))) as Hf.
  destruct (fetch_rows _ _ _) as [res [w2 rows2]]. destruct Hf as (_ & _ & new & n & -> & Hnew & Hres). cbn [fst snd] in Hg, Hlw.
  split_and!; [done|by eapply (holds_same _ _ w)|congruence|].
  rewrite skipn_map, firstn_map. exists new, n. split_and!; [done..|]. destruct res as [what|[]]; [|done].
  destruct Hres as [Hq Hm]. split; [intros Hq'; by eapply Hq, quiet_goes_on|].
  eapply Hm, driver_messages_goes_on; [done|apply Hh].
Qed.

Lemma pg_list_ok w t owner inc limit offset :
  holds' w t →
  let '((rows, e), w') := Postgres.list_rows config Postgres.List owner inc limit offset w in
  goes_on w w' ∧ holds' w' t ∧
  ((Z.of_nat limit < 2 ^ 31)%Z → (Z.of_nat offset < 2 ^ 31)%Z →
   (e = RepoError.none ∧ ∃ answer, listing (quiet w ∨ scc_max_retries config = 0) owner inc limit offset t answer ∧
      Forall2 (fun row r => FromRow (T := T) row = (Some r, RepoError.none)) rows answer) ∨
   (rows = [] ∧ is_fault e ∧ ¬ quiet w)).
Proof.
  intros Hh. pose proof Hh as [_ (links & Hl & _)].
  destruct (ordered_records pg_fits pg_flag (fun v H => H) c_is_active (fun row b H => H) pg_order w t links owner inc Hh Hl)
    as (L & HL & Hall & Hperm & Hsort).
  set (fn := Postgres.list_fn Postgres.List owner inc limit offset).
  pose proof (list_fn_frame owner inc limit offset) as Hframe. fold fn in Hframe.
  pose proof (retry_frame fn Hframe (scc_max_retries config) true (w, [])) as [Hg Hlw].
  set (reads := fun row r => FromRow (T := T) row = (Some r, RepoError.none)).
  assert (Hfun : ∀ row r1 r2, reads row r1 → reads row r2 → r1 = r2) by (unfold reads; congruence).
  assert (Hstep : (Z.of_nat limit < 2 ^ 31)%Z → (Z.of_nat offset < 2 ^ 31)%Z → ∀ w rows, holds' w t ∧ sw_links w = Some links → _)
    by exact (fun Hlim Hoff w rows Hw =>
      list_attempt w t links L owner inc limit offset rows (proj1 Hw) (proj2 Hw) Hlim Hoff HL Hall).
  pose proof (fun Hlim Hoff => retry_collects fn (fun w => holds' w t ∧ sw_links w = Some links) reads
    (take limit (drop offset (map pair_record L))) (scc_max_retries config) w Hfun (Hstep Hlim Hoff) (conj Hh Hl)) as Hr.
  unfold Postgres.list_rows. rewrite ST_bind_eq. fold fn. unfold Postgres.run.
  destruct (Postgres.RunWithRetry _ _ _ _) as [[ok e] [w' rows]]. cbn in Hg, Hlw |- *.
  assert (Hh' : holds' w' t) by (by eapply (holds_same _ _ w)).
  destruct ok; cbn; (split_and!; [done..|]); intros Hlim Hoff;
    destruct (Hr Hlim Hoff) as [(E & -> & answer & Hrows & Hsub & Hexact)|(E & Hf & Hq)]; try discriminate; [left|by right].
  pose proof (listing_page True owner inc limit offset t _ Hperm Hsort) as [Hpage Hin].
  split; [done|]. exists answer. split; [|done]. split; [|by auto]. intros ->%Hexact. by apply Hpage.
Qed.

#[export] Instance PostgresSessionSpec :
  @SqlSessionSpec bool T (Postgres.PostgresSession config) Postgres.PostgresSqlDialect _.
Proof.
  refine (@Build_SqlSessionSpec bool T (Postgres.PostgresSession config) Postgres.PostgresSqlDialect _ pg_fits pg_flag (scc_max_retries config = 0)
    pg_open_ok pg_bootstrap_ok pg_insert_ok pg_select_ok pg_update_ok pg_delete_ok pg_exists_ok pg_list_ok).
Defined.
End postgres.
End PostgresSpec.
