(* ===== verification/SqlProps.v ===== *)
(** * SqlProps: what the SQL repository guarantees on each back end

    The refinement theorems for SQLite and PostgreSQL, the bound on retries, the
    loss of links on an in-memory database and the repeated rows of a retried
    list. [Reference] instantiates the parameters. *)
From stdpp Require Import sorting.
From S2P Require Import Prelude Text Clock LinkJson Storage SqlRows SqlSessions SqlRepository SqlBackends.

(** ** The repositories the storage factory builds *)
Section built.
Context {T : Type} `{PropertyTree T}.

Definition sqlite_ops `{SqlDriver Z} (config : SqlConnectionConfig) (ops : list SqlOp) :
    ST (bool * SqlWorld Z) (list Answer) :=
  @run_ops Z T (Sqlite.SqliteSession config) Sqlite.SqliteSqlDialect _ ops.

Definition postgres_ops `{SqlDriver bool} (config : SqlConnectionConfig) (ops : list SqlOp) :
    ST (bool * SqlWorld bool) (list Answer) :=
  @run_ops bool T (Postgres.PostgresSession config) Postgres.PostgresSqlDialect _ ops.
End built.

(** ** An instance of every parameter *)
Module Reference.
(** A tree as its paths, each with its value. *)
Definition tree : Type := list (list str * str).

Definition strip (k : str) (e : list str * str) : option (list str * str) :=
  match e.1 with k' :: p => if bool_decide (k' = k) then Some (p, e.2) else None | [] => None end.

Definition one_step (e : list str * str) : option (str * str) := match e.1 with [k] => Some (k, e.2) | _ => None end.

Fixpoint bits (p : positive) : str :=
  match p with xH => [] | xO p' => "0"%char :: bits p' | xI p' => "1"%char :: bits p' end.

Fixpoint unbits (s : str) : positive :=
  match s with [] => xH | c :: s' => if Ascii.eqb c "0" then xO (unbits s') else xI (unbits s') end.

#[global] Instance tree_property_tree : PropertyTree tree := {
  pt_empty := [];
  pt_put k v t := t ++ [([k], v)];
  pt_add_child k a t := t ++ ([k], []) :: map (fun e => (k :: e.1, e.2)) a;
  pt_get k t := snd <$> List.find (fun e => bool_decide (e.1 = [k])) t;
  pt_child k t := match omap (strip k) t with [] => None | _ :: rest => Some rest end;
  pt_items t := omap one_step t;
  pt_write t := Some (bits (encode (t : list (list str * str))));
  pt_read s := (decode (unbits s) : option (list (list str * str)));
}.

Lemma unbits_bits p : unbits (bits p) = p.
Proof. induction p as [p IH|p IH|]; cbn; by rewrite ?IH. Qed.

Lemma child_none k (t : tree) : pt_child k t = None → omap (strip k) t = [].
Proof. cbn. by destruct (omap (strip k) t). Qed.

Lemma strip_cons k (a : tree) : omap (strip k) (map (fun e => (k :: e.1, e.2)) a) = a.
Proof. induction a as [|[p v] a IH]; cbn; [done|]. by rewrite bool_decide_eq_true_2, IH by done. Qed.

Lemma find_fresh k (t : tree) : omap (strip k) t = [] → List.find (fun e => bool_decide (e.1 = [k])) t = None.
Proof.
  induction t as [|[p v] t IH]; cbn; [done|]. unfold strip at 1. cbn. destruct p as [|k' p]; [done|].
  destruct (bool_decide_reflect (k' = k)) as [->|Hk]; [done|]. rewrite bool_decide_eq_false_2 by congruence. done.
Qed.

Lemma find_app {A} (f : A → bool) l1 l2 :
  List.find f (l1 ++ l2) = match List.find f l1 with Some x => Some x | None => List.find f l2 end.
Proof. induction l1 as [|x l1 IH]; cbn; [done|]. by destruct (f x). Qed.

Lemma find_other k k' (a : tree) :
  k ≠ k' → List.find (fun e => bool_decide (e.1 = [k'])) (map (fun e => (k :: e.1, e.2)) a) = None.
Proof. intros Hk. induction a as [|e a IH]; cbn; [done|]. by rewrite bool_decide_eq_false_2 by congruence. Qed.

#[global] Instance tree_laws : PropertyTreeLaws tree.
Proof.
  split.
  - done.
  - done.
  - intros k v t _ _. cbn. by rewrite omap_app.
  - intros k k' v t _ _ Hk. cbn. rewrite omap_app. cbn. unfold strip at 2. cbn.
    rewrite bool_decide_eq_false_2 by done. by rewrite app_nil_r.
  - intros k v t _ Hn. cbn. rewrite find_app, find_fresh by (by apply child_none). cbn. by rewrite bool_decide_eq_true_2.
  - intros k k' a t _ _ Hk. cbn. rewrite find_app. destruct (List.find _ t); [done|]. cbn.
    rewrite bool_decide_eq_false_2 by congruence. by rewrite find_other.
  - intros k a t _ Hn. cbn. rewrite omap_app, (child_none _ _ Hn). cbn. rewrite bool_decide_eq_true_2 by done.
    by rewrite strip_cons.
  - intros t _. eexists. split; [reflexivity|]. cbn. by rewrite unbits_bits, decode_encode.
Qed.

Definition created_le {Flag} (a b : str * LinksRow Flag) : Prop := (c_created_at a.2 ≤ c_created_at b.2)%Z.
#[global] Instance created_le_dec {Flag} : RelDecision (@created_le Flag).
Proof. intros a b. unfold created_le. apply _. Defined.
#[global] Instance created_le_total {Flag} : Total (@created_le Flag).
Proof. intros a b. unfold created_le. lia. Qed.

Lemma merge_sort_rows {Flag} : sorts_rows (merge_sort (@created_le Flag)).
Proof. intros l. split; [apply merge_sort_Permutation|]. apply (Sorted_merge_sort created_le). Qed.

(** Every connection to [":memory:"] has a database of its own. *)
#[global] Instance sqlite_driver : SqlDriver Z := {
  dr_open dsn db := inr (tt, if bool_decide (dsn = (":memory:" : str)) then None else db);
  dr_setting _ db := inr (tt, db);
  dr_no_table := "no such table: links";
  dr_duplicate_key _ := "UNIQUE constraint failed: links.short_code";
  dr_negative_limit := "";
  dr_integer v := if ((- 2 ^ 31 <=? v) && (v <? 2 ^ 31))%Z then cell_integer v else cell_long_long v;
  dr_to_timestamp v := inr v;
  dr_jsonb s := inr s;
  dr_order := merge_sort created_le;
}.

#[global] Instance postgres_driver : SqlDriver bool := {
  dr_open _ db := inr (tt, db);
  dr_setting _ db := inr (tt, db);
  dr_no_table := "ERROR 42P01: relation links does not exist";
  dr_duplicate_key _ := "duplicate key value violates unique constraint";
  dr_negative_limit := "LIMIT must not be negative";
  dr_integer v := cell_long_long v;
  dr_to_timestamp v := inr v;
  dr_jsonb s := inr s;
  dr_order := merge_sort created_le;
}.

Definition sqlite_config : SqlConnectionConfig := mkSqlConnectionConfig backend_sqlite "links.db" 2500 3000 5000 None 0.
Definition memory_config : SqlConnectionConfig := mkSqlConnectionConfig backend_sqlite ":memory:" 2500 3000 5000 None 0.
Definition postgres_config : SqlConnectionConfig := mkSqlConnectionConfig backend_postgres "dbname=links" 2500 3000 5000 None 1.

#[global] Instance sqlite_laws : SqliteDriverLaws (scc_dsn sqlite_config).
Proof.
  split; [done|done|done| |apply merge_sort_rows]. intros v [H1 H2]. cbn.
  by rewrite (proj2 (Z.leb_le _ _) H1), (proj2 (Z.ltb_lt _ _) H2).
Qed.

#[global] Instance postgres_laws : PostgresDriverLaws tree (Postgres.BuildPostgresConnectString postgres_config).
Proof.
  split; [done|done|done|done| |apply merge_sort_rows]. intros t s Ht Hw. exists s, t.
  destruct (pt_json t Ht) as (s' & Hw' & Hr). rewrite Hw in Hw'. injection Hw' as <-. split_and!; [done..|]. by eauto.
Qed.

Definition request (code : string) : CreateLinkRequest :=
  mkCreateLinkRequest code "https://example.org/" (Some (1700000000500000000)%Z) (Some ("ann" : str))
    {[ ("campaign" : str) := ("spring" : str) ]} true.

Definition fresh {Flag} (faults : nat → option (str * bool)) : bool * SqlWorld Flag := (false, mkSqlWorld None faults 0).
Definition no_faults (_ : nat) : option (str * bool) := None.

Definition now : Z := 1690000000123456789.

Definition demo_ops : list SqlOp :=
  [op_create (request "promo") "id1" now; op_create (request "promo") "id2" now; op_get "promo"; op_exists "other"].
End Reference.

(** ** The theorems *)

(** C17: on SQLite (a file database), every sequence of repository calls answers as
    one table of records keyed by short code does, whichever statements throw and
    whether or not these took effect: a created link is read back with its times cut
    to whole seconds, a duplicate is refused, an update keeps the creation time, a
    list is the page asked for in order of creation; a reported failure has changed
    nothing or applied the whole operation, and a list that fails shows no row. While
    no statement throws the only errors are an invalid request, a duplicate and a
    missing link. The conditions: the creation, update
    and expiry times of the records written are whole seconds an [int] column holds
    (December 1901 to January 2038), the identifier, the attributes and their keys are
    text of 7-bit characters without null, the keys not empty and without a dot,
    limits and offsets are below 2^31, and no driver's message is the word
    [not_found]. The database holds the table at first, or no schema yet and the
    table is empty. *)
Theorem sqlite_repository_refines {T} `{PropertyTreeLaws T} `{SqlDriver Z} config ops s t :
  scc_backend config = backend_sqlite → scc_dsn config ≠ [] → SqliteDriverLaws (scc_dsn config) →
  represents_table (T := T) int32 sqlite_flag s t → Forall (op_fits int32) ops →
  ∃ t', table_run (quiet s.2) True t ops (sqlite_ops (T := T) config ops s).1 t' ∧
    represents_table (T := T) int32 sqlite_flag (sqlite_ops (T := T) config ops s).2 t'.
Proof.
  intros Hb Hd Hlaws Hs Hops.
  pose proof (@run_refines Z T _ _ _ (SqliteSpec.SqliteSessionSpec config Hb Hd) _ ops s t Hs Hops) as Hr.
  fold (sqlite_ops (T := T) config ops) in Hr. destruct (sqlite_ops _ _ s) as [answers s'].
  destruct Hr as (_ & t' & Hrun & Hs'). by exists t'.
Qed.

(** C18: on PostgreSQL, whose columns hold times as timestamps, the flag as a boolean
    and the payload as [JSONB], every sequence of repository calls answers as one
    table does in the same sense, under the same conditions but for times, which may
    be any the 64-bit clock holds. Reads are retried, which costs lists their
    exactness: a list without an error shows only links of the table that match, and
    it is the page asked for when no statement throws or no retry is configured; a
    retried list may repeat rows. *)
Theorem postgres_repository_refines {T} `{PropertyTreeLaws T} `{SqlDriver bool} config ops s t :
  scc_backend config = backend_postgres → scc_dsn config ≠ [] →
  PostgresDriverLaws T (Postgres.BuildPostgresConnectString config) →
  represents_table (T := T) pg_fits pg_flag s t → Forall (op_fits pg_fits) ops →
  ∃ t', table_run (quiet s.2) (scc_max_retries config = 0) t ops (postgres_ops (T := T) config ops s).1 t' ∧
    represents_table (T := T) pg_fits pg_flag (postgres_ops (T := T) config ops s).2 t'.
Proof.
  intros Hb Hd Hlaws Hs Hops.
  pose proof (@run_refines bool T _ _ _ (PostgresSpec.PostgresSessionSpec config Hb Hd) _ ops s t Hs Hops) as Hr.
  fold (postgres_ops (T := T) config ops) in Hr. destruct (postgres_ops _ _ s) as [answers s'].
  destruct Hr as (_ & t' & Hrun & Hs'). by exists t'.
Qed.

(** C40: [RunWithRetry] runs its statement at least once and at most [max_retries + 1]
    times, exactly once when the call is not retryable; every run but the last
    failed with a transient error, the answer is the verdict on the last run, and
    a transient failure is only reported when all the retries are used up. *)
Theorem RunWithRetry_bounded {Flag Locals} (fn : ST (SqlWorld Flag * Locals) (str + unit)) max_retries retryable s :
  ∃ k, k ≤ max_retries ∧ (retryable = false → k = 0) ∧
    (∀ j, j < k → transient (fn (before_attempt fn j s)).1) ∧
    Postgres.RunWithRetry fn max_retries retryable s
    = (verdict (fn (before_attempt fn k s)).1, before_attempt fn (S k) s) ∧
    (retryable = true → transient (fn (before_attempt fn k s)).1 → k = max_retries).
Proof. apply retry_attempts. Qed.

(** ** A database that lives with its connection *)
Section private_database.
Context {T : Type} `{PropertyTree T} `{SqlDriver Z} (config : SqlConnectionConfig).
Context (open_fresh : ∀ db, dr_open (scc_dsn config) db = inr (tt, None)).
Context (setting_keeps : ∀ text db, dr_setting text db = inr (tt, db)).

Lemma Create_private w :
  let '((ok, _), w') := Sqlite.Create config w in ok = false ∨ sw_links w' = None.
Proof.
  unfold Sqlite.Create. destruct (_ || _); [by left|]. unfold Sqlite.succeeded. rewrite ST_bind_eq.
  unfold Sqlite.guarded, Sqlite.open_session, exec_bind.
  pose proof (execute_cases (dr_open (scc_dsn config)) w) as H1. rewrite open_fresh in H1.
  destruct (execute (dr_open _) w) as [[what|[]] w1]; destruct H1 as [_ [(what1 & b1 & _ & E1 & _)|[E1 Hl1]]]; simplify_eq/=; [by left|].
  match goal with |- context [execute ?sql w1] => pose proof (execute_cases sql w1) as H2 end. rewrite setting_keeps in H2.
  destruct (execute _ w1) as [[what|[]] w2]; destruct H2 as [_ [(what2 & b2 & _ & E2 & _)|[E2 Hl2]]]; simplify_eq/=; [by left|].
  right. congruence.
Qed.

Abbreviation sess := (Sqlite.SqliteSession config).

(** The statement of a method always meets an empty database. *)
Lemma with_session_private {R} failed (body : ST (SqlWorld Z) R) s :
  (∃ e, (@with_session Z sess Sqlite.SqliteSqlDialect R failed body s).1 = failed e) ∨
  (∃ w, sw_links w = (if s.1 then None else Some ∅) ∧
     (@with_session Z sess Sqlite.SqliteSqlDialect R failed body s).1 = (body w).1).
Proof.
  destruct s as [b w]. unfold with_session. rewrite ST_bind_eq. unfold on_world. cbn [sess_Create Sqlite.SqliteSession].
  pose proof (Create_private w) as Hc. destruct (Sqlite.Create config w) as [[ok e] w1]. cbn [fst snd].
  destruct ok; cbn [negb]; [|left; by exists e]. destruct Hc as [?|Hl]; [done|].
  rewrite ST_bind_eq. unfold EnsureBootstrapped. destruct b; cbn [fst snd negb].
  { right. exists w1. split; [done|]. by destruct (body w1). }
  cbn [sess_Bootstrap Sqlite.SqliteSession BootstrapSchemaSql Sqlite.SqliteSqlDialect].
  pose proof (SqliteSpec.sq_bootstrap_ok w1) as Hb. destruct (Sqlite.Bootstrap create_links w1) as [[ok e'] w2].
  destruct Hb as [_ [(-> & -> & Hl2)|(-> & _)]]; cbn; [|left; by exists e'].
  right. exists w2. rewrite Hl2, Hl. split; [done|]. by destruct (body w2).
Qed.

Lemma select_private w key :
  sw_links w = None ∨ sw_links w = Some ∅ → (Sqlite.SelectByShortCode (select_row Sqlite.cells) key w).1.1 = None.
Proof.
  intros Hl. unfold Sqlite.SelectByShortCode. rewrite ST_bind_eq. unfold Sqlite.guarded, exec_bind.
  pose proof (execute_cases (select_row Sqlite.cells key) w) as He.
  destruct (execute _ w) as [[what|rs] w']; [done|]. destruct He as [_ [(? & ? & _ & ? & _)|He]]; [done|].
  destruct Hl as [Hl|Hl]; rewrite Hl in He; cbn in He; [by destruct He|]. rewrite lookup_empty in He.
  destruct He as [[= ->] _]. done.
Qed.
End private_database.

(** Over a database that lives only as long as its connection, which is what
    SQLite gives to [":memory:"], the repository keeps nothing: no read ever finds
    a link, and once the schema has been set up no creation succeeds. *)
Theorem memory_database_forgets {T} `{PropertyTree T} `{SqlDriver Z} config :
  (∀ db, dr_open (scc_dsn config) db = inr (tt, None)) → (∀ text db, dr_setting text db = inr (tt, db)) →
  let get := @GetByShortCode Z T (Sqlite.SqliteSession config) Sqlite.SqliteSqlDialect _ in
  let create := @CreateLink Z T (Sqlite.SqliteSession config) Sqlite.SqliteSqlDialect _ in
  (∀ code s, (get code s).1.1 = None) ∧
  (∀ rq id now s e, s.1 = true → (create rq id now s).1 ≠ Some (true, e)).
Proof.
  intros Hopen Hset get create. split.
  - intros code s. unfold get, GetByShortCode.
    match goal with |- context [with_session ?f ?b s] =>
      destruct (with_session_private config Hopen Hset f b s) as [[e ->]|(w & Hl & ->)] end; [done|].
    rewrite ST_bind_eq. cbn [sess_SelectByShortCode Sqlite.SqliteSession SelectByShortCodeSql Sqlite.SqliteSqlDialect].
    pose proof (select_private w code) as Hs.
    destruct (Sqlite.SelectByShortCode _ code w) as [[o e] w']. cbn in Hs |- *. rewrite Hs; [done|]. destruct s.1; auto.
  - intros rq id now s e Hb. unfold create, CreateLink. destruct (negb (isValid rq)); [done|].
    match goal with |- context [with_session ?f ?b s] =>
      destruct (with_session_private config Hopen Hset f b s) as [[e' ->]|(w & Hl & ->)] end; [done|].
    rewrite Hb in Hl. destruct (ToCreateRow rq id now) as [row|]; [|done]. rewrite ST_bind_eq.
    cbn [sess_InsertLink Sqlite.SqliteSession InsertSql Sqlite.SqliteSqlDialect].
    unfold Sqlite.InsertLink. rewrite SqliteSpec.succeeded_eq.
    pose proof (SqliteSpec.guarded_execute (Sqlite.Insert (insert_params row)) w) as He. rewrite Hl in He. cbn in He.
    destruct (Sqlite.guarded _ w) as [[o e'] w']. by destruct He as [_ [(-> & _)|(-> & _)]].
Qed.

(** ** Instances of the theorems *)
Lemma demo_storable fits :
  (∀ v, (0 ≤ v < 2 ^ 31)%Z → fits v) → ∀ code id, plain_text id = true → storable fits (new_record (Reference.request code) id Reference.now).
Proof.
  intros Hf code id Hid. split_and!; [split; [done|]| | |].
  - cbn. intros k v Hkv. apply lookup_singleton_Some in Hkv as [<- <-]. done.
  - apply Hf. vm_compute. by split.
  - apply Hf. vm_compute. by split.
  - intros v [= <-]. apply Hf. vm_compute. by split.
Qed.

Lemma demo_ops_fit fits : (∀ v, (0 ≤ v < 2 ^ 31)%Z → fits v) → Forall (op_fits fits) Reference.demo_ops.
Proof.
  intros Hf. do 2 (apply Forall_cons; split; [by apply (demo_storable fits Hf)|]).
  do 2 (apply Forall_cons; split; [done|]). done.
Qed.

Lemma fresh_represents {Flag T} `{PropertyTree T} fits (flag : bool → Flag) :
  represents_table (T := T) fits flag (Reference.fresh Reference.no_faults) ∅.
Proof. split; [done|]. by right. Qed.

Lemma sqlite_repository_refines_witness :
  (sqlite_ops (T := Reference.tree) Reference.sqlite_config Reference.demo_ops (Reference.fresh Reference.no_faults)).1
  = [ans_done true RepoError.none; ans_done false RepoError.already_exists;
     ans_record (Some (stored (new_record (Reference.request "promo") "id1" Reference.now))) RepoError.none;
     ans_done false RepoError.none] ∧
  ∃ t', table_run (quiet (Reference.fresh (Flag := Z) Reference.no_faults).2) True ∅ Reference.demo_ops
    (sqlite_ops (T := Reference.tree) Reference.sqlite_config Reference.demo_ops (Reference.fresh Reference.no_faults)).1 t'.
Proof.
  split; [vm_compute; reflexivity|].
  destruct (sqlite_repository_refines (T := Reference.tree) Reference.sqlite_config Reference.demo_ops
    (Reference.fresh Reference.no_faults) ∅ eq_refl ltac:(discriminate) Reference.sqlite_laws
    (fresh_represents _ _) (demo_ops_fit int32 ltac:(intros v Hv; unfold int32; lia))) as (t' & Hrun & _).
  by exists t'.
Defined.

Lemma postgres_repository_refines_witness :
  (postgres_ops (T := Reference.tree) Reference.postgres_config Reference.demo_ops (Reference.fresh Reference.no_faults)).1
  = [ans_done true RepoError.none; ans_done false RepoError.already_exists;
     ans_record (Some (stored (new_record (Reference.request "promo") "id1" Reference.now))) RepoError.none;
     ans_done false RepoError.none] ∧
  ∃ t', table_run (quiet (Reference.fresh (Flag := bool) Reference.no_faults).2) (scc_max_retries Reference.postgres_config = 0) ∅ Reference.demo_ops
    (postgres_ops (T := Reference.tree) Reference.postgres_config Reference.demo_ops (Reference.fresh Reference.no_faults)).1 t'.
Proof.
  split; [vm_compute; reflexivity|].
  destruct (postgres_repository_refines (T := Reference.tree) Reference.postgres_config Reference.demo_ops
    (Reference.fresh Reference.no_faults) ∅ eq_refl ltac:(discriminate) Reference.postgres_laws
    (fresh_represents _ _) (demo_ops_fit pg_fits ltac:(intros v Hv; unfold pg_fits; lia))) as (t' & Hrun & _).
  by exists t'.
Defined.

Lemma memory_database_forgets_witness :
  (sqlite_ops (T := Reference.tree) Reference.memory_config
     [op_create (Reference.request "promo") "id1" Reference.now; op_get "promo"] (Reference.fresh Reference.no_faults)).1
  = [ans_done true RepoError.none; ans_record None RepoError.permanent_failure] ∧
  (∀ code s, (@GetByShortCode Z Reference.tree (Sqlite.SqliteSession Reference.memory_config) Sqlite.SqliteSqlDialect _ code s).1.1 = None).
Proof.
  split; [vm_compute; reflexivity|].
  exact (proj1 (memory_database_forgets (T := Reference.tree) Reference.memory_config
    (fun db => eq_refl) (fun text db => eq_refl))).
Defined.

(** The list keeps the rows of a failed attempt: with one retry, a connection lost
    after the first row makes that row appear twice. *)
Lemma retried_list_repeats_rows :
  let lost (n : nat) := if n =? 10 then Some (("connection lost" : str), false) else None in
  ∃ r1 r2,
    (postgres_ops (T := Reference.tree) Reference.postgres_config
       [op_create (Reference.request "one") "id1" Reference.now; op_create (Reference.request "two") "id2" Reference.now;
        op_list (mkListLinksQuery None true false 0 100)] (Reference.fresh lost)).1
    = [ans_done true RepoError.none; ans_done true RepoError.none; ans_list [r1; r1; r2] RepoError.none].
Proof. eexists _, _. vm_compute. reflexivity. Qed.

(** An insertion that PostgreSQL commits but whose acknowledgement is lost: the
    creation is reported as failed and the link is there. *)
Lemma lost_acknowledgement_has_created :
  let lost (n : nat) := if n =? 3 then Some (("connection lost" : str), true) else None in
  (postgres_ops (T := Reference.tree) Reference.postgres_config
     [op_create (Reference.request "one") "id1" Reference.now; op_get "one"] (Reference.fresh lost)).1
  = [ans_done false RepoError.transient_failure;
     ans_record (Some (stored (new_record (Reference.request "one") "id1" Reference.now))) RepoError.none].
Proof. vm_compute. reflexivity. Qed.
