(* ===== verification/StorageFactory.v ===== *)
(** * StorageFactory: the storage configuration and the adapters it selects

    src/config/storage_config.cpp and src/composition/storage_factory.cpp. The
    YAML library is a class of the three operations the parser uses; building
    adapters is total only on configurations the parser accepts. *)
From S2P Require Import Prelude Text Numbers SqlSessions.

(** ** [StorageConfig] (config/storage_config.hpp) *)
Record MetadataBackendConfig := mkMetadataBackendConfig {
  md_backend : str;
  md_sqlite_path : option str;
  md_postgres_dsn : option str;
}.

Record CacheBackendConfig := mkCacheBackendConfig {
  cb_backend : str;
  cb_redis_address : option str;
  cb_default_ttl_seconds : option Z;
}.

Record RateLimitBackendConfig := mkRateLimitBackendConfig {
  rl_enabled : bool;
  rl_backend : str;
  rl_redis_address : option str;
}.

Record StorageConfig := mkStorageConfig {
  sc_metadata : MetadataBackendConfig;
  sc_cache : CacheBackendConfig;
  sc_analytics_backend : str;
  sc_rate_limit : RateLimitBackendConfig;
}.

(** The member initialisers. *)
Definition default_metadata : MetadataBackendConfig := mkMetadataBackendConfig "inmemory" None None.
Definition default_cache : CacheBackendConfig := mkCacheBackendConfig "none" None None.
Definition default_rate_limit : RateLimitBackendConfig := mkRateLimitBackendConfig false "inmemory" None.

(** ** YAML nodes

    [node[key]], absent or defined, and [as<T>]; each may throw, with a message. *)
Class YamlNode (N : Type) := {
  yaml_get : N → string → str + option N;
  yaml_string : N → str + str;
  yaml_int : N → str + Z;
  yaml_bool : N → str + bool;
}.

Notation "x <~~ m ; k" := (sum_bind m (fun x => k)) (at level 20, m at level 100, k at level 200, right associativity).

Section parse.
Context {N : Type} `{YamlNode N}.

Definition Require (ok : bool) (msg : str) : str + unit := if ok then inr tt else inl msg.

Definition read_optional {A} (read : N → str + A) (node : N) (key : string) : str + option A :=
  child <~~ yaml_get node key;
  match child with
  | None => inr None
  | Some n => v <~~ read n; inr (Some v)
  end.

Definition ReadOptionalString : N → string → str + option str := read_optional yaml_string.
Definition ReadOptionalInt : N → string → str + option Z := read_optional yaml_int.

Definition read_metadata (root : N) : str + MetadataBackendConfig :=
  child <~~ yaml_get root "metadata";
  match child with
  | None => inr default_metadata
  | Some metadata =>
      backend <~~ ReadOptionalString metadata "backend";
      sqlite_path <~~ ReadOptionalString metadata "sqlite_path";
      postgres_dsn <~~ ReadOptionalString metadata "postgres_dsn";
      inr (mkMetadataBackendConfig (default (md_backend default_metadata) backend) sqlite_path postgres_dsn)
  end.

Definition read_cache (root : N) : str + CacheBackendConfig :=
  child <~~ yaml_get root "cache";
  match child with
  | None => inr default_cache
  | Some cache =>
      backend <~~ ReadOptionalString cache "backend";
      redis_address <~~ ReadOptionalString cache "redis_address";
      default_ttl_seconds <~~ ReadOptionalInt cache "default_ttl_seconds";
      inr (mkCacheBackendConfig (default (cb_backend default_cache) backend) redis_address default_ttl_seconds)
  end.

Definition read_analytics (root : N) : str + str :=
  child <~~ yaml_get root "analytics";
  match child with
  | None => inr ("noop" : str)
  | Some analytics => backend <~~ ReadOptionalString analytics "backend"; inr (default ("noop" : str) backend)
  end.

Definition read_rate_limit (root : N) : str + RateLimitBackendConfig :=
  child <~~ yaml_get root "rate_limit";
  match child with
  | None => inr default_rate_limit
  | Some rate_limit =>
      enabled <~~ read_optional yaml_bool rate_limit "enabled";
      backend <~~ ReadOptionalString rate_limit "backend";
      redis_address <~~ ReadOptionalString rate_limit "redis_address";
      inr (mkRateLimitBackendConfig (default (rl_enabled default_rate_limit) enabled)
             (default (rl_backend default_rate_limit) backend) redis_address)
  end.

Definition one_of_names (names : list string) (s : str) : bool :=
  existsb (fun n : string => bool_decide (s = String.list_ascii_of_string n)) names.

Definition is_name (s : str) (n : string) : bool := bool_decide (s = String.list_ascii_of_string n).

(** [field && !field->empty()]. *)
Definition given (o : option str) : bool := match o with Some s => bool_decide (s ≠ []) | None => false end.

Definition check_metadata (m : MetadataBackendConfig) : str + unit :=
  _ <~~ Require (one_of_names ["inmemory"; "sqlite"; "postgres"] (md_backend m)) (("invalid metadata.backend: " : str) ++ md_backend m);
  _ <~~ (if is_name (md_backend m) "sqlite"
         then Require (given (md_sqlite_path m)) "metadata.sqlite_path is required for sqlite backend" else inr tt);
  (if is_name (md_backend m) "postgres"
   then Require (given (md_postgres_dsn m)) "metadata.postgres_dsn is required for postgres backend" else inr tt).

Definition check_cache (c : CacheBackendConfig) : str + unit :=
  _ <~~ Require (one_of_names ["none"; "inmemory"; "redis"] (cb_backend c)) (("invalid cache.backend: " : str) ++ cb_backend c);
  _ <~~ (if is_name (cb_backend c) "redis"
         then Require (given (cb_redis_address c)) "cache.redis_address is required for redis backend" else inr tt);
  match cb_default_ttl_seconds c with
  | Some s => Require (0 <=? s)%Z "cache.default_ttl_seconds must be >= 0"
  | None => inr tt
  end.

Definition check_rate_limit (r : RateLimitBackendConfig) : str + unit :=
  if rl_enabled r then
    _ <~~ Require (one_of_names ["inmemory"; "redis"] (rl_backend r)) (("invalid rate_limit.backend: " : str) ++ rl_backend r);
    (if is_name (rl_backend r) "redis"
     then Require (given (rl_redis_address r)) "rate_limit.redis_address is required for redis backend" else inr tt)
  else inr tt.

Definition ParseStorageConfigNode (root : N) : str + StorageConfig :=
  metadata <~~ read_metadata root;
  cache <~~ read_cache root;
  analytics <~~ read_analytics root;
  rate_limit <~~ read_rate_limit root;
  _ <~~ check_metadata metadata;
  _ <~~ check_cache cache;
  _ <~~ Require (one_of_names ["noop"; "inmemory"] analytics) (("invalid analytics.backend: " : str) ++ analytics);
  _ <~~ check_rate_limit rate_limit;
  inr (mkStorageConfig metadata cache analytics rate_limit).
End parse.

(** ** [BuildStorageAdapters] *)

(** [RedisCacheConfig] and [RedisRateLimiterConfig]. *)
Record RedisCacheConfig := mkRedisCacheConfig {
  rc_host : str;
  rc_port : Z;
  rc_key_prefix : str;
  rc_default_ttl : option Z;
}.

Record RedisRateLimiterConfig := mkRedisRateLimiterConfig {
  rr_host : str;
  rr_port : Z;
  rr_scope : str;
  rr_key_prefix : str;
}.

Inductive MetadataAdapter := metadata_in_memory | metadata_sql (config : SqlConnectionConfig).
Inductive CacheAdapter := cache_none | cache_in_memory | cache_redis (config : RedisCacheConfig).
Inductive AnalyticsAdapter := analytics_noop | analytics_in_memory.
Inductive RateLimitAdapter := limiter_none | limiter_in_memory | limiter_redis (config : RedisRateLimiterConfig).

Record StorageAdapters := mkStorageAdapters {
  sa_metadata : MetadataAdapter;
  sa_cache : CacheAdapter;
  sa_analytics : AnalyticsAdapter;
  sa_rate_limiter : RateLimitAdapter;
}.

(** How building can end without adapters: an empty optional dereferenced (which
    C++ leaves undefined) or an exception of [std::stoi]. *)
Inductive BuildFault := undefined_behaviour | stoi_threw.

Definition build_bind {A B} (m : BuildFault + A) (k : A → BuildFault + B) : BuildFault + B :=
  match m with inl f => inl f | inr a => k a end.
Notation "x <=~ m ; k" := (build_bind m (fun x => k)) (at level 20, m at level 100, k at level 200, right associativity).

Definition deref {A} (o : option A) : BuildFault + A := match o with Some a => inr a | None => inl undefined_behaviour end.

(** [std::stoi]: the value of the leading integer, trailing text ignored. *)
Definition stoi (s : str) : BuildFault + Z :=
  match stoll s with
  | Some (v, _) => if ((- 2 ^ 31 <=? v) && (v <? 2 ^ 31))%Z then inr v else inl stoi_threw
  | None => inl stoi_threw
  end.

(** [substr(0, separator)] and [substr(separator + 1)]; without a colon the
    separator is [npos], and [npos + 1] is 0. *)
Definition split_address (address : str) : str * str :=
  match find_char ":" address with
  | Some separator => (take separator address, drop (S separator) address)
  | None => (address, address)
  end.

Definition sql_defaults (backend : SqlBackendKind) (dsn : str) : SqlConnectionConfig :=
  mkSqlConnectionConfig backend dsn 2500 3000 5000 None 0.

Definition build_metadata (m : MetadataBackendConfig) : BuildFault + MetadataAdapter :=
  if is_name (md_backend m) "inmemory" then inr metadata_in_memory
  else if is_name (md_backend m) "sqlite"
  then path <=~ deref (md_sqlite_path m); inr (metadata_sql (sql_defaults backend_sqlite path))
  else dsn <=~ deref (md_postgres_dsn m); inr (metadata_sql (sql_defaults backend_postgres dsn)).

Definition build_cache (c : CacheBackendConfig) : BuildFault + CacheAdapter :=
  if is_name (cb_backend c) "none" then inr cache_none
  else if is_name (cb_backend c) "inmemory" then inr cache_in_memory
  else
    address <=~ deref (cb_redis_address c);
    port <=~ stoi (split_address address).2;
    inr (cache_redis (mkRedisCacheConfig (split_address address).1 port "link:" (cb_default_ttl_seconds c))).

Definition build_rate_limiter (r : RateLimitBackendConfig) : BuildFault + RateLimitAdapter :=
  if negb (rl_enabled r) then inr limiter_none
  else if is_name (rl_backend r) "inmemory" then inr limiter_in_memory
  else
    address <=~ deref (rl_redis_address r);
    port <=~ stoi (split_address address).2;
    inr (limiter_redis (mkRedisRateLimiterConfig (split_address address).1 port "global" "ratelimit:")).

Definition BuildStorageAdapters (config : StorageConfig) : BuildFault + StorageAdapters :=
  metadata <=~ build_metadata (sc_metadata config);
  cache <=~ build_cache (sc_cache config);
  let analytics := if is_name (sc_analytics_backend config) "inmemory" then analytics_in_memory else analytics_noop in
  rate_limiter <=~ build_rate_limiter (sc_rate_limit config);
  inr (mkStorageAdapters metadata cache analytics rate_limiter).

(** ** What the parser guarantees to the builder *)
Lemma one_of_names_elim names s : one_of_names names s = true → ∃ n, n ∈ names ∧ is_name s n = true.
Proof. unfold one_of_names. rewrite existsb_exists. intros (n & Hn & Hs). exists n. by rewrite list_elem_of_In. Qed.

Lemma is_name_eq s n : is_name s n = true ↔ s = String.list_ascii_of_string n.
Proof. apply bool_decide_eq_true. Qed.

Lemma Require_inr ok msg : Require ok msg = inr tt → ok = true.
Proof. by destruct ok. Qed.

Lemma sum_bind_inr {A B} (m : str + A) (k : A → str + B) b : sum_bind m k = inr b → ∃ a, m = inr a ∧ k a = inr b.
Proof. destruct m as [e|a]; [done|]. by exists a. Qed.

Lemma given_elim o : given o = true → ∃ s, o = Some s ∧ s ≠ [].
Proof. destruct o as [s|]; [|done]. cbn. intros Hs%bool_decide_eq_true. by exists s. Qed.

(** A name of the list that differs from all of its members. *)
Ltac no_other_name :=
  match goal with Hn : ?n ∈ _ |- _ => rewrite list_elem_of_In in Hn; cbn in Hn; intuition congruence end.

(** The adapter of an accepted section. *)
Definition metadata_selected (m : MetadataBackendConfig) (a : MetadataAdapter) : Prop :=
  match a with
  | metadata_in_memory => md_backend m = "inmemory"
  | metadata_sql c =>
      scc_dsn c ≠ [] ∧
      ((md_backend m = "sqlite" ∧ scc_backend c = backend_sqlite ∧ md_sqlite_path m = Some (scc_dsn c)) ∨
       (md_backend m = "postgres" ∧ scc_backend c = backend_postgres ∧ md_postgres_dsn m = Some (scc_dsn c)))
  end.

Lemma build_metadata_accepted m :
  check_metadata m = inr tt → ∃ a, build_metadata m = inr a ∧ metadata_selected m a.
Proof.
  unfold check_metadata, build_metadata. intros ([] & Hn%Require_inr & ([] & Hs & Hp)%sum_bind_inr)%sum_bind_inr.
  apply one_of_names_elim in Hn as (n & Hn & Hname).
  destruct (is_name (md_backend m) "inmemory") eqn:Ei.
  { eexists. split; [done|]. exact (proj1 (is_name_eq _ _) Ei). }
  destruct (is_name (md_backend m) "sqlite") eqn:Es.
  { apply Require_inr, given_elim in Hs as (path & Hpath & Hne). rewrite Hpath. eexists. split; [done|]. split; [done|].
    apply is_name_eq in Es. by left. }
  destruct (is_name (md_backend m) "postgres") eqn:Ep.
  { apply Require_inr, given_elim in Hp as (dsn & Hdsn & Hne). rewrite Hdsn. eexists. split; [done|]. split; [done|].
    apply is_name_eq in Ep. by right. }
  no_other_name.
Qed.

(** A Redis address whose port [std::stoi] reads. *)
Definition port_readable (address : str) : bool := match stoi (split_address address).2 with inr _ => true | inl _ => false end.

Lemma stoi_fault s f : stoi s = inl f → f = stoi_threw.
Proof. unfold stoi. destruct (stoll s) as [[v ?]|]; [destruct (_ && _)%Z|]; congruence. Qed.

Definition cache_selected (c : CacheBackendConfig) (r : BuildFault + CacheAdapter) : Prop :=
  match r with
  | inl f => f = stoi_threw ∧ cb_backend c = "redis" ∧ ∃ address, cb_redis_address c = Some address ∧ port_readable address = false
  | inr cache_none => cb_backend c = "none"
  | inr cache_in_memory => cb_backend c = "inmemory"
  | inr (cache_redis rc) =>
      cb_backend c = "redis" ∧ rc_default_ttl rc = cb_default_ttl_seconds c ∧ (∀ ttl, rc_default_ttl rc = Some ttl → (0 ≤ ttl)%Z)
  end.

Lemma build_cache_accepted c : check_cache c = inr tt → cache_selected c (build_cache c).
Proof.
  unfold check_cache, build_cache. intros ([] & Hn%Require_inr & ([] & Hr & Ht)%sum_bind_inr)%sum_bind_inr.
  apply one_of_names_elim in Hn as (n & Hn & Hname).
  destruct (is_name (cb_backend c) "none") eqn:E1; [exact (proj1 (is_name_eq _ _) E1)|].
  destruct (is_name (cb_backend c) "inmemory") eqn:E2; [exact (proj1 (is_name_eq _ _) E2)|].
  destruct (is_name (cb_backend c) "redis") eqn:E3; [|no_other_name].
  apply is_name_eq in E3. apply Require_inr, given_elim in Hr as (address & Ha & Hne). rewrite Ha. cbn.
  destruct (stoi (split_address address).2) as [f|port] eqn:Ep; cbn.
  - split_and!; [by eapply stoi_fault|done|]. exists address. split; [done|]. unfold port_readable. by rewrite Ep.
  - split_and!; [done..|]. intros ttl Httl. rewrite Httl in Ht. apply Require_inr in Ht. bool_simpl. lia.
Qed.

Definition limiter_selected (r : RateLimitBackendConfig) (res : BuildFault + RateLimitAdapter) : Prop :=
  match res with
  | inl f => f = stoi_threw ∧ rl_enabled r = true ∧ rl_backend r = "redis" ∧
             ∃ address, rl_redis_address r = Some address ∧ port_readable address = false
  | inr limiter_none => rl_enabled r = false
  | inr limiter_in_memory => rl_enabled r = true ∧ rl_backend r = "inmemory"
  | inr (limiter_redis _) => rl_enabled r = true ∧ rl_backend r = "redis"
  end.

Lemma build_rate_limiter_accepted r : check_rate_limit r = inr tt → limiter_selected r (build_rate_limiter r).
Proof.
  unfold check_rate_limit, build_rate_limiter. destruct (rl_enabled r) eqn:Ee; cbn [negb]; [|done].
  intros ([] & Hn%Require_inr & Hr)%sum_bind_inr. apply one_of_names_elim in Hn as (n & Hn & Hname).
  destruct (is_name (rl_backend r) "inmemory") eqn:E2; [split; [done|exact (proj1 (is_name_eq _ _) E2)]|].
  destruct (is_name (rl_backend r) "redis") eqn:E3; [|no_other_name].
  apply is_name_eq in E3. apply Require_inr, given_elim in Hr as (address & Ha & Hne). rewrite Ha. cbn.
  destruct (stoi (split_address address).2) as [f|port] eqn:Ep; cbn; [|done].
  split_and!; [by eapply stoi_fault|done|done|]. exists address. split; [done|]. unfold port_readable. by rewrite Ep.
Qed.

(** C28: whatever the YAML document, building the adapters of an accepted
    configuration never dereferences an empty optional. It ends either with the
    adapters the back-end names select, the SQL ones with a non-empty DSN of the
    right kind and the Redis cache with a non-negative default lifetime, or with an
    exception of [std::stoi], and then a selected Redis address has no readable
    port. *)
Theorem accepted_config_builds {N} `{YamlNode N} (root : N) config :
  ParseStorageConfigNode root = inr config →
  match BuildStorageAdapters config with
  | inr a =>
      metadata_selected (sc_metadata config) (sa_metadata a) ∧ cache_selected (sc_cache config) (inr (sa_cache a)) ∧
      limiter_selected (sc_rate_limit config) (inr (sa_rate_limiter a)) ∧
      (sc_analytics_backend config = if sa_analytics a then ("noop" : str) else "inmemory")
  | inl f =>
      f = stoi_threw ∧
      (cache_selected (sc_cache config) (inl f) ∨ limiter_selected (sc_rate_limit config) (inl f))
  end.
Proof.
  unfold ParseStorageConfigNode.
  intros (m & _ & (c & _ & (a & _ & (r & _ & ([] & Hm & ([] & Hc & ([] & Ha & ([] & Hr & Heq)%sum_bind_inr)%sum_bind_inr)%sum_bind_inr)%sum_bind_inr)%sum_bind_inr)%sum_bind_inr)%sum_bind_inr)%sum_bind_inr.
  injection Heq as <-. unfold BuildStorageAdapters. cbn.
  destruct (build_metadata_accepted m Hm) as (am & -> & Hsel). cbn.
  pose proof (build_cache_accepted c Hc) as Hcs. destruct (build_cache c) as [f|ac]; cbn; [split; [apply Hcs|by left]|].
  pose proof (build_rate_limiter_accepted r Hr) as Hrs. destruct (build_rate_limiter r) as [f|ar]; cbn; [split; [apply Hrs|by right]|].
  split_and!; [done..|]. apply Require_inr, one_of_names_elim in Ha as (n & Hn & Hname).
  destruct (is_name a "inmemory") eqn:Ei; [by apply is_name_eq in Ei|].
  assert (n = "noop"%string) as -> by no_other_name. by apply is_name_eq in Hname.
Qed.

(** A document type for the examples. *)
Module DemoYaml.
Inductive node := scalar (s : string) | mapping (l : list (string * node)).

#[global] Instance node_yaml : YamlNode node := {
  yaml_get n key :=
    match n with
    | mapping l => inr (snd <$> List.find (fun kv => String.eqb kv.1 key) l)
    | scalar _ => inl ("bad subscript" : str)
    end;
  yaml_string n := match n with scalar s => inr (s : str) | mapping _ => inl ("bad conversion" : str) end;
  yaml_int n := match n with
                | scalar s => match stoll s with Some (v, _) => inr v | None => inl ("bad conversion" : str) end
                | mapping _ => inl ("bad conversion" : str)
                end;
  yaml_bool n := match n with scalar "true" => inr true | scalar "false" => inr false | _ => inl ("bad conversion" : str) end;
}.

Definition document (address : string) : node :=
  mapping [("metadata"%string, mapping [("backend"%string, scalar "sqlite"); ("sqlite_path"%string, scalar "links.db")]);
           ("cache"%string, mapping [("backend"%string, scalar "redis"); ("redis_address"%string, scalar address)])].

Definition config : StorageConfig :=
  mkStorageConfig (mkMetadataBackendConfig "sqlite" (Some ("links.db" : str)) None)
    (mkCacheBackendConfig "redis" (Some ("cache:6379" : str)) None) "noop" default_rate_limit.

Definition adapters : StorageAdapters :=
  mkStorageAdapters (metadata_sql (sql_defaults backend_sqlite "links.db"))
    (cache_redis (mkRedisCacheConfig "cache" 6379 "link:" None)) analytics_noop limiter_none.
End DemoYaml.

Lemma accepted_config_builds_witness :
  ParseStorageConfigNode (DemoYaml.document "cache:6379") = inr DemoYaml.config ∧
  BuildStorageAdapters DemoYaml.config = inr DemoYaml.adapters ∧
  metadata_selected (sc_metadata DemoYaml.config) (sa_metadata DemoYaml.adapters).
Proof.
  assert (Hp : ParseStorageConfigNode (DemoYaml.document "cache:6379") = inr DemoYaml.config) by (vm_compute; reflexivity).
  assert (Hb : BuildStorageAdapters DemoYaml.config = inr DemoYaml.adapters) by (vm_compute; reflexivity).
  pose proof (accepted_config_builds (DemoYaml.document "cache:6379") DemoYaml.config Hp) as H. rewrite Hb in H.
  exact (conj Hp (conj Hb (proj1 H))).
Defined.

(** An address without a port is accepted by the parser and then throws. *)
Lemma portless_address_throws :
  ∃ config, ParseStorageConfigNode (DemoYaml.document "localhost") = inr config ∧
    BuildStorageAdapters config = inl stoi_threw.
Proof. eexists. split; [vm_compute; reflexivity|]. vm_compute. reflexivity. Qed.
