(* ===== verification/StatsHandler.v ===== *)
(** * StatsHandler: [AnalyticsStatsHandler] (src/http/analytics_stats_handler.cpp)

    The handler over any click-event repository, and its agreement with the
    statistics route of the link API, which reads the in-memory repository. *)
From S2P Require Import Prelude Text Clock Numbers Types Json Validation LinkStore LinkCommands ClickEvents LinkJson.

(** The query method of [IClickEventRepository]; [None] is the answer [false]. *)
Class StatsSource (R : Type) := { source_GetAggregateStats : AggregateQuery → R → option AggregateStats }.

Section handler.
Context {R : Type} `{StatsSource R}.

Definition parse_epoch (s : str) : option Z :=
  match stoll s with
  | Some (v, pos) => if negb (pos =? length s) then None else Some (from_time_t v)
  | None => None
  end.

Definition error_body (error : string) (request_id : str) : str :=
  json_text "{'error':'" ++ (error : str) ++ json_text "','request_id':" ++ jsonString request_id ++ json_text "}".

(** The ranges of the three loops, with a comma before all elements but the first. *)
Fixpoint separated (first : bool) (items : list str) : str :=
  match items with
  | [] => []
  | item :: rest => (if first then [] else [","%char]) ++ item ++ separated false rest
  end.

Definition stats_body (slug from to bucket : str) (stats : AggregateStats) : str :=
  json_text "{'slug':" ++ jsonString slug
  ++ json_text ",'total_attempts':" ++ json_count (total_attempts stats)
  ++ json_text ",'successful_redirects':" ++ json_count (successful_redirects stats)
  ++ json_text ",'attempts_by_status_code':{"
  ++ separated true (map (fun '(c, n) => dquote :: dec c ++ dquote :: ":"%char :: json_count n) (status_code_counts stats))
  ++ json_text "},'attempts_by_domain':{"
  ++ separated true (map (fun '(d, n) => jsonString d ++ ":"%char :: json_count n) (domain_counts stats))
  ++ json_text "},'time_buckets':["
  ++ separated true (map (fun '(start, n) =>
       json_text "{'bucket_start':" ++ dec (Z.quot start ticks_per_second) ++ json_text ",'count':" ++ json_count n
       ++ json_text "}") (time_buckets stats))
  ++ json_text "],'from':" ++ from ++ json_text ",'to':" ++ to ++ json_text ",'bucket':" ++ jsonString bucket ++ json_text "}".

(** The status code and the body. *)
Definition Handle (slug from to bucket request_id : str) (repo : R) : Z * str :=
  if bool_decide (slug = []) then (404%Z, error_body "not_found" request_id)
  else match parse_epoch from, parse_epoch to with
  | Some f, Some t =>
      if (t <=? f)%Z then (400%Z, error_body "invalid_timestamp" request_id)
      else match
        (if bool_decide (bucket = ("hour" : str)) then Some hour
         else if bool_decide (bucket = ("day" : str)) then Some day
         else if bool_decide (bucket = ("week" : str)) then Some week else None)
      with
      | None => (400%Z, error_body "invalid_bucket" request_id)
      | Some b =>
          match source_GetAggregateStats (mkAggregateQuery (Some slug) None f t (Some b)) repo with
          | None => (500%Z, error_body "repository" request_id)
          | Some stats => (200%Z, stats_body slug from to bucket stats)
          end
      end
  | _, _ => (400%Z, error_body "invalid_timestamp" request_id)
  end.
End handler.

(** The in-memory repository as a source. *)
Definition memory_source (iterate_codes : gmap Z N → list (Z * N)) (iterate_domains : gmap str N → list (str * N)) :
  StatsSource (list ClickEvent) :=
  {| source_GetAggregateStats query repo := Some (GetAggregateStats iterate_codes iterate_domains query repo) |}.

(** ** Agreement *)
Lemma separated_commas items : separated true items = comma_separated items.
Proof.
  assert (Hrest : ∀ item items, item ++ separated false items = comma_separated (item :: items)).
  { intros item its. revert item. induction its as [|x its IH]; intros item; cbn [separated]; [by rewrite app_nil_r|].
    rewrite (IH x). done. }
  destruct items as [|x its]; [done|]. apply Hrest.
Qed.

Lemma stats_body_serialized slug from to bucket stats :
  stats_body slug from to bucket stats
  = serializeLinkStatsJson (mkLinkStatsView slug (total_attempts stats) (successful_redirects stats)
      (status_code_counts stats) (domain_counts stats)
      ((fun '(start, n) => (Z.quot start ticks_per_second, n)) <$> time_buckets stats) from to bucket).
Proof.
  unfold stats_body, serializeLinkStatsJson. rewrite !separated_commas. cbn [sv_slug sv_total_attempts sv_successful_redirects
    sv_status_code_counts sv_domain_counts sv_time_buckets sv_from sv_to sv_bucket].
  change (map ?f (?g <$> ?l)) with (map f (map g l)). rewrite map_map.
  assert (H1 : map (fun '(c, n) => dquote :: dec c ++ dquote :: ":"%char :: json_count n) (status_code_counts stats)
    = map (fun '(c, n) => (dquote :: dec c ++ [dquote]) ++ ":"%char :: json_count n) (status_code_counts stats)).
  { apply map_ext. intros [c n]. cbn. by rewrite <- app_assoc. }
  assert (H2 : map (fun '(start, n) => json_text "{'bucket_start':" ++ dec (Z.quot start ticks_per_second)
      ++ json_text ",'count':" ++ json_count n ++ json_text "}") (time_buckets stats)
    = map (fun x => (fun '(t, n) => json_object (json_text "'bucket_start':" ++ dec t ++ json_text ",'count':" ++ json_count n))
        ((fun '(start, n) => (Z.quot start ticks_per_second, n)) x)) (time_buckets stats)).
  { apply map_ext. intros [t n]. unfold json_object. rewrite <- !app_assoc. reflexivity. }
  rewrite H1, H2. unfold json_object. repeat first [rewrite <- app_assoc|rewrite <- app_comm_cons]. reflexivity.
Qed.

(** C27: the statistics handler and the statistics query of the link API agree. On
    the in-memory repository, for every slug, range and bucket, the handler
    answers 200 with exactly the body the link API serialises when its reader
    succeeds, 404 when the slug is empty and 400 when a time or the bucket is
    refused, and it never answers 500. *)
Theorem Handle_agrees_with_reader iterate_codes iterate_domains slug from to bucket request_id repo :
  let result := read_stats iterate_codes iterate_domains (mkGetLinkStatsQuery slug from to bucket) repo in
  @Handle _ (memory_source iterate_codes iterate_domains) slug from to bucket request_id repo
  = match res_value result with
    | Some view => (200%Z, serializeLinkStatsJson view)
    | None =>
        if bool_decide (slug = []) then (404%Z, error_body "not_found" request_id)
        else if bool_decide (err_detail (res_error result) = ("invalid_bucket" : str))
        then (400%Z, error_body "invalid_bucket" request_id)
        else (400%Z, error_body "invalid_timestamp" request_id)
    end.
Proof.
  cbv zeta. unfold Handle, read_stats. cbn [gs_slug gs_from gs_to gs_bucket].
  destruct (bool_decide (slug = [])) eqn:Es; [done|].
  change (parseEpoch ?x) with (parse_epoch x).
  destruct (parse_epoch from) as [f|], (parse_epoch to) as [t|]; cbn [res_value failure res_error err_detail]; try done.
  destruct (t <=? f)%Z; [done|]. unfold parse_bucket.
  destruct (bool_decide (bucket = _)); [by cbn [source_GetAggregateStats memory_source res_value success]; rewrite stats_body_serialized|].
  destruct (bool_decide (bucket = _)); [by cbn [source_GetAggregateStats memory_source res_value success]; rewrite stats_body_serialized|].
  destruct (bool_decide (bucket = _)); [by cbn [source_GetAggregateStats memory_source res_value success]; rewrite stats_body_serialized|].
  done.
Qed.
