(* ===== verification/SqlClickEvents.v ===== *)
(** * SqlClickEvents: [SqlClickEventRepository] (src/storage/sql/sql_click_event_repository.cpp)

    Click events in the table [click_events], whose key is the event id. Every
    statement commits on its own and may throw, with or without effect. A batch that failed may be sent
    again, and the aggregate is the one of the in-memory repository. *)
From stdpp Require Import sorting relations.
From S2P Require Import Prelude Text Clock Numbers ClickEvents LinkJson.

(** ** The table *)
Record ClickRow := mkClickRow {
  cr_event_id : str;
  cr_occurred_at : Z;
  cr_slug : str;
  cr_link_id : str;
  cr_domain : str;
  cr_status_code : Z;
  cr_referrer : str;
  cr_user_agent : str;
  cr_client_id_hash : str;
}.

Record ClickDb := mkClickDb {
  cd_rows : list ClickRow;
  (** The exception a statement throws, and whether it took effect all the same. *)
  cd_faults : nat → option (str * bool);
  cd_tick : nat;
}.

(** One statement: it throws, or it gives its result and the rows after it. *)
Definition statement {A} (f : list ClickRow → A * list ClickRow) : ST ClickDb (str + A) := fun db =>
  let '(a, rows) := f (cd_rows db) in
  let next rows := mkClickDb rows (cd_faults db) (S (cd_tick db)) in
  match cd_faults db (cd_tick db) with
  | None => (inr a, next rows)
  | Some (what, took_effect) => (inl what, next (if took_effect : bool then rows else cd_rows db))
  end.

Definition to_epoch (tp : Z) : Z := Z.quot tp ticks_per_second.
Definition from_epoch_ll (s : Z) : Z := from_time_t s.

Definition is_postgres_dsn (dsn : str) : bool :=
  starts_with "postgresql://" dsn || starts_with "postgres://" dsn
  || bool_decide (is_Some (find_str "host=" dsn)) || bool_decide (is_Some (find_str "dbname=" dsn)).

(** The [CREATE TABLE IF NOT EXISTS] and the three [CREATE INDEX IF NOT EXISTS] keep
    the rows of an existing table; the first exception leaves the constructor. *)
Fixpoint run_ddl (statements : nat) : ST ClickDb (option str) := fun db =>
  match statements with
  | 0 => (None, db)
  | S n =>
      match statement (fun rows => (tt, rows)) db with
      | (inl what, db') => (Some what, db')
      | (inr _, db') => run_ddl n db'
      end
  end.

Definition Bootstrap : ST ClickDb (option str) := run_ddl 4.

(** The constructor: the kind of database, or the exception. *)
Definition SqlClickEventRepository (dsn : str) : ST ClickDb (str + bool) := fun db =>
  match Bootstrap db with
  | (Some what, db') => (inl what, db')
  | (None, db') => (inr (is_postgres_dsn dsn), db')
  end.

(** ** [InsertBatch] *)
Definition click_row (e : ClickEvent) : ClickRow :=
  mkClickRow (ce_event_id e) (to_epoch (ce_occurred_at e)) (ce_slug e) (ce_link_id e) (ce_domain e) (ce_status_code e)
    (ce_referrer e) (ce_user_agent e) (ce_client_id_hash e).

(** [INSERT OR IGNORE], [INSERT ... ON CONFLICT (event_id) DO NOTHING]. *)
Definition insert_or_ignore (row : ClickRow) (rows : list ClickRow) : list ClickRow :=
  if existsb (fun r => bool_decide (cr_event_id r = cr_event_id row)) rows then rows else rows ++ [row].

(** [None] is success; a thrown exception ends the loop with its message. *)
Fixpoint InsertBatch (events : list ClickEvent) : ST ClickDb (option str) := fun db =>
  match events with
  | [] => (None, db)
  | e :: rest =>
      match statement (fun rows => (tt, insert_or_ignore (click_row e) rows)) db with
      | (inl what, db') => (Some what, db')
      | (inr _, db') => InsertBatch rest db'
      end
  end.

(** ** [GetAggregateStats] *)

(** [GROUP BY]: every key with its number of rows. *)
Definition group_counts {A K} `{Countable K} (key : A → K) (l : list A) : gmap K N :=
  foldl (fun m x => bump (key x) m) ∅ l.

Definition text_le (a b : str * str) : Prop := str_leb a.1 b.1 = true.
#[export] Instance text_le_dec : RelDecision text_le.
Proof. intros a b. unfold Decision, text_le. apply bool_eq_dec. Defined.

Section aggregate.
(** The order in which the engine gives the groups. *)
Context (groups_Z : gmap Z N → list (Z * N)) (groups_str : gmap str N → list (str * N)).

(** [base_where]: the link id of the query is not looked at. *)
Definition base_where (query : AggregateQuery) (r : ClickRow) : bool :=
  ((to_epoch (aq_from query) <=? cr_occurred_at r) && (cr_occurred_at r <? to_epoch (aq_to query)))%Z
  && match aq_slug query with Some s => bool_decide (cr_slug r = s) | None => true end.

(** [SELECT CAST(COUNT( * ) AS TEXT)] read with [std::stoll]; [None] is its exception. *)
Definition count_query (where_ : ClickRow → bool) : ST ClickDb (str + Z) := fun db =>
  match statement (fun rows => (dec (Z.of_nat (length (List.filter where_ rows))), rows)) db with
  | (inl what, db') => (inl what, db')
  | (inr cnt_text, db') => (match stoll cnt_text with Some (n, _) => inr n | None => inl ("stoll" : str) end, db')
  end.

Fixpoint read_all {A B} (read : A → option B) (l : list A) : str + list B :=
  match l with
  | [] => inr []
  | x :: l' =>
      match read x with
      | None => inl ("stoll" : str)
      | Some b => match read_all read l' with inl what => inl what | inr bs => inr (b :: bs) end
      end
  end.

Definition read_status (r : str * str) : option (Z * N) :=
  match stoll r.1, stoll r.2 with
  | Some (code, _), Some (n, _) => Some ((code mod 2 ^ 16)%Z, Z.to_N (u64 n))
  | _, _ => None
  end.

Definition read_domain (r : str * str) : option (str * N) :=
  match stoll r.2 with Some (n, _) => Some (r.1, Z.to_N (u64 n)) | None => None end.

Definition read_bucket (r : str * str) : option (Z * N) :=
  match stoll r.1, stoll r.2 with
  | Some (start, _), Some (n, _) => Some (from_epoch_ll start, Z.to_N (u64 n))
  | _, _ => None
  end.

Definition print_count (n : N) : str := dec (Z.of_N n).

Definition status_query (where_ : ClickRow → bool) (rows : list ClickRow) : list (str * str) :=
  map (fun '(k, n) => (dec k, print_count n)) (groups_Z (group_counts cr_status_code (List.filter where_ rows))).

Definition domain_query (where_ : ClickRow → bool) (rows : list ClickRow) : list (str * str) :=
  map (fun '(k, n) => (k, print_count n)) (groups_str (group_counts cr_domain (List.filter where_ rows))).

(** [ORDER BY bucket_start] sorts the text the column was cast to. *)
Definition bucket_query (w : Z) (where_ : ClickRow → bool) (rows : list ClickRow) : list (str * str) :=
  merge_sort text_le
    (map (fun '(k, n) => (dec k, print_count n))
       (groups_Z (group_counts (fun r => Z.quot (cr_occurred_at r) w * w)%Z (List.filter where_ rows)))).

(** One result set, read row by row. *)
Definition rows_query {B} (sql : list ClickRow → list (str * str)) (read : str * str → option B) : ST ClickDb (str + list B) :=
  fun db =>
  match statement (fun rows => (sql rows, rows)) db with
  | (inl what, db') => (inl what, db')
  | (inr rs, db') => (read_all read rs, db')
  end.

Definition empty_stats : AggregateStats := mkAggregateStats 0 0 [] [] [].

(** The answer, [*stats] and the database; the statistics read before an exception
    stay in [*stats]. *)
Definition GetAggregateStats (is_postgres : bool) (query : AggregateQuery) : ST ClickDb (bool * AggregateStats) := fun db =>
  let where_ := base_where query in
  match count_query where_ db with
  | (inl _, db) => ((false, empty_stats), db)
  | (inr total, db) =>
  let total := Z.to_N (u64 total) in
  match count_query (fun r => where_ r && is_redirect_code (cr_status_code r)) db with
  | (inl _, db) => ((false, mkAggregateStats total 0 [] [] []), db)
  | (inr ok, db) =>
  let ok := Z.to_N (u64 ok) in
  match rows_query (status_query where_) read_status db with
  | (inl _, db) => ((false, mkAggregateStats total ok [] [] []), db)
  | (inr statuses, db) =>
  match rows_query (domain_query where_) read_domain db with
  | (inl _, db) => ((false, mkAggregateStats total ok statuses [] []), db)
  | (inr domains, db) =>
  match aq_bucket query with
  | Some b =>
      if is_postgres then ((true, mkAggregateStats total ok statuses domains []), db)
      else match rows_query (bucket_query (bucket_width b) where_) read_bucket db with
      | (inl _, db) => ((false, mkAggregateStats total ok statuses domains []), db)
      | (inr buckets, db) => ((true, mkAggregateStats total ok statuses domains buckets), db)
      end
  | None => ((true, mkAggregateStats total ok statuses domains []), db)
  end end end end end.
End aggregate.

(** ** [DeleteOlderThan] *)
Definition DeleteOlderThan (cutoff : Z) : ST ClickDb (option str) := fun db =>
  match statement (fun rows => (tt, List.filter (fun r => negb (cr_occurred_at r <? to_epoch cutoff)%Z) rows)) db with
  | (inl what, db') => (Some what, db')
  | (inr _, db') => (None, db')
  end.

(** ** Batches may be repeated *)

(** What the table holds after some events have been offered. *)
Definition offered (events : list ClickEvent) (rows : list ClickRow) : list ClickRow :=
  foldl (fun rows e => insert_or_ignore (click_row e) rows) rows events.

Definition holds_id (id : str) (rows : list ClickRow) : Prop := ∃ r, r ∈ rows ∧ cr_event_id r = id.

Lemma insert_known row rows : holds_id (cr_event_id row) rows → insert_or_ignore row rows = rows.
Proof.
  intros (r & Hr & Hid). unfold insert_or_ignore. rewrite (proj2 (existsb_exists _ _)); [done|].
  exists r. by rewrite <- list_elem_of_In, bool_decide_eq_true.
Qed.

Lemma insert_keeps id row rows : holds_id id rows → holds_id id (insert_or_ignore row rows).
Proof. intros (r & Hr & Hid). exists r. split; [|done]. unfold insert_or_ignore. destruct (existsb _ _); set_solver. Qed.

Lemma insert_adds row rows : holds_id (cr_event_id row) (insert_or_ignore row rows).
Proof.
  unfold insert_or_ignore. destruct (existsb _ _) eqn:E; [|exists row; set_solver].
  apply existsb_exists in E as (r & Hr & Hid%bool_decide_eq_true). exists r. by rewrite list_elem_of_In.
Qed.

Lemma offered_keeps id events rows : holds_id id rows → holds_id id (offered events rows).
Proof. revert rows. induction events as [|e events IH]; intros rows Hr; [done|]. apply IH. by apply insert_keeps. Qed.

Lemma offered_adds events rows : Forall (fun e => holds_id (ce_event_id e) (offered events rows)) events.
Proof.
  revert rows. induction events as [|e events IH]; intros rows; constructor; [|apply IH].
  cbn. apply offered_keeps. apply (insert_adds (click_row e)).
Qed.

Lemma offered_known events rows : Forall (fun e => holds_id (ce_event_id e) rows) events → offered events rows = rows.
Proof.
  revert rows. induction events as [|e events IH]; intros rows Hall; [done|]. apply Forall_cons in Hall as [He Hall].
  cbn. rewrite insert_known by done. by apply IH.
Qed.

(** Offering the start of a batch first changes nothing. *)
Lemma offered_again k events rows : offered events (offered (take k events) rows) = offered events rows.
Proof.
  rewrite <- (take_drop k events) at 1 3. unfold offered at 1 3. rewrite !foldl_app. f_equal.
  apply offered_known, offered_adds.
Qed.

Lemma InsertBatch_offers events db :
  let '(r, db') := InsertBatch events db in
  ∃ k, cd_rows db' = offered (take k events) (cd_rows db) ∧ (r = None → cd_rows db' = offered events (cd_rows db)) ∧
    ((∀ n, cd_tick db ≤ n → cd_faults db n = None) → r = None).
Proof.
  revert db. induction events as [|e events IH]; intros db; cbn [InsertBatch]; [by exists 0|].
  unfold statement. destruct (cd_faults db (cd_tick db)) as [[what took]|] eqn:Ef.
  - exists (if took then 1 else 0). split_and!; [by destruct took|done|]. intros Hq. by rewrite Hq in Ef.
  - specialize (IH (mkClickDb (insert_or_ignore (click_row e) (cd_rows db)) (cd_faults db) (S (cd_tick db)))).
    destruct (InsertBatch events _) as [r db']. destruct IH as (k & Hk & Hr & Hq). exists (S k).
    split_and!; [exact Hk|exact Hr|]. intros Hquiet. apply Hq. cbn. intros n Hn. apply Hquiet. lia.
Qed.

(** One failed attempt at a batch. *)
Definition failed_attempt (events : list ClickEvent) : relation ClickDb := fun db db' =>
  ∃ what, InsertBatch events db = (Some what, db').

(** A batch of click events can be sent again after a failure. However often
    [InsertBatch] has failed half-way through the same batch, once it succeeds the
    table is the one a single undisturbed call would have left: no event is lost
    and none is stored twice, although every statement commits on its own. *)
Theorem InsertBatch_retry_safe events db db1 db2 :
  rtc (failed_attempt events) db db1 → InsertBatch events db1 = (None, db2) →
  cd_rows db2 = offered events (cd_rows db) ∧
  Forall (fun e => holds_id (ce_event_id e) (cd_rows db2)) events.
Proof.
  intros Hfail Hok.
  assert (Hrows : offered events (cd_rows db1) = offered events (cd_rows db)).
  { clear Hok. induction Hfail as [|db db' db'' [what Hstep] _ IH]; [done|]. rewrite IH.
    pose proof (InsertBatch_offers events db) as Ho. rewrite Hstep in Ho. destruct Ho as (k & -> & _). apply offered_again. }
  pose proof (InsertBatch_offers events db1) as Ho. rewrite Hok in Ho. destruct Ho as (_ & _ & Ho & _).
  rewrite Ho, Hrows by done. split; [done|apply offered_adds].
Qed.

(** ** The aggregate *)
Lemma group_counts_map {A B K} `{Countable K} (f : A → B) (key : B → K) (l : list A) :
  group_counts key (map f l) = group_counts (fun x => key (f x)) l.
Proof. unfold group_counts. generalize (∅ : gmap K N). induction l as [|x l IH]; intros m; cbn; [done|]. apply IH. Qed.

Lemma group_counts_ext {A K} `{Countable K} (key key' : A → K) (l : list A) :
  Forall (fun x => key x = key' x) l → group_counts key l = group_counts key' l.
Proof.
  unfold group_counts. generalize (∅ : gmap K N). induction l as [|x l IH]; intros m Hl; cbn; [done|].
  apply Forall_cons in Hl as [-> Hl]. by apply IH.
Qed.

Lemma group_counts_app {A K} `{Countable K} (key : A → K) (l : list A) x :
  group_counts key (l ++ [x]) = bump (key x) (group_counts key l).
Proof. unfold group_counts. by rewrite foldl_app. Qed.

(** No group is larger than the list. *)
Lemma group_counts_bound {A K} `{Countable K} (key : A → K) (l : list A) k n :
  group_counts key l !! k = Some n → (n ≤ N.of_nat (length l))%N.
Proof.
  revert k n. induction l as [|x l IH] using rev_ind; intros k n; [by unfold group_counts; cbn; rewrite lookup_empty|].
  rewrite group_counts_app, lookup_bump, length_app. cbn. case_decide as Hk; [|intros Hn%IH; lia].
  intros [= <-]. destruct (group_counts key l !! k) as [m|] eqn:Em; cbn; [apply IH in Em; lia|lia].
Qed.

Lemma group_counts_key {A K} `{Countable K} (key : A → K) (l : list A) k n :
  group_counts key l !! k = Some n → ∃ x, x ∈ l ∧ key x = k.
Proof.
  revert k n. induction l as [|x l IH] using rev_ind; intros k n; [by unfold group_counts; cbn; rewrite lookup_empty|].
  rewrite group_counts_app, lookup_bump. case_decide as Hk; [intros _; exists x; set_solver|].
  intros (y & Hy & Hky)%IH. exists y. set_solver.
Qed.

(** The accumulators of the in-memory loop are the groups of the selection. *)
Lemma tally_groups query repo :
  let sel := selection query repo in
  foldl (tally_event query) (mkTally 0 0 ∅ ∅ ∅) repo
  = mkTally (N.of_nat (length sel)) (count (fun e => is_redirect_code (ce_status_code e)) sel)
      (group_counts ce_status_code sel) (group_counts ce_domain sel)
      match aq_bucket query with
      | Some b => group_counts (fun e => Z.quot (bucket_start (ce_occurred_at e) b) ticks_per_second) sel
      | None => ∅
      end.
Proof.
  induction repo as [|e repo IH] using rev_ind; [cbn; by destruct (aq_bucket query)|]. cbv zeta in *.
  unfold selection in *. rewrite foldl_app, IH, List.filter_app. cbn. unfold tally_event at 1.
  destruct (selected query e) eqn:Es; cbn; [|by rewrite app_nil_r].
  rewrite length_app, count_app, count_one, !group_counts_app. cbn. f_equal; [lia|destruct (is_redirect_code _); lia|].
  destruct (aq_bucket query); [by rewrite group_counts_app|done].
Qed.

(** Whole seconds within the range of the clock. *)
Definition whole (tp : Z) : Prop := tp = (to_epoch tp * ticks_per_second)%Z ∧ in_i64 tp.

(** A time point of any precision, from 1970 on, is before a whole second when its
    own second is. *)
Lemma whole_lt a b : (0 ≤ a)%Z → whole b → (to_epoch a <? to_epoch b)%Z = (a <? b)%Z.
Proof.
  intros Ha [Hb _]. unfold to_epoch, ticks_per_second in *.
  destruct (Z.ltb_spec (Z.quot a 1000000000) (Z.quot b 1000000000)), (Z.ltb_spec a b);
    Z.to_euclidean_division_equations; lia.
Qed.

(** The query as the statements see it. *)
Definition without_link (query : AggregateQuery) : AggregateQuery :=
  mkAggregateQuery (aq_slug query) None (aq_from query) (aq_to query) (aq_bucket query).

Lemma where_selected query e :
  whole (aq_from query) → whole (aq_to query) → (0 ≤ ce_occurred_at e)%Z →
  base_where query (click_row e) = selected (without_link query) e.
Proof.
  intros Hf Ht He. unfold base_where, selected. cbn. rewrite andb_true_r.
  rewrite Z.leb_antisym, !whole_lt by done. rewrite (Z.leb_antisym _ (aq_to query)). 
  destruct (match aq_slug query with Some s => _ | None => _ end), (ce_occurred_at e <? aq_from query)%Z, (ce_occurred_at e <? aq_to query)%Z; done.
Qed.

(** No statement fails from here on. *)
Definition quiet_db (db : ClickDb) : Prop := ∀ n, cd_tick db ≤ n → cd_faults db n = None.
Definition later_db (db : ClickDb) : ClickDb := mkClickDb (cd_rows db) (cd_faults db) (S (cd_tick db)).

Lemma quiet_later db : quiet_db db → quiet_db (later_db db).
Proof. intros Hq n Hn. apply Hq. cbn in Hn. lia. Qed.

Lemma count_query_quiet where_ db :
  quiet_db db → (Z.of_nat (length (cd_rows db)) < 2 ^ 63)%Z →
  count_query where_ db = (inr (Z.of_nat (length (List.filter where_ (cd_rows db)))), later_db db).
Proof.
  intros Hq Hlen. unfold count_query, statement. rewrite Hq by done.
  assert (Hle : length (List.filter where_ (cd_rows db)) ≤ length (cd_rows db)) by apply filter_length_le.
  rewrite stoll_dec by (unfold in_i64; lia). done.
Qed.

Lemma rows_query_quiet {B} sql (read : str * str → option B) db :
  quiet_db db → rows_query sql read db = (read_all read (sql (cd_rows db)), later_db db).
Proof. intros Hq. unfold rows_query, statement. by rewrite Hq by done. Qed.

Lemma read_all_map {A B C} (read : B → option C) (print : A → B) (out : A → C) l :
  Forall (fun x => read (print x) = Some (out x)) l → read_all read (map print l) = inr (map out l).
Proof.
  induction l as [|x l IH]; intros Hl; cbn; [done|]. apply Forall_cons in Hl as [-> Hl]. by rewrite IH.
Qed.

Lemma count_text n : (Z.of_N n < 2 ^ 63)%Z → stoll (print_count n) = Some (Z.of_N n, length (print_count n)).
Proof. intros Hn. apply stoll_dec. unfold in_i64. lia. Qed.

Lemma count_value n : (Z.of_N n < 2 ^ 63)%Z → Z.to_N (u64 (Z.of_N n)) = n.
Proof. intros Hn. unfold u64. rewrite Z.mod_small by lia. apply N2Z.id. Qed.

Lemma offered_fresh events rows :
  NoDup (ce_event_id <$> events) → Forall (fun e => ¬ holds_id (ce_event_id e) rows) events →
  offered events rows = rows ++ map click_row events.
Proof.
  revert rows. induction events as [|e events IH]; intros rows Hnd Hall; cbn; [by rewrite app_nil_r|].
  apply NoDup_cons in Hnd as [He Hnd]. apply Forall_cons in Hall as [Hfresh Hall].
  assert (Hins : insert_or_ignore (click_row e) rows = rows ++ [click_row e]).
  { unfold insert_or_ignore. destruct (existsb _ _) eqn:E; [|done]. exfalso. apply Hfresh.
    apply existsb_exists in E as (r & Hr & Hid%bool_decide_eq_true). exists r. by rewrite list_elem_of_In. }
  rewrite Hins. change (foldl ?f ?r events) with (offered events r). rewrite IH; [by rewrite <- app_assoc|done|].
  rewrite Forall_forall in Hall |- *. intros e' He' (r & Hr & Hid). apply elem_of_app in Hr as [Hr|Hr].
  - apply (Hall e' He'). by exists r.
  - apply list_elem_of_singleton in Hr as ->. apply He. apply list_elem_of_fmap. by exists e'.
Qed.

Lemma offered_distinct earlier batch :
  NoDup (ce_event_id <$> earlier ++ batch) → offered batch (map click_row earlier) = map click_row (earlier ++ batch).
Proof.
  rewrite fmap_app. intros (_ & Hdisj & Hnd)%NoDup_app. rewrite map_app. apply offered_fresh; [done|].
  apply Forall_forall. intros e He (r & Hr & Hid). apply list_elem_of_In, in_map_iff in Hr as (e' & <- & He').
  apply (Hdisj (ce_event_id e)); apply list_elem_of_fmap; [exists e'|exists e]; split; try done. by apply list_elem_of_In.
Qed.

Lemma InsertBatch_quiet events db db' :
  quiet_db db → InsertBatch events db = (None, db') → quiet_db db' ∧ cd_rows db' = offered events (cd_rows db).
Proof.
  intros Hq Hins. split.
  - revert db Hq Hins. induction events as [|e events IH]; intros db Hq Hins; cbn [InsertBatch] in Hins; [by injection Hins as <-|].
    unfold statement in Hins. rewrite Hq in Hins by done. eapply IH; [|exact Hins]. intros n Hn. apply Hq. cbn in Hn. lia.
  - pose proof (InsertBatch_offers events db) as Ho. rewrite Hins in Ho. destruct Ho as (_ & _ & Ho & _). by apply Ho.
Qed.

Section equivalence.
Context (groups_Z iterate_codes : gmap Z N → list (Z * N)) (groups_str iterate_domains : gmap str N → list (str * N)).
Context (HgZ : ∀ m, groups_Z m ≡ₚ map_to_list m) (Hgs : ∀ m, groups_str m ≡ₚ map_to_list m).
Context (Hic : ∀ m, iterate_codes m ≡ₚ map_to_list m) (Hid : ∀ m, iterate_domains m ≡ₚ map_to_list m).

(** Events of a clock after 1970, to the nanosecond, with an HTTP status code. *)
Definition storable_event (e : ClickEvent) : Prop :=
  (0 ≤ ce_occurred_at e < 2 ^ 63)%Z ∧ (0 ≤ ce_status_code e < 2 ^ 16)%Z.

Lemma filter_rows query events :
  whole (aq_from query) → whole (aq_to query) → Forall storable_event events →
  List.filter (base_where query) (map click_row events) = map click_row (selection (without_link query) events).
Proof.
  intros Hf Ht He. rewrite List.filter_map_swap. f_equal. apply filter_ext_in. intros e Hin.
  apply where_selected; [done..|]. rewrite Forall_forall in He. by apply He, list_elem_of_In.
Qed.

Lemma redirect_rows query rows sel :
  List.filter (base_where query) rows = map click_row sel →
  length (List.filter (fun r => base_where query r && is_redirect_code (cr_status_code r)) rows)
  = length (List.filter (fun e => is_redirect_code (ce_status_code e)) sel).
Proof.
  intros Hw. assert (Hand : List.filter (fun r => base_where query r && is_redirect_code (cr_status_code r)) rows
    = List.filter (fun r => is_redirect_code (cr_status_code r)) (List.filter (base_where query) rows)).
  { clear Hw. induction rows as [|r rows IH]; cbn; [done|]. destruct (base_where query r); cbn; by rewrite IH. }
  by rewrite Hand, Hw, List.filter_map_swap, length_map.
Qed.

(** A group of the selection: its key comes from an event and its size is a count. *)
Lemma groups_Forall {K} `{Countable K} (groups : gmap K N → list (K * N)) (Hg : ∀ m, groups m ≡ₚ map_to_list m)
    (key : ClickEvent → K) sel (P : K → N → Prop) :
  (∀ e n, e ∈ sel → (n ≤ N.of_nat (length sel))%N → P (key e) n) →
  Forall (fun kn => P kn.1 kn.2) (groups (group_counts key sel)).
Proof.
  intros HP. rewrite Hg. apply Forall_forall. intros [k n] Hin%elem_of_map_to_list. cbn.
  destruct (group_counts_key key sel k n Hin) as (e & He & <-). apply HP; [done|]. by eapply group_counts_bound.
Qed.

Lemma status_rows sel :
  Forall storable_event sel → (Z.of_nat (length sel) < 2 ^ 63)%Z →
  read_all read_status (map (fun '(k, n) => (dec k, print_count n)) (groups_Z (group_counts ce_status_code sel)))
  = inr (groups_Z (group_counts ce_status_code sel)).
Proof using HgZ.
  intros Hsel Hlen. rewrite (read_all_map _ _ (fun x => x)); [by rewrite map_id|].
  eapply Forall_impl; [apply (groups_Forall groups_Z HgZ ce_status_code sel
    (fun k n => (0 ≤ k < 2 ^ 16)%Z ∧ (Z.of_N n < 2 ^ 63)%Z))|].
  - intros e n He Hn. rewrite Forall_forall in Hsel. split; [by apply Hsel|lia].
  - intros [k n] [Hk Hn]. cbn in Hk, Hn. unfold read_status. cbn [fst snd].
    rewrite stoll_dec by (unfold in_i64; lia). rewrite count_text by done.
    rewrite count_value by done. by rewrite Z.mod_small.
Qed.

Lemma domain_rows sel :
  (Z.of_nat (length sel) < 2 ^ 63)%Z →
  read_all read_domain (map (fun '(k, n) => (k, print_count n)) (groups_str (group_counts ce_domain sel)))
  = inr (groups_str (group_counts ce_domain sel)).
Proof using Hgs.
  intros Hlen. rewrite (read_all_map _ _ (fun x => x)); [by rewrite map_id|].
  eapply Forall_impl; [apply (groups_Forall groups_str Hgs ce_domain sel (fun _ n => (Z.of_N n < 2 ^ 63)%Z))|].
  - intros e n _ Hn. lia.
  - intros [k n] Hn. cbn in Hn. unfold read_domain. cbn [fst snd]. rewrite count_text by done. by rewrite count_value.
Qed.

Lemma bucket_seconds e b :
  storable_event e → Z.quot (bucket_start (ce_occurred_at e) b) ticks_per_second
  = (Z.quot (to_epoch (ce_occurred_at e)) (bucket_width b) * bucket_width b)%Z.
Proof.
  intros [Hi _]. unfold bucket_start. fold (to_epoch (ce_occurred_at e)).
  assert (Hs : (0 ≤ to_epoch (ce_occurred_at e) ∧ to_epoch (ce_occurred_at e) * 1000000000 < 2 ^ 63)%Z).
  { unfold to_epoch, ticks_per_second. Z.to_euclidean_division_equations; lia. }
  revert Hs. generalize (to_epoch (ce_occurred_at e)). clear Hi. intros s Hi. unfold from_time_t, wrap64, in_i64, ticks_per_second in *.
  assert (Hq : (Z.abs (Z.quot s (bucket_width b) * bucket_width b) ≤ Z.abs s)%Z).
  { destruct b; cbn [bucket_width]; Z.to_euclidean_division_equations; lia. }
  rewrite Z.mod_small by lia.
  replace (Z.quot s (bucket_width b) * bucket_width b * 1000000000 + 2 ^ 63 - 2 ^ 63)%Z
    with (Z.quot s (bucket_width b) * bucket_width b * 1000000000)%Z by lia.
  by rewrite Z.quot_mul.
Qed.

Lemma bucket_rows sel b :
  Forall storable_event sel → (Z.of_nat (length sel) < 2 ^ 63)%Z →
  ∃ buckets,
    read_all read_bucket (merge_sort text_le (map (fun '(k, n) => (dec k, print_count n))
      (groups_Z (group_counts (fun e => Z.quot (to_epoch (ce_occurred_at e)) (bucket_width b) * bucket_width b)%Z sel))))
    = inr buckets ∧
    buckets ≡ₚ map (fun '(k, n) => (from_time_t k, n))
      (map_to_list (group_counts (fun e => Z.quot (bucket_start (ce_occurred_at e) b) ticks_per_second) sel)).
Proof using HgZ.
  intros Hsel Hlen. set (key := fun e => (Z.quot (to_epoch (ce_occurred_at e)) (bucket_width b) * bucket_width b)%Z).
  destruct (Permutation_map_inv (fun '(k, n) => (dec k, print_count n)) _
    (merge_sort_Permutation text_le (map (fun '(k, n) => (dec k, print_count n)) (groups_Z (group_counts key sel)))))
    as (l & -> & Hl).
  exists (map (fun '(k, n) => (from_time_t k, n)) l). split.
  - apply read_all_map. rewrite <- Hl.
    eapply Forall_impl; [apply (groups_Forall groups_Z HgZ key sel (fun k n => in_i64 k ∧ (Z.of_N n < 2 ^ 63)%Z))|].
    + intros e n He Hn. split; [|lia]. rewrite Forall_forall in Hsel. destruct (Hsel e He) as [Hi _].
      unfold key, to_epoch, in_i64, ticks_per_second in *. destruct b; cbn [bucket_width]; Z.to_euclidean_division_equations; lia.
    + intros [k n] [Hk Hn]. cbn in Hk, Hn. unfold read_bucket. cbn [fst snd].
      rewrite stoll_dec by done. rewrite count_text by done. by rewrite count_value.
  - rewrite <- Hl, HgZ. rewrite (group_counts_ext (fun e => Z.quot (bucket_start (ce_occurred_at e) b) ticks_per_second) key sel); [done|].
    eapply Forall_impl; [exact Hsel|]. intros e He. by apply bucket_seconds.
Qed.

(** C26: the SQL click repository aggregates like the in-memory one, but for the
    link filter of a query, which it ignores. Let the table hold the rows of some
    events and insert a batch of others while the database does not fail, the events
    having distinct ids, time stamps from 1970 on, to the nanosecond, and 16-bit
    status codes, and fewer than 2^63 of them. Then [GetAggregateStats] succeeds for
    every slug, link and range between whole seconds, with the totals the in-memory
    repository of all the events gives for the query without its link filter and, in
    some order, its counts by status code and by domain; the time buckets agree as
    well on SQLite and are left empty on PostgreSQL. *)
Theorem sql_aggregate_equals_memory is_postgres query earlier batch db db' :
  cd_rows db = map click_row earlier → quiet_db db → InsertBatch batch db = (None, db') →
  let events := earlier ++ batch in
  NoDup (ce_event_id <$> events) → Forall storable_event events → (Z.of_nat (length events) < 2 ^ 63)%Z →
  whole (aq_from query) → whole (aq_to query) →
  let memory := ClickEvents.GetAggregateStats iterate_codes iterate_domains (without_link query) events in
  let '((ok, stats), _) := GetAggregateStats groups_Z groups_str is_postgres query db' in
  ok = true ∧ total_attempts stats = total_attempts memory ∧
  successful_redirects stats = successful_redirects memory ∧
  status_code_counts stats ≡ₚ status_code_counts memory ∧ domain_counts stats ≡ₚ domain_counts memory ∧
  time_buckets stats ≡ₚ (if is_postgres : bool then [] else time_buckets memory).
Proof using HgZ Hgs Hic Hid.
  intros Hearlier Hq Hins events Hnd Hst Hlen Hfrom Hto memory.
  destruct (InsertBatch_quiet batch db db' Hq Hins) as [Hq' Hrows]. rewrite Hearlier in Hrows.
  rewrite offered_distinct in Hrows by done. fold events in Hrows. set (sel := selection (without_link query) events).
  assert (Hsel : Forall storable_event sel).
  { apply Forall_forall. intros e He. apply list_elem_of_In, filter_In in He as [He _]. rewrite Forall_forall in Hst.
    by apply Hst, list_elem_of_In. }
  assert (Hlensel : (Z.of_nat (length sel) < 2 ^ 63)%Z).
  { pose proof (filter_length_le (selected (without_link query)) events). unfold sel, selection. lia. }
  assert (Hwhere : List.filter (base_where query) (cd_rows db') = map click_row sel) by (rewrite Hrows; by apply filter_rows).
  assert (Hlenrows : (Z.of_nat (length (cd_rows db')) < 2 ^ 63)%Z) by (by rewrite Hrows, length_map).
  subst memory. unfold ClickEvents.GetAggregateStats. rewrite tally_groups. fold sel.
  unfold GetAggregateStats. rewrite count_query_quiet by done. rewrite count_query_quiet by (done || by apply quiet_later).
  rewrite rows_query_quiet by (by do 2 apply quiet_later). unfold status_query. cbn [cd_rows later_db].
  rewrite (redirect_rows query _ sel Hwhere), Hwhere, group_counts_map, length_map. cbn [cr_status_code click_row].
  rewrite status_rows by done.
  rewrite rows_query_quiet by (by do 3 apply quiet_later). unfold domain_query. cbn [cd_rows later_db].
  rewrite Hwhere, group_counts_map. cbn [cr_domain click_row]. rewrite domain_rows by done.
  rewrite <- !nat_N_Z, !count_value by (rewrite nat_N_Z; pose proof (filter_length_le (fun e => is_redirect_code (ce_status_code e)) sel); lia).
  cbn [aq_bucket without_link]. destruct (aq_bucket query) as [b|]; [destruct is_postgres|].
  - cbn. split_and!; [done..|by rewrite HgZ, Hic|by rewrite Hgs, Hid|done].
  - rewrite rows_query_quiet by (by do 4 apply quiet_later). unfold bucket_query. cbn [cd_rows later_db].
    rewrite Hwhere, group_counts_map. cbn [cr_occurred_at click_row].
    destruct (bucket_rows sel b Hsel Hlensel) as (buckets & -> & Hb).
    cbn. split_and!; [done..|by rewrite HgZ, Hic|by rewrite Hgs, Hid|].
    rewrite Hb, merge_sort_Permutation. change (map ?f ?l) with (f <$> l). by rewrite Hic.
  - cbn. split_and!; [done..|by rewrite HgZ, Hic|by rewrite Hgs, Hid|].
    destruct is_postgres; [done|]. by rewrite merge_sort_Permutation, Hic, map_to_list_empty.
Qed.
End equivalence.

(** ** Examples *)
Module DemoClicks.
Definition click (id : string) (second : Z) (code : Z) : ClickEvent :=
  mkClickEvent id (second * ticks_per_second + 123456789)%Z "demo" "1" "example.com" code [] [] [].
Definition events : list ClickEvent := [click "a" 10 302; click "b" 20 404].
Definition db (faults : nat → option (str * bool)) : ClickDb := mkClickDb [] faults 0.
Definition one_fault (n : nat) : option (str * bool) := if n =? 1 then Some (("database is locked" : str), false) else None.
Definition query : AggregateQuery := mkAggregateQuery (Some ("demo" : str)) None 0 (100 * ticks_per_second) (Some hour).
End DemoClicks.

Lemma InsertBatch_retry_safe_witness :
  let db1 := (InsertBatch DemoClicks.events (DemoClicks.db DemoClicks.one_fault)).2 in
  length (cd_rows db1) = 1 ∧
  cd_rows (InsertBatch DemoClicks.events db1).2 = offered DemoClicks.events [].
Proof.
  intros db1. split; [vm_compute; reflexivity|].
  refine (proj1 (InsertBatch_retry_safe DemoClicks.events (DemoClicks.db DemoClicks.one_fault) db1
    (InsertBatch DemoClicks.events db1).2 _ _)).
  - eapply rtc_l; [|apply rtc_refl]. exists "database is locked". vm_compute. reflexivity.
  - vm_compute. reflexivity.
Defined.

Lemma sql_aggregate_equals_memory_witness :
  let db' := (InsertBatch DemoClicks.events (DemoClicks.db (fun _ => None))).2 in
  let stats := (GetAggregateStats map_to_list map_to_list false DemoClicks.query db').1.2 in
  total_attempts stats = 2%N ∧
  total_attempts stats
  = total_attempts (ClickEvents.GetAggregateStats map_to_list map_to_list DemoClicks.query DemoClicks.events).
Proof.
  intros db' stats. split; [vm_compute; reflexivity|].
  pose proof (sql_aggregate_equals_memory map_to_list map_to_list map_to_list map_to_list
    (fun m => reflexivity _) (fun m => reflexivity _) (fun m => reflexivity _) (fun m => reflexivity _)
    false DemoClicks.query [] DemoClicks.events (DemoClicks.db (fun _ => None)) db' eq_refl (fun n _ => eq_refl)) as H.
  unfold stats. destruct (GetAggregateStats map_to_list map_to_list false DemoClicks.query db') as [[ok st] db2].
  apply H; clear H.
  - vm_compute. reflexivity.
  - apply (bool_decide_unpack _). vm_compute. exact I.
  - apply Forall_cons. split; [split; vm_compute; split; congruence|].
    apply Forall_cons. split; [split; vm_compute; split; congruence|].
    apply Forall_nil. exact I.
  - vm_compute. reflexivity.
  - split; vm_compute; [reflexivity|split; congruence].
  - split; vm_compute; [reflexivity|split; congruence].
Defined.

(** Time buckets are ordered by their text: the later hour comes first. *)
Lemma buckets_ordered_as_text :
  let events := [DemoClicks.click "a" 999996400 302; DemoClicks.click "b" 1000000800 302] in
  let db' := (InsertBatch events (DemoClicks.db (fun _ => None))).2 in
  let query := mkAggregateQuery None None 0 (2000000000 * ticks_per_second) (Some hour) in
  map (fun b => to_epoch b.1) (time_buckets (GetAggregateStats map_to_list map_to_list false query db').1.2)
  = [1000000800; 999993600]%Z.
Proof. vm_compute. reflexivity. Qed.

(** The link filter of a query is not applied. *)
Lemma link_filter_ignored :
  let db' := (InsertBatch DemoClicks.events (DemoClicks.db (fun _ => None))).2 in
  let query := mkAggregateQuery None (Some ("other" : str)) 0 (100 * ticks_per_second) None in
  total_attempts (GetAggregateStats map_to_list map_to_list false query db').1.2 = 2%N ∧
  total_attempts (ClickEvents.GetAggregateStats map_to_list map_to_list query DemoClicks.events) = 0%N.
Proof. split; vm_compute; reflexivity. Qed.
