(* ===== verification/RedisStores.v ===== *)
(** * RedisStores: the Redis cache and the Redis rate limiter

    src/storage/redis/redis_cache_store.cpp and redis_rate_limiter.cpp over a Redis
    server. The server and hiredis are a class: a command may be answered, refused
    or lost, and what is promised is that a read shows what was written. The
    fixed-window script is translated over the server's [INCR], [EXPIRE] and [TTL]. *)
From S2P Require Import Prelude Text Env Clock Numbers Storage RedisCodec RateLimiter.
#[local] Open Scope nat_scope.

(** ** Commands and replies *)
Inductive Command :=
  | cmd_GET (key : str)
  | cmd_SETEX (key : str) (seconds : Z) (payload : str)
  | cmd_SET (key : str) (payload : str)
  | cmd_DEL (key : str)
  | cmd_KEYS (pattern : str).

(** [reply_lost] is the null pointer. *)
Inductive Reply :=
  | reply_lost
  | reply_nil
  | reply_error
  | reply_status
  | reply_integer (n : Z)
  | reply_string (s : str)
  | reply_array (elements : list str).

(** What [%s] and [c_str()] pass on: the text before the first null character. *)
Fixpoint c_str (s : str) : str :=
  match s with
  | [] => []
  | c :: s' => if (code c =? 0)%N then [] else c :: c_str s'
  end.

(** A server as a client of the library sees it: connecting may fail, a command
    has a reply. *)
Class RedisServer (S : Type) := {
  redis_connect : ST S bool;
  redis_command : Command → ST S Reply;
}.

(** ** [RedisCacheStore] *)
Module RedisCache.

(** [ctx_]: absent, usable, or with [err] set. *)
Inductive Context_ := ctx_absent | ctx_usable | ctx_failed.

Section store.
Context {S : Type} `{RedisServer S} (key_prefix : str) (default_ttl : option Z).

Abbreviation State := (Context_ * S)%type.

Definition EnsureConnected : ST State bool := fun '(ctx, s) =>
  match ctx with
  | ctx_usable => (true, (ctx, s))
  | _ => let '(ok, s') := redis_connect s in (ok, (if ok : bool then ctx_usable else ctx_failed, s'))
  end.

(** [redisCommand]: a lost reply leaves the error in the context. *)
Definition command (c : Command) : ST State Reply := fun '(ctx, s) =>
  let '(r, s') := redis_command c s in
  (r, (match r with reply_lost => ctx_failed | _ => ctx end, s')).

Definition FullKey (key : str) : str := BuildCacheKey key_prefix key.
Definition FullPrefix (prefix : str) : str := BuildCacheKey key_prefix prefix.
Definition EffectiveTtl (ttl : option Z) : option Z := match ttl with Some t => Some t | None => default_ttl end.
Definition MapRedisError : CacheError.t := CacheError.unavailable.

Definition Get (key : str) : ST State (option CacheValue * CacheError.t) :=
  connected ← EnsureConnected;
  if negb connected then mret (None, CacheError.unavailable) else
  reply ← command (cmd_GET (c_str (FullKey key)));
  mret match reply with
       | reply_lost => (None, MapRedisError)
       | reply_string s => (DeserializeCacheValue (c_str s), CacheError.none)
       | _ => (None, CacheError.none)
       end.

Definition Set_ (key : str) (value : CacheValue) (ttl : option Z) : ST State (bool * CacheError.t) :=
  connected ← EnsureConnected;
  if negb connected then mret (false, CacheError.unavailable) else
  let payload := SerializeCacheValue value in
  reply ← command match EffectiveTtl ttl with
                  | Some t => if (0 <? t)%Z then cmd_SETEX (c_str (FullKey key)) t payload
                              else cmd_SET (c_str (FullKey key)) payload
                  | None => cmd_SET (c_str (FullKey key)) payload
                  end;
  mret match reply with
       | reply_lost => (false, MapRedisError)
       | reply_status => (true, CacheError.none)
       | _ => (false, CacheError.permanent_failure)
       end.

Definition Delete (key : str) : ST State (bool * CacheError.t) :=
  connected ← EnsureConnected;
  if negb connected then mret (false, CacheError.unavailable) else
  reply ← command (cmd_DEL (c_str (FullKey key)));
  mret match reply with reply_lost => (false, MapRedisError) | _ => (true, CacheError.none) end.

(** The loop over the keys; the replies are not looked at. *)
Fixpoint delete_keys (keys : list str) : ST State unit :=
  match keys with
  | [] => mret tt
  | k :: rest => _ ← command (cmd_DEL (c_str k)); delete_keys rest
  end.

Definition ClearByPrefix (prefix : str) : ST State (bool * CacheError.t) :=
  connected ← EnsureConnected;
  if negb connected then mret (false, CacheError.unavailable) else
  keys ← command (cmd_KEYS (c_str (FullPrefix prefix) ++ ["*"%char]));
  match keys with
  | reply_array elements => _ ← delete_keys elements; mret (true, CacheError.none)
  | _ => mret (false, CacheError.unavailable)
  end.
End store.
End RedisCache.

(** ** What the server promises *)

(** The values a read may show; they may expire or be evicted at any time. *)
Class RedisServerLaws (S : Type) `{RedisServer S} := {
  visible : S → gmap str str;
  connect_keeps s : visible (redis_connect s).2 ⊆ visible s;
  get_shows k s p : (redis_command (cmd_GET k) s).1 = reply_string p → visible s !! k = Some p;
  get_keeps k s : visible (redis_command (cmd_GET k) s).2 ⊆ visible s;
  set_writes k p s k' p' :
    visible (redis_command (cmd_SET k p) s).2 !! k' = Some p' → (k' = k ∧ p' = p) ∨ visible s !! k' = Some p';
  setex_writes k t p s k' p' :
    visible (redis_command (cmd_SETEX k t p) s).2 !! k' = Some p' → (k' = k ∧ p' = p) ∨ visible s !! k' = Some p';
  del_keeps k s : visible (redis_command (cmd_DEL k) s).2 ⊆ visible s;
  del_deletes k s n : (redis_command (cmd_DEL k) s).1 = reply_integer n → visible (redis_command (cmd_DEL k) s).2 !! k = None;
  keys_keeps p s : visible (redis_command (cmd_KEYS p) s).2 ⊆ visible s;
}.

(** ** The cache invents nothing *)
Inductive CacheCall :=
  | call_get (key : str)
  | call_set (key : str) (value : CacheValue) (ttl : option Z)
  | call_delete (key : str)
  | call_clear (prefix : str).

Section soundness.
Context {S : Type} `{RedisServerLaws S} (key_prefix : str) (default_ttl : option Z).
Abbreviation State := (RedisCache.Context_ * S)%type.

Definition run_call (c : CacheCall) : ST State unit :=
  match c with
  | call_get k => _ ← RedisCache.Get key_prefix k; mret tt
  | call_set k v ttl => _ ← RedisCache.Set_ key_prefix default_ttl k v ttl; mret tt
  | call_delete k => _ ← RedisCache.Delete key_prefix k; mret tt
  | call_clear p => _ ← RedisCache.ClearByPrefix key_prefix p; mret tt
  end.

Fixpoint run_calls (calls : list CacheCall) : ST State unit :=
  match calls with
  | [] => mret tt
  | c :: calls' => _ ← run_call c; run_calls calls'
  end.

(** The payloads that calls have written under a server key. *)
Definition written (key : str) (calls : list CacheCall) (payload : str) : Prop :=
  ∃ k v ttl, call_set k v ttl ∈ calls ∧ c_str (RedisCache.FullKey key_prefix k) = key ∧ payload = SerializeCacheValue v.

(** Everything visible has been written. *)
Definition traced (calls : list CacheCall) (s : S) : Prop :=
  ∀ k p, visible s !! k = Some p → written k calls p.

Lemma traced_shrink calls s s' : visible s' ⊆ visible s → traced calls s → traced calls s'.
Proof. intros Hsub Ht k p Hk. apply Ht. by eapply lookup_weaken. Qed.

Lemma EnsureConnected_keeps st : visible (RedisCache.EnsureConnected st).2.2 ⊆ visible st.2.
Proof.
  destruct st as [ctx s]. unfold RedisCache.EnsureConnected.
  pose proof (connect_keeps s). destruct ctx; [destruct (redis_connect s)|done|destruct (redis_connect s)]; done.
Qed.

Lemma command_state c st : (RedisCache.command c st).1 = (redis_command c st.2).1 ∧
  (RedisCache.command c st).2.2 = (redis_command c st.2).2.
Proof. destruct st as [ctx s]. unfold RedisCache.command. cbn [snd]. by destruct (redis_command c s). Qed.

Lemma delete_keys_keeps keys st : visible (RedisCache.delete_keys keys st).2.2 ⊆ visible st.2.
Proof.
  revert st. induction keys as [|k keys IH]; intros st; [done|]. cbn. rewrite ST_bind_eq. etrans; [apply IH|].
  rewrite (proj2 (command_state _ _)). apply del_keeps.
Qed.

(** What each call may change of the values a read shows. *)
Lemma Get_keeps key st : visible (RedisCache.Get key_prefix key st).2.2 ⊆ visible st.2.
Proof.
  unfold RedisCache.Get. rewrite ST_bind_eq. pose proof (EnsureConnected_keeps st) as Hc.
  destruct (RedisCache.EnsureConnected st) as [[] st1]; cbn in *; [|done]. rewrite ST_bind_eq. cbn.
  rewrite (proj2 (command_state _ _)). etrans; [apply get_keeps|done].
Qed.

Lemma Set_writes key v ttl st k p :
  visible (RedisCache.Set_ key_prefix default_ttl key v ttl st).2.2 !! k = Some p →
  (k = c_str (RedisCache.FullKey key_prefix key) ∧ p = SerializeCacheValue v) ∨ visible st.2 !! k = Some p.
Proof.
  unfold RedisCache.Set_. rewrite ST_bind_eq. pose proof (EnsureConnected_keeps st) as Hc.
  destruct (RedisCache.EnsureConnected st) as [[] st1]; cbn in *; [|intros Hk; right; by eapply lookup_weaken].
  rewrite ST_bind_eq. cbn. rewrite (proj2 (command_state _ _)). intros Hk.
  assert (Hcase : (k = c_str (RedisCache.FullKey key_prefix key) ∧ p = SerializeCacheValue v) ∨ visible st1.2 !! k = Some p).
  { destruct (RedisCache.EffectiveTtl default_ttl ttl) as [t|]; [destruct (0 <? t)%Z|];
      [by eapply setex_writes|by eapply set_writes|by eapply set_writes]. }
  destruct Hcase as [?|Hold]; [by left|right]. by eapply lookup_weaken.
Qed.

Lemma Delete_keeps key st : visible (RedisCache.Delete key_prefix key st).2.2 ⊆ visible st.2.
Proof.
  unfold RedisCache.Delete. rewrite ST_bind_eq. pose proof (EnsureConnected_keeps st) as Hc.
  destruct (RedisCache.EnsureConnected st) as [[] st1]; cbn in *; [|done]. rewrite ST_bind_eq. cbn.
  rewrite (proj2 (command_state _ _)). etrans; [apply del_keeps|done].
Qed.

Lemma ClearByPrefix_keeps prefix st : visible (RedisCache.ClearByPrefix key_prefix prefix st).2.2 ⊆ visible st.2.
Proof.
  unfold RedisCache.ClearByPrefix. rewrite ST_bind_eq. pose proof (EnsureConnected_keeps st) as Hc.
  destruct (RedisCache.EnsureConnected st) as [[] st1]; cbn in *; [|done]. rewrite ST_bind_eq.
  set (pattern := c_str (RedisCache.FullPrefix key_prefix prefix) ++ ["*"%char]).
  destruct (command_state (cmd_KEYS pattern) st1) as [_ Hs]. pose proof (keys_keeps pattern st1.2) as Hk. rewrite <- Hs in Hk.
  destruct (RedisCache.command _ st1) as [r st2]. cbn in *. destruct r; cbn; try (by etrans).
  rewrite ST_bind_eq. cbn. by do 2 (etrans; [apply delete_keys_keeps || exact Hk|]).
Qed.

Lemma run_call_traced calls c st : traced calls st.2 → traced (calls ++ [c]) (run_call c st).2.2.
Proof.
  intros Ht. assert (Ht' : traced (calls ++ [c]) st.2).
  { intros k p Hk. destruct (Ht k p Hk) as (k' & v & ttl & Hin & He). exists k', v, ttl. split; [set_solver|done]. }
  destruct c as [k|k v ttl|k|p]; cbn; rewrite ST_bind_eq; cbn [snd mret ST_ret].
  - eapply traced_shrink; [apply Get_keeps|done].
  - intros k' p' [[-> ->]|Hold]%Set_writes; [|by apply Ht']. exists k, v, ttl. split; [set_solver|done].
  - eapply traced_shrink; [apply Delete_keeps|done].
  - eapply traced_shrink; [apply ClearByPrefix_keeps|done].
Qed.

Lemma run_calls_traced done_ calls st : traced done_ st.2 → traced (done_ ++ calls) (run_calls calls st).2.2.
Proof.
  revert done_ st. induction calls as [|c calls IH]; intros done_ st Ht; cbn; [by rewrite app_nil_r|].
  rewrite ST_bind_eq. replace (done_ ++ c :: calls) with ((done_ ++ [c]) ++ calls) by by rewrite <- app_assoc.
  apply IH. by apply run_call_traced.
Qed.

Lemma get_answer key st v e st' :
  RedisCache.Get key_prefix key st = ((Some v, e), st') →
  ∃ p, visible st.2 !! c_str (RedisCache.FullKey key_prefix key) = Some p ∧ DeserializeCacheValue (c_str p) = Some v ∧
    e = CacheError.none.
Proof.
  unfold RedisCache.Get. rewrite ST_bind_eq. pose proof (EnsureConnected_keeps st) as Hc.
  destruct (RedisCache.EnsureConnected st) as [[] st1]; cbn in *; [|done]. rewrite ST_bind_eq.
  destruct (command_state (cmd_GET (c_str (RedisCache.FullKey key_prefix key))) st1) as [Hr _].
  destruct (RedisCache.command _ st1) as [r st2]. cbn in *. destruct r as [| | | | |p|]; try done. intros [= Hd <- _].
  exists p. split; [|done]. eapply lookup_weaken; [|done]. by eapply get_shows.
Qed.
End soundness.

(** The Redis cache invents nothing. Start from a server without keys and
    make any calls; if [Get] then answers with a value, that value is what
    [DeserializeCacheValue] reads from the text some earlier [Set] of the same
    server key wrote. Lost replies, refused commands, reconnections, expiry and
    eviction can only turn an answer into none. *)
Theorem redis_cache_sound {S} `{RedisServerLaws S} key_prefix default_ttl ctx s calls key v e st' :
  visible s = ∅ →
  RedisCache.Get key_prefix key (run_calls key_prefix default_ttl calls (ctx, s)).2 = ((Some v, e), st') →
  e = CacheError.none ∧
  ∃ k w ttl, call_set k w ttl ∈ calls ∧
    c_str (RedisCache.FullKey key_prefix k) = c_str (RedisCache.FullKey key_prefix key) ∧
    DeserializeCacheValue (c_str (SerializeCacheValue w)) = Some v.
Proof.
  intros Hempty Hget. apply get_answer in Hget as (p & Hp & Hd & ->). split; [done|].
  destruct (run_calls_traced key_prefix default_ttl [] calls (ctx, s)) with (k := c_str (RedisCache.FullKey key_prefix key)) (p := p)
    as (k & w & ttl & Hin & Hk & ->); [intros k' p'; cbn; by rewrite Hempty, lookup_empty|done|].
  by exists k, w, ttl.
Qed.

(** A server that forgets nothing. *)
Module DemoRedis.
#[global] Instance server : RedisServer (gmap str str) := {
  redis_connect s := (true, s);
  redis_command c s :=
    match c with
    | cmd_GET k => (match s !! k with Some p => reply_string p | None => reply_nil end, s)
    | cmd_SETEX k _ p | cmd_SET k p => (reply_status, <[k := p]> s)
    | cmd_DEL k => (reply_integer (if decide (is_Some (s !! k)) then 1 else 0)%Z, delete k s)
    | cmd_KEYS _ => (reply_array [], s)
    end;
}.

#[global] Instance server_laws : RedisServerLaws (gmap str str).
Proof.
  refine {| visible := fun s => s |}.
  - done.
  - intros k s p. cbn. by destruct (s !! k); intros [= <-].
  - done.
  - intros k p s k' p'. cbn. rewrite lookup_insert_Some. naive_solver.
  - intros k t p s k' p'. cbn. rewrite lookup_insert_Some. naive_solver.
  - intros k s. apply delete_subseteq.
  - intros k s n _. apply lookup_delete_eq.
  - done.
Defined.

Definition value : CacheValue := mkCacheValue "https://example.org/" None true (Some 3%Z).
Definition calls : list CacheCall := [call_set "abc" value None].
End DemoRedis.

Lemma redis_cache_sound_witness :
  ∃ k w ttl, call_set k w ttl ∈ DemoRedis.calls ∧
    c_str (RedisCache.FullKey "link:" k) = c_str (RedisCache.FullKey "link:" "abc") ∧
    DeserializeCacheValue (c_str (SerializeCacheValue w)) = Some DemoRedis.value.
Proof.
  refine (proj2 (redis_cache_sound "link:" None RedisCache.ctx_absent (∅ : gmap str str) DemoRedis.calls "abc" DemoRedis.value
    CacheError.none _ eq_refl _)). vm_compute. reflexivity.
Defined.

(** ** The fixed-window limiter *)
Module RedisLimiter.

(** A counter of the server: its value and the time it expires, in milliseconds. *)
Record Counter := mkCounter { c_value : Z; c_expires : option Z }.

Definition ComposeKey (prefix scope id : str) : str := prefix ++ scope ++ ":"%char :: id.

Section script.
(** [TTL] rounds the remaining time to seconds; [lua_number] is the conversion of
    an integer to a number of the script language; [string_integer] is the field
    [integer] of a reply that is a string. *)
Context (ttl_seconds : Z → Z) (lua_number : Z → Z) (string_integer : Z).

Abbreviation Keys := (gmap str Counter).

(** A key past its expiry is gone. *)
Definition live (now : Z) (keys : Keys) (key : str) : option Counter :=
  c ← keys !! key;
  match c_expires c with
  | Some t => if (t <=? now)%Z then None else Some c
  | None => Some c
  end.

(** The elements of the answer: the third is the text of the second argument when
    [TTL] is negative. *)
Inductive Element := element_integer (n : Z) | element_string (s : str).

Definition integer (e : Element) : Z := match e with element_integer n => n | element_string _ => string_integer end.

(** [kFixedWindowScript]: [INCR], [EXPIRE] on the first call, [TTL], and the
    comparison. [INCR] refuses to pass the largest 64-bit value and [EXPIRE]
    refuses a time past it; the script then stops with an error and what it
    wrote stays. *)
Definition fixed_window_script (now : Z) (key : str) (limit window : Z) (keys : Keys) :
    option (Element * Element * Element) * Keys :=
  let before := default (mkCounter 0 None) (live now keys key) in
  if (c_value before =? 2 ^ 63 - 1)%Z then (None, keys) else
  let value := (c_value before + 1)%Z in
  let current := lua_number value in
  if (current =? 1)%Z && (2 ^ 63 <=? now + window * 1000)%Z then (None, <[key := mkCounter value (c_expires before)]> keys) else
  let counter := mkCounter value (if (current =? 1)%Z then Some (now + window * 1000)%Z else c_expires before) in
  let ttl := match c_expires counter with Some t => ttl_seconds (t - now)%Z | None => (-1)%Z end in
  let ttl := if (ttl <? 0)%Z then element_string (dec window) else element_integer ttl in
  (Some (element_integer (if (current <=? lua_number limit)%Z then 1 else 0)%Z, element_integer current, ttl),
   <[key := counter]> keys).

(** What becomes of one call: whether a connection can be opened when one is
    needed, and whether the reply, or the command itself, is lost. *)
Inductive Delivery := delivered (server_now : Z) | lost_before | lost_after (server_now : Z).

Record Limiter := mkLimiter { ctx : RedisCache.Context_; keys : Keys }.

Definition EnsureConnected (connects : bool) (l : Limiter) : bool * Limiter :=
  match ctx l with
  | RedisCache.ctx_usable => (true, l)
  | _ => (connects, mkLimiter (if connects then RedisCache.ctx_usable else RedisCache.ctx_failed) (keys l))
  end.

Definition eval_command (redis_key : str) (limit window : Z) (d : Delivery) (l : Limiter) :
    option (Element * Element * Element) * Limiter :=
  match d with
  | delivered t => let '(r, ks) := fixed_window_script t redis_key limit window (keys l) in (r, mkLimiter (ctx l) ks)
  | lost_before => (None, mkLimiter RedisCache.ctx_failed (keys l))
  | lost_after t => (None, mkLimiter RedisCache.ctx_failed (fixed_window_script t redis_key limit window (keys l)).2)
  end.

Definition Allow (key_prefix scope key : str) (limit window now : Z) (connects : bool) (d : Delivery) (l : Limiter) :
    RateLimitDecision * RateLimitError.t * Limiter :=
  let refused := mkRateLimitDecision false 0 now in
  if bool_decide (key = []) then ((refused, RateLimitError.invalid_key), l)
  else if (window <=? 0)%Z then ((refused, RateLimitError.invalid_policy), l)
  else
    let '(connected, l) := EnsureConnected connects l in
    if negb connected then ((refused, RateLimitError.unavailable), l) else
    let redis_key := ComposeKey key_prefix scope key in
    match eval_command (c_str redis_key) limit window d l with
    | (None, l') => ((refused, RateLimitError.unavailable), l')
    | (Some (e0, e1, e2), l') =>
        let allowed := (integer e0 =? 1)%Z in
        let count := u64 (Z.max 0 (integer e1)) in
        let ttl := Z.max 0 (integer e2) in
        let remaining := if (limit =? 0)%Z || (limit <=? count)%Z then 0%Z else (limit - count)%Z in
        ((mkRateLimitDecision (allowed && (0 <? limit)%Z) remaining (wrap64 (now + ttl * ticks_per_second)),
          RateLimitError.none), l')
    end.

(** One call of a client: the client's time, whether a connection can be opened,
    and what becomes of the command. *)
Record Attempt := mkAttempt { a_now : Z; a_connects : bool; a_delivery : Delivery }.

Fixpoint run_window (key_prefix scope key : str) (limit window : Z) (attempts : list Attempt) (l : Limiter) :
    list (bool * RateLimitError.t) :=
  match attempts with
  | [] => []
  | a :: rest =>
      let '((d, e), l') := Allow key_prefix scope key limit window (a_now a) (a_connects a) (a_delivery a) l in
      (allowed d, e) :: run_window key_prefix scope key limit window rest l'
  end.

Definition count_allowed (answers : list (bool * RateLimitError.t)) : Z := Z.of_nat (length (filter (fun a => a.1 = true) answers)).

(** The server's times lie in the window that [t0] opens. *)
Definition in_window (t0 window : Z) (a : Attempt) : Prop :=
  match a_delivery a with
  | delivered t | lost_after t => (t0 ≤ t < t0 + window * 1000)%Z
  | lost_before => True
  end.

(** The call connects and its reply arrives. *)
Definition answered (a : Attempt) : bool := a_connects a && match a_delivery a with delivered _ => true | _ => false end.

(** [n] runs of the script have been made in the window that opened at or after [t0]. *)
Definition counted (t0 window : Z) (key : str) (n : Z) (ks : Keys) : Prop :=
  if (n =? 0)%Z then live t0 ks key = None
  else ∃ ex, (t0 + window * 1000 ≤ ex)%Z ∧ ks !! key = Some (mkCounter n (Some ex)).

Context (t0 limit window : Z) (key_prefix scope key : str).
Context (Hexact : ∀ n, (0 ≤ n ≤ 2 ^ 53)%Z → lua_number n = n).
Context (Hlimit : (0 < limit ≤ 2 ^ 53)%Z) (Hwindow : (0 < window)%Z) (Hend : (t0 + 2 * (window * 1000) < 2 ^ 63)%Z) (Hkey : key ≠ []).

Lemma live_later t ks k : (t0 ≤ t)%Z → live t0 ks k = None → live t ks k = None.
Proof.
  intros Ht. unfold live. destruct (ks !! k) as [[v [ex|]]|]; cbn; [|done|done].
  destruct (Z.leb_spec ex t0); [|done]. intros _. by destruct (Z.leb_spec ex t); [|lia].
Qed.

Lemma script_step t k ks n :
  (0 ≤ n < 2 ^ 53)%Z → (t0 ≤ t < t0 + window * 1000)%Z → counted t0 window k n ks →
  let '(r, ks') := fixed_window_script t k limit window ks in
  (∃ e, r = Some (element_integer (if (n + 1 <=? limit)%Z then 1 else 0)%Z, element_integer (n + 1)%Z, e)) ∧
  counted t0 window k (n + 1) ks'.
Proof.
  intros Hn Ht Hk. unfold fixed_window_script, counted in *. destruct (Z.eqb_spec (n + 1) 0); [lia|].
  destruct (Z.eqb_spec n 0) as [->|Hne].
  - rewrite (live_later t ks k) by (done || lia). cbn -[Z.leb Z.add Z.mul Z.ltb].
    rewrite !Hexact by lia. destruct (Z.leb_spec (2 ^ 63) (t + window * 1000)); [lia|].
    cbn -[Z.leb Z.add Z.mul Z.ltb]. split; [by eexists|]. exists (t + window * 1000)%Z. rewrite lookup_insert_eq. split; [lia|done].
  - destruct Hk as (ex & Hex & Hk). unfold live. rewrite Hk. cbn -[Z.leb Z.add Z.mul Z.ltb Z.eqb Z.pow Z.sub].
    destruct (Z.leb_spec ex t); [lia|]. cbn -[Z.leb Z.add Z.mul Z.ltb Z.eqb Z.pow Z.sub].
    destruct (Z.eqb_spec n (2 ^ 63 - 1)); [lia|]. rewrite !Hexact by lia. destruct (Z.eqb_spec (n + 1) 1); [lia|].
    cbn -[Z.leb Z.add Z.mul Z.ltb Z.eqb Z.pow Z.sub]. split; [by eexists|]. exists ex. by rewrite lookup_insert_eq.
Qed.

(** One call: either the script does not run and the call is refused, or it runs,
    and the call is allowed at most when the limit is not passed. *)
Lemma Allow_step a l n :
  (0 ≤ n < 2 ^ 53)%Z → in_window t0 window a → counted t0 window (c_str (ComposeKey key_prefix scope key)) n (keys l) →
  let '((d, e), l') := Allow key_prefix scope key limit window (a_now a) (a_connects a) (a_delivery a) l in
  (answered a = false ∧ allowed d = false ∧ e = RateLimitError.unavailable ∧
    ∃ m, (n ≤ m ≤ n + 1)%Z ∧ counted t0 window (c_str (ComposeKey key_prefix scope key)) m (keys l')) ∨
  (allowed d = (n + 1 <=? limit)%Z ∧ remaining d = Z.max 0 (limit - (n + 1)) ∧ e = RateLimitError.none ∧
    counted t0 window (c_str (ComposeKey key_prefix scope key)) (n + 1) (keys l')).
Proof.
  intros Hn Ha Hc. unfold Allow. rewrite bool_decide_eq_false_2 by done. destruct (Z.leb_spec window 0); [lia|].
  destruct (EnsureConnected (a_connects a) l) as [connected l1] eqn:E.
  assert (Hl1 : keys l1 = keys l) by (unfold EnsureConnected in E; destruct (ctx l); by simplify_eq).
  rewrite <- Hl1 in Hc. destruct connected; cbn [negb].
  2: { left. unfold EnsureConnected in E. unfold answered. destruct (ctx l), (a_connects a); simplify_eq; naive_solver lia. }
  unfold eval_command, in_window, answered in *. destruct (a_delivery a) as [t| |t].
  - pose proof (script_step t _ _ n Hn Ha Hc) as Hs. destruct (fixed_window_script _ _ _ _ _) as [r ks].
    destruct Hs as ((e & ->) & Hc'). right. cbn -[Z.leb Z.add Z.mul Z.ltb Z.eqb Z.pow Z.sub Z.max].
    destruct (Z.ltb_spec 0 limit); [|lia]. destruct (Z.eqb_spec limit 0); [lia|]. rewrite Z.max_r by lia.
    unfold u64. rewrite Z.mod_small by lia. rewrite andb_true_r. cbn [orb].
    split_and!; [by destruct (n + 1 <=? limit)%Z|destruct (Z.leb_spec limit (n + 1)); lia|done|done].
  - left. rewrite andb_false_r. cbn. naive_solver lia.
  - pose proof (script_step t _ _ n Hn Ha Hc) as Hs. destruct (fixed_window_script _ _ _ _ _) as [r ks].
    destruct Hs as (_ & Hc'). left. rewrite andb_false_r. cbn. split_and!; [done|done|done|]. exists (n + 1)%Z. split; [lia|done].
Qed.

Lemma run_window_bounded attempts l n :
  (0 ≤ n)%Z → (n + Z.of_nat (length attempts) ≤ 2 ^ 53)%Z → Forall (in_window t0 window) attempts →
  counted t0 window (c_str (ComposeKey key_prefix scope key)) n (keys l) →
  (count_allowed (run_window key_prefix scope key limit window attempts l) ≤ Z.max 0 (limit - n))%Z.
Proof.
  revert l n. induction attempts as [|a attempts IH]; intros l n Hn Hlen Hw Hc; [apply Z.le_max_l|].
  inversion Hw; subst. cbn [length] in Hlen. cbn [run_window]. pose proof (Allow_step a l n) as Hs.
  destruct (Allow _ _ _ _ _ _ _ _ _) as [[d e] l']. unfold count_allowed. rewrite filter_cons. cbn [fst].
  destruct Hs as [(_ & -> & _ & m & Hm & Hc')|(-> & _ & _ & Hc')]; [lia|done|done| |].
  - case_decide; [done|]. etrans; [apply (IH l' m); [lia|lia|done|done]|lia].
  - assert (IH' := IH l' (n + 1)%Z ltac:(lia) ltac:(lia) ltac:(done) Hc'). unfold count_allowed in IH'.
    case_decide as Hd; [apply Z.leb_le in Hd; cbn [length]|]; lia.
Qed.

Lemma run_window_exact attempts l n :
  (0 ≤ n)%Z → (n + Z.of_nat (length attempts) ≤ 2 ^ 53)%Z → Forall (in_window t0 window) attempts →
  Forall (fun a => answered a = true) attempts →
  counted t0 window (c_str (ComposeKey key_prefix scope key)) n (keys l) →
  run_window key_prefix scope key limit window attempts l
  = imap (fun i _ => ((n + Z.of_nat i + 1 <=? limit)%Z, RateLimitError.none)) attempts.
Proof.
  revert l n. induction attempts as [|a attempts IH]; intros l n Hn Hlen Hw Ha Hc; [done|].
  inversion Hw; inversion Ha; subst. cbn [length] in Hlen. cbn [run_window imap]. pose proof (Allow_step a l n) as Hs.
  destruct (Allow _ _ _ _ _ _ _ _ _) as [[d e] l'].
  destruct Hs as [(? & _)|(-> & _ & -> & Hc')]; [lia|done|done|congruence|].
  rewrite (IH l' (n + 1)%Z) by (done || lia). f_equal; [by rewrite Z.add_0_r|].
  apply imap_ext. intros i x _. cbn. do 2 f_equal. lia.
Qed.
End script.

(** C23: the limiter never exceeds its limit, whatever the network does. Take a key
    with no counter alive at [t0] and any sequence of calls whose commands reach
    the server before [t0 + window], where connections fail and commands and
    replies are lost at will. At most [limit] of the calls are allowed; and when
    nothing is lost, exactly the first [limit] calls are. The script's numbers are
    exact up to 2^53. *)
Theorem redis_limiter_bounded ttl_seconds lua_number string_integer t0 limit window key_prefix scope key attempts l :
  (∀ n, (0 ≤ n ≤ 2 ^ 53)%Z → lua_number n = n) →
  (0 < limit ≤ 2 ^ 53)%Z → (0 < window)%Z → (t0 + 2 * (window * 1000) < 2 ^ 63)%Z → key ≠ [] →
  (Z.of_nat (length attempts) ≤ 2 ^ 53)%Z → Forall (in_window t0 window) attempts →
  live t0 (keys l) (c_str (ComposeKey key_prefix scope key)) = None →
  let answers := run_window ttl_seconds lua_number string_integer key_prefix scope key limit window attempts l in
  (count_allowed answers ≤ limit)%Z ∧
  (Forall (fun a => answered a = true) attempts →
   answers = imap (fun i _ => ((Z.of_nat i <? limit)%Z, RateLimitError.none)) attempts).
Proof.
  intros Hexact Hlimit Hwindow Hend Hkey Hlen Hw Hlive answers. split.
  - etrans; [eapply run_window_bounded with (t0 := t0) (n := 0%Z); (done || lia)|lia].
  - intros Ha. unfold answers. rewrite (run_window_exact _ _ _ t0) with (n := 0%Z) by (done || lia).
    apply imap_ext. intros i x _. f_equal. destruct (Z.leb_spec (0 + Z.of_nat i + 1) limit), (Z.ltb_spec (Z.of_nat i) limit); lia.
Qed.

(** A lost reply uses up a place: three calls under a limit of two, one answer. *)
Definition demo_attempts : list Attempt :=
  [mkAttempt 0 true (lost_after 10); mkAttempt 1 true (delivered 20); mkAttempt 2 true (delivered 30)].

Lemma redis_limiter_bounded_witness :
  let run := run_window (fun ms => ms / 1000)%Z (fun n => n) 0 "rl:" "redirect" "10.0.0.1" 2 60 demo_attempts (mkLimiter RedisCache.ctx_absent ∅) in
  run = [(false, RateLimitError.unavailable); (true, RateLimitError.none); (false, RateLimitError.none)] ∧ (count_allowed run ≤ 2)%Z.
Proof.
  split; [vm_compute; reflexivity|].
  refine (proj1 (redis_limiter_bounded (fun ms => ms / 1000)%Z (fun n => n) 0 0 2 60 "rl:" "redirect" "10.0.0.1" demo_attempts
    (mkLimiter RedisCache.ctx_absent ∅) _ _ _ _ _ _ _ _)); try done; [repeat constructor; cbn; lia].
Defined.
End RedisLimiter.
