(* ===== verification/TlsContext.v ===== *)
(** * TlsContext: building and reloading the TLS context

    [HttpServer::buildTlsContext] (src/http/http_server.cpp) with the checks of
    src/http/request_handlers.cpp: [configureTlsVersion],
    [validatePrivateKeyFilePermissions] and [certExpiryDaysRemaining]. What the
    file system and OpenSSL answer during one call is a record of answers: files
    may be replaced between two calls, which is what a reload is for. *)
From S2P Require Import Prelude Text Types Cli.
#[local] Open Scope Z_scope.

(** ** Answers of the platform *)
Record TlsAnswers := mkTlsAnswers {
  key_permissions : option Z;
  ciphersuites_known : str → bool;
  cipher_list_known : str → bool;
  groups_known : str → bool;
  certificate_text : option str;
  private_key_text : option str → option str;
  ca_file_text : str → option str;
  ca_path_readable : str → bool;
  key_fits : str → str → bool;
  certificate_opens : bool;
  certificate_parses : bool;
  certificate_days : option Z;
}.

(** The messages of the exceptions; [library_error] is thrown by Boost or the
    file system. *)
Inductive TlsFault := runtime_error (message : str) | library_error.

Abbreviation Checked A := (TlsFault + A)%type.

#[export] Instance Checked_bind : MBind (sum TlsFault) :=
  fun A B k m => match m with inl f => inl f | inr a => k a end.

Definition ensure (b : bool) (f : TlsFault) : Checked unit := if b then inr tt else inl f.
Definition found {A} (o : option A) : Checked A := match o with Some a => inr a | None => inl library_error end.

(** ** The context *)
Inductive TlsVersion := TLS1_2 | TLS1_3.
#[export] Instance TlsVersion_eq_dec : EqDecision TlsVersion.
Proof. solve_decision. Defined.

Definition version_number (v : TlsVersion) : Z := match v with TLS1_2 => 771 | TLS1_3 => 772 end.

Inductive SslOption :=
  | default_workarounds | no_sslv2 | no_sslv3 | no_tlsv1 | no_tlsv1_1 | single_dh_use | op_no_ticket.
#[export] Instance SslOption_eq_dec : EqDecision SslOption.
Proof. solve_decision. Defined.

Inductive VerifyFlag := verify_peer | verify_fail_if_no_peer_cert.
#[export] Instance VerifyFlag_eq_dec : EqDecision VerifyFlag.
Proof. solve_decision. Defined.

Inductive CacheMode := SSL_SESS_CACHE_SERVER | SSL_SESS_CACHE_OFF.

Record SslContext := mkSslContext {
  x_options : list SslOption;
  x_min_proto : TlsVersion;
  x_max_proto : TlsVersion;
  x_cipher_suites : str;
  x_ciphers : str;
  x_groups : option str;
  x_cache_mode : CacheMode;
  x_certificate : str;
  x_private_key : str;
  x_trusted_file : option str;
  x_trusted_path : option str;
  x_verify : list VerifyFlag;
}.

(** ** The parts of [buildTlsContext] *)

(** [configureTlsVersion]: the smallest and the largest version. *)
Definition configureTlsVersion (min_version : str) : TlsVersion * TlsVersion :=
  (if bool_decide (min_version = "TLS1.3") then TLS1_3 else TLS1_2, TLS1_3).

(** The bits of [std::filesystem::perms]. [status] of a missing file does not
    throw: its permissions are [perms::unknown], all sixteen bits set. *)
Definition group_read : Z := 32.
Definition others_read : Z := 4.
Definition perms_unknown : Z := 65535.

Definition validatePrivateKeyFilePermissions (key_file : str) (permissions : option Z) : Checked unit :=
  perms ← found permissions;
  let group_readable := negb (Z.land perms group_read =? 0) in
  let others_readable := negb (Z.land perms others_read =? 0) in
  ensure (negb (group_readable || others_readable))
    (runtime_error (("Private key file is too permissive (group/others readable): " : str) ++ key_file)).

Definition certExpiryDaysRemaining (cert_path : str) (a : TlsAnswers) : Checked Z :=
  _ ← ensure (certificate_opens a) (runtime_error (("Cannot open certificate file: " : str) ++ cert_path));
  _ ← ensure (certificate_parses a) (runtime_error (("Cannot parse certificate file: " : str) ++ cert_path));
  match certificate_days a with
  | None => inl (runtime_error (("Cannot calculate certificate expiry for: " : str) ++ cert_path))
  | Some days => inr (Z.max days 0)
  end.

Definition verify_mode (mode : ClientAuthMode) : list VerifyFlag :=
  match mode with
  | auth_none => []
  | auth_optional => [verify_peer]
  | auth_required => [verify_peer; verify_fail_if_no_peer_cert]
  end.

Definition base_options : list SslOption :=
  [default_workarounds; no_sslv2; no_sslv3; no_tlsv1; no_tlsv1_1; single_dh_use].

(** The results of [SSL_CTX_set1_groups_list] and [SSL_CTX_load_verify_locations]
    are not looked at: when they fail the context keeps what it had. *)
Definition buildTlsContext (t : TlsFiles) (a : TlsAnswers) : Checked SslContext :=
  _ ← ensure (negb (bool_decide (certificate_chain_file t = []) || bool_decide (private_key_file t = [])))
        (runtime_error "TLS enabled but certificate or key file is missing");
  _ ← validatePrivateKeyFilePermissions (private_key_file t) (key_permissions a);
  let '(min_proto, max_proto) := configureTlsVersion (min_version t) in
  _ ← ensure (ciphersuites_known a (cipher_suites t)) (runtime_error "Failed to set TLS 1.3 cipher suites");
  _ ← ensure (cipher_list_known a (ciphers t)) (runtime_error "Failed to set TLS 1.2 cipher list");
  let groups := if groups_known a (curves t) then Some (curves t) else None in
  let options := base_options ++ (if session_tickets t then [] else [op_no_ticket]) in
  let mode := if session_cache t then SSL_SESS_CACHE_SERVER else SSL_SESS_CACHE_OFF in
  certificate ← found (certificate_text a);
  key ← found (private_key_text a (private_key_passphrase t));
  _ ← ensure (key_fits a certificate key) (runtime_error "Certificate and private key do not match");
  trusted ← match ca_file t with
            | Some f => text ← found (ca_file_text a f); inr (Some text)
            | None => inr None
            end;
  let path := match ca_path t with Some p => if ca_path_readable a p then Some p else None | None => None end in
  inr (mkSslContext options min_proto max_proto (cipher_suites t) (ciphers t) groups mode certificate key trusted path
         (verify_mode (client_auth_mode t))).

(** ** What a built context guarantees *)

(** A client may use a version when it lies in the bounds and no option forbids
    it. Versions by their wire number: SSL 3.0 is 768, TLS 1.0 is 769. *)
Definition version_forbidden (options : list SslOption) (v : Z) : bool :=
  ((v =? 2) && bool_decide (no_sslv2 ∈ options)) || ((v =? 768) && bool_decide (no_sslv3 ∈ options))
  || ((v =? 769) && bool_decide (no_tlsv1 ∈ options)) || ((v =? 770) && bool_decide (no_tlsv1_1 ∈ options)).

Definition version_offered (c : SslContext) (v : Z) : bool :=
  (version_number (x_min_proto c) <=? v) && (v <=? version_number (x_max_proto c)) && negb (version_forbidden (x_options c) v).

Definition key_protected (perms : Z) : Prop := Z.testbit perms 5 = false ∧ Z.testbit perms 2 = false.

Lemma land_bit p i : 0 ≤ i → Z.land p (2 ^ i) = 0 ↔ Z.testbit p i = false.
Proof.
  intros Hi. split.
  - intros H. assert (Ht : Z.testbit (Z.land p (2 ^ i)) i = false) by by rewrite H, Z.bits_0.
    rewrite Z.land_spec, Z.pow2_bits_true, andb_true_r in Ht by lia. done.
  - intros H. apply Z.bits_inj'. intros j Hj. rewrite Z.land_spec, Z.bits_0.
    destruct (decide (j = i)) as [->|]; [by rewrite H|]. rewrite Z.pow2_bits_false by lia. apply andb_false_r.
Qed.

Lemma ensure_ok b f u : ensure b f = inr u ↔ b = true.
Proof. destruct b, u; naive_solver. Qed.

Lemma found_ok {A} (o : option A) a : found o = inr a ↔ o = Some a.
Proof. destruct o; naive_solver. Qed.

Lemma checked_bind {A B} (m : Checked A) (k : A → Checked B) b :
  (m ≫= k) = inr b ↔ ∃ a, m = inr a ∧ k a = inr b.
Proof. destruct m; naive_solver. Qed.

Lemma permissions_ok key p :
  validatePrivateKeyFilePermissions key p = inr tt ↔ ∃ perms, p = Some perms ∧ key_protected perms.
Proof.
  unfold validatePrivateKeyFilePermissions. rewrite checked_bind. setoid_rewrite found_ok. setoid_rewrite ensure_ok.
  setoid_rewrite negb_true_iff. setoid_rewrite orb_false_iff. setoid_rewrite negb_false_iff. setoid_rewrite Z.eqb_eq.
  unfold key_protected, group_read, others_read. change 32 with (2 ^ 5). change 4 with (2 ^ 2).
  by setoid_rewrite land_bit; [|lia|lia].
Qed.

(** What OpenSSL makes of the verify flags: a server that verifies asks the client
    for a certificate and refuses one it cannot verify; whether it refuses a client
    without one is up to the second flag. *)
Inductive ClientCertificate := certificate_absent | certificate_trusted | certificate_untrusted.

Definition asks_certificate (c : SslContext) : bool := bool_decide (verify_peer ∈ x_verify c).

Definition client_admitted (c : SslContext) (presented : ClientCertificate) : bool :=
  negb (asks_certificate c) ||
  match presented with
  | certificate_absent => negb (bool_decide (verify_fail_if_no_peer_cert ∈ x_verify c))
  | certificate_trusted => true
  | certificate_untrusted => false
  end.

(** The configuration a context was built from shows in it. *)
Record context_ok (t : TlsFiles) (c : SslContext) : Prop := {
  ok_versions v : version_offered c v = true → v = 771 ∨ v = 772;
  ok_min : min_version t = ("TLS1.3" : str) → version_offered c 771 = false;
  ok_usable : version_offered c 772 = true;
  ok_asks : asks_certificate c = true ↔ client_auth_mode t ≠ auth_none;
  ok_admits presented : client_admitted c presented = true ↔
    (client_auth_mode t = auth_required → presented = certificate_trusted) ∧
    (client_auth_mode t = auth_optional → presented ≠ certificate_untrusted);
  ok_ciphers : x_cipher_suites c = cipher_suites t ∧ x_ciphers c = ciphers t;
  ok_tickets : op_no_ticket ∈ x_options c ↔ session_tickets t = false;
}.

(** Everything [buildTlsContext] checks. *)
Definition tls_in_order (t : TlsFiles) (a : TlsAnswers) : Prop :=
  certificate_chain_file t ≠ [] ∧ private_key_file t ≠ [] ∧
  (∃ perms, key_permissions a = Some perms ∧ key_protected perms) ∧
  ciphersuites_known a (cipher_suites t) = true ∧ cipher_list_known a (ciphers t) = true ∧
  (∃ cert key, certificate_text a = Some cert ∧ private_key_text a (private_key_passphrase t) = Some key ∧
     key_fits a cert key = true) ∧
  (∀ f, ca_file t = Some f → is_Some (ca_file_text a f)).

Lemma offered_versions c v :
  x_max_proto c = TLS1_3 → version_offered c v = true → v = 771 ∨ v = 772.
Proof.
  unfold version_offered. intros Hmax. rewrite Hmax, !andb_true_iff, !Z.leb_le. cbn [version_number].
  intros [[Hmin Hv] _]. destruct (x_min_proto c); cbn in Hmin; lia.
Qed.

Lemma buildTlsContext_inv t a c : buildTlsContext t a = inr c → tls_in_order t a ∧ context_ok t c.
Proof.
  unfold buildTlsContext, tls_in_order. destruct (configureTlsVersion (min_version t)) as [lo hi] eqn:Hv.
  intros ([] & Hfiles%ensure_ok & H)%checked_bind. apply checked_bind in H as ([] & Hp%permissions_ok & H).
  apply checked_bind in H as ([] & Hcs%ensure_ok & H). apply checked_bind in H as ([] & Hcl%ensure_ok & H).
  apply checked_bind in H as (cert & Hcert%found_ok & H). apply checked_bind in H as (key & Hkey%found_ok & H).
  apply checked_bind in H as ([] & Hfit%ensure_ok & H). apply checked_bind in H as (trusted & Hca & [= <-]).
  apply negb_true_iff, orb_false_iff in Hfiles as [Hc%bool_decide_eq_false Hk%bool_decide_eq_false].
  unfold configureTlsVersion in Hv. injection Hv as <- <-. split.
  - split_and!; try done; [by exists cert, key|]. intros f Hf. rewrite Hf in Hca.
    apply checked_bind in Hca as (text & Ht%found_ok & _). by exists text.
  - split; [intros v; by apply offered_versions| | | | |done|].
    + intros ->. done.
    + unfold version_offered. cbn. by case_bool_decide.
    + cbn. destruct (client_auth_mode t); vm_compute; naive_solver.
    + intros presented. unfold client_admitted, asks_certificate. cbn.
      destruct (client_auth_mode t), presented; vm_compute; naive_solver.
    + cbn. destruct (session_tickets t); split; try done; set_solver.
Qed.

Lemma buildTlsContext_total t a : tls_in_order t a → ∃ c, buildTlsContext t a = inr c.
Proof.
  intros (Hc & Hk & Hp & Hcs & Hcl & (cert & key & Hcert & Hkey & Hfit) & Hca). unfold buildTlsContext.
  apply permissions_ok with (key := private_key_file t) in Hp.
  rewrite !bool_decide_eq_false_2 by done. cbn [orb negb ensure mbind Checked_bind]. rewrite Hp. cbn [mbind Checked_bind].
  destruct (configureTlsVersion _) as [lo hi]. rewrite Hcs, Hcl. cbn [ensure mbind Checked_bind]. rewrite Hcert, Hkey. cbn [found mbind Checked_bind]. rewrite Hfit.
  cbn [ensure mbind Checked_bind]. destruct (ca_file t) as [f|]; [|by eexists].
  destruct (Hca f eq_refl) as [text ->]. by eexists.
Qed.


(** A missing key file is reported as one with too many permissions. *)
Lemma missing_key_reported_permissive key :
  validatePrivateKeyFilePermissions key (Some perms_unknown)
  = inl (runtime_error (("Private key file is too permissive (group/others readable): " : str) ++ key)).
Proof. done. Qed.
