(* ===== verification/Listener.v ===== *)
(** * Listener: the life of the server process

    [HttpServer] (src/http/http_server.cpp), the sessions' asynchronous steps
    (src/http/http_session.cpp) and the serving half of [main] (src/main.cpp) as
    handlers on one process state, and the event loop as a step relation: each
    step is the completion of one pending operation (an accept, a handshake, a
    read, a write, a shutdown, a signal). The loop runs on one thread, so a
    handler is never interrupted. *)
From S2P Require Import Prelude Text Env Clock Types Json Validation LinkRepository LinkStore LinkCommands LinkLifecycle.
From S2P Require Import ClickEvents LinkJson UriMap Router Server LinkHandlers RedirectHandlers HttpServer HttpInvariants HttpBehaviour.
From S2P Require Import Cli TlsContext.

(** ** State *)
Inductive Acceptor := acceptor_absent | acceptor_open | acceptor_closed.
#[export] Instance Acceptor_eq_dec : EqDecision Acceptor.
Proof. solve_decision. Defined.

(** Where a session stands. [refused] and [dropped] are the early returns after a
    failed handshake and a failed read. *)
Inductive Phase :=
  | handshaking | refused | reading | dropped | writing (res : Response) | closing (res : Response) | ended (res : Response).

(** A TLS session holds the context it was made with; a plain one has none. *)
Record Session := mkSession { se_context : option SslContext; se_phase : Phase }.

Record Process := mkProcess {
  p_server : Server;
  p_http : Acceptor;
  p_https : Acceptor;
  p_tls : option SslContext;
  p_success : Z;
  p_failure : Z;
  p_sessions : list Session;
  p_waiting : bool;
  p_running : bool;
  p_file : option str;
}.

Definition set_server (s : Server) (p : Process) : Process :=
  mkProcess s (p_http p) (p_https p) (p_tls p) (p_success p) (p_failure p) (p_sessions p) (p_waiting p) (p_running p) (p_file p).
Definition on_server {A} (m : ST Server A) (p : Process) : A * Process :=
  ((m (p_server p)).1, set_server (m (p_server p)).2 p).
Definition set_http (h : Acceptor) (p : Process) : Process :=
  mkProcess (p_server p) h (p_https p) (p_tls p) (p_success p) (p_failure p) (p_sessions p) (p_waiting p) (p_running p) (p_file p).
Definition set_https (h : Acceptor) (p : Process) : Process :=
  mkProcess (p_server p) (p_http p) h (p_tls p) (p_success p) (p_failure p) (p_sessions p) (p_waiting p) (p_running p) (p_file p).
Definition set_tls (c : SslContext) (p : Process) : Process :=
  mkProcess (p_server p) (p_http p) (p_https p) (Some c) (p_success p) (p_failure p) (p_sessions p) (p_waiting p) (p_running p) (p_file p).
Definition set_sessions (ss : list Session) (p : Process) : Process :=
  mkProcess (p_server p) (p_http p) (p_https p) (p_tls p) (p_success p) (p_failure p) ss (p_waiting p) (p_running p) (p_file p).
Definition count_success (p : Process) : Process :=
  mkProcess (p_server p) (p_http p) (p_https p) (p_tls p) (u64 (p_success p + 1)) (p_failure p) (p_sessions p) (p_waiting p) (p_running p) (p_file p).
Definition count_failed (p : Process) : Process :=
  mkProcess (p_server p) (p_http p) (p_https p) (p_tls p) (p_success p) (u64 (p_failure p + 1)) (p_sessions p) (p_waiting p) (p_running p) (p_file p).

Definition set_phase (i : nat) (ph : Phase) (p : Process) : Process :=
  set_sessions (alter (fun se => mkSession (se_context se) ph) i (p_sessions p)) p.
Definition open_session (se : Session) (p : Process) : Process := set_sessions (p_sessions p ++ [se]) p.

(** [logStructured], and a line written by the logger itself: both read the clock. *)
Definition log_structured (p : Process) : Process := (on_server (with_env logStructured) p).2.
Definition log_line (p : Process) : Process := (on_server (with_env (_ ← system_now; mret tt)) p).2.

Definition add_reload_success (m : Metrics) : Metrics :=
  mkMetrics (inflight_requests m) (parse_errors_total m) (malformed_requests_total m)
    (u64 (tls_reload_success_total m + 1)) (tls_reload_failure_total m) (http_requests_total m).
Definition add_reload_failure (m : Metrics) : Metrics :=
  mkMetrics (inflight_requests m) (parse_errors_total m) (malformed_requests_total m)
    (tls_reload_success_total m) (u64 (tls_reload_failure_total m + 1)) (http_requests_total m).

Section process.
(** [config] is the configuration [main] serves, its base domain normalised. *)
Context (P : Platform) (iterate : UriData → list (str * (str * str))) (config : CliConfig).

(** ** Sessions *)

(** The constructor of a session and its [run]. *)
Definition PlainSession_run (p : Process) : Process := open_session (mkSession None reading) p.
Definition TlsSession_run (context : SslContext) (p : Process) : Process :=
  open_session (mkSession (Some context) handshaking) p.

Definition onHandshake (i : nat) (ok : bool) (p : Process) : Process :=
  if negb ok then log_structured (set_phase i refused (count_failed p))
  else set_phase i reading (log_structured (count_success p)).

(** [onRead] of either session; the response is then being written. *)
Definition session_read (i : nat) (incoming : option Request) (p : Process) : Process :=
  match p_sessions p !! i with
  | None => p
  | Some se =>
      let handler := match se_context se with
                     | None => PlainSession_onRead P (cc_server config) incoming
                     | Some _ => TlsSession_onRead P (cc_server config) incoming
                     end in
      let '(answer, p') := on_server handler p in
      set_phase i (match answer with None => dropped | Some res => writing res end) p'
  end.

(** [PlainSession::onWrite] ends the session, [TlsSession::onWrite] starts the
    TLS shutdown. *)
Definition PlainSession_onWrite (i : nat) (res : Response) (p : Process) : Process := set_phase i (ended res) p.
Definition TlsSession_onWrite (i : nat) (res : Response) (p : Process) : Process := set_phase i (closing res) p.
Definition onShutdown (i : nat) (res : Response) (p : Process) : Process := set_phase i (ended res) p.

(** ** [HttpServer] *)

(** The accept handlers; both start the next accept whatever the outcome. The
    result is absent when the context that [TlsSession] dereferences is null. *)
Definition accept_http (ok : bool) (p : Process) : Process := if ok then PlainSession_run p else p.
Definition accept_https (ok : bool) (p : Process) : option Process :=
  if ok then match p_tls p with Some c => Some (TlsSession_run c p) | None => None end else Some p.

(** What binding the two ports and reading the TLS files answers. *)
Record RunAnswers := mkRunAnswers { http_binds : bool; https_binds : bool; tls_answers : TlsAnswers }.

Definition run_http (r : RunAnswers) (p : Process) : Checked Process :=
  if http_enabled config then
    _ ← ensure (http_binds r) library_error;
    inr (log_structured (set_http acceptor_open p))
  else inr p.

Definition run_https (r : RunAnswers) (p : Process) : Checked Process :=
  if tls_enabled (cc_server config) then
    context ← buildTlsContext (cc_tls config) (tls_answers r);
    let p := set_tls context p in
    _ ← certExpiryDaysRemaining (certificate_chain_file (cc_tls config)) (tls_answers r);
    let p := log_structured p in
    _ ← ensure (https_binds r) library_error;
    inr (log_structured (set_https acceptor_open p))
  else inr p.

Definition run (r : RunAnswers) (p : Process) : Checked Process := run_http r p ≫= run_https r.

Definition close_acceptor (a : Acceptor) : Acceptor := match a with acceptor_absent => acceptor_absent | _ => acceptor_closed end.

Definition stop (p : Process) : Process :=
  log_structured (set_https (close_acceptor (p_https p)) (set_http (close_acceptor (p_http p)) p)).

Definition reloadTlsContext (a : TlsAnswers) (p : Process) : Checked unit * Process :=
  if negb (tls_enabled (cc_server config)) then (inr tt, p) else
  match buildTlsContext (cc_tls config) a with
  | inr context =>
      let p := set_tls context p in
      let p := (on_server (update_metrics add_reload_success) p).2 in
      (inr tt, log_structured p)
  | inl fault => (inl fault, (on_server (update_metrics add_reload_failure) p).2)
  end.

(** ** [main] *)
Inductive Signal := SIGINT | SIGTERM | SIGHUP.

(** [UriMapSingleton::serialize]: nothing is written when the file cannot be opened. *)
Definition write_file (opens : bool) (p : Process) : Process :=
  log_line (mkProcess (p_server p) (p_http p) (p_https p) (p_tls p) (p_success p) (p_failure p) (p_sessions p) (p_waiting p) (p_running p)
    (if opens then Some (serialize iterate (s_uris (p_server p))) else p_file p)).

(** The signal handler: a reload waits for the next signal, the others end the loop. *)
Definition signal_handler (sig : Signal) (a : TlsAnswers) (opens : bool) (p : Process) : Process :=
  match sig with
  | SIGHUP => let '(r, p') := reloadTlsContext a p in
              match r with inr _ => p' | inl _ => log_line p' end
  | _ =>
      let p := write_file opens (stop p) in
      mkProcess (p_server p) (p_http p) (p_https p) (p_tls p) (p_success p) (p_failure p) (p_sessions p) false false (p_file p)
  end.

(** Start-up from the construction of the server to the first wait. An absent
    result is exit code 1, by the handler of [main] or by [deserialize]. *)
Definition load_uris (uri_file : option (bool * str)) : option UriData :=
  match uri_file with
  | Some (true, text) => deserialize text
  | _ => Some ∅
  end.

Definition boot (uri_file : option (bool * str)) (r : RunAnswers) (e : Env) : option Process :=
  uris ← load_uris uri_file;
  let p := mkProcess (server_start e uris) acceptor_absent acceptor_absent None 0 0 [] true true (snd <$> uri_file) in
  let p := log_line p in
  let p := match uri_file with Some _ => log_line (log_line p) | None => log_line p end in
  match run r p with inr p' => Some p' | inl _ => None end.

(** ** The event loop *)
Inductive event_step : relation Process :=
  | accepted_http ok p :
      p_running p = true → p_http p ≠ acceptor_absent → (ok = true → p_http p = acceptor_open) →
      event_step p (accept_http ok p)
  | accepted_https ok p p' :
      p_running p = true → p_https p ≠ acceptor_absent → (ok = true → p_https p = acceptor_open) →
      accept_https ok p = Some p' → event_step p p'
  | handshake_done i c ok p :
      p_running p = true → p_sessions p !! i = Some (mkSession (Some c) handshaking) → event_step p (onHandshake i ok p)
  | read_done i c incoming p :
      p_running p = true → p_sessions p !! i = Some (mkSession c reading) → event_step p (session_read i incoming p)
  | plain_write_done i res p :
      p_running p = true → p_sessions p !! i = Some (mkSession None (writing res)) → event_step p (PlainSession_onWrite i res p)
  | tls_write_done i c res p :
      p_running p = true → p_sessions p !! i = Some (mkSession (Some c) (writing res)) → event_step p (TlsSession_onWrite i res p)
  | shutdown_done i c res p :
      p_running p = true → p_sessions p !! i = Some (mkSession (Some c) (closing res)) → event_step p (onShutdown i res p)
  | signalled sig a opens p :
      p_running p = true → p_waiting p = true → event_step p (signal_handler sig a opens p).

(** ** The invariant *)
Definition count_if (f : Session → bool) (l : list Session) : Z := Z.of_nat (length (List.filter f l)).

Definition has_context (se : Session) : bool := match se_context se with Some _ => true | None => false end.
Definition handshaken (se : Session) : bool :=
  has_context se && match se_phase se with handshaking | refused => false | _ => true end.
Definition handshake_failed (se : Session) : bool :=
  has_context se && match se_phase se with refused => true | _ => false end.

(** A session belongs to an enabled listener, and a TLS session has a context as
    configured; a plain one never handshakes. *)
Definition session_sound (se : Session) : Prop :=
  match se_context se with
  | None => http_enabled config = true ∧
      match se_phase se with handshaking | refused | closing _ => False | _ => True end
  | Some c => tls_enabled (cc_server config) = true ∧ context_ok (cc_tls config) c
  end.

Record listener_ok (p : Process) : Prop := {
  lo_http : p_http p ≠ acceptor_absent → http_enabled config = true;
  lo_https : p_https p ≠ acceptor_absent → tls_enabled (cc_server config) = true ∧ is_Some (p_tls p);
  lo_tls c : p_tls p = Some c → context_ok (cc_tls config) c;
  lo_sessions : Forall session_sound (p_sessions p);
  lo_success : p_success p = u64 (count_if handshaken (p_sessions p));
  lo_failure : p_failure p = u64 (count_if handshake_failed (p_sessions p));
  lo_waiting : p_waiting p = p_running p;
}.

Record app_ok (s : Server) : Prop := {
  ao_wf : storage_wf (s_links s);
  ao_valid : map_Forall (fun _ => link_ok (cc_server config)) (link_table s);
  ao_idle : inflight_requests (s_metrics s) = 0%Z;
}.

Lemma count_if_snoc f l se : count_if f (l ++ [se]) = (count_if f l + if f se then 1 else 0)%Z.
Proof. unfold count_if. rewrite List.filter_app, length_app. simpl. destruct (f se); simpl; lia. Qed.

Lemma count_if_alter f g l i se :
  l !! i = Some se →
  count_if f (alter g i l) = (count_if f l - (if f se then 1 else 0) + (if f (g se) then 1 else 0))%Z.
Proof.
  unfold count_if. revert i. induction l as [|x l IH]; intros [|i]; simpl; [done|done| |].
  - intros [= ->]. destruct (f se), (f (g se)); simpl; lia.
  - intros Hi. specialize (IH i Hi). change (list_alter g i l) with (alter g i l) in *. destruct (f x); simpl; lia.
Qed.

Lemma u64_succ n : u64 (u64 n + 1) = u64 (n + 1).
Proof. unfold u64. by rewrite Zplus_mod_idemp_l. Qed.

(** Moving a session to another phase. *)
Lemma sessions_alter l i se ph :
  Forall session_sound l → l !! i = Some se → session_sound (mkSession (se_context se) ph) →
  Forall session_sound (alter (fun s => mkSession (se_context s) ph) i l).
Proof.
  intros Hl Hi Hs. apply Forall_alter; [done|]. intros x Hx. rewrite Hi in Hx. by injection Hx as <-.
Qed.

Lemma listener_server s p : listener_ok p → listener_ok (set_server s p).
Proof. intros []. by split. Qed.

Lemma listener_phase i se ph p :
  listener_ok p → p_sessions p !! i = Some se →
  handshaken (mkSession (se_context se) ph) = handshaken se →
  handshake_failed (mkSession (se_context se) ph) = handshake_failed se →
  session_sound (mkSession (se_context se) ph) →
  listener_ok (set_phase i ph p).
Proof.
  intros [] Hi Hh Hf Hs. split; cbn; try done; [by eapply sessions_alter| |];
    erewrite count_if_alter by done; rewrite ?Hh, ?Hf; etrans; try done; f_equal; lia.
Qed.

Lemma listener_open se p :
  listener_ok p → session_sound se → handshaken se = false → handshake_failed se = false → listener_ok (open_session se p).
Proof.
  intros [] Hs Hh Hf. split; cbn; try done; [by apply Forall_app_2; [|constructor]| |];
    rewrite count_if_snoc, ?Hh, ?Hf; etrans; try done; f_equal; lia.
Qed.

Lemma session_sound_at p i se : listener_ok p → p_sessions p !! i = Some se → session_sound se.
Proof. intros [] Hi. by eapply Forall_lookup_1. Qed.

Lemma listener_handshake i c ok p :
  listener_ok p → p_sessions p !! i = Some (mkSession (Some c) handshaking) → listener_ok (onHandshake i ok p).
Proof.
  intros Hp Hi. pose proof (session_sound_at _ _ _ Hp Hi) as Hs. destruct Hp. unfold onHandshake. destruct ok; cbn [negb].
  - split; cbn; try done; [by eapply sessions_alter| |]; erewrite count_if_alter by done; cbn.
    + rewrite lo_success0, u64_succ. f_equal. lia.
    + etrans; [done|]. f_equal. lia.
  - split; cbn; try done; [by eapply sessions_alter| |]; erewrite count_if_alter by done; cbn.
    + etrans; [done|]. f_equal. lia.
    + rewrite lo_failure0, u64_succ. f_equal. lia.
Qed.

Lemma listener_reload a p : listener_ok p → listener_ok (reloadTlsContext a p).2.
Proof.
  intros Hp. unfold reloadTlsContext. destruct (negb _); [done|].
  destruct (buildTlsContext (cc_tls config) a) as [f|c] eqn:E; [by apply listener_server|].
  apply buildTlsContext_inv in E as [_ Hc]. destruct Hp. split; cbn; try done.
  - intros H. split; [by apply lo_https0|by eexists].
  - by intros ? [= <-].
Qed.

Lemma event_step_listener p p' : event_step p p' → listener_ok p → listener_ok p'.
Proof.
  destruct 1 as [ok p Hr Ha Ho|ok p p' Hr Ha Ho E|i c ok p Hr Hi|i c incoming p Hr Hi|i res p Hr Hi|i c res p Hr Hi|i c res p Hr Hi
    |sig a opens p Hr Hw]; intros Hp.
  - destruct ok; [|done]. apply listener_open; try done. split; [by apply Hp|done].
  - unfold accept_https in E. destruct ok; [|by simplify_eq]. destruct (p_tls p) as [c|] eqn:Ec; simplify_eq.
    apply listener_open; try done. split; [by apply Hp|by apply Hp].
  - by eapply listener_handshake.
  - unfold session_read. rewrite Hi. cbn [se_context]. pose proof (session_sound_at _ _ _ Hp Hi) as Hs.
    unfold session_sound in Hs. cbn in Hs.
    eapply (listener_phase i (mkSession c reading)); [by apply listener_server|done|..]; destruct c; by destruct ((_ _).1).
  - pose proof (session_sound_at _ _ _ Hp Hi). by eapply listener_phase.
  - pose proof (session_sound_at _ _ _ Hp Hi). by eapply listener_phase.
  - pose proof (session_sound_at _ _ _ Hp Hi). by eapply listener_phase.
  - destruct sig; cbn -[reloadTlsContext].
    + destruct Hp. split; cbn; try done; intros H; [apply lo_http0|apply lo_https0]; by intros E; rewrite E in H.
    + destruct Hp. split; cbn; try done; intros H; [apply lo_http0|apply lo_https0]; by intros E; rewrite E in H.
    + apply (listener_reload a) in Hp. destruct (reloadTlsContext a p) as [[f|u] p']; [by apply listener_server|done].
Qed.

(** The application's side. *)
Lemma app_env {A} (m : ST Env A) s : app_ok s → app_ok (with_env m s).2.
Proof. intros []. unfold with_env. destruct (m (s_env s)). by split. Qed.

Lemma app_metrics f s :
  (∀ m, inflight_requests (f m) = inflight_requests m) → app_ok s → app_ok (update_metrics f s).2.
Proof. intros Hf []. split; cbn; try done. by rewrite Hf. Qed.

Lemma app_read tls incoming s :
  app_ok s → app_ok (onRead P (cc_server config) tls incoming s).2.
Proof.
  intros [Hwf Hv Hi]. destruct (http_step_spec P (cc_server config) s (onRead P (cc_server config) tls incoming s).2) as [Hb Hf].
  - destruct tls; constructor.
  - done.
  - unfold inflight. lia.
  - split; [apply Hb|by apply (br_valid _ _ _ Hb)|]. unfold inflight in Hf. by rewrite Hf.
Qed.

Lemma event_step_app p p' :
  event_step p p' → app_ok (p_server p) → app_ok (p_server p').
Proof.
  destruct 1 as [ok p|ok p p' ? ? ? E|i c ok p|i c incoming p Hr Hi|i res p|i c res p|i c res p|sig a opens p]; intros Hp.
  - by destruct ok.
  - unfold accept_https in E. destruct ok; [|by simplify_eq]. by destruct (p_tls p); simplify_eq.
  - destruct ok; by apply app_env.
  - unfold session_read. rewrite Hi. destruct c; by apply app_read.
  - done.
  - done.
  - done.
  - destruct sig; cbn -[reloadTlsContext logStructured]; try (by do 2 apply app_env).
    unfold reloadTlsContext. destruct (negb _); [done|].
    destruct (buildTlsContext _ _); cbn -[logStructured]; apply app_env; by apply app_metrics.
Qed.

(** Before [run]: no acceptor yet. *)
Definition not_listening (p : Process) : Prop :=
  listener_ok p ∧ app_ok (p_server p) ∧ p_running p = true ∧ p_http p = acceptor_absent ∧ p_https p = acceptor_absent.

Lemma not_listening_log p : not_listening p → not_listening (log_line p).
Proof. intros (? & ? & ? & ? & ?). unfold not_listening. split_and!; [by apply listener_server|by apply app_env|done|done|done]. Qed.

Lemma not_listening_start e uris file :
  not_listening (mkProcess (server_start e uris) acceptor_absent acceptor_absent None 0 0 [] true true file).
Proof.
  unfold not_listening. split_and!; try done; split; done.
Qed.

Lemma run_ok r p p' : not_listening p → run r p = inr p' → listener_ok p' ∧ app_ok (p_server p') ∧ p_running p' = true.
Proof.
  intros (Hp & Ha & Hr & Hh & Hs). unfold run. intros (p1 & H1 & H2)%checked_bind.
  assert (Hp1 : listener_ok p1 ∧ app_ok (p_server p1) ∧ p_running p1 = true ∧ p_https p1 = acceptor_absent).
  { unfold run_http in H1. destruct (http_enabled config) eqn:E; [|by simplify_eq].
    apply checked_bind in H1 as (_ & _ & [= <-]). split_and!; [|by apply app_env|done|done].
    apply listener_server. destruct Hp. by split. }
  clear Hp Ha Hr Hh Hs H1. destruct Hp1 as (Hp & Ha & Hr & Hs). unfold run_https in H2.
  destruct (tls_enabled (cc_server config)) eqn:E; [|by simplify_eq].
  apply checked_bind in H2 as (c & (_ & Hc)%buildTlsContext_inv & H2). apply checked_bind in H2 as (_ & _ & H2).
  apply checked_bind in H2 as (_ & _ & [= <-]). split_and!; [|by do 2 apply app_env|done].
  destruct Hp. split; cbn; try done. by intros ? [= <-].
Qed.

Lemma boot_ok uri_file r e p : boot uri_file r e = Some p → listener_ok p ∧ app_ok (p_server p) ∧ p_running p = true.
Proof.
  unfold boot. destruct (load_uris uri_file) as [uris|]; [|done]. cbn -[run log_line].
  destruct (run r _) as [f|p1] eqn:E; [done|]. intros [= <-]. eapply run_ok; [|exact E].
  destruct uri_file; repeat apply not_listening_log; apply not_listening_start.
Qed.
End process.

(** C1: the invariant of the server process. Boot it with any URI file and any
    answers of the platform, and let any events happen: connections accepted or
    failed, handshakes and reads that succeed or fail, writes, reloads of the
    TLS files, signals. The application keeps its invariant: the indexes and the
    cache agree, every stored link is valid, no request counts as in flight; with a
    configured length between 3 and 64 every stored slug is well-formed, generated
    ones too, which are letters and digits of any other length otherwise; every TLS session
    and every future one has a context as configured; plain sessions exist only
    while HTTP is enabled and never take a TLS step; the accept handler never
    meets a null context; the handshake counters equal the sessions that passed
    and failed, modulo their width; the loop waits for signals while it runs. *)
Theorem process_invariant P iterate config uri_file r e p0 p :
  boot config uri_file r e = Some p0 → rtc (event_step P iterate config) p0 p →
  app_ok config (p_server p) ∧ listener_ok config p ∧
  (3 ≤ shortener_generated_slug_length (cc_server config) ≤ 64 →
   map_Forall (fun _ l => isValidSlug (slug l) = true) (link_table (p_server p))) ∧
  ∀ ok, p_https p ≠ acceptor_absent → is_Some (accept_https ok p).
Proof.
  intros Hb Hsteps. apply boot_ok in Hb as (Hl & Ha & _).
  assert (Hok : app_ok config (p_server p) ∧ listener_ok config p).
  { induction Hsteps as [p|p p1 p2 Hstep _ IH]; [done|].
    apply IH; [by eapply event_step_listener|by eapply event_step_app]. }
  destruct Hok as [Ha' Hl']. split_and!; [done|done|apply links_ok_slugs, Ha'|]. intros ok Hs. destruct (lo_https _ _ Hl' Hs) as [_ [c Hc]].
  unfold accept_https. rewrite Hc. by destruct ok.
Qed.

(** A server with both listeners: an HTTPS connection whose request creates a
    link, then a reload that fails because the key file has become readable. *)
Module ListenerDemo.
Definition tls : TlsFiles :=
  mkTlsFiles "cert.pem" "key.pem" None None None "TLS1.2" "suites" "ciphers" "X25519" "http/1.1" false true auth_required.
Definition config : CliConfig :=
  mkCliConfig 8000 true tls
    (mkServerConfig 8443 None "https://sho.rt" "temporary" None 7 false true 1024 "salt" 64 65536 2048 true true).
Definition answers (perms : Z) : TlsAnswers :=
  mkTlsAnswers (Some perms) (fun _ => true) (fun _ => true) (fun _ => true) (Some ("CERT" : str)) (fun _ => Some ("KEY" : str))
    (fun _ => None) (fun _ => true) (fun _ _ => true) true true (Some 30%Z).
Definition run_answers : RunAnswers := mkRunAnswers true true (answers 384).
Definition start : option Process := boot config None run_answers demo_env.
Definition no_process : Process :=
  mkProcess (server_start demo_env ∅) acceptor_absent acceptor_absent None 0 0 [] false false None.
Definition p0 : Process := default no_process start.
Definition p1 : Process := default no_process (accept_https true p0).
Definition p2 : Process := onHandshake 0 true p1.
Definition p3 : Process := session_read sample_platform config 0 (Some sample_post) p2.
Definition p4 : Process := signal_handler map_to_list config SIGHUP (answers 420) true p3.

Lemma steps : rtc (event_step sample_platform map_to_list config) p0 p4.
Proof.
  eapply rtc_l; [apply (accepted_https _ _ _ true _ p1); vm_compute; done|].
  eapply rtc_l; [eapply (handshake_done _ _ _ 0 _ true p1); vm_compute; done|].
  eapply rtc_l; [eapply (read_done _ _ _ 0 _ (Some sample_post) p2); vm_compute; done|].
  eapply rtc_once. apply (signalled _ _ _ SIGHUP (answers 420) true p3); vm_compute; done.
Qed.
End ListenerDemo.

Lemma process_invariant_witness :
  p_success ListenerDemo.p4 = 1%Z ∧ tls_reload_failure_total (s_metrics (p_server ListenerDemo.p4)) = 1%Z ∧
  size (link_table (p_server ListenerDemo.p4)) = 1 ∧
  listener_ok ListenerDemo.config ListenerDemo.p4.
Proof.
  split_and!; [vm_compute; reflexivity..|].
  apply (process_invariant sample_platform map_to_list ListenerDemo.config None ListenerDemo.run_answers demo_env ListenerDemo.p0
    ListenerDemo.p4); [vm_compute; reflexivity|apply ListenerDemo.steps].
Defined.

(** ** HTTPS only *)
Section https_only.
Context (P : Platform) (iterate : UriData → list (str * (str * str))) (config : CliConfig).

Lemma resolve_id_only req c s : only_env s (resolveRequestId req c s).2.
Proof.
  unfold resolveRequestId. case_match; [done|]. rewrite ST_bind_eq. case_bool_decide; [apply with_env_only|].
  rewrite ST_bind_eq. set (s1 := (count_invalid_id s).2). assert (H1 : only_env s s1) by done.
  assert (Htrans : ∀ s2 s3, only_env s s2 → only_env s2 s3 → only_env s s3) by (unfold only_env; intuition congruence).
  case_match; [|by eapply Htrans; [exact H1|apply with_env_only]].
  eapply Htrans; [|apply with_env_only]. eapply Htrans; [exact H1|apply with_env_only].
Qed.

(** What a request may not have touched. *)
Definition untouched (s s' : Server) : Prop :=
  s_links s' = s_links s ∧ s_clicks s' = s_clicks s ∧ s_queue s' = s_queue s ∧ s_uris s' = s_uris s.

#[local] Instance untouched_preorder : PreOrder untouched.
Proof. split; unfold untouched; [done|]. intros s1 s2 s3. intuition congruence. Qed.

Lemma only_env_untouched s s' : only_env s s' → untouched s s'.
Proof. unfold only_env, untouched. tauto. Qed.

Lemma plain_answer_untouched req s :
  http_redirect_to_https (cc_server config) = true → tls_enabled (cc_server config) = true →
  let r := answer_request P req (cc_server config) false s in
  untouched s r.2 ∧ (res_status r.1 = 308%Z ∨ res_status r.1 = 413%Z ∨ res_status r.1 = 414%Z).
Proof.
  intros Hr Ht. unfold answer_request. rewrite Hr, Ht. cbn [negb andb]. case_match; [|case_match].
  - rewrite ST_bind_eq. destruct (apiError_spec req (cc_server config) false 414 "target_too_large" "request target too large"
      (update_metrics add_malformed s).2) as (H1 & _ & H2 & _). split; [|auto]. by apply only_env_untouched in H2.
  - rewrite ST_bind_eq. destruct (apiError_spec req (cc_server config) false 413 "payload_too_large" "request body too large"
      (update_metrics add_malformed s).2) as (H1 & _ & H2 & _). split; [|auto]. by apply only_env_untouched in H2.
  - unfold makeRedirectResponse. rewrite ST_bind_eq. split; [apply only_env_untouched, request_id_only|by left].
Qed.

Lemma plain_read_untouched incoming s :
  http_redirect_to_https (cc_server config) = true → tls_enabled (cc_server config) = true →
  let r := PlainSession_onRead P (cc_server config) incoming s in
  untouched s r.2 ∧
  (r.1 = None ∨ ∃ res, r.1 = Some res ∧ (res_status res = 308%Z ∨ res_status res = 413%Z ∨ res_status res = 414%Z)).
Proof.
  intros Hr Ht. destruct incoming as [req|]; [|by split; [|left]]. cbv zeta. unfold PlainSession_onRead, onRead.
  rewrite ST_bind_eq. pose proof (only_env_untouched _ _ (resolve_id_only req (cc_server config) s)) as H1.
  destruct (resolveRequestId req (cc_server config) s) as [rid s1]. cbn [fst snd] in *.
  rewrite ST_bind_eq. set (s2 := (update_metrics (add_inflight 1) s1).2). rewrite ST_bind_eq.
  destruct (plain_answer_untouched (req_set internal_request_id_header rid req) s2 Hr Ht) as [H2 Hres].
  destruct (answer_request _ _ _ _ s2) as [res s3]. cbn [fst snd] in *.
  rewrite ST_bind_eq, ST_bind_eq, ST_bind_eq. cbn [fst snd mret ST_ret]. split; [|right; by eexists].
  etrans; [exact H1|]. etrans; [exact H2|]. etrans; [|apply only_env_untouched, with_env_only]. done.
Qed.
End https_only.

(** C6: with the redirect to HTTPS configured, plain connections cannot reach the
    service. Whatever arrives on a plain connection, the links, the click events
    and the URI payloads stay as they are, no other session moves, and the answer,
    if there is one, is the permanent redirect or the refusal of an oversized
    request. *)
Theorem plain_sessions_only_redirect P config i incoming p :
  http_redirect_to_https (cc_server config) = true → tls_enabled (cc_server config) = true →
  p_sessions p !! i = Some (mkSession None reading) →
  let p' := session_read P config i incoming p in
  untouched (p_server p) (p_server p') ∧
  (∀ j, j ≠ i → p_sessions p' !! j = p_sessions p !! j) ∧
  (p_sessions p' !! i = Some (mkSession None dropped) ∨
   ∃ res, p_sessions p' !! i = Some (mkSession None (writing res)) ∧
     (res_status res = 308%Z ∨ res_status res = 413%Z ∨ res_status res = 414%Z)).
Proof.
  intros Hr Ht Hi p'. unfold p', session_read. rewrite Hi. cbn [se_context].
  destruct (plain_read_untouched P config incoming (p_server p) Hr Ht) as [Hu Ha]. split_and!; [done| |].
  - intros j Hj. cbn. by rewrite list_lookup_alter_ne.
  - cbn [on_server set_phase set_sessions set_server p_sessions fst]. rewrite list_lookup_alter_eq, Hi.
    destruct Ha as [->|(res & -> & Hs)]; [by left|right; by exists res].
Qed.

Lemma plain_sessions_only_redirect_witness :
  let p := PlainSession_run ListenerDemo.p0 in
  let p' := session_read sample_platform ListenerDemo.config 0 (Some sample_post) p in
  (res_status <$> (match p_sessions p' !! 0 with Some (mkSession _ (writing res)) => Some res | _ => None end)) = Some 308%Z ∧
  untouched (p_server p) (p_server p').
Proof.
  split; [vm_compute; reflexivity|].
  apply (plain_sessions_only_redirect sample_platform ListenerDemo.config 0 (Some sample_post) (PlainSession_run ListenerDemo.p0));
    vm_compute; reflexivity.
Defined.

(** ** Reload and shut-down *)

(** The links, the clicks, the payloads and the connections. *)
Definition serving_kept (p p' : Process) : Prop :=
  untouched (p_server p) (p_server p') ∧ p_http p' = p_http p ∧ p_https p' = p_https p ∧ p_sessions p' = p_sessions p ∧
  p_success p' = p_success p ∧ p_failure p' = p_failure p ∧ p_waiting p' = p_waiting p ∧ p_running p' = p_running p ∧
  p_file p' = p_file p.

(** C7: a reload is all or nothing. On SIGHUP with TLS enabled either every check
    passes and only the context for new connections is replaced, by one as
    configured, or one fails and the old context stays in use; exactly one of the
    two counters is increased. Open sessions keep the context they were made
    with, no connection, link or payload is touched, and the process keeps
    running and waiting for signals in both cases. *)
Theorem reload_all_or_nothing iterate config a opens p :
  tls_enabled (cc_server config) = true →
  let p' := signal_handler iterate config SIGHUP a opens p in
  let m := s_metrics (p_server p) in
  let m' := s_metrics (p_server p') in
  serving_kept p p' ∧
  ((tls_in_order (cc_tls config) a ∧ m' = add_reload_success m ∧
     ∃ c, p_tls p' = Some c ∧ buildTlsContext (cc_tls config) a = inr c ∧ context_ok (cc_tls config) c) ∨
   (¬ tls_in_order (cc_tls config) a ∧ m' = add_reload_failure m ∧ p_tls p' = p_tls p)).
Proof.
  intros Ht. unfold signal_handler, reloadTlsContext. rewrite Ht. cbn [negb].
  destruct (buildTlsContext (cc_tls config) a) as [f|c] eqn:E.
  - set (p1 := (on_server _ p).2). assert (H1 : serving_kept p p1) by done.
    split; [|right; split_and!; [|done|done]].
    + unfold serving_kept, untouched in *. done.
    + intros [c Hc]%buildTlsContext_total. congruence.
  - pose proof (buildTlsContext_inv _ _ _ E) as [Ho Hc]. cbn -[logStructured]. split; [done|].
    left. split_and!; [done|done|]. by exists c.
Qed.

Lemma reload_all_or_nothing_witness :
  let p' := signal_handler map_to_list ListenerDemo.config SIGHUP (ListenerDemo.answers 420) true ListenerDemo.p3 in
  tls_reload_failure_total (s_metrics (p_server p')) = 1%Z ∧ serving_kept ListenerDemo.p3 p'.
Proof.
  split; [vm_compute; reflexivity|].
  apply (reload_all_or_nothing map_to_list ListenerDemo.config (ListenerDemo.answers 420) true ListenerDemo.p3). reflexivity.
Defined.

(** The process stops at once and saves its payloads. On SIGINT or SIGTERM
    both acceptors are closed, the URI file holds exactly the serialised payloads
    of that moment, and no event is handled afterwards: the sessions still open
    are left as they are. The links are not written anywhere. *)
Theorem termination_saves_and_stops P iterate config sig a p :
  sig ≠ SIGHUP →
  let p' := signal_handler iterate config sig a true p in
  p_http p' ≠ acceptor_open ∧ p_https p' ≠ acceptor_open ∧ p_sessions p' = p_sessions p ∧
  p_file p' = Some (serialize iterate (s_uris (p_server p))) ∧
  ∀ q, ¬ event_step P iterate config p' q.
Proof.
  intros Hsig p'. assert (Hp' : p_running p' = false) by by destruct sig.
  split_and!; [destruct sig; [| |done]; by cbn; destruct (p_http p)|destruct sig; [| |done]; by cbn; destruct (p_https p)
    |by destruct sig|by destruct sig|].
  intros q Hq. destruct Hq; congruence.
Qed.

Lemma termination_saves_and_stops_witness :
  let p' := signal_handler map_to_list ListenerDemo.config SIGTERM (ListenerDemo.answers 384) true ListenerDemo.p4 in
  p_file p' = Some [] ∧ p_http p' ≠ acceptor_open.
Proof.
  split; [vm_compute; reflexivity|].
  apply (termination_saves_and_stops sample_platform map_to_list ListenerDemo.config SIGTERM (ListenerDemo.answers 384)
    ListenerDemo.p4). discriminate.
Defined.

(** ** Sessions end *)

(** Steps a session still has before it; none once it is over. *)
Definition steps_left (ph : Phase) : nat :=
  match ph with handshaking => 4 | reading => 3 | writing _ => 2 | closing _ => 1 | refused | dropped | ended _ => 0 end.
Definition all_left (p : Process) : nat := sum_list (map (fun se => steps_left (se_phase se)) (p_sessions p)).

Section ending.
Context (P : Platform) (iterate : UriData → list (str * (str * str))) (config : CliConfig).

(** The steps of the event loop that complete an operation of a session. *)
Inductive session_step : relation Process :=
  | session_handshake i c ok p :
      p_running p = true → p_sessions p !! i = Some (mkSession (Some c) handshaking) → session_step p (onHandshake i ok p)
  | session_request i c incoming p :
      p_running p = true → p_sessions p !! i = Some (mkSession c reading) → session_step p (session_read P config i incoming p)
  | session_plain_write i res p :
      p_running p = true → p_sessions p !! i = Some (mkSession None (writing res)) → session_step p (PlainSession_onWrite i res p)
  | session_tls_write i c res p :
      p_running p = true → p_sessions p !! i = Some (mkSession (Some c) (writing res)) → session_step p (TlsSession_onWrite i res p)
  | session_shutdown i c res p :
      p_running p = true → p_sessions p !! i = Some (mkSession (Some c) (closing res)) → session_step p (onShutdown i res p).

Lemma session_step_event p p' : session_step p p' → event_step P iterate config p p' ∧ p_running p' = p_running p.
Proof.
  destruct 1 as [i c ok p Hr Hi|i c incoming p Hr Hi|i res p Hr Hi|i c res p Hr Hi|i c res p Hr Hi].
  - split; [by eapply handshake_done|by destruct ok].
  - split; [by eapply read_done|]. unfold session_read. by rewrite Hi.
  - split; [by eapply plain_write_done|done].
  - split; [by eapply tls_write_done|done].
  - split; [by eapply shutdown_done|done].
Qed.

Lemma left_alter l i se ph :
  l !! i = Some se →
  sum_list (map (fun s => steps_left (se_phase s)) (alter (fun s => mkSession (se_context s) ph) i l)) + steps_left (se_phase se)
  = sum_list (map (fun s => steps_left (se_phase s)) l) + steps_left ph.
Proof.
  revert i. induction l as [|x l IH]; intros [|i]; cbn; [done|done|intros [= ->]; lia|].
  intros Hi. specialize (IH i Hi). change (list_alter ?g i l) with (alter g i l) in *. lia.
Qed.

Lemma all_left_phase i se ph p :
  p_sessions p !! i = Some se → steps_left ph < steps_left (se_phase se) → all_left (set_phase i ph p) < all_left p.
Proof. intros Hi Hlt. unfold all_left, set_phase. cbn. pose proof (left_alter _ _ _ ph Hi). lia. Qed.

(** Every operation of a session shortens what is left. *)
Lemma session_events_shorten i se p :
  p_sessions p !! i = Some se →
  match se_phase se with
  | handshaking => ∀ ok, all_left (onHandshake i ok p) < all_left p
  | reading => ∀ incoming, all_left (session_read P config i incoming p) < all_left p
  | writing res => all_left (PlainSession_onWrite i res p) < all_left p ∧ all_left (TlsSession_onWrite i res p) < all_left p
  | closing res => all_left (onShutdown i res p) < all_left p
  | _ => True
  end.
Proof.
  intros Hi. destruct (se_phase se) as [| | | |res|res|res] eqn:E; try done.
  - intros []; change (all_left ?q) with (all_left q).
    + apply (all_left_phase i se reading (log_structured (count_success p))); [done|]. rewrite E. cbn. lia.
    + apply (all_left_phase i se refused (count_failed p)); [done|]. rewrite E. cbn. lia.
  - intros incoming. unfold session_read. rewrite Hi. cbn [on_server].
    eapply (all_left_phase i se _ (set_server _ p)); [done|]. rewrite E. destruct (_.1); cbn; lia.
  - split; eapply all_left_phase; try done; rewrite E; cbn; lia.
  - eapply all_left_phase; [done|]. rewrite E. cbn. lia.
Qed.

Lemma session_step_shortens p p' : session_step p p' → all_left p' < all_left p.
Proof.
  destruct 1 as [i c ok p Hr Hi|i c incoming p Hr Hi|i res p Hr Hi|i c res p Hr Hi|i c res p Hr Hi];
    pose proof (session_events_shorten i _ p Hi) as H; cbn [se_phase] in H; try apply H.
Qed.

(** While a session is open there is an operation whose completion moves it. *)
Lemma session_progress p :
  listener_ok config p → p_running p = true → 0 < all_left p → ∃ p', session_step p p'.
Proof.
  intros Hp Hr Hleft.
  assert (Hopen : ∃ i se, p_sessions p !! i = Some se ∧ 0 < steps_left (se_phase se)).
  { unfold all_left in Hleft. clear Hp Hr. induction (p_sessions p) as [|se l IH]; cbn in Hleft; [lia|].
    destruct (decide (0 < steps_left (se_phase se))); [by exists 0, se|].
    destruct IH as (i & se' & Hi & Hs); [lia|]. by exists (S i), se'. }
  destruct Hopen as (i & [c ph] & Hi & Hs). cbn in Hs.
  pose proof (session_sound_at _ _ _ _ Hp Hi) as Hsound. unfold session_sound in Hsound. cbn in Hsound.
  destruct ph as [| | | |res|res|res]; try (cbn in Hs; lia); destruct c as [c|]; try (by destruct Hsound);
    eexists; [by eapply (session_handshake i c true)|by eapply (session_request i _ None)|by eapply (session_request i _ None)
      |by eapply session_tls_write|by eapply session_plain_write|by eapply session_shutdown].
Qed.
End ending.

(** C8: every connection ends. Completing any operation of a session (a handshake,
    a read, a write, a shutdown) shortens what its session has left, so no run of
    such steps is longer than four steps per session; and as long as the process
    runs, a session that is not over has an operation to complete, so all of them
    can be brought to an end: answered, dropped or refused. *)
Theorem sessions_end P config p :
  listener_ok config p → p_running p = true →
  (∀ n q, nsteps (session_step P config) n p q → n ≤ all_left p) ∧
  all_left p ≤ 4 * length (p_sessions p) ∧
  ∃ q, rtc (session_step P config) p q ∧ Forall (fun se => steps_left (se_phase se) = 0) (p_sessions q).
Proof.
  intros Hp Hr. split_and!.
  - intros n q H. induction H as [p|n p p1 q Hstep _ IH]; [lia|].
    destruct (session_step_event P map_to_list config p p1 Hstep) as [Hev Hr1].
    apply session_step_shortens in Hstep. specialize (IH ltac:(by eapply event_step_listener) ltac:(by rewrite Hr1)). lia.
  - unfold all_left. induction (p_sessions p) as [|se l IH]; cbn; [lia|]. destruct (se_phase se); cbn; lia.
  - remember (all_left p) as n eqn:Hn. revert p Hp Hr Hn. induction (lt_wf n) as [n _ IH]. intros p Hp Hr ->.
    destruct (decide (0 < all_left p)) as [Hpos|Hzero].
    + destruct (session_progress P config p Hp Hr Hpos) as (p1 & Hs).
      destruct (session_step_event P map_to_list config p p1 Hs) as [Hev Hr1].
      destruct (IH (all_left p1) (session_step_shortens _ _ _ _ Hs) p1) as (q & Hq & Hdone);
        [by eapply event_step_listener|by rewrite Hr1|done|]. exists q. split; [by eapply rtc_l|done].
    + exists p. split; [done|]. unfold all_left in Hzero. clear -Hzero.
      induction (p_sessions p) as [|se l IH]; constructor; cbn in Hzero; [lia|]. apply IH. lia.
Qed.

Lemma sessions_end_witness :
  all_left ListenerDemo.p1 = 4 ∧
  ∃ q, rtc (session_step sample_platform ListenerDemo.config) ListenerDemo.p1 q ∧
       Forall (fun se => steps_left (se_phase se) = 0) (p_sessions q).
Proof.
  split; [vm_compute; reflexivity|].
  refine (proj2 (proj2 (sessions_end sample_platform ListenerDemo.config ListenerDemo.p1 _ _))); [|vm_compute; reflexivity].
  eapply (event_step_listener sample_platform map_to_list ListenerDemo.config ListenerDemo.p0);
    [apply (accepted_https _ _ _ true _ ListenerDemo.p1); vm_compute; done|].
  apply (boot_ok ListenerDemo.config None ListenerDemo.run_answers demo_env ListenerDemo.p0). vm_compute. reflexivity.
Defined.
