(* ===== verification/Observability.v ===== *)
(** * Observability: the logger

    src/observability/: log levels, configuration, field sanitisation, the logger
    and its factory, the metric labels of storage_observability.cpp, and the
    formatting of [logStructured] (src/http/request_handlers.cpp). The standard
    streams are texts that grow. *)
From S2P Require Import Prelude Text Env Clock Json LinkJson.

(** ** Levels *)
Inductive LogLevel := Trace | Debug | Info | Warn | Error | Fatal | Off.
#[export] Instance LogLevel_eq_dec : EqDecision LogLevel.
Proof. solve_decision. Defined.

(** [static_cast<int>]. *)
Definition level_number (l : LogLevel) : Z :=
  match l with Trace => 0 | Debug => 1 | Info => 2 | Warn => 3 | Error => 4 | Fatal => 5 | Off => 6 end.

Definition ToString (l : LogLevel) : str :=
  match l with
  | Trace => "TRACE" | Debug => "DEBUG" | Info => "INFO" | Warn => "WARN" | Error => "ERROR" | Fatal => "FATAL" | Off => "OFF"
  end.

Definition ParseLogLevel (v : str) : option LogLevel :=
  let s := lower v in
  if bool_decide (s = "trace") then Some Trace
  else if bool_decide (s = "debug") then Some Debug
  else if bool_decide (s = "info") then Some Info
  else if bool_decide (s = "warn") || bool_decide (s = "warning") then Some Warn
  else if bool_decide (s = "error") then Some Error
  else if bool_decide (s = "fatal") then Some Fatal
  else if bool_decide (s = "off") then Some Off
  else None.

(** ** Configuration *)
Inductive LogSink := Stdout | Stderr | File.
#[export] Instance LogSink_eq_dec : EqDecision LogSink.
Proof. solve_decision. Defined.
Inductive LogFormat := KeyValue | JsonFormat | Plain.

Record LoggingConfig := mkLoggingConfig {
  log_enabled : bool;
  log_level : LogLevel;
  log_format : LogFormat;
  log_sink : LogSink;
  log_file_path : str;
  log_file_max_size_mb : N;
  log_file_max_files : N;
  log_flush_level : LogLevel;
  log_async : bool;
  log_async_queue_size : N;
  log_redact_pii : bool;
  log_max_field_length : nat;
}.

Definition default_logging : LoggingConfig := mkLoggingConfig true Info KeyValue Stderr [] 100 5 Error false 8192 true 512.

(** The error message, or none. *)
Definition ValidateLoggingConfig (cfg : LoggingConfig) : option str :=
  if bool_decide (log_sink cfg = File) && bool_decide (log_file_path cfg = [])
  then Some ("log.file.path required when sink=file" : str)
  else if log_max_field_length cfg =? 0 then Some ("log.max_field_length must be >0" : str)
  else None.

(** ** Fields *)
Definition redacted : str := "[REDACTED]".

Definition SanitizeField (value : str) (cfg : LoggingConfig) (pii : bool) : str :=
  if pii && log_redact_pii cfg then redacted
  else if length value <=? log_max_field_length cfg then value
  else take (log_max_field_length cfg) value.

Record LogField := mkLogField { lf_key : str; lf_value : str }.

(** ** The logger *)
Record Logging := mkLogging { g_cfg : LoggingConfig; out_text : str; err_text : str; log_env : Env }.

Definition level_enabled (l : LogLevel) (c : LoggingConfig) : bool :=
  log_enabled c && (level_number (log_level c) <=? level_number l)%Z && negb (bool_decide (log_level c = Off)).

Definition is_pii (key : str) : bool := bool_decide (key = "remote_addr") || bool_decide (key = "user_agent").

Definition log_field (cfg : LoggingConfig) (f : LogField) : str :=
  " "%char :: lf_key f ++ "="%char :: SanitizeField (lf_value f) cfg (is_pii (lf_key f)).

(** The line of a record; [%FT%TZ] prints what [formatTimestamp] prints. *)
Definition log_record (cfg : LoggingConfig) (now : Z) (component : str) (l : LogLevel) (msg : str) (fields : list LogField) : str :=
  ("ts=" : str) ++ formatTimestamp now ++ (" level=" : str) ++ ToString l ++ (" component=" : str) ++ component
  ++ (" msg=" : str) ++ msg ++ concat (map (log_field cfg) fields) ++ ["010"%char].

Definition log (component : str) (l : LogLevel) (msg : str) (fields : list LogField) : ST Logging unit := fun st =>
  let c := g_cfg st in
  if negb (level_enabled l c) then (tt, st) else
  let '(now, e) := system_now (log_env st) in
  let line := log_record c now component l msg fields in
  (tt, if bool_decide (log_sink c = Stdout)
       then mkLogging c (out_text st ++ line) (err_text st) e
       else mkLogging c (out_text st) (err_text st ++ line) e).

Definition Initialize (cfg : LoggingConfig) : ST Logging (bool * option str) := fun st =>
  match ValidateLoggingConfig cfg with
  | Some e => ((false, Some e), st)
  | None => ((true, None), mkLogging cfg (out_text st) (err_text st) (log_env st))
  end.

(** ** [logStructured] *)
Definition sanitizeLogValue (value : str) : str :=
  let value := List.filter (fun c => negb ((code c <? 32)%N && negb (Ascii.eqb c " "))) value in
  if 160 <? length value then take 160 value else value.

(** The text that [logStructured] prepares and does not use. *)
Definition structured_text (now : Z) (level msg : str) (fields : list (str * str)) : str :=
  ("ts=" : str) ++ formatTimestamp now ++ (" level=" : str) ++ level ++ (" msg=" : str) ++ jsonString msg
  ++ concat (map (fun '(key, value) => " "%char :: key ++ "="%char :: jsonString (sanitizeLogValue value)) fields).

Definition log_structured_line (level msg : str) (fields : list (str * str)) : ST Logging unit := fun st =>
  let '(now, e) := system_now (log_env st) in
  let _ := structured_text now level msg fields in
  log "http_server" Info msg [] (mkLogging (g_cfg st) (out_text st) (err_text st) e).

(** ** Metric labels *)
Definition known_backends : list str := ["inmemory" : str; "sqlite" : str; "postgres" : str; "redis" : str; "none" : str; "noop" : str].

Definition normalizeBackend (backend : str) : str :=
  let b := lower backend in
  if bool_decide (b = "inmemory") || bool_decide (b = "sqlite") || bool_decide (b = "postgres") || bool_decide (b = "redis")
     || bool_decide (b = "none") || bool_decide (b = "noop") then b else "unknown".

Definition normalizeOperation (op : str) : str :=
  let o := lower op in if bool_decide (o = []) then "unknown" else o.

Definition repositoryMetricLabels (backend operation : str) : gmap str str :=
  <["backend" : str := normalizeBackend backend]> (<["operation" : str := normalizeOperation operation]> ∅).
Definition cacheMetricLabels (backend operation : str) : gmap str str :=
  <["backend" : str := normalizeBackend backend]> (<["operation" : str := normalizeOperation operation]> ∅).

(** ** What the logger promises *)

(** The fields that carry personal data. *)
Definition personal_keys : list str := ["remote_addr" : str; "user_agent" : str].

(** Fields with the same keys that agree except for personal data. *)
Definition alike (f f' : LogField) : Prop :=
  lf_key f = lf_key f' ∧ (lf_key f ∉ personal_keys → lf_value f = lf_value f').

(** What a field should read, and the line it belongs to. *)
Definition shown_field (longest : nat) (f : LogField) : str :=
  (" " : str) ++ lf_key f ++ ("=" : str) ++ (if decide (lf_key f ∈ personal_keys) then "[REDACTED]" else take longest (lf_value f)).

Definition shown_line (longest : nat) (now : Z) (component : str) (l : LogLevel) (msg : str) (fields : list LogField) : str :=
  ("ts=" : str) ++ formatTimestamp now ++ (" level=" : str) ++ ToString l ++ (" component=" : str) ++ component
  ++ (" msg=" : str) ++ msg ++ concat (map (shown_field longest) fields) ++ ["010"%char].

Lemma is_pii_personal key : is_pii key = bool_decide (key ∈ personal_keys).
Proof. unfold is_pii, personal_keys. repeat case_bool_decide; set_solver. Qed.

Lemma log_field_shown cfg f : log_redact_pii cfg = true → log_field cfg f = shown_field (log_max_field_length cfg) f.
Proof.
  intros Hr. unfold log_field, shown_field, SanitizeField. rewrite is_pii_personal, Hr, andb_true_r. cbn [app].
  do 3 f_equal. case_bool_decide; case_decide; try done.
  destruct (Nat.leb_spec (length (lf_value f)) (log_max_field_length cfg)); [|done]. by rewrite take_ge.
Qed.

Lemma log_record_shown cfg now component l msg fields :
  log_redact_pii cfg = true →
  log_record cfg now component l msg fields = shown_line (log_max_field_length cfg) now component l msg fields.
Proof.
  intros Hr. unfold log_record, shown_line. by rewrite (map_ext _ _ (fun f => log_field_shown cfg f Hr)).
Qed.

Lemma shown_field_alike longest f f' : alike f f' → shown_field longest f = shown_field longest f'.
Proof. intros [Hk Hv]. unfold shown_field. rewrite <- Hk. case_decide; [done|]. by rewrite Hv. Qed.

Lemma shown_line_alike longest now component l msg fields fields' :
  Forall2 alike fields fields' →
  shown_line longest now component l msg fields = shown_line longest now component l msg fields'.
Proof.
  intros Hf. unfold shown_line. do 8 f_equal. f_equal. f_equal.
  induction Hf as [|f f' fs fs' Ha _ IH]; [done|]. cbn [map]. f_equal; [by apply shown_field_alike|done].
Qed.

Lemma sanitize_bounded value cfg pii :
  length (SanitizeField value cfg pii) ≤ Nat.max (log_max_field_length cfg) (length redacted).
Proof.
  unfold SanitizeField. destruct (_ && _); [lia|]. destruct (Nat.leb_spec (length value) (log_max_field_length cfg)); [lia|].
  rewrite length_take. lia.
Qed.

(** A record that is written is one line at the end of one stream. *)
Lemma log_writes component l msg fields st :
  let st' := (log component l msg fields st).2 in
  let line := log_record (g_cfg st) (clock (log_env st) (ticks (log_env st))) component l msg fields in
  g_cfg st' = g_cfg st ∧
  if level_enabled l (g_cfg st)
  then (out_text st', err_text st')
       = (if bool_decide (log_sink (g_cfg st) = Stdout) then (out_text st ++ line, err_text st) else (out_text st, err_text st ++ line))
  else st' = st.
Proof. unfold log. destruct (level_enabled l (g_cfg st)); cbn; [|done]. by case_bool_decide. Qed.

Lemma default_levels l : level_enabled l default_logging = bool_decide (l ∈ [Info; Warn; Error; Fatal; Off]).
Proof. by destruct l. Qed.

(** A record is written when logging is on and its level reaches the configured one. *)
Definition reaches (cfg : LoggingConfig) (l : LogLevel) : Prop :=
  log_enabled cfg = true ∧ log_level cfg ≠ Off ∧ (level_number (log_level cfg) ≤ level_number l)%Z.

Lemma level_enabled_reaches l cfg : level_enabled l cfg = true ↔ reaches cfg l.
Proof.
  unfold level_enabled, reaches. rewrite !andb_true_iff, negb_true_iff, bool_decide_eq_false, Z.leb_le. tauto.
Qed.


Definition demo_logging : Logging := mkLogging default_logging [] [] (mkEnv (fun _ => 0%Z) 0 (fun n => n) 0).


(** Levels are read back from what is printed, in any case of letters. *)
Lemma log_level_roundtrip l : ParseLogLevel (ToString l) = Some l.
Proof. by destruct l. Qed.

Lemma parse_level_ignores_case v : ParseLogLevel (lower v) = ParseLogLevel v.
Proof. unfold ParseLogLevel. by rewrite lower_idem. Qed.

(** A line break in a field is written as it is: one call can look like two. *)
Lemma field_forges_record :
  let forged : str := ("x" : str) ++ "010"%char :: "ts=1970-01-01T00:00:00Z level=FATAL component=main msg=gone" in
  (log "http" Info "hit" [mkLogField "path" forged] demo_logging).2.(err_text)
  = (log "main" Fatal "gone" [] (log "http" Info "hit" [mkLogField "path" "x"] demo_logging).2).2.(err_text).
Proof. vm_compute. reflexivity. Qed.

(** The structured fields are never printed. *)
Lemma structured_fields_lost level level' msg fields fields' st :
  log_structured_line level msg fields st = log_structured_line level' msg fields' st.
Proof. done. Qed.

(** The file sink writes to the standard error stream. *)
Lemma file_sink_is_stderr component l msg fields cfg out err e :
  log_sink cfg = File → out_text (log component l msg fields (mkLogging cfg out err e)).2 = out.
Proof. intros Hs. unfold log. cbn [g_cfg]. rewrite Hs. by destruct (level_enabled l cfg). Qed.

(** The labels of the back ends come from a fixed set. *)
Lemma backend_label_known backend : normalizeBackend backend ∈ ("unknown" : str) :: known_backends.
Proof. unfold normalizeBackend, known_backends. repeat case_bool_decide; simpl; set_solver. Qed.

Lemma sanitizeLogValue_spec value :
  length (sanitizeLogValue value) ≤ 160 ∧ Forall (fun c => (32 ≤ code c)%N) (sanitizeLogValue value).
Proof.
  assert (Hall : Forall (fun c => (32 ≤ code c)%N) (List.filter (fun c => negb ((code c <? 32)%N && negb (Ascii.eqb c " "))) value)).
  { apply List.Forall_forall. intros c [_ Hc]%List.filter_In.
    destruct (N.ltb_spec (code c) 32); [|done]. destruct (Ascii.eqb_spec c " "); [by subst|done]. }
  unfold sanitizeLogValue. destruct (Nat.ltb_spec 160 (length (List.filter (fun c => negb ((code c <? 32)%N && negb (Ascii.eqb c " "))) value))).
  - rewrite length_take. split; [lia|by apply Forall_take].
  - split; [lia|done].
Qed.
