(* ===== verification/Migrations.v ===== *)
(** * Migrations: the PostgreSQL migration runner

    src/storage/postgres/postgres_migration_runner.cpp over a directory listing, the
    texts of its files and a database that executes a text or throws. *)
From S2P Require Import Prelude Text LinkJson Storage.

(** ** The order of paths *)

(** Paths of one directory compare by their file names. *)
Definition path_le (a b : str) : Prop := str_leb a b = true.
#[export] Instance path_le_dec : RelDecision path_le.
Proof. intros a b. unfold Decision, path_le. apply bool_eq_dec. Defined.

Lemma str_leb_refl a : str_leb a a = true.
Proof. induction a as [|x a IH]; [done|]. cbn. by rewrite N.eqb_refl, IH, andb_true_r, orb_true_r. Qed.

Lemma str_leb_cons x y a b : str_leb (x :: a) (y :: b) = true ↔ (code x < code y)%N ∨ x = y ∧ str_leb a b = true.
Proof.
  cbn. rewrite orb_true_iff, andb_true_iff, N.ltb_lt, N.eqb_eq. split; [|naive_solver].
  intros [H|[Hc H]]; [by left|]. right. split; [|done]. unfold code in Hc. by rewrite <- (ascii_N_embedding x), Hc, ascii_N_embedding.
Qed.

#[export] Instance path_le_trans : Transitive path_le.
Proof.
  unfold path_le. intros a. induction a as [|x a IH]; intros b c; [done|].
  destruct b as [|y b]; [done|]. destruct c as [|z c]; [done|]. rewrite !str_leb_cons.
  intros [H1|[-> H1]] [H2|[-> H2]]; [left; lia|by left|by left|right; split; [done|by eapply IH]].
Qed.

#[export] Instance path_le_total : Total path_le.
Proof.
  unfold path_le. intros a. induction a as [|x a IH]; intros b; [by left|]. destruct b as [|y b]; [by right|].
  rewrite !str_leb_cons. destruct (N.lt_trichotomy (code x) (code y)) as [H|[H|H]]; [by left; left| |by right; left].
  assert (x = y) as -> by (unfold code in H; by rewrite <- (ascii_N_embedding x), H, ascii_N_embedding).
  destruct (IH b); [left|right]; by right.
Qed.

#[export] Instance path_le_antisymm : AntiSymm (=) path_le.
Proof.
  unfold path_le. intros a. induction a as [|x a IH]; intros b; destruct b as [|y b]; try done. rewrite !str_leb_cons.
  intros [H1|[-> H1]] [H2|[H2' H2]]; try lia; try (by subst; lia). f_equal. by apply IH.
Qed.

(** ** The runner *)
Record Entry := mkEntry { en_name : str; en_regular : bool }.

Definition ends_with (suffix name : str) : bool :=
  (length suffix <=? length name) && bool_decide (drop (length name - length suffix) name = suffix).

(** The directory, absent when it does not exist; [std::sort] gives the only
    sorted order there is. *)
Definition selected (suffix : str) (entries : list Entry) : list str :=
  map en_name (List.filter (fun e => en_regular e && ends_with suffix (en_name e)) entries).

Definition OrderedBySuffix (dir : option (list Entry)) (suffix : str) : list str :=
  match dir with None => [] | Some entries => merge_sort path_le (selected suffix entries) end.

Definition OrderedUpMigrations (dir : option (list Entry)) : list str := OrderedBySuffix dir ".up.sql".
Definition OrderedDownMigrations (dir : option (list Entry)) : list str := reverse (OrderedBySuffix dir ".down.sql").

Section runner.
(** [ReadFile] and the database: a text executes or throws. *)
Context {D : Type} (ReadFile : str → str) (execute : str → D → bool * D).

Fixpoint apply_all (migrations : list str) (d : D) : bool * D :=
  match migrations with
  | [] => (true, d)
  | m :: rest => let '(ok, d') := execute (ReadFile m) d in if ok : bool then apply_all rest d' else (false, d')
  end.

Definition ApplyUp (dir : option (list Entry)) (d : D) : bool * RepoError.t * D :=
  let '(ok, d') := apply_all (OrderedUpMigrations dir) d in
  if ok then (true, RepoError.none, d') else (false, RepoError.permanent_failure, d').

Definition ApplyDownToBase (dir : option (list Entry)) (d : D) : bool * RepoError.t * D :=
  let '(ok, d') := apply_all (OrderedDownMigrations dir) d in
  if ok then (true, RepoError.none, d') else (false, RepoError.permanent_failure, d').

Lemma apply_all_app l1 l2 d :
  apply_all (l1 ++ l2) d = let '(ok, d') := apply_all l1 d in if ok then apply_all l2 d' else (false, d').
Proof. revert d. induction l1 as [|m l1 IH]; intros d; cbn; [done|]. destruct (execute (ReadFile m) d) as [[] d']; [apply IH|done]. Qed.

(** A failure happens at one migration, after all earlier ones. *)
Lemma apply_all_stops l d d' :
  apply_all l d = (false, d') →
  ∃ l1 m l2 d1, l = l1 ++ m :: l2 ∧ apply_all l1 d = (true, d1) ∧ execute (ReadFile m) d1 = (false, d').
Proof.
  revert d. induction l as [|m l IH]; intros d; cbn; [done|]. destruct (execute (ReadFile m) d) as [[] d1] eqn:E.
  - intros (l1 & m' & l2 & d2 & -> & H1 & H2)%IH. exists (m :: l1), m', l2, d2. cbn. by rewrite E.
  - intros [= ->]. exists [], m, l, d. done.
Qed.

End runner.

(** ** Up and down scripts *)
Definition up (stem : str) : str := stem ++ (".up.sql" : str).
Definition down (stem : str) : str := stem ++ (".down.sql" : str).

(** Names without a dot before the suffix are ordered the same way under both
    suffixes. *)
Lemma suffix_order a b s s' :
  "."%char ∉ a → "."%char ∉ b →
  str_leb (a ++ "."%char :: s) (b ++ "."%char :: s) = str_leb (a ++ "."%char :: s') (b ++ "."%char :: s').
Proof.
  assert (Hdot : ∀ c : ascii, c ≠ "."%char → code c ≠ code "."%char).
  { intros c Hc H. apply Hc. unfold code in H. by rewrite <- (ascii_N_embedding c), H, ascii_N_embedding. }
  revert b. induction a as [|x a IH]; intros b Ha Hb.
  - destruct b as [|y b]; cbn [app]; [by rewrite !str_leb_refl|]. apply not_elem_of_cons in Hb as [Hy _]. cbn [str_leb].
    assert (Hne : (46 =? code y)%N = false) by (apply N.eqb_neq; intros E; by apply (Hdot y)).
    change (code ".") with 46%N. by rewrite Hne, !andb_false_l.
  - apply not_elem_of_cons in Ha as [Hx Ha]. destruct b as [|y b]; cbn [app str_leb].
    + assert (Hne : (code x =? 46)%N = false) by (apply N.eqb_neq; by apply Hdot).
      change (code ".") with 46%N. by rewrite Hne, !andb_false_l.
    + apply not_elem_of_cons in Hb as [_ Hb]. by rewrite (IH b).
Qed.

(** The stems in the order of their scripts. *)
Definition stem_le (a b : str) : Prop := path_le (up a) (up b).
#[export] Instance stem_le_dec : RelDecision stem_le.
Proof. intros a b. unfold stem_le. apply _. Defined.

Definition up_order (stems : list str) : list str := merge_sort stem_le stems.

Lemma sorted_map (f : str → str) (l : list str) :
  StronglySorted (fun a b => path_le (f a) (f b)) l → StronglySorted path_le (map f l).
Proof. induction 1 as [|a l _ IH Ha]; [constructor|]. constructor; [done|]. by apply Forall_map. Qed.

Lemma up_order_sorted stems : StronglySorted stem_le (up_order stems).
Proof.
  apply StronglySorted_merge_sort.
  - intros a b c. unfold stem_le. apply path_le_trans.
  - intros a b. apply (total path_le).
Qed.

Lemma sorted_selection suffix entries l :
  selected suffix entries ≡ₚ l → StronglySorted path_le l → OrderedBySuffix (Some entries) suffix = l.
Proof.
  intros Hp Hs. apply (StronglySorted_unique path_le); [apply StronglySorted_merge_sort; apply _|done|].
  cbn. by rewrite merge_sort_Permutation.
Qed.

Lemma scripts_ordered entries stems :
  Forall (fun stem => "."%char ∉ stem) stems →
  selected ".up.sql" entries ≡ₚ map up stems → selected ".down.sql" entries ≡ₚ map down stems →
  OrderedUpMigrations (Some entries) = map up (up_order stems) ∧
  OrderedDownMigrations (Some entries) = reverse (map down (up_order stems)).
Proof.
  intros Hdots Hup Hdown. pose proof (up_order_sorted stems) as Hs.
  assert (Hp : up_order stems ≡ₚ stems) by apply merge_sort_Permutation.
  split; [|unfold OrderedDownMigrations; f_equal]; apply sorted_selection; rewrite ?Hup, ?Hdown, ?Hp; try done.
  - by apply sorted_map.
  - apply sorted_map. rewrite <- Hp in Hdots. clear -Hs Hdots. induction Hs as [|a l _ IH Ha]; [constructor|].
    inversion Hdots as [|? ? Hda Hdl]; subst. constructor; [by apply IH|].
    apply Forall_forall. intros b Hb. rewrite Forall_forall in Ha, Hdl. unfold stem_le, path_le, down, up in *.
    etrans; [|exact (Ha b Hb)]. apply (suffix_order a b "down.sql" "up.sql"); [done|by apply Hdl].
Qed.

(** ** Scripts that create and drop tables

    The database as its tables, each with whatever it holds. An up script may only
    touch its own tables, which is what [CREATE TABLE IF NOT EXISTS] and
    [CREATE INDEX IF NOT EXISTS] do; a down script drops them,
    [DROP TABLE IF EXISTS], and touches no other. *)
Section tables.
Context (tables : str → gset str).

Definition owned (stems : list str) : gset str := ⋃ (tables <$> stems).

Lemma elem_of_owned t stems : t ∈ owned stems ↔ ∃ stem, stem ∈ stems ∧ t ∈ tables stem.
Proof. unfold owned. rewrite elem_of_union_list. setoid_rewrite list_elem_of_fmap. naive_solver. Qed.

Context {V : Type} (ReadFile : str → str) (execute : str → gmap str V → bool * gmap str V).
Implicit Types d : gmap str V.

Definition up_script (stem : str) : Prop :=
  ∀ d d' t, execute (ReadFile (up stem)) d = (true, d') → t ∉ tables stem → d' !! t = d !! t.

Definition down_script (stem : str) : Prop :=
  ∀ d d' t, execute (ReadFile (down stem)) d = (true, d') →
    d' !! t = if decide (t ∈ tables stem) then None else d !! t.

Lemma apply_ups stems d d' t :
  Forall up_script stems → apply_all ReadFile execute (map up stems) d = (true, d') → t ∉ owned stems → d' !! t = d !! t.
Proof.
  intros Hall. revert d. induction Hall as [|s stems Hs _ IH]; intros d; cbn [map apply_all]; [by intros [= ->]|].
  destruct (execute (ReadFile (up s)) d) as [[] d1] eqn:E; [|done]. intros Hd Ht. rewrite elem_of_owned in Ht.
  rewrite (IH d1 Hd) by (rewrite elem_of_owned; set_solver). apply (Hs d d1 t E). set_solver.
Qed.

Lemma apply_downs stems d d' t :
  Forall down_script stems → apply_all ReadFile execute (map down stems) d = (true, d') →
  d' !! t = if decide (t ∈ owned stems) then None else d !! t.
Proof.
  intros Hall. revert d. induction Hall as [|s stems Hs _ IH]; intros d; cbn [map apply_all].
  - intros [= ->]. rewrite decide_False; [done|]. rewrite elem_of_owned. set_solver.
  - destruct (execute (ReadFile (down s)) d) as [[] d1] eqn:E; [|done]. intros Hd. rewrite (IH d1 Hd), (Hs d d1 t E).
    repeat case_decide; rewrite ?elem_of_owned in *; set_solver.
Qed.

Lemma selected_perm suffix entries entries' : entries' ≡ₚ entries → selected suffix entries' ≡ₚ selected suffix entries.
Proof.
  intros Hperm. unfold selected. apply Permutation_map. induction Hperm; cbn; repeat case_match; try done; try (by constructor).
  by etrans.
Qed.

(** What a run reports: success, or the script that threw, all scripts before it
    having run and none after it. *)
Definition run_report (scripts : list str) d (ok : bool) (e : RepoError.t) d' : Prop :=
  if ok then e = RepoError.none ∧ apply_all ReadFile execute scripts d = (true, d')
  else e = RepoError.permanent_failure ∧
    ∃ l1 m l2 d1, scripts = l1 ++ m :: l2 ∧ apply_all ReadFile execute l1 d = (true, d1) ∧ execute (ReadFile m) d1 = (false, d').

Lemma run_reports scripts d :
  let '(ok, d') := apply_all ReadFile execute scripts d in
  run_report scripts d ok (if ok then RepoError.none else RepoError.permanent_failure) d'.
Proof.
  destruct (apply_all ReadFile execute scripts d) as [[] d'] eqn:E; cbn; (split; [done|]); [done|by apply apply_all_stops].
Qed.

(** C36: migrations run in one order, and the way down takes back the way up. Take a
    directory, listed in any order and with any other files, whose scripts are the
    up and down scripts of some names without dots; an up script touches only its
    own tables, a down script drops these if they exist and touches no other.
    [ApplyUp] runs the up scripts in the order of their names, and [ApplyDownToBase]
    the down scripts in the reverse order, whatever order the directory is listed
    in; each succeeds when every script it runs does, and otherwise has run all
    scripts before the failing one and none after it. When both succeed one after
    the other, the tables of the scripts are gone and every other table is as it
    was: the database is restored exactly when it had none of these tables at
    first; tables that existed before the way up are dropped with what they held. *)
Theorem migrations_roundtrip entries entries' stems d ok e d' ok' e' d2 :
  Forall (fun stem => "."%char ∉ stem) stems → entries' ≡ₚ entries →
  selected ".up.sql" entries ≡ₚ map up stems → selected ".down.sql" entries ≡ₚ map down stems →
  Forall up_script stems → Forall down_script stems →
  ApplyUp ReadFile execute (Some entries) d = (ok, e, d') →
  ApplyDownToBase ReadFile execute (Some entries') d' = (ok', e', d2) →
  ApplyUp ReadFile execute (Some entries') d = (ok, e, d') ∧
  run_report (map up (up_order stems)) d ok e d' ∧
  run_report (map down (reverse (up_order stems))) d' ok' e' d2 ∧
  (ok = true → ok' = true →
   (∀ t, d2 !! t = if decide (t ∈ owned stems) then None else d !! t) ∧
   (d2 = d ↔ ∀ t, t ∈ owned stems → d !! t = None)).
Proof.
  intros Hdots Hperm Hup Hdown Hups Hdowns.
  destruct (scripts_ordered entries stems) as [Hu Hd]; [done..|].
  destruct (scripts_ordered entries' stems) as [Hu' Hd']; [done|by rewrite selected_perm..|].
  assert (Hp : up_order stems ≡ₚ stems) by apply merge_sort_Permutation.
  unfold ApplyUp, ApplyDownToBase. rewrite Hu, Hu', Hd'.
  replace (reverse (map down (up_order stems))) with (map down (reverse (up_order stems))) by apply fmap_reverse.
  pose proof (run_reports (map up (up_order stems)) d) as H1.
  destruct (apply_all ReadFile execute (map up (up_order stems)) d) as [ok1 d1] eqn:E1.
  intros E. assert (ok = ok1 ∧ e = (if ok1 then RepoError.none else RepoError.permanent_failure) ∧ d' = d1) as (-> & -> & ->)
    by (destruct ok1; by simplify_eq).
  pose proof (run_reports (map down (reverse (up_order stems))) d1) as H2.
  destruct (apply_all ReadFile execute (map down (reverse (up_order stems))) d1) as [ok3 d3] eqn:E2.
  intros E'. assert (ok' = ok3 ∧ e' = (if ok3 then RepoError.none else RepoError.permanent_failure) ∧ d2 = d3) as (-> & -> & ->)
    by (destruct ok3; by simplify_eq).
  split_and!; [done..|]. intros -> ->.
  assert (Howned : ∀ t l, l ≡ₚ stems → t ∈ owned l ↔ t ∈ owned stems).
  { intros t l Hl. rewrite !elem_of_owned. by setoid_rewrite Hl. }
  assert (Ht : ∀ t, d3 !! t = if decide (t ∈ owned stems) then None else d !! t).
  { intros t. assert (Hr : reverse (up_order stems) ≡ₚ stems) by by rewrite reverse_Permutation.
    rewrite (apply_downs (reverse (up_order stems)) d1 d3 t) by (done || by rewrite Hr).
    rewrite (decide_ext _ _ _ _ (Howned t _ Hr)). case_decide as Hin; [done|].
    apply (apply_ups (up_order stems)); [by rewrite Hp|done|]. by rewrite Howned. }
  split; [done|]. split.
  - intros <- t Hin. rewrite Ht. by rewrite decide_True.
  - intros Hnone. apply map_eq. intros t. rewrite Ht. case_decide as Hin; [|done]. by rewrite Hnone.
Qed.
End tables.

(** The scripts of db/migrations/postgres, their tables created if missing and
    dropped if there, with a directory listed out of order. *)
Module MigrationsDemo.
Definition links_script : str := "001_create_links".
Definition auth_script : str := "002_add_users_auth_and_access_control".
Definition clicks_script : str := "004_analytics_events".
Definition stems : list str := [clicks_script; links_script; auth_script].
Definition entries : list Entry :=
  mkEntry "README.md" true :: mkEntry "old.up.sql" false
  :: map (fun s => mkEntry (down s) true) stems ++ map (fun s => mkEntry (up s) true) stems.
Definition table_names (stem : str) : list str :=
  if bool_decide (stem = links_script) then ["links" : str]
  else if bool_decide (stem = auth_script)
  then ["app_users" : str; "auth_sessions" : str; "service_clients" : str; "auth_audit_log" : str]
  else if bool_decide (stem = clicks_script) then ["click_events" : str] else [].
Definition tables (stem : str) : gset str := list_to_set (table_names stem).
Definition stem_of (suffix name : str) : str := take (length name - length suffix) name.

(** Tables hold rows, and a text is its own file name here. *)
Definition create_table (d : gmap str (list str)) (t : str) : gmap str (list str) :=
  match d !! t with Some _ => d | None => <[t := []]> d end.
Definition execute (text : str) (d : gmap str (list str)) : bool * gmap str (list str) :=
  if ends_with ".up.sql" text then (true, foldl create_table d (table_names (stem_of ".up.sql" text)))
  else (true, foldl (fun d t => delete t d) d (table_names (stem_of ".down.sql" text))).

Lemma create_other (l : list str) d t : t ∉ l → foldl create_table d l !! t = d !! t.
Proof.
  revert d. induction l as [|x l IH]; intros d Ht; cbn; [done|]. rewrite IH by set_solver.
  unfold create_table. destruct (d !! x); [done|]. apply lookup_insert_ne. set_solver.
Qed.

Lemma drop_all (l : list str) (d : gmap str (list str)) t : foldl (fun d t => delete t d) d l !! t = if decide (t ∈ l) then None else d !! t.
Proof.
  revert d. induction l as [|x l IH]; intros d; cbn; [rewrite decide_False; [done|set_solver]|]. rewrite IH, lookup_delete.
  repeat case_decide; set_solver.
Qed.

Lemma scripts : Forall (up_script tables (fun n => n) execute) stems ∧ Forall (down_script tables (fun n => n) execute) stems.
Proof.
  assert (Hnames : Forall (fun stem =>
    execute (up stem) = (fun d => (true, foldl create_table d (table_names stem))) ∧
    execute (down stem) = (fun d => (true, foldl (fun d t => delete t d) d (table_names stem)))) stems).
  { repeat constructor. }
  split; (eapply Forall_impl; [exact Hnames|]); intros stem [Hup Hdown] d d' t.
  - rewrite Hup. intros [= <-] Ht. apply create_other. unfold tables in Ht. by rewrite elem_of_list_to_set in Ht.
  - rewrite Hdown. intros [= <-]. rewrite drop_all. apply decide_ext. unfold tables. by rewrite elem_of_list_to_set.
Qed.

(** A database of another application. *)
Definition database : gmap str (list str) := {[ ("invoices" : str) := ["row" : str] ]}.
Definition migrated : gmap str (list str) := (ApplyUp (fun n => n) execute (Some entries) database).2.
End MigrationsDemo.

Lemma migrations_roundtrip_witness :
  ApplyUp (fun n => n) MigrationsDemo.execute (Some MigrationsDemo.entries) MigrationsDemo.database
  = (true, RepoError.none, MigrationsDemo.migrated) ∧
  size MigrationsDemo.migrated = 7 ∧
  (ApplyDownToBase (fun n => n) MigrationsDemo.execute (Some MigrationsDemo.entries) MigrationsDemo.migrated).2
  = MigrationsDemo.database.
Proof.
  split; [vm_compute; reflexivity|]. split; [vm_compute; reflexivity|].
  refine (proj2 (proj2 (proj2 (proj2 (proj2 (migrations_roundtrip MigrationsDemo.tables (fun n => n) MigrationsDemo.execute MigrationsDemo.entries
    MigrationsDemo.entries MigrationsDemo.stems MigrationsDemo.database true RepoError.none MigrationsDemo.migrated
    true RepoError.none _ _ _ _ _ (proj1 MigrationsDemo.scripts) (proj2 MigrationsDemo.scripts) _ _))) eq_refl eq_refl)) _).
  - repeat constructor; apply (bool_decide_unpack _); vm_compute; done.
  - done.
  - vm_compute. reflexivity.
  - vm_compute. reflexivity.
  - vm_compute. reflexivity.
  - vm_compute. reflexivity.
  - intros t (stem & Hstem & Ht)%elem_of_owned.
    assert (Hall : Forall (fun stem => Forall (fun t => MigrationsDemo.database !! t = None) (MigrationsDemo.table_names stem))
      MigrationsDemo.stems) by (repeat constructor).
    rewrite Forall_forall in Hall. specialize (Hall stem Hstem). rewrite Forall_forall in Hall. apply Hall.
    by apply elem_of_list_to_set in Ht.
Defined.
