(* ===== verification/LegacyHelpers.v ===== *)
(** * LegacyHelpers: the helpers left in src/http/request_handlers.cpp

    Static functions that src/http/handlers/ and src/app/ have their own versions
    of. They are translated in their own style, loops with an index or a flag, and
    shown equal to the versions the routes use. *)
From S2P Require Import Prelude Text Env Clock Types Json Validation LinkStore LinkCommands ClickEvents LinkJson Router Server LinkHandlers.

(** [getQueryParam] of request_handlers.cpp. *)
Definition legacy_getQueryParam (query_string key : str) : str :=
  let prefix := key ++ "=" in
  match find_str prefix query_string with
  | None => []
  | Some pos =>
      let val_start := pos + length prefix in
      match find_char "&" (drop val_start query_string) with
      | None => drop val_start query_string
      | Some offset => let val_end := val_start + offset in take (val_end - val_start) (drop val_start query_string)
      end
  end.

(** The loop that drops trailing slashes, one turn per character at most. *)
Fixpoint pop_slashes (turns : nat) (base : str) : str :=
  match turns with
  | O => base
  | S n => if bool_decide (last base = Some "/"%char) then pop_slashes n (removelast base) else base
  end.

Definition makeShortUrl (config : ServerConfig) (slug : str) : str :=
  let base := shortener_base_domain config in
  pop_slashes (length base) base ++ "/" ++ slug.

(** [for (i = 0; i < items.size(); ++i) { if (i > 0) body << ','; body << item; }]. *)
Fixpoint append_items (i : nat) (items : list str) (body : str) : str :=
  match items with
  | [] => body
  | item :: rest => append_items (S i) rest ((if 0 <? i then body ++ [","%char] else body) ++ item)
  end.

(** [appendCampaignField] on the flag [first] and the body. *)
Definition appendCampaignField (key : str) (value : option str) (st : bool * str) : bool * str :=
  match value with
  | None => st
  | Some v =>
      let body := if st.1 then st.2 else st.2 ++ [","%char] in
      (false, body ++ jsonString key ++ ":"%char :: jsonString v)
  end.

Definition append_campaign (c : option Campaign) (body : str) : str :=
  match c with
  | None => body ++ ("null" : str)
  | Some c =>
      let st := (true, body ++ ["{"%char]) in
      let st := appendCampaignField "name" (cp_name c) st in
      let st := appendCampaignField "source" (cp_source c) st in
      let st := appendCampaignField "medium" (cp_medium c) st in
      let st := appendCampaignField "term" (cp_term c) st in
      let st := appendCampaignField "content" (cp_content c) st in
      let st := appendCampaignField "id" (cp_id c) st in
      st.2 ++ ["}"%char]
  end.

Definition serializeLink (link : Link) (short_url : str) : ST Env str :=
  status ← resolveLinkStatus link;
  let body := json_text "{'id':" ++ jsonString (id link)
    ++ json_text ",'slug':" ++ jsonString (slug link)
    ++ json_text ",'url':" ++ jsonString (target_url link)
    ++ json_text ",'short_url':" ++ jsonString short_url
    ++ json_text ",'created_at':" ++ jsonString (created_at link)
    ++ json_text ",'updated_at':" ++ jsonString (updated_at link)
    ++ json_text ",'status':" ++ jsonString (linkStatusToString status)
    ++ json_text ",'redirect_type':" ++ jsonString (redirectTypeToString (redirect_type link))
    ++ json_text ",'tags':[" in
  let body := append_items 0 (map jsonString (tags link)) body in
  let body := body ++ json_text "],'metadata':{" in
  let body := if bool_decide (metadata link = ∅) then body
              else append_items 0 (map (fun kv => jsonString kv.1 ++ ":"%char :: jsonString kv.2) (sorted_items (metadata link))) body in
  let body := body ++ json_text "},'campaign':" in
  let body := append_campaign (campaign link) body in
  mret (body ++ json_text ",'stats':{" ++ json_text "'total_redirects':" ++ dec (total_redirects (stats link))
    ++ json_text ",'redirects_24h':" ++ dec (redirects_24h (stats link))
    ++ json_text ",'redirects_7d':" ++ dec (redirects_7d (stats link))
    ++ json_text ",'last_accessed_at':" ++ json_optional (last_accessed_at (stats link))
    ++ json_text "}" ++ json_text "}").

(** A field assigned only when it is found; fields start absent. *)
Definition assign_if (value : option str) (field : option str) : option str :=
  match value with Some v => Some v | None => field end.

Definition legacy_extractCampaign (body : str) : option Campaign :=
  match extractJsonValueToken body "campaign" with
  | None => None
  | Some raw =>
      if bool_decide (raw = "null") then Some (mkCampaign None None None None None None)
      else if (length raw <? 2) || negb (bool_decide (head raw = Some "{"%char)) || negb (bool_decide (last raw = Some "}"%char))
      then None
      else
        let field (key : str) := assign_if (extractJsonStringField raw key) None in
        Some (mkCampaign (field "name") (field "source") (field "medium") (field "term") (field "content") (field "id"))
  end.

(** ** Equality with the versions in use *)
Lemma append_items_from i items body :
  0 < i → append_items i items body = body ++ concat (map (fun x => ","%char :: x) items).
Proof.
  revert i body. induction items as [|x items IH]; intros i body Hi; cbn [append_items map concat]; [by rewrite app_nil_r|].
  destruct (Nat.ltb_spec 0 i); [|lia]. rewrite IH by lia. by rewrite <- !app_assoc.
Qed.

Lemma comma_separated_cons x l : comma_separated (x :: l) = x ++ concat (map (fun y => ","%char :: y) l).
Proof.
  revert x. induction l as [|y l IH]; intros x; [by cbn; rewrite app_nil_r|].
  change (comma_separated (x :: y :: l)) with (x ++ ","%char :: comma_separated (y :: l)). by rewrite IH.
Qed.

Lemma append_items_comma items body : append_items 0 items body = body ++ comma_separated items.
Proof.
  destruct items as [|x items]; [by cbn; rewrite app_nil_r|]. cbn [append_items]. change (0 <? 0) with false. cbn iota.
  rewrite append_items_from by lia. by rewrite comma_separated_cons, <- app_assoc.
Qed.

Lemma pop_slashes_eq turns base :
  length base ≤ turns → pop_slashes turns base = rev (drop_while (fun c => Ascii.eqb c "/") (rev base)).
Proof.
  revert base. induction turns as [|n IH]; intros base Hn; cbn [pop_slashes].
  - by destruct base; [|cbn in Hn; lia].
  - destruct base as [|c base _] using rev_ind; [done|]. rewrite last_snoc, removelast_last, rev_unit. cbn [drop_while].
    rewrite length_app in Hn. cbn in Hn. case_bool_decide as E.
    + injection E as ->. rewrite Ascii.eqb_refl. apply IH. lia.
    + destruct (Ascii.eqb_spec c "/") as [->|]; [done|]. cbn. by rewrite rev_involutive.
Qed.

(** The fields of a campaign that are present, one after the other. *)
Definition present (fields : list (str * option str)) : list (str * str) := omap (fun '(k, v) => pair k <$> v) fields.

Lemma campaign_fields_from fields body :
  foldl (fun st kv => appendCampaignField kv.1 kv.2 st) (false, body) fields
  = (false, body ++ concat (map (fun x => ","%char :: x) (map json_pair (present fields)))).
Proof.
  revert body. induction fields as [|[k [v|]] fields IH]; intros body; cbn [foldl appendCampaignField fst snd].
  - by rewrite app_nil_r.
  - rewrite IH. unfold present. cbn. unfold json_pair. cbn. by rewrite <- !app_assoc.
  - apply IH.
Qed.

Lemma campaign_fields_comma fields body :
  (foldl (fun st kv => appendCampaignField kv.1 kv.2 st) (true, body) fields).2
  = body ++ comma_separated (map json_pair (present fields)).
Proof.
  induction fields as [|[k [v|]] fields IH]; cbn [foldl appendCampaignField fst snd].
  - cbn. by rewrite app_nil_r.
  - rewrite campaign_fields_from. change (present ((k, Some v) :: fields)) with ((k, v) :: present fields).
    cbn [map snd]. rewrite comma_separated_cons. unfold json_pair at 2. cbn [fst snd]. by rewrite <- !app_assoc.
  - exact IH.
Qed.

Lemma append_campaign_eq c body : append_campaign c body = body ++ json_campaign c.
Proof.
  destruct c as [c|]; [|done]. unfold append_campaign, json_campaign, json_object.
  pose proof (campaign_fields_comma [("name" : str, cp_name c); ("source" : str, cp_source c); ("medium" : str, cp_medium c);
     ("term" : str, cp_term c); ("content" : str, cp_content c); ("id" : str, cp_id c)] (body ++ ["{"%char])) as H.
  cbn [foldl fst snd] in H. cbv zeta. rewrite H. unfold campaign_fields, present. by rewrite <- !app_assoc.
Qed.

(** The duplicated helpers agree. For every link, configuration and state of
    the clock, the serializer, the short URL, the query reader and the campaign
    reader of request_handlers.cpp give what the versions of the command service
    and the link handlers give: the same bytes, and the same clock readings. *)
Theorem legacy_helpers_agree config link e :
  makeShortUrl config (slug link) = shortUrlFor config (slug link) ∧
  serializeLink link (makeShortUrl config (slug link)) e
  = (serializeLinkViewJson (view_of config link (resolveLinkStatus link e).1), (resolveLinkStatus link e).2) ∧
  (∀ query key, legacy_getQueryParam query key = getQueryParam query key) ∧
  (∀ body, legacy_extractCampaign body = extractCampaign body).
Proof.
  assert (Hurl : makeShortUrl config (slug link) = shortUrlFor config (slug link)).
  { unfold makeShortUrl, shortUrlFor. by rewrite pop_slashes_eq. }
  split_and!; [done| | |].
  - unfold serializeLink. rewrite ST_bind_eq, Hurl. destruct (resolveLinkStatus link e) as [status e']. cbn [fst snd].
    unfold mret, ST_ret. f_equal. rewrite append_campaign_eq, !append_items_comma.
    assert (Hm : ∀ b : str, (if bool_decide (metadata link = ∅) then b
      else b ++ comma_separated (map (fun kv => jsonString kv.1 ++ ":"%char :: jsonString kv.2) (sorted_items (metadata link))))
      = b ++ json_metadata (metadata link)).
    { intros b. case_bool_decide as E; [|done]. rewrite E. unfold json_metadata, sorted_items. rewrite map_to_list_empty. cbn. by rewrite app_nil_r. }
    rewrite Hm. unfold serializeLinkViewJson, json_link_stats, json_object, view_of. cbn [lv_id lv_slug lv_target_url lv_short_url
      lv_created_at lv_updated_at lv_status lv_redirect_type lv_tags lv_metadata lv_campaign lv_stats].
    repeat (progress (rewrite <- ?app_assoc; cbn [app])). reflexivity.
  - intros query key. unfold legacy_getQueryParam, getQueryParam. destruct (find_str _ query) as [pos|]; [|done].
    destruct (find_char "&" _) as [o|]; [|done]. f_equal. lia.
  - intros body. unfold legacy_extractCampaign, extractCampaign, enclosed_by.
    destruct (extractJsonValueToken body "campaign") as [raw|]; [|done]. case_bool_decide; [done|].
    rewrite !negb_andb, Nat.leb_antisym, negb_involutive. destruct (_ || _); [done|].
    unfold assign_if. by repeat (destruct (extractJsonStringField raw _)).
Qed.
