(* ===== verification/ApiReference.v ===== *)
(** * ApiReference: the generated API table (tools/route_registry_dump.cpp)

    The program that prints the documented routes as a Markdown table. *)
From S2P Require Import Prelude Text UriMap Router RouteRegistry.

(** [joinTags]. *)
Fixpoint joinTags (tags : list str) : str :=
  match tags with
  | [] => []
  | [t] => t
  | t :: rest => t ++ (", " : str) ++ joinTags rest
  end.

Definition markersFor (r : RouteDescriptor) : str :=
  let markers : str := if compatibility_alias r then "compatibility alias" else [] in
  let markers := if placeholder r
                 then (if bool_decide (markers = []) then markers else markers ++ ("; " : str)) ++ ("placeholder" : str)
                 else markers in
  if bool_decide (markers = []) then "-" else markers.

Definition joinParameters (params : list RouteParameterDoc) : str :=
  match params with
  | [] => "-"
  | _ => joinTags (map (fun p => ("`" : str) ++ param_name p ++ ("`" : str)) params)
  end.

Definition reference_header : str :=
  ("# URL Shortener API Reference" : str) ++ [newline; newline]
  ++ ("Generated from `url_shortener::http::registeredRoutes()`. The C++ route" : str) ++ [newline]
  ++ ("registry is the source of truth for HTTP API inventory, route labels, operation" : str) ++ [newline]
  ++ ("IDs, compatibility markers, placeholders, and documentation grouping." : str) ++ [newline; newline]
  ++ ("| Method | Path | Operation ID | Tags | Query params | Request body | Notes | Summary |" : str) ++ [newline]
  ++ ("|---|---|---|---|---|---|---|---|" : str) ++ [newline].

(** The eight cells of a row. *)
Definition cells (r : RouteDescriptor) : list str :=
  [method r; ("`" : str) ++ path_pattern r ++ ("`" : str); ("`" : str) ++ operation_id r ++ ("`" : str); joinTags (route_tags r);
   joinParameters (query_parameters r);
   (if bool_decide (request_body_description r = []) then ("-" : str) else request_body_description r); markersFor r; summary r].

Definition reference_row (r : RouteDescriptor) : str :=
  "|"%char :: concat (map (fun c => (" " : str) ++ c ++ (" |" : str)) (cells r)) ++ [newline].

(** The text [main] prints. *)
Definition api_reference (routes : list RouteDescriptor) : str := reference_header ++ concat (map reference_row routes).

(** ** Reading the table *)
Definition table_rows (text : str) : list (list str) := map (getlines "|"%char) (drop 8 (getlines newline text)).

Definition clean (c : str) : Prop := "|"%char ∉ c ∧ newline ∉ c.

Lemma cells_read cs :
  Forall clean cs → getlines "|"%char (concat (map (fun c => (" " : str) ++ c ++ (" |" : str)) cs))
  = map (fun c => (" " : str) ++ c ++ (" " : str)) cs.
Proof.
  induction 1 as [|c cs [Hc _] _ IH]; [done|]. cbn [map concat].
  replace (((" " : str) ++ c ++ (" |" : str)) ++ concat (map (fun c => (" " : str) ++ c ++ (" |" : str)) cs))
    with (((" " : str) ++ c ++ (" " : str)) ++ "|"%char :: concat (map (fun c => (" " : str) ++ c ++ (" |" : str)) cs))
    by by rewrite <- !app_assoc.
  rewrite getlines_piece; [by rewrite IH|]. cbn. rewrite not_elem_of_cons, not_elem_of_app. split; [done|]. split; [done|].
  apply (bool_decide_unpack _). vm_compute. done.
Qed.

Lemma row_line r :
  Forall clean (cells r) → newline ∉ "|"%char :: concat (map (fun c => (" " : str) ++ c ++ (" |" : str)) (cells r)).
Proof.
  intros Hc. apply not_elem_of_cons. split; [done|]. induction Hc as [|c cs [_ Hn] _ IH]; [by apply not_elem_of_nil|].
  cbn [map concat]. rewrite !not_elem_of_app. split_and!; [|done| |done]; apply (bool_decide_unpack _); vm_compute; done.
Qed.

Lemma rows_read routes :
  Forall (fun r => Forall clean (cells r)) routes →
  map (getlines "|"%char) (getlines newline (concat (map reference_row routes)))
  = map (fun r => [] :: map (fun c => (" " : str) ++ c ++ (" " : str)) (cells r)) routes.
Proof.
  induction 1 as [|r routes Hr _ IH]; [done|]. cbn [map concat]. unfold reference_row at 1.
  rewrite app_comm_cons, <- app_assoc. change ([newline] ++ ?x) with (newline :: x). rewrite getlines_piece by by apply row_line.
  cbn [map]. rewrite IH. f_equal. change ("|"%char :: ?x) with ([] ++ "|"%char :: x).
  rewrite (getlines_piece "|"%char []) by apply not_elem_of_nil. by rewrite cells_read.
Qed.

(** The printed table is the registry. Read back line by line and cell by
    cell, the table of the API reference has one row for each registered route, in
    order, whose cells are the method, the path, the operation id, the tags, the
    query parameters, the body, the markers and the summary of that route. *)
Theorem reference_lists_registry :
  table_rows (api_reference registeredRoutes)
  = map (fun r => [] :: map (fun c => (" " : str) ++ c ++ (" " : str)) (cells r)) registeredRoutes.
Proof.
  unfold table_rows, api_reference. rewrite <- rows_read.
  - by f_equal.
  - unfold clean. apply (bool_decide_unpack _). vm_compute. done.
Qed.
