(* ===== verification/CacheAdapters.v ===== *)
(** * CacheAdapters: the caches and sinks the storage factory selects

    [NoopCacheStore] and [NoopAnalyticsSink] (src/composition/storage_factory.cpp),
    which meet the contract of a cache, and the Redis cache behind the same port,
    which does not: a deletion that the server refuses leaves the old value. *)
From stdpp Require Import relations.
From S2P Require Import Prelude Text Env Clock Numbers Storage LinkService RedisCodec RateLimiter RedisStores.

(** ** The adapters that do nothing *)
Module Noop.
Inductive cache := noop_cache.
Inductive sink := noop_sink.

(** The error output is left as the caller set it. *)
#[global] Instance NoopCacheStore : ICacheStore cache := {
  cache_Get _ w := ((None, CacheError.none), w);
  cache_Set _ _ _ w := ((true, CacheError.none), w);
  cache_Delete _ w := ((true, CacheError.none), w);
  cache_ClearByPrefix _ w := ((true, CacheError.none), w);
}.

#[global] Instance NoopAnalyticsSink : IAnalyticsSink sink := {
  sink_Emit _ a := ((true, AnalyticsError.none), a);
  sink_Flush a := ((true, AnalyticsError.none), a);
}.

#[global] Program Instance NoopCacheStore_spec : CacheStoreSpec cache := { cached := fun _ => ∅ }.
Next Obligation. done. Qed.
Next Obligation. intros. by split. Qed.
Next Obligation. intros. simpl. split; [|done]. intros k' v'. by rewrite lookup_empty. Qed.
Next Obligation. done. Qed.
End Noop.

(** Without a cache every answer is the one of the table. *)
Lemma noop_resolves_from_table (code : str) (w : World Noop.cache InMemoryMetadata.t Noop.sink) :
  resolved code w (Resolve code w).1 (Resolve code w).2.
Proof. apply (Resolve_answers_from_table code w w); [done|]. reflexivity. Qed.

(** ** The Redis cache behind the port *)
Section redis.
Context {S : Type} `{RedisServer S} (key_prefix : str) (default_ttl : option Z).

Definition with_redis {A} (m : ST (RedisCache.Context_ * S) A) : ST (Env * (RedisCache.Context_ * S)) A :=
  fun w => let '(a, c) := m w.2 in (a, (w.1, c)).

Definition RedisCacheStore : ICacheStore (RedisCache.Context_ * S) := {|
  cache_Get k := with_redis (RedisCache.Get key_prefix k);
  cache_Set k v ttl := with_redis (RedisCache.Set_ key_prefix default_ttl k v ttl);
  cache_Delete k := with_redis (RedisCache.Delete key_prefix k);
  cache_ClearByPrefix p := with_redis (RedisCache.ClearByPrefix key_prefix p);
|}.
End redis.

(** A server that answers every deletion with an error, as a read-only replica does. *)
Module ReadOnlyDelete.
Inductive server := mkServer_ (keys : gmap str str).
Definition keys_of (s : server) : gmap str str := let 'mkServer_ keys := s in keys.

#[global] Instance read_only_delete : RedisServer server := {
  redis_connect s := (true, s);
  redis_command c s :=
    match c with
    | cmd_GET k => (match keys_of s !! k with Some p => reply_string p | None => reply_nil end, s)
    | cmd_SETEX k _ p | cmd_SET k p => (reply_status, mkServer_ (<[k := p]> (keys_of s)))
    | cmd_DEL _ => (reply_error, s)
    | cmd_KEYS _ => (reply_array [], s)
    end;
}.
#[global] Instance store : ICacheStore (RedisCache.Context_ * server) := RedisCacheStore "link:" None.

Definition world : World (RedisCache.Context_ * server) InMemoryMetadata.t (list LinkAccessEvent) :=
  mkWorld sample_env (RedisCache.ctx_absent, mkServer_ ∅) {[ ("abc" : str) := sample_record "abc" 0 None ]} [].
Definition moved : LinkRecord :=
  mkLinkRecord "abc" "abc" "https://example.com/moved" 0 1 None None None ∅ true 2.
End ReadOnlyDelete.

(** An update that succeeds is not seen when the cache could not be cleared: the
    service ignores the failed deletion and goes on answering with the old target. *)
Lemma update_hidden_by_refused_delete :
  let w1 := (Resolve "abc" ReadOnlyDelete.world).2 in
  let '(answer, w2) := Update ReadOnlyDelete.moved w1 in
  fst <$> answer = Some true ∧
  lr_target_url <$> (w_repo w2 !! ("abc" : str)) = Some ("https://example.com/moved" : str) ∧
  rr_target_url (Resolve "abc" w2).1 = Some ("https://example.com/abc" : str) ∧
  rr_cache_hit (Resolve "abc" w2).1 = true.
Proof. vm_compute. done. Qed.
