(* ===== verification/SqlPort.v ===== *)
(** * SqlPort: the SQL repository behind the storage port

    [SqlMetadataRepository] is an [IMetadataRepository] (storage_factory.cpp builds
    it for both back ends) and keeps the contract of a repository whose database
    may fail, whatever the statements throw. *)
From S2P Require Import Prelude Text Clock LinkJson Storage SqlRows SqlSessions SqlRepository SqlBackends SqlProps.

Section port.
Context {Flag T : Type} `{SqlSessionSpec Flag T} {LAWS : PropertyTreeLaws T} {FLAG : Inj (=) (=) flag}.
Abbreviation Repo := (bool * SqlWorld Flag)%type.

#[local] Instance SqlMetadataRepository : IMetadataRepository Repo := {
  repo_CreateLink := CreateLink (T := T);
  repo_GetByShortCode := GetByShortCode (T := T);
  repo_UpdateLink := UpdateLink (T := T);
  repo_DeleteLink := DeleteLink;
  repo_ListLinks := ListLinks (T := T);
  repo_Exists := Exists;
}.

(** A row stands for one record only. *)
Lemma row_holds_unique key row r1 r2 : row_holds (T := T) fits flag key row r1 → row_holds (T := T) fits flag key row r2 → r1 = r2.
Proof.
  intros [_ Hf1 (t1 & Ht1 & Hd1) Hr1] [_ Hf2 (t2 & Ht2 & Hd2) Hr2].
  rewrite Ht1 in Ht2. injection Ht2 as <-. rewrite Hd1 in Hd2. injection Hd2 as Hid Hat.
  assert (Ha : lr_is_active r1 = lr_is_active r2) by (apply FLAG; congruence). rewrite Hr1, Hr2. congruence.
Qed.

Lemma represents_table_unique (s : Repo) t1 t2 :
  represents_table (T := T) fits flag s t1 → represents_table (T := T) fits flag s t2 → t1 = t2.
Proof.
  intros [_ [[_ (l1 & Hl1 & Hk1)]|(_ & Hn1 & ->)]] [_ [[_ (l2 & Hl2 & Hk2)]|(_ & Hn2 & ->)]]; try congruence.
  rewrite Hl1 in Hl2. injection Hl2 as <-. apply map_eq. intros key. specialize (Hk1 key). specialize (Hk2 key).
  destruct Hk1 as [row r1 Hr1|]; inversion Hk2 as [? r2 Hr2|]; subst; [|done]. f_equal. by eapply row_holds_unique.
Qed.

(** A method that reports an update has applied it. *)
Lemma update_step_cases calm once t r ans t' :
  table_step calm once t (op_update r) ans t' →
  (t' = t ∧ ∀ e, ans ≠ ans_done true e) ∨
  ∃ old, t !! lr_short_code r = Some old ∧ t' = <[lr_short_code r := restamped old r]> t.
Proof.
  inversion 1 as [| | | | |? old Hold| | | | |? ? Hq Hf| | |? old ? ? ? Hold]; subst; eauto;
    left; (split; [done|]); intros e He; subst; by destruct Hf.
Qed.

#[local] Program Instance SqlMetadataRepository_spec : FaultyRepositorySpec Repo := {
  represents := represents_table (T := T) fits flag;
  calm s := quiet s.2;
  accepts := storable fits;
  kept_time := whole_seconds;
}.
Next Obligation. intros s t1 t2. apply represents_table_unique. Qed.
Next Obligation.
  intros code s t Hs. pose proof (get_refines code s t Hs I) as Hm. cbn in Hm |- *. rewrite ST_bind_eq in Hm.
  destruct (GetByShortCode code s) as [[o e] s']. cbn in *. destruct Hm as (_ & t' & Hstep & Hs').
  inversion Hstep as [| | |? r Hr|? Hn| | | | | |? ? Hq Hf| | |]; subst; (split; [done|]);
    [left; congruence..|]. right. split; [apply Hf|done].
Qed.
Next Obligation.
  intros request id now s t Hs Hst. pose proof (create_refines request id now s t Hs Hst) as Hm.
  cbn in Hm |- *. rewrite ST_bind_eq in Hm. destruct (CreateLink request id now s) as [o s'] eqn:E. cbn in *.
  destruct Hm as (_ & t' & Hstep & Hs'). exists t'. split; [done|].
  inversion Hstep as [|? ? ? Hv Hn| | | | | | | | | |? ? ? ? ? ? Hv Hn| |]; subst; try (by left);
    right; (split_and!; [done|done|]); by eexists.
Qed.
Next Obligation.
  intros record s t Hs Hst. pose proof (update_refines record s t Hs Hst) as Hm.
  cbn in Hm |- *. rewrite ST_bind_eq in Hm. destruct (UpdateLink record s) as [o s'] eqn:E. cbn in *.
  destruct Hm as (_ & t' & Hstep & Hs'). exists t'. split; [done|].
  apply update_step_cases in Hstep as [[-> Ha]|(old & Ho & ->)].
  - left. split; [done|]. intros e ->. by destruct (Ha e).
  - right. split; [by rewrite Ho|]. by exists (restamped old record).
Qed.
Next Obligation.
  intros code s t Hs. pose proof (delete_refines code s t Hs I) as Hm. cbn in Hm |- *. rewrite ST_bind_eq in Hm.
  destruct (DeleteLink code s) as [[ok e] s']. cbn in *. destruct Hm as (_ & t' & Hstep & Hs').
  exists t'. split; [done|].
  inversion Hstep as [| | | | | | |?| | |? ? Hq Hf| |? ? Hq Hf|]; subst; [by left|right; split; [done|apply Hf]|by left].
Qed.
End port.

(** ** The two back ends *)
Section backends.
Context {T : Type} `{PropertyTreeLaws T}.

Definition sqlite_repository `{SqlDriver Z} (config : SqlConnectionConfig) : IMetadataRepository (bool * SqlWorld Z) :=
  @SqlMetadataRepository Z T (Sqlite.SqliteSession config) Sqlite.SqliteSqlDialect _.

Definition postgres_repository `{SqlDriver bool} (config : SqlConnectionConfig) : IMetadataRepository (bool * SqlWorld bool) :=
  @SqlMetadataRepository bool T (Postgres.PostgresSession config) Postgres.PostgresSqlDialect _.

Definition sqlite_repository_spec `{SqlDriver Z} config (Hb : scc_backend config = backend_sqlite)
    (Hd : scc_dsn config ≠ []) `{!SqliteDriverLaws (scc_dsn config)} :
    @FaultyRepositorySpec (bool * SqlWorld Z) (sqlite_repository config).
Proof.
  refine (@SqlMetadataRepository_spec Z T _ _ _ (SqliteSpec.SqliteSessionSpec config Hb Hd) _ _).
  by intros [] [].
  Unshelve. all: done.
Defined.

Definition postgres_repository_spec `{SqlDriver bool} config (Hb : scc_backend config = backend_postgres)
    (Hd : scc_dsn config ≠ []) `{!PostgresDriverLaws T (Postgres.BuildPostgresConnectString config)} :
    @FaultyRepositorySpec (bool * SqlWorld bool) (postgres_repository config).
Proof.
  refine (@SqlMetadataRepository_spec bool T _ _ _ (PostgresSpec.PostgresSessionSpec config Hb Hd) _ _).
Defined.
End backends.
