(* ===== verification/SqlPipeline.v ===== *)
(** * SqlPipeline: the analytics pipeline over the SQL click repository

    [AnalyticsWorker] (src/analytics/analytics_worker.cpp) with
    [SqlClickEventRepository] behind its port. Statements may throw, a batch is
    retried and may be given up half-way: what the table then holds, in every
    interleaving of the threads. *)
From stdpp Require Import relations.
From S2P Require Import Prelude Text Env Clock Types LinkStore ClickEvents Analytics Pipeline SqlClickEvents.

(** The repository behind the port: the answers of its methods. *)
#[export] Instance SqlClickRepository : IClickEventRepository ClickDb := {
  repo_InsertBatch events db := let '(what, db') := InsertBatch events db in (bool_decide (what = None), db');
  repo_DeleteOlderThan cutoff db :=
    let '(what, db') := SqlClickEvents.DeleteOlderThan cutoff db in
    (mkAnalyticsError AnalyticsErrorCode.repository <$> what, db');
}.

(** ** Retries *)

(** Two prefixes of a batch, offered one after the other, are the longer one. *)
Lemma offered_prefixes i j events rows :
  offered (take i events) (offered (take j events) rows) = offered (take (i `max` j) events) rows.
Proof.
  destruct (Nat.le_ge_cases i j) as [Hle|Hle].
  - rewrite Nat.max_r by done. apply offered_known. pose proof (offered_adds (take j events) rows) as Hall.
    apply Forall_forall. intros e He. rewrite Forall_forall in Hall. apply Hall.
    rewrite <- (Nat.min_l i j), <- take_take in He by done. apply elem_of_take in He as (n & He & _).
    by eapply list_elem_of_lookup_2.
  - rewrite Nat.max_l by done.
    replace (take j events) with (take j (take i events)) by (rewrite take_take; f_equal; lia). apply offered_again.
Qed.

(** What the attempts at a batch leave: a prefix of it, all of it after a success,
    which is certain when the database does not fail. *)
Lemma attempts_offer n batch db :
  let '(ok, db') := persist_attempts n batch db in
  ∃ k, cd_rows db' = offered (take k batch) (cd_rows db) ∧
    (ok = true → cd_rows db' = offered batch (cd_rows db)) ∧ (quiet_db db → 0 < n → ok = true).
Proof.
  revert db. induction n as [|n IH]; intros db; cbn.
  { exists 0. split_and!; [done|done|lia]. }
  rewrite ST_bind_eq. pose proof (InsertBatch_offers batch db) as Hi.
  destruct (InsertBatch batch db) as [what db1]. cbn [fst snd]. destruct Hi as (k & Hk & Hok & Hq).
  case_bool_decide as Hw.
  - subst what. cbn. exists (length batch). rewrite take_ge by done. auto.
  - specialize (IH db1). destruct (persist_attempts n batch db1) as [ok db2]. destruct IH as (j & Hj & Hok2 & _).
    exists (j `max` k). rewrite <- offered_prefixes, <- Hk. split_and!; [done| |].
    + intros Ht. rewrite (Hok2 Ht), Hk. apply offered_again.
    + intros Hquiet _. by destruct Hw, Hq.
Qed.

(** ** In every interleaving *)

(** [part] is what of a handled batch has been offered to the table. *)
Definition kept_of (b : list ClickEvent * bool) (part : list ClickEvent) : Prop :=
  part `prefix_of` b.1 ∧ (b.2 = true → part = b.1).

Definition persisted_count (handled : list (list ClickEvent * bool)) : nat :=
  length (batches (filter (fun b => b.2 = true) handled)).

Definition failed_count (handled : list (list ClickEvent * bool)) : nat := length (filter (fun b => b.2 = false) handled).

Section sql.
Context (hmac_sha256 : str → str → str) (config : AnalyticsConfig) (rows : list ClickRow).
Implicit Types p : Pipeline ClickDb.

Record sql_ok p : Prop := {
  sql_rows : ∃ parts, Forall2 kept_of (handled p) parts ∧ cd_rows (p_repo p) = offered (concat parts) rows;
  sql_persisted : pm_persisted (p_metrics p) = persisted_count (handled p);
  sql_failed : pm_worker_failures (p_metrics p) = failed_count (handled p);
}.

Lemma offered_app events1 events2 rs : offered (events1 ++ events2) rs = offered events2 (offered events1 rs).
Proof. apply foldl_app. Qed.

Lemma finish_flush_sql batch p : sql_ok p → sql_ok (finish_flush config batch p).
Proof.
  intros Hp. unfold finish_flush. destruct batch as [|e batch]; [by destruct Hp|].
  pose proof (attempts_offer (S (max_retry_attempts config)) (e :: batch) (p_repo p)) as Ha.
  unfold PersistWithRetry. destruct (persist_attempts _ _ _) as [ok db']. destruct Ha as (k & Hk & Hok & _).
  destruct Hp as [(parts & Hparts & Hrows) Hper Hfail]. split; cbn.
  - exists (parts ++ [if ok : bool then e :: batch else take k (e :: batch)]). split.
    + apply Forall2_app; [done|]. repeat constructor; cbn; destruct ok; try done. exists (drop k (e :: batch)). by rewrite take_drop.
    + rewrite concat_app. cbn [concat]. rewrite app_nil_r, offered_app, <- Hrows. destruct ok; auto.
  - unfold persisted_count, batches in *. rewrite filter_app, map_app, concat_app, length_app. destruct ok; cbn;
      repeat case_decide; try done; cbn; rewrite ?app_nil_r; lia.
  - unfold failed_count in *. rewrite filter_app, length_app. destruct ok; cbn; repeat case_decide; try done; cbn; lia.
Qed.

(** Nothing else touches the table, the history or these counters. *)
Lemma sql_ok_same p p' :
  p_repo p' = p_repo p → handled p' = handled p → pm_persisted (p_metrics p') = pm_persisted (p_metrics p) →
  pm_worker_failures (p_metrics p') = pm_worker_failures (p_metrics p) → sql_ok p → sql_ok p'.
Proof. intros Hr Hh Hm Hf [H1 H2 H3]. split; by rewrite ?Hr, ?Hh, ?Hm, ?Hf. Qed.

Lemma pipeline_step_sql p p' : pipeline_step hmac_sha256 config p p' → sql_ok p → sql_ok p'.
Proof.
  intros [event_id alloc context p1|p1|batch timed_out result p1 Hpc Hlt Hw|p1 Hs|p1|p1 Hs|p1 Hs Hpc] Hp.
  - eapply sql_ok_same, Hp; unfold RecordRedirectAttempt; repeat case_match; done.
  - unfold worker_step, collected. destruct (p_pc p1); try done;
      [| |by apply finish_flush_sql|]; eapply sql_ok_same, Hp; repeat case_match; done.
  - eapply sql_ok_same, Hp; unfold collected; by destruct result as [[]].
  - eapply sql_ok_same, Hp; unfold Start; by case_match.
  - eapply sql_ok_same, Hp; unfold Stop_request; by case_match.
  - by eapply sql_ok_same, Hp.
  - by eapply sql_ok_same, Hp.
Qed.

Lemma kept_sublist (hs : list (list ClickEvent * bool)) parts :
  Forall2 kept_of hs parts → concat parts `sublist_of` batches hs.
Proof.
  induction 1 as [|b part hs parts [[rest Hb] _] _ IH]; [done|]. unfold batches in *. cbn. rewrite Hb.
  apply sublist_app; [by apply sublist_inserts_r|done].
Qed.

(** A database that does not fail takes a batch at the first attempt. *)
Lemma quiet_persists batch db :
  quiet_db db → ∃ db', PersistWithRetry config batch db = (true, db') ∧ quiet_db db'.
Proof.
  intros Hq. unfold PersistWithRetry. cbn [persist_attempts]. rewrite ST_bind_eq. cbn.
  pose proof (InsertBatch_offers batch db) as Hi. destruct (InsertBatch batch db) as [what db'] eqn:E.
  destruct Hi as (_ & _ & _ & Hw). rewrite (Hw Hq) in E |- *. rewrite bool_decide_eq_true_2 by done. cbn.
  exists db'. split; [done|]. by eapply InsertBatch_quiet.
Qed.

(** [p'] has only added batches that were persisted, on a database that does not fail. *)
Definition all_persisted p p' : Prop :=
  quiet_db (p_repo p') ∧ ∃ newly, handled p' = handled p ++ newly ∧ Forall (fun b => b.2 = true) newly.

Lemma worker_step_persists p0 p : all_persisted p0 p → all_persisted p0 (worker_step config p).
Proof.
  intros Hp. assert (Hsame : ∀ p', p_repo p' = p_repo p → handled p' = handled p → all_persisted p0 p').
  { intros p' Hr Hh. unfold all_persisted. by rewrite Hr, Hh. }
  unfold worker_step, collected. destruct (p_pc p) as [| |batch|batch| |]; try (apply Hsame; repeat case_match; done).
  unfold finish_flush. destruct batch as [|e batch]; [by apply Hsame|].
  destruct Hp as [Hq (newly & Hh & Hall)]. destruct (quiet_persists (e :: batch) _ Hq) as (db' & -> & Hq').
  split; [done|]. exists (newly ++ [(e :: batch, true)]). cbn. rewrite Hh, <- app_assoc. split; [done|].
  apply Forall_app. by repeat constructor.
Qed.
End sql.

(** C25: the analytics worker over SQL storage keeps its accounts. In every
    interleaving of redirect threads, worker and owner, whichever statements
    throw, the table is what the handled batches leave when they are offered in
    order: the whole batch when it was reported as persisted, a prefix of it when
    it was given up after its retries; nothing is stored twice. When the accepted
    events have fresh, distinct ids the rows are exactly those of these parts, in
    order, after what was there before. The two counters are the numbers of
    persisted events and of batches given up. Once a stop is requested, the
    redirect threads are quiet and the database does not fail any more, the worker
    returns within a number of steps linear in the depth of the queue, every event
    accepted has been handed over, and every batch since then is persisted. *)
Theorem sql_pipeline_accounts hmac_sha256 config c q db (p : Pipeline ClickDb) :
  Queue.create c = Some q → rtc (pipeline_step hmac_sha256 config) (pipeline_start q db) p →
  (∃ parts, Forall2 kept_of (handled p) parts ∧
     cd_rows (p_repo p) = offered (concat parts) (cd_rows db) ∧
     (NoDup (ce_event_id <$> accepted p) → Forall (fun e => ¬ holds_id (ce_event_id e) (cd_rows db)) (accepted p) →
      concat parts `sublist_of` accepted p ∧ cd_rows (p_repo p) = cd_rows db ++ map click_row (concat parts))) ∧
  pm_persisted (p_metrics p) = persisted_count (handled p) ∧
  pm_worker_failures (p_metrics p) = failed_count (handled p) ∧
  (ValidateConfig config = None → quiet_db (p_repo p) → p_state p = WorkerState.Stopping → p_pc p ≠ returned →
   ∃ k, k ≤ 6 * Queue.depth (p_queue p) + 8 ∧
     let p' := Nat.iter k (worker_step config) p in
     p_pc p' = returned ∧ Queue.depth (p_queue p') = 0 ∧ accepted p = batches (handled p') ∧ all_persisted p p').
Proof.
  intros Hq Hsteps. assert (Hok := reachable_pipeline_ok hmac_sha256 config c q db p Hq Hsteps).
  assert (Hsql : sql_ok (cd_rows db) p).
  { assert (H0 : sql_ok (cd_rows db) (pipeline_start q db)) by (split; [by exists []|done|done]).
    clear -Hsteps H0. induction Hsteps as [|p1 p2 p3 Hstep _ IH]; [done|]. by eapply IH, pipeline_step_sql. }
  destruct Hsql as [(parts & Hparts & Hrows) Hper Hfail]. split_and!; [|done|done|].
  - exists parts. split_and!; [done|done|]. intros Hnd Hfresh.
    assert (Hsub : concat parts `sublist_of` accepted p).
    { rewrite (ok_history _ _ Hok). by apply sublist_inserts_r, kept_sublist. }
    split; [done|]. rewrite Hrows. apply offered_fresh.
    + eapply sublist_NoDup; [exact Hnd|]. by apply fmap_sublist.
    + apply Forall_forall. intros e He. rewrite Forall_forall in Hfresh. apply Hfresh. by eapply elem_of_sublist.
  - intros Hv Hquiet Hs Hr. destruct (worker_returns config p Hok Hs Hr) as (k & Hk & Hpc & He & Ha & Hok').
    { by apply valid_batch_size. }
    exists k. split; [by apply worker_measure_bound in Hk|]. cbv zeta in *.
    set (p' := Nat.iter k (worker_step config) p) in *.
    split_and!; [done|by unfold Queue.depth; rewrite He|by rewrite <- Ha, (ok_history _ _ Hok'), Hpc, He; cbn; rewrite app_nil_r|].
    unfold p'. clear -Hquiet. induction k as [|k IH]; [|by apply worker_step_persists].
    split; [done|]. exists []. by rewrite app_nil_r.
Qed.

(** ** A concrete run: two redirects, a statement that throws half-way, a retry *)
Definition sample_sql (faults : nat → option (str * bool)) : Pipeline ClickDb :=
  let record i p := RecordRedirectAttempt sample_hmac sample_config i true sample_context p in
  Stop_request (record "b" (record "a" (Start sample_config (pipeline_start sample_queue (mkClickDb [] faults 0))))).

Lemma sample_sql_reachable faults :
  rtc (pipeline_step sample_hmac sample_config) (pipeline_start sample_queue (mkClickDb [] faults 0)) (sample_sql faults).
Proof.
  eapply rtc_l; [by apply step_start|]. eapply rtc_l; [apply (step_record _ _ "a" true sample_context)|].
  eapply rtc_l; [apply (step_record _ _ "b" true sample_context)|]. eapply rtc_l; [apply step_stop_request|]. reflexivity.
Qed.

(** The connection is lost at the first statement of every attempt but the last; the
    first of these statements is committed all the same. *)
Definition lost_twice (n : nat) : option (str * bool) := if n <? 2 then Some (("connection lost" : str), n =? 0) else None.

Lemma sql_pipeline_accounts_witness :
  let p := Nat.iter 12 (worker_step sample_config) (sample_sql lost_twice) in
  p_pc p = returned ∧ map ce_event_id (accepted p) = ["a" : str; "b" : str] ∧
  cd_rows (p_repo p) = map click_row (accepted p) ∧ pm_persisted (p_metrics p) = 2 ∧ pm_persisted (p_metrics p) = persisted_count (handled p).
Proof.
  intros p. split_and!; [vm_compute; reflexivity..|].
  apply (sql_pipeline_accounts sample_hmac sample_config 2 sample_queue (mkClickDb [] lost_twice 0) p); [reflexivity|].
  etransitivity; [apply sample_sql_reachable|]. unfold p. generalize 12. intros n.
  induction n as [|n IH]; [reflexivity|]. eapply rtc_r; [exact IH|]. apply step_worker.
Defined.
