(* ===== verification/StaleCache.v ===== *)
(** * StaleCache: redirect resolution over a cache and a database that may fail

    [LinkService] over the Redis cache and any repository whose database may fail,
    the SQL ones included. Redis does not meet [CacheStoreSpec]: a deletion can be
    lost, keys are cut at a null character and the text of a value drops what its
    format cannot hold. [LossyCacheSpec] is the weaker promise it does keep,
    whatever connections, commands and replies are lost, and it is enough to bound
    what [Resolve] may answer: a value from the cache is one the table held for
    that very code, and only while no deletion has been confirmed. *)
From stdpp Require Import relations.
From S2P Require Import Prelude Text Env Clock Numbers Storage LinkService RedisCodec RateLimiter RedisStores CacheAdapters SqlRows SqlSessions SqlProps SqlPort.

(** ** The weaker contract *)

(** [held] are the values a read of a key may show. A write may show under every
    key of the [same_entry] and in the form it is read back; a deletion may do
    nothing. *)
Class LossyCacheSpec (C : Type) `{ICacheStore C} := {
  held : C → str → CacheValue → Prop;
  same_entry : str → str → Prop;
  reads_as : CacheValue → CacheValue → Prop;
  lossy_get k ec v : (cache_Get k ec).1 = (Some v, CacheError.none) → held ec.2 k v;
  lossy_get_frame k ec k' v : held (cache_Get k ec).2.2 k' v → held ec.2 k' v;
  lossy_set k v ttl ec k' v' :
    held (cache_Set k v ttl ec).2.2 k' v' → (same_entry k k' ∧ reads_as v v') ∨ held ec.2 k' v';
  lossy_delete k ec k' v : held (cache_Delete k ec).2.2 k' v → held ec.2 k' v;
}.

(** It is weaker than the contract of the in-memory and the no-op cache. *)
#[export] Program Instance CacheStoreSpec_lossy `{CacheStoreSpec C} : LossyCacheSpec C := {
  held c k v := cached c !! k = Some v;
  same_entry := eq;
  reads_as := eq;
}.
Next Obligation. intros. by apply cache_get_law. Qed.
Next Obligation. intros. simpl in *. eapply lookup_weaken; [done|]. by apply cache_get_frame. Qed.
Next Obligation. intros C ? ? k v ttl ec k' v' Hk. apply cache_set_law in Hk as [[-> ->]|Hk]; auto. Qed.
Next Obligation.
  intros C ? ? k ec k' v Hk. simpl in *. eapply lookup_weaken; [done|]. by apply cache_delete_law.
Qed.

(** ** Where a held value comes from *)
Section staleness.
Context {C R A : Type} `{LossyCacheSpec C, !CacheClock C, FaultyRepositorySpec R, IAnalyticsSink A}.
Notation world := (World C R A).
Implicit Types (w : world) (code : str) (t : gmap str LinkRecord).

(** The calls a process makes on the service and its repository, with records the
    repository accepts, and time passing between them. *)
Inductive service_call : relation world :=
  | call_Resolve code w : service_call w (Resolve code w).2
  | call_Update record w : accepts record → service_call w (Update record w).2
  | call_Delete code w : service_call w (Delete code w).2
  | call_Create request id now w :
      accepts (new_record request id now) → service_call w (on_repo (repo_CreateLink request id now) w).2
  | call_time e w : env_later (w_env w) e → service_call w (mkWorld e (w_cache w) (w_repo w) (w_sink w)).

(** The records have values of the C++ types: 64-bit times and versions. *)
Definition records_in_range w : Prop :=
  ∀ t, represents (w_repo w) t → map_Forall (fun _ record => cache_value_in_range (cache_value_of record)) t.

Definition typed_step w w' : Prop := service_call w w' ∧ records_in_range w'.

(** Such a step after which the cache may still answer for [code]. *)
Definition held_step code w w' : Prop := typed_step w w' ∧ ∃ v, held (w_cache w') code v.

(** [v] is the value of a record that was in the table at an earlier point, and
    since then the cache has had a value for [code] all the time. *)
Definition fetched w0 code v w : Prop :=
  ∃ w' t k record, rtc typed_step w0 w' ∧ rtc (held_step code) w' w ∧ represents (w_repo w') t ∧
    t !! k = Some record ∧ same_entry k code ∧ reads_as (cache_value_of record) v.

Definition traceable w0 w : Prop := ∀ code v, held (w_cache w) code v → fetched w0 code v w.

(** [v] shows under [code] because the value of a record of [t] was written. *)
Definition from_record t code v : Prop :=
  ∃ k record, t !! k = Some record ∧ same_entry k code ∧ reads_as (cache_value_of record) v.

Definition codes_valid t : Prop := map_Forall (fun k _ => forallb is_code_char k = true) t.

(** *** One call *)
Lemma on_repo_eq {B} (m : ST R B) w :
  on_repo m w = ((m (w_repo w)).1, mkWorld (w_env w) (w_cache w) (m (w_repo w)).2 (w_sink w)).
Proof. unfold on_repo. by destruct (m (w_repo w)). Qed.

Lemma on_cache_eq {B} (m : ST (Env * C) B) w :
  let r := m (w_env w, w_cache w) in on_cache m w = (r.1, mkWorld r.2.1 r.2.2 (w_repo w) (w_sink w)).
Proof. unfold on_cache. by destruct (m (w_env w, w_cache w)) as [b [e c]]. Qed.

(** [Update] and [Delete]: the repository's method, then the deletion in the cache
    unless the method threw. *)
Lemma Update_eq record w :
  let u := repo_UpdateLink record (w_repo w) in
  let d := cache_Delete (lr_short_code record) (w_env w, w_cache w) in
  Update record w = (u.1, match u.1 with
                          | None => mkWorld (w_env w) (w_cache w) u.2 (w_sink w)
                          | Some _ => mkWorld d.2.1 d.2.2 u.2 (w_sink w)
                          end).
Proof.
  unfold Update. cbv zeta. rewrite ST_bind_eq, on_repo_eq. cbn. destruct (repo_UpdateLink _ _).1; [|done].
  by rewrite ST_bind_eq, on_cache_eq.
Qed.

Lemma Delete_eq code w :
  let u := repo_DeleteLink code (w_repo w) in
  let d := cache_Delete code (w_env w, w_cache w) in
  Delete code w = (u.1, mkWorld d.2.1 d.2.2 u.2 (w_sink w)).
Proof. unfold Delete. cbv zeta. rewrite !ST_bind_eq, on_repo_eq, on_cache_eq. done. Qed.

Lemma cache_ops_held k record ec ec' code v :
  rtc (cache_op k record) ec ec' → held ec'.2 code v →
  held ec.2 code v ∨ ∃ r, record = Some r ∧ same_entry k code ∧ reads_as (cache_value_of r) v.
Proof.
  induction 1 as [|ec1 ec2 ec3 Hop _ IH]; [by left|]. intros [Hv|?]%IH; [|by right].
  destruct Hop as [k' ec|k' ec|r ttl ec Hr|e e' c He].
  - left. by eapply lossy_get_frame.
  - left. by eapply lossy_delete.
  - apply lossy_set in Hv as [[Hs Ha]|Hv]; [right|by left]. by exists r.
  - by left.
Qed.

(** What the repository reads is the table's, or nothing. *)
Lemma read_from_table code r t record :
  represents r t → (repo_GetByShortCode code r).1.1 = Some record → t !! code = Some record.
Proof. intros Ht Hg. destruct (proj2 (rep_get code r t Ht)) as [Hr|[Hn _]]; congruence. Qed.

Lemma service_call_held w w' t code v :
  represents (w_repo w) t → service_call w w' → held (w_cache w') code v →
  held (w_cache w) code v ∨ from_record t code v.
Proof.
  intros Ht Hcall. revert Ht. destruct Hcall as [k w1|record w1 _|k w1|request id now w1 _|e w1 He]; intros Ht Hv.
  - destruct (Resolve_outcome k w1) as (Hops & _).
    destruct (cache_ops_held _ _ _ _ _ _ Hops Hv) as [?|(r & Hr & Hs)]; [by left|right].
    exists k, r. split; [by eapply read_from_table|done].
  - left. rewrite Update_eq in Hv. cbn in Hv. destruct (repo_UpdateLink _ _).1; [by apply (lossy_delete _ (_, _)) in Hv|done].
  - left. rewrite Delete_eq in Hv. by apply (lossy_delete _ (_, _)) in Hv.
  - left. by rewrite on_repo_eq in Hv.
  - by left.
Qed.

(** [Resolve] leaves the table alone. *)
Lemma Resolve_represents code w t : represents (w_repo w) t → represents (w_repo (Resolve code w).2) t.
Proof.
  intros Ht. destruct (Resolve_outcome code w) as (_ & _ & Hans).
  destruct (rr_cache_hit _); rewrite (proj1 Hans); [done|]. by apply rep_get.
Qed.

Lemma service_call_represents w w' t :
  represents (w_repo w) t → codes_valid t → service_call w w' → ∃ t', represents (w_repo w') t' ∧ codes_valid t'.
Proof.
  intros Ht Hc Hcall. revert Ht. destruct Hcall as [k w1|record w1 Ha|k w1|request id now w1 Ha|e w1 He]; intros Ht.
  - exists t. split; [by apply Resolve_represents|done].
  - rewrite Update_eq. cbn. destruct (rep_update record _ _ Ht Ha) as (t' & Ht' & Hcase). exists t'.
    split; [by destruct (repo_UpdateLink _ _).1|]. destruct Hcase as [[-> _]|([old Ho] & stored & -> & _)]; [done|].
    apply map_Forall_insert_2; [|done]. by apply (Hc _ _ Ho).
  - rewrite Delete_eq. cbn. destruct (rep_delete k _ _ Ht) as (t' & Ht' & Hcase). exists t'.
    split; [done|]. destruct Hcase as [->|[-> _]]; [by apply map_Forall_delete|done].
  - rewrite on_repo_eq. cbn. destruct (rep_create request id now _ _ Ht Ha) as (t' & Ht' & Hcase). exists t'.
    split; [done|]. destruct Hcase as [->|(Hv & _ & stored & ->)]; [done|]. apply map_Forall_insert_2; [|done].
    by apply andb_true_iff in Hv as [_ [[Hv _]%andb_true_iff _]%andb_true_iff].
  - by exists t.
Qed.

(** *** Any calls *)
Definition ready w : Prop := records_in_range w ∧ ∃ t, represents (w_repo w) t ∧ codes_valid t.

Lemma run_ready w w' : rtc typed_step w w' → ready w → ready w'.
Proof.
  induction 1 as [|w1 w2 w3 [Hs Hr] _ IH]; [done|]. intros (_ & t & Ht & Hc). apply IH. split; [done|].
  by eapply service_call_represents.
Qed.

Lemma typed_step_traceable w0 w w' :
  ready w → rtc typed_step w0 w → traceable w0 w → typed_step w w' → traceable w0 w'.
Proof.
  intros (_ & t & Ht & _) Hrun Hw Hstep code v Hv.
  assert (Hh : held_step code w w') by (split; [done|by exists v]).
  destruct (service_call_held w w' t code v Ht (proj1 Hstep) Hv) as [Hold|(k & record & Hr & Hs & Ha)].
  - destruct (Hw code v Hold) as (wp & tp & k & record & Hp & Hq & Hrest). exists wp, tp, k, record.
    split_and!; [done|by eapply rtc_r|apply Hrest..].
  - exists w, t, k, record. split_and!; [done|by apply rtc_once|done..].
Qed.

Lemma run_traceable w0 w :
  ready w0 → (∀ code v, ¬ held (w_cache w0) code v) → rtc typed_step w0 w → traceable w0 w.
Proof.
  intros Hready Hempty Hrun. pattern w. revert w Hrun. apply rtc_ind_r.
  - intros code v Hv. by destruct (Hempty code v).
  - intros w1 w2 Hrun Hstep IH. eapply typed_step_traceable; [by eapply run_ready|done..].
Qed.

(** What the table says, or not found when the database fails. *)
Definition answered_by_table code w t (result : ResolveResult) w' : Prop :=
  answered w (t !! code) result w' ∨ (rr_status result = ResolveStatus.not_found ∧ ¬ calm (w_repo w)).

Lemma read_answered code w t result w' :
  represents (w_repo w) t → answered w (repo_GetByShortCode code (w_repo w)).1.1 result w' →
  answered_by_table code w t result w'.
Proof.
  intros Ht Ha. destruct (proj2 (rep_get code _ _ Ht)) as [Hr|[Hn Hq]]; [left; by rewrite <- Hr|right]. split; [|done].
  destruct Ha as (x & _ & Ha). rewrite Hn in Ha. by injection Ha.
Qed.

(** [Resolve] over such a cache. *)
Lemma Resolve_stale code w0 w t :
  ready w0 → (∀ code v, ¬ held (w_cache w0) code v) → rtc typed_step w0 w → represents (w_repo w) t →
  let r := Resolve code w in
  reported code w r.1 r.2 ∧
  if rr_cache_hit r.1
  then rr_status r.1 = ResolveStatus.redirect ∧
       ∃ v, fetched w0 code v w ∧ answered w (Some (record_of_value v)) r.1 r.2
  else answered_by_table code w t r.1 r.2.
Proof.
  intros Hready Hempty Hrun Ht. cbv zeta. destruct (Resolve_outcome code w) as (_ & Hrep & Hans).
  split; [done|]. destruct (rr_cache_hit _); [|apply read_answered; [done|apply Hans]].
  destruct Hans as (_ & Hst & v & Hv & Hans). split; [done|].
  exists v. split; [|done]. apply (run_traceable w0 w Hready Hempty Hrun), (lossy_get _ _ _ Hv).
Qed.

(** A code the cache holds nothing for is resolved from the table. *)
Lemma Resolve_not_held code w t :
  represents (w_repo w) t → (∀ v, ¬ held (w_cache w) code v) →
  let r := Resolve code w in rr_cache_hit r.1 = false ∧ answered_by_table code w t r.1 r.2.
Proof.
  intros Ht Hnone. cbv zeta. destruct (Resolve_outcome code w) as (_ & _ & Hans).
  destruct (rr_cache_hit _); [|split; [done|]; apply read_answered; [done|apply Hans]].
  destruct Hans as (_ & _ & v & Hv & _). by destruct (Hnone v (lossy_get _ _ _ Hv)).
Qed.

(** A successful [Update] that left nothing in the cache is seen by the next call. *)
Lemma Update_seen record w t e w1 :
  represents (w_repo w) t → accepts record → Update record w = (Some (true, e), w1) → calm (w_repo w1) →
  (∀ v, ¬ held (w_cache w1) (lr_short_code record) v) →
  let r := Resolve (lr_short_code record) w1 in
  rr_cache_hit r.1 = false ∧
  ∃ stored, lr_target_url stored = lr_target_url record ∧ lr_is_active stored = lr_is_active record ∧
    lr_expires_at stored = kept_time <$> lr_expires_at record ∧ answered w1 (Some stored) r.1 r.2.
Proof.
  intros Ht Ha Hu Hcalm Hnone. rewrite Update_eq in Hu. cbv zeta in Hu. injection Hu as Hu1 Hu2.
  destruct (rep_update record _ _ Ht Ha) as (t' & Ht' & [[_ Hno]|(_ & stored & -> & Hstored)]); [by destruct (Hno e)|].
  rewrite Hu1 in Hu2. assert (Ht1 : represents (w_repo w1) (<[lr_short_code record:=stored]> t)) by by subst w1.
  destruct (Resolve_not_held (lr_short_code record) w1 _ Ht1 Hnone) as [Hhit [Hans|[_ Hn]]]; [|done].
  split; [done|]. exists stored. rewrite lookup_insert_eq in Hans. by destruct Hstored as (? & ? & ?).
Qed.

Lemma Delete_seen code w t e w1 :
  represents (w_repo w) t → Delete code w = ((true, e), w1) → (∀ v, ¬ held (w_cache w1) code v) →
  rr_status (Resolve code w1).1 = ResolveStatus.not_found.
Proof.
  intros Ht Hd Hnone. rewrite Delete_eq in Hd. cbv zeta in Hd. injection Hd as Hd1 Hd2.
  destruct (rep_delete code _ _ Ht) as (t' & Ht' & [->|[_ Hno]]); [|by rewrite Hd1 in Hno].
  assert (Ht1 : represents (w_repo w1) (delete code t)) by by subst w1.
  destruct (Resolve_not_held code w1 _ Ht1 Hnone) as [_ [(x & _ & Hans)|[? _]]]; [|done].
  rewrite lookup_delete_eq in Hans. by injection Hans.
Qed.
End staleness.

(** ** Texts without a null character *)
Definition nul_free (s : str) : Prop := Forall (fun c => code c ≠ 0%N) s.

Lemma c_str_app (a b : str) : nul_free a → c_str (a ++ b) = a ++ c_str b.
Proof.
  induction 1 as [|c a Hc _ IH]; [done|]. simpl. destruct (N.eqb_spec (code c) 0); [done|]. by rewrite IH.
Qed.

Lemma c_str_id (a : str) : nul_free a → c_str a = a.
Proof. intros Ha. by rewrite <- (app_nil_r a) at 1; rewrite c_str_app, app_nil_r. Qed.

Lemma c_str_length (s : str) : length (c_str s) ≤ length s ∧ (length (c_str s) = length s → c_str s = s).
Proof.
  induction s as [|c s [IH1 IH2]]; [done|]. simpl. destruct (N.eqb_spec (code c) 0); simpl; [split; [lia|done]|].
  split; [lia|]. intros [= He]. by rewrite IH2.
Qed.

Lemma digits_nul_free s : all_digits s → nul_free s.
Proof. intros Hs. eapply Forall_impl; [exact Hs|]. intros c Hc He. unfold is_digit in Hc. by rewrite He in Hc. Qed.

Lemma dec_nul_free z : nul_free (dec z).
Proof.
  destruct (decide (0 ≤ z)%Z); [by apply digits_nul_free, dec_digits|].
  rewrite dec_neg by lia. constructor; [done|]. apply digits_nul_free, dec_digits. lia.
Qed.

Lemma code_nul_free s : forallb is_code_char s = true → nul_free s.
Proof.
  intros Hs. apply Forall_forall. intros c Hc He. rewrite forallb_forall in Hs. apply list_elem_of_In, Hs in Hc.
  assert (c = ascii_of_N 0) as -> by (rewrite <- He; symmetry; apply ascii_N_embedding). done.
Qed.

Lemma serialized_head_nul_free v : nul_free (serialized_head v).
Proof.
  unfold serialized_head, nul_free. destruct (cv_expires_at v), (cv_version v), (cv_is_active v); simpl;
    repeat first [apply Forall_app_2 | apply dec_nul_free | apply Forall_nil_2 | apply Forall_cons_2; [done|]].
Qed.

(** What is read back of a value: the same with the expiry in whole seconds. *)
Definition read_back (v : CacheValue) : CacheValue :=
  mkCacheValue (cv_target_url v) (seconds_only <$> cv_expires_at v) (cv_is_active v) (cv_version v).

(** A target with a null character or a vertical bar is not read back at all. *)
Lemma value_read_back v v' :
  cache_value_in_range v → DeserializeCacheValue (c_str (SerializeCacheValue v)) = Some v' → v' = read_back v.
Proof.
  intros Hv. rewrite serialized_head_eq, c_str_app by apply serialized_head_nul_free.
  rewrite c_str_app by (repeat constructor; done).
  destruct (c_str_length (cv_target_url v)) as [Hle Heq]. rewrite deserialize_body by done.
  destruct (has_char _ _); [done|]. case_bool_decide as Hl; [|done]. intros [= <-]. by rewrite (Heq Hl).
Qed.

(** ** The Redis cache *)
Section redis.
Context {S R A : Type} `{RedisServerLaws S, FaultyRepositorySpec R, IAnalyticsSink A}.
Context (key_prefix : str) (default_ttl : option Z).
Notation world := (World (RedisCache.Context_ * S) R A).
Implicit Types (w : world).

#[local] Instance redis_store : ICacheStore (RedisCache.Context_ * S) := RedisCacheStore key_prefix default_ttl.

Notation server_key k := (c_str (RedisCache.FullKey key_prefix k)).

Lemma with_redis_eq {B} (m : ST (RedisCache.Context_ * S) B) ec : with_redis m ec = ((m ec.2).1, (ec.1, (m ec.2).2)).
Proof. unfold with_redis. by destruct (m ec.2). Qed.

#[local] Instance redis_clock : CacheClock (RedisCache.Context_ * S).
Proof. split; intros; simpl; rewrite with_redis_eq; done. Qed.

(** The values a read may show: what the text under the server's key decodes to. *)
Definition redis_held (c : RedisCache.Context_ * S) (k : str) (v : CacheValue) : Prop :=
  ∃ p, visible c.2 !! server_key k = Some p ∧ DeserializeCacheValue (c_str p) = Some v.

Lemma redis_held_shrink c c' k v : visible c'.2 ⊆ visible c.2 → redis_held c' k v → redis_held c k v.
Proof. intros Hsub (p & Hp & Hd). exists p. split; [by eapply lookup_weaken|done]. Qed.

#[local] Program Instance redis_lossy : LossyCacheSpec (RedisCache.Context_ * S) := {
  held := redis_held;
  same_entry k k' := server_key k = server_key k';
  reads_as v v' := DeserializeCacheValue (c_str (SerializeCacheValue v)) = Some v';
}.
Next Obligation.
  intros k ec v. simpl. rewrite with_redis_eq. simpl. destruct (RedisCache.Get _ _ _) as [[o e] st'] eqn:E.
  intros [= -> ->]. apply get_answer in E as (p & Hp & Hd & _). by exists p.
Qed.
Next Obligation. intros k ec k' v. simpl. rewrite with_redis_eq. apply redis_held_shrink, Get_keeps. Qed.
Next Obligation.
  intros k v ttl ec k' v'. simpl. rewrite with_redis_eq. intros (p & Hp & Hd). simpl in Hp.
  apply Set_writes in Hp as [[Hk ->]|Hp]; [left; by split|right; by exists p].
Qed.
Next Obligation. intros k ec k' v. simpl. rewrite with_redis_eq. apply redis_held_shrink, Delete_keeps. Qed.

(** The reply the deletion of a key gets, [reply_lost] without a connection. *)
Definition deletion_reply (k : str) (c : RedisCache.Context_ * S) : Reply :=
  let '(connected, c1) := RedisCache.EnsureConnected c in
  if (connected : bool) then (RedisCache.command (cmd_DEL (server_key k)) c1).1 else reply_lost.

(** The server has confirmed the deletion. *)
Definition deletion_confirmed (k : str) (c : RedisCache.Context_ * S) : Prop := ∃ n, deletion_reply k c = reply_integer n.

Lemma confirmed_clears k c v : deletion_confirmed k c → ¬ redis_held (RedisCache.Delete key_prefix k c).2 k v.
Proof.
  intros (n & Hn) (p & Hp & _). unfold deletion_reply in Hn. unfold RedisCache.Delete in Hp. rewrite ST_bind_eq in Hp.
  destruct (RedisCache.EnsureConnected c) as [[] c1]; [|done]. cbn in Hp. rewrite ST_bind_eq in Hp. cbn in Hp.
  destruct (command_state (cmd_DEL (server_key k)) c1) as [Hr Hs]. rewrite Hr in Hn. rewrite Hs in Hp.
  by rewrite (del_deletes _ _ _ Hn) in Hp.
Qed.

Lemma confirmed_not_held code (ec : Env * (RedisCache.Context_ * S)) v :
  deletion_confirmed code ec.2 → ¬ held (cache_Delete code ec).2.2 code v.
Proof. intros Hd. simpl. rewrite with_redis_eq. by apply confirmed_clears. Qed.

(** A code belongs to the same entry as a well-formed one only if it is that one. *)
Lemma same_server_key k k' : nul_free key_prefix → nul_free k → nul_free k' → server_key k = server_key k' → k = k'.
Proof.
  unfold RedisCache.FullKey, BuildCacheKey. intros Hp Hk Hk'. rewrite !c_str_app, !c_str_id by done. apply app_inv_head.
Qed.

(** The record with its expiry in whole seconds. *)
Definition expiry_cut (r : LinkRecord) : LinkRecord :=
  mkLinkRecord (lr_id r) (lr_short_code r) (lr_target_url r) (lr_created_at r) (lr_updated_at r)
    (seconds_only <$> lr_expires_at r) (lr_deleted_at r) (lr_owner r) (lr_attributes r) (lr_is_active r) (lr_version r).

(** C24: the service over Redis and a database that may fail never invents a
    redirect. Start from a server without keys and let any calls of [Resolve],
    [Update], [Delete] and [CreateLink] happen, with any connections, commands,
    replies and statements lost, any keys expired or evicted. Then [Resolve]
    leaves the table alone, reports one event, and answers what the table says (or
    not found, when the database fails), or, from the cache, redirects to the
    target of a record that was in the table under that very code at an earlier
    point since which the cache has never been without a value for the code; the
    record was active and its expiry, cut to whole seconds, has not passed at a
    clock reading taken during the call. Once the server has confirmed the
    deletion in the cache, a successful [Update] or [Delete] is seen: the next
    [Resolve] answers from the new record, or that there is none. *)
Theorem redis_resolution_never_invents code (w0 w : world) t0 :
  nul_free key_prefix → nul_free code → visible (w_cache w0).2 = ∅ →
  represents (w_repo w0) t0 → codes_valid t0 → records_in_range w0 → rtc typed_step w0 w →
  ∃ t, represents (w_repo w) t ∧
  (let r := Resolve code w in
   represents (w_repo r.2) t ∧ reported code w r.1 r.2 ∧
   if rr_cache_hit r.1
   then rr_status r.1 = ResolveStatus.redirect ∧
        ∃ w' t' record, rtc typed_step w0 w' ∧ rtc (held_step code) w' w ∧ represents (w_repo w') t' ∧
          t' !! code = Some record ∧ answered w (Some (expiry_cut record)) r.1 r.2
   else answered_by_table code w t r.1 r.2) ∧
  (deletion_confirmed code (w_cache w) →
   (∀ record e w1, lr_short_code record = code → accepts record → Update record w = (Some (true, e), w1) → calm (w_repo w1) →
      rr_cache_hit (Resolve code w1).1 = false ∧
      ∃ stored, lr_target_url stored = lr_target_url record ∧ lr_is_active stored = lr_is_active record ∧
        lr_expires_at stored = kept_time <$> lr_expires_at record ∧
        answered w1 (Some stored) (Resolve code w1).1 (Resolve code w1).2) ∧
   (∀ e w1, Delete code w = ((true, e), w1) → rr_status (Resolve code w1).1 = ResolveStatus.not_found)).
Proof.
  intros Hp Hk Hempty Ht0 Hcodes Hrange Hrun. assert (Hready : ready w0) by (split; eauto).
  destruct (run_ready _ _ Hrun Hready) as (_ & t & Ht & _). exists t. split_and!; [done|cbv zeta; split_and!|].
  - by apply Resolve_represents.
  - apply Resolve_outcome.
  - destruct (Resolve_stale code w0 w t Hready) as (_ & Hans); [|done|done|].
    { intros k v (p & Hv & _). by rewrite Hempty, lookup_empty in Hv. }
    destruct (rr_cache_hit _); [|done].
    destruct Hans as (Hst & v & (w' & t' & k & record & Hrun' & Hheld & Ht' & Hrec & Hsame & Hread) & Hans).
    split; [done|]. destruct (run_ready _ _ Hrun' Hready) as (Hr' & t2 & Ht2 & Hc').
    rewrite (rep_unique _ _ _ Ht2 Ht') in Hc'.
    apply same_server_key in Hsame as ->; [|done|by eapply code_nul_free, (Hc' _ _ Hrec)|done].
    apply value_read_back in Hread as ->; [|by apply (Hr' _ Ht' _ _ Hrec)]. by exists w', t', record.
  - intros Hd. split.
    + intros record e w1 <- Ha Hu Hcalm. eapply Update_seen; [done..|]. intros v.
      rewrite Update_eq in Hu. cbv zeta in Hu. injection Hu as Hu1 <-. rewrite Hu1. by apply (confirmed_not_held _ (_, _)).
    + intros e w1 Hd'. eapply Delete_seen; [done..|]. intros v.
      rewrite Delete_eq in Hd'. cbv zeta in Hd'. injection Hd' as _ <-. by apply (confirmed_not_held _ (_, _)).
Qed.
End redis.

(** The server that refuses deletions keeps the promise of a server. *)
#[export] Instance read_only_delete_laws : RedisServerLaws ReadOnlyDelete.server.
Proof.
  refine {| visible := ReadOnlyDelete.keys_of |}.
  - done.
  - intros k s p. cbn. by destruct (_ !! k); intros [= <-].
  - done.
  - intros k p s k' p'. cbn. rewrite lookup_insert_Some. naive_solver.
  - intros k t p s k' p'. cbn. rewrite lookup_insert_Some. naive_solver.
  - done.
  - done.
  - done.
Defined.

(** The same links over a server that forgets nothing and obeys. *)
Definition obedient_world : World (RedisCache.Context_ * gmap str str) InMemoryMetadata.t (list LinkAccessEvent) :=
  mkWorld sample_env (RedisCache.ctx_absent, ∅) {[ ("abc" : str) := sample_record "abc" 0 None ]} [].

Lemma small_records_in_range (tab : gmap str LinkRecord) :
  forallb (fun kr => bool_decide (lr_expires_at kr.2 = None) && bool_decide (lr_version kr.2 = 1%Z ∨ lr_version kr.2 = 2%Z)
             && (length (lr_target_url kr.2) <=? 100)%nat) (map_to_list tab) = true →
  map_Forall (fun _ record => cache_value_in_range (cache_value_of record)) tab.
Proof.
  intros Hs k r Hr. rewrite forallb_forall in Hs. specialize (Hs (k, r)). cbn -[Nat.leb] in Hs.
  apply elem_of_map_to_list, list_elem_of_In in Hr. specialize (Hs Hr).
  apply andb_true_iff in Hs as [[He%bool_decide_eq_true Hv%bool_decide_eq_true]%andb_true_iff Hl%Nat.leb_le].
  unfold cache_value_in_range. cbn. rewrite He. split_and!; [done| |lia]. intros n [= <-]. lia.
Qed.

Ltac sample_fact :=
  lazymatch goal with
  | |- nul_free _ => apply (bool_decide_unpack _); vm_compute; reflexivity
  | |- records_in_range _ => intros t <-; apply small_records_in_range; vm_compute; reflexivity
  | |- codes_valid _ => apply map_Forall_singleton; vm_compute; reflexivity
  | |- rtc _ ?w ?w => apply rtc_refl
  | |- _ => done
  end.

Lemma redis_resolution_never_invents_witness :
  (let w2 := (Update ReadOnlyDelete.moved (Resolve "abc" ReadOnlyDelete.world).2).2 in
   let r := Resolve "abc" w2 in
   rr_cache_hit r.1 = true ∧
   ∃ record, lr_target_url record = ("https://example.com/abc" : str) ∧ answered w2 (Some (expiry_cut record)) r.1 r.2) ∧
  (let store : ICacheStore (RedisCache.Context_ * gmap str str) := redis_store "link:" None in
   let w1 := (Resolve "abc" obedient_world).2 in
   let w2 := (Update ReadOnlyDelete.moved w1).2 in
   rr_cache_hit (Resolve "abc" w1).1 = true ∧ rr_cache_hit (Resolve "abc" w2).1 = false ∧
   rr_target_url (Resolve "abc" w2).1 = Some ("https://example.com/moved" : str)).
Proof.
  split.
  - set (w1 := (Resolve "abc" ReadOnlyDelete.world).2). set (w2 := (Update ReadOnlyDelete.moved w1).2).
    edestruct (redis_resolution_never_invents "link:" None "abc" ReadOnlyDelete.world w2) as (t & _ & (_ & _ & Hr) & _);
      [sample_fact|sample_fact|done|reflexivity|sample_fact|sample_fact| |].
    { eapply rtc_l; [split; [apply (call_Resolve "abc")|sample_fact]|].
      eapply rtc_l; [split; [by apply (call_Update ReadOnlyDelete.moved)|sample_fact]|apply rtc_refl]. }
    split; [vm_compute; reflexivity|].
    replace (rr_cache_hit _) with true in Hr by (vm_compute; reflexivity).
    destruct Hr as (_ & w' & t' & record & _ & _ & _ & _ & Ha). exists record. split; [|exact Ha].
    destruct Ha as (x & _ & Ha). replace (rr_target_url _) with (Some ("https://example.com/abc" : str)) in Ha by (vm_compute; reflexivity).
    unfold resolve_at in Ha. cbn in Ha. destruct (negb _); [done|]. destruct (from_option _ _ _); [done|]. by injection Ha as <-.
  - intros store w1 w2. split; [vm_compute; reflexivity|].
    edestruct (redis_resolution_never_invents "link:" None "abc" obedient_world w1) as (t & _ & _ & Hd);
      [sample_fact|sample_fact|done|reflexivity|sample_fact|sample_fact| |].
    { eapply rtc_l; [split; [apply (call_Resolve "abc")|sample_fact]|apply rtc_refl]. }
    destruct Hd as [Hd _]; [exists 1%Z; vm_compute; reflexivity|].
    destruct (Hd ReadOnlyDelete.moved RepoError.none w2) as [Hhit _]; [done|done|vm_compute; reflexivity|done|].
    split; [exact Hhit|vm_compute; reflexivity].
Defined.

(** A key is cut at its first null character, so a code that continues another one
    after it is answered from the entry of that one: the table has no such link. *)
Lemma nul_code_shares_entry :
  let store : ICacheStore (RedisCache.Context_ * gmap str str) := redis_store "link:" None in
  let w1 := (Resolve "abc" obedient_world).2 in
  let code := (("abc" : str) ++ [ascii_of_nat 0; "x"%char])%list in
  w_repo w1 !! code = None ∧ rr_target_url (Resolve code w1).1 = Some ("https://example.com/abc" : str).
Proof. vm_compute. done. Qed.

(** A link of a SQLite file whose next connection fails: [Resolve] answers that
    there is no such link and reports 404, and finds it again afterwards. *)
Lemma failing_database_answers_not_found :
  let repository := sqlite_repository (T := Reference.tree) Reference.sqlite_config in
  let lost (n : nat) := if (n =? 4)%nat then Some (("disk I/O error" : str), false) else None in
  let created := (repo_CreateLink (Reference.request "promo") "id1" Reference.now (Reference.fresh lost)).2 in
  let w : World Noop.cache (bool * SqlWorld Z) (list LinkAccessEvent) := mkWorld sample_env Noop.noop_cache created [] in
  let r := Resolve "promo" w in
  rr_status r.1 = ResolveStatus.not_found ∧ map lae_status_code (w_sink r.2) = [404%Z] ∧
  rr_status (Resolve "promo" r.2).1 = ResolveStatus.redirect.
Proof. vm_compute. done. Qed.
