(* ===== verification/Printers.v ===== *)
(** * Printers: the stream operators of the enumerations

    The overloads of [operator<<] in the headers, as instances of one class. The
    branch for a value outside the enumeration is not reachable from a value of
    the inductive type. No two values of one enumeration print alike. *)
From S2P Require Import Prelude Text Types Validation ClickEvents Analytics Pipeline LinkService RateLimiter SqlSessions.
From S2P Require Import LinkRepository Storage.

Class Printable (T : Type) := print : T → str.

Definition print_RedirectType (value : RedirectType) : str :=
  match value with permanent => "permanent" | temporary => "temporary" end.
Definition print_LinkStatus (value : LinkStatus) : str :=
  match value with deleted => "deleted" | disabled => "disabled" | expired => "expired" | active => "active" end.
Definition print_link_RepoError (value : LinkRepository.RepoError.t) : str :=
  match value with
  | LinkRepository.RepoError.not_found => "not_found"
  | LinkRepository.RepoError.already_exists => "already_exists"
  | LinkRepository.RepoError.transient_failure => "transient_failure"
  | LinkRepository.RepoError.permanent_failure => "permanent_failure"
  end.
Definition print_RepoError (e : Storage.RepoError.t) : str :=
  match e with
  | Storage.RepoError.none => "RepoError::none"
  | Storage.RepoError.not_found => "RepoError::not_found"
  | Storage.RepoError.already_exists => "RepoError::already_exists"
  | Storage.RepoError.invalid_argument => "RepoError::invalid_argument"
  | Storage.RepoError.transient_failure => "RepoError::transient_failure"
  | Storage.RepoError.permanent_failure => "RepoError::permanent_failure"
  end.
Definition print_CacheError (e : Storage.CacheError.t) : str :=
  match e with
  | Storage.CacheError.none => "CacheError::none"
  | Storage.CacheError.unavailable => "CacheError::unavailable"
  | Storage.CacheError.invalid_argument => "CacheError::invalid_argument"
  | Storage.CacheError.permanent_failure => "CacheError::permanent_failure"
  end.
Definition print_sink_AnalyticsError (e : Storage.AnalyticsError.t) : str :=
  match e with
  | Storage.AnalyticsError.none => "AnalyticsError::none"
  | Storage.AnalyticsError.unavailable => "AnalyticsError::unavailable"
  | Storage.AnalyticsError.queue_full => "AnalyticsError::queue_full"
  | Storage.AnalyticsError.permanent_failure => "AnalyticsError::permanent_failure"
  end.
Definition print_RateLimitError (e : RateLimitError.t) : str :=
  match e with
  | RateLimitError.none => "RateLimitError::none"
  | RateLimitError.invalid_key => "RateLimitError::invalid_key"
  | RateLimitError.invalid_policy => "RateLimitError::invalid_policy"
  | RateLimitError.unavailable => "RateLimitError::unavailable"
  end.
Definition print_ResolveStatus (e : ResolveStatus.t) : str :=
  match e with
  | ResolveStatus.redirect => "ResolveStatus::redirect"
  | ResolveStatus.not_found => "ResolveStatus::not_found"
  | ResolveStatus.inactive => "ResolveStatus::inactive"
  | ResolveStatus.expired => "ResolveStatus::expired"
  end.
Definition print_SqlBackendKind (kind : SqlBackendKind) : str :=
  match kind with backend_sqlite => "sqlite" | backend_postgres => "postgres" end.
Definition print_EnqueueResult (value : Queue.EnqueueResult) : str :=
  match value with Queue.Enqueued => "EnqueueResult::Enqueued" | Queue.DroppedFull => "EnqueueResult::DroppedFull" end.
Definition print_AggregateBucket (bucket : AggregateBucket) : str :=
  match bucket with hour => "AggregateBucket::hour" | day => "AggregateBucket::day" | week => "AggregateBucket::week" end.
Definition print_AnalyticsErrorCode (code : AnalyticsErrorCode.t) : str :=
  match code with
  | AnalyticsErrorCode.none => "AnalyticsErrorCode::none"
  | AnalyticsErrorCode.validation => "AnalyticsErrorCode::validation"
  | AnalyticsErrorCode.queue => "AnalyticsErrorCode::queue"
  | AnalyticsErrorCode.repository => "AnalyticsErrorCode::repository"
  | AnalyticsErrorCode.worker => "AnalyticsErrorCode::worker"
  | AnalyticsErrorCode.retention => "AnalyticsErrorCode::retention"
  end.
Definition print_AnalyticsError (error : AnalyticsError) : str :=
  ("AnalyticsError{code=" : str) ++ print_AnalyticsErrorCode (ae_code error) ++ (", message='" : str) ++ ae_message error ++ ("'}" : str).

#[export] Instance printable_redirect : Printable RedirectType := print_RedirectType.
#[export] Instance printable_status : Printable LinkStatus := print_LinkStatus.
#[export] Instance printable_link_repo : Printable LinkRepository.RepoError.t := print_link_RepoError.
#[export] Instance printable_repo : Printable Storage.RepoError.t := print_RepoError.
#[export] Instance printable_cache : Printable Storage.CacheError.t := print_CacheError.
#[export] Instance printable_sink : Printable Storage.AnalyticsError.t := print_sink_AnalyticsError.
#[export] Instance printable_limit : Printable RateLimitError.t := print_RateLimitError.
#[export] Instance printable_resolve : Printable ResolveStatus.t := print_ResolveStatus.
#[export] Instance printable_backend : Printable SqlBackendKind := print_SqlBackendKind.
#[export] Instance printable_enqueue : Printable Queue.EnqueueResult := print_EnqueueResult.
#[export] Instance printable_bucket : Printable AggregateBucket := print_AggregateBucket.
#[export] Instance printable_code : Printable AnalyticsErrorCode.t := print_AnalyticsErrorCode.
#[export] Instance printable_analytics : Printable AnalyticsError := print_AnalyticsError.

(** Every printer of an enumeration is injective. *)
Ltac print_inj := intros [] []; vm_compute; congruence.

#[export] Instance inj_redirect : Inj (=) (=) (print (T := RedirectType)).
Proof. print_inj. Qed.
#[export] Instance inj_status : Inj (=) (=) (print (T := LinkStatus)).
Proof. print_inj. Qed.
#[export] Instance inj_link_repo : Inj (=) (=) (print (T := LinkRepository.RepoError.t)).
Proof. print_inj. Qed.
#[export] Instance inj_repo : Inj (=) (=) (print (T := Storage.RepoError.t)).
Proof. print_inj. Qed.
#[export] Instance inj_cache : Inj (=) (=) (print (T := Storage.CacheError.t)).
Proof. print_inj. Qed.
#[export] Instance inj_sink : Inj (=) (=) (print (T := Storage.AnalyticsError.t)).
Proof. print_inj. Qed.
#[export] Instance inj_limit : Inj (=) (=) (print (T := RateLimitError.t)).
Proof. print_inj. Qed.
#[export] Instance inj_resolve : Inj (=) (=) (print (T := ResolveStatus.t)).
Proof. print_inj. Qed.
#[export] Instance inj_backend : Inj (=) (=) (print (T := SqlBackendKind)).
Proof. print_inj. Qed.
#[export] Instance inj_enqueue : Inj (=) (=) (print (T := Queue.EnqueueResult)).
Proof. print_inj. Qed.
#[export] Instance inj_bucket : Inj (=) (=) (print (T := AggregateBucket)).
Proof. print_inj. Qed.
#[export] Instance inj_code : Inj (=) (=) (print (T := AnalyticsErrorCode.t)).
Proof. print_inj. Qed.

(** An error prints its code and its message: both can be told from the text. *)
#[export] Instance inj_analytics : Inj (=) (=) (print (T := AnalyticsError)).
Proof.
  intros [c m] [c' m']. unfold print, printable_analytics, print_AnalyticsError. cbn [ae_code ae_message]. intros H.
  apply (inj (app _)) in H. assert (c = c') as <- by (destruct c, c'; done || discriminate H).
  do 2 apply (inj (app _)) in H. by apply (inj (.++ _)) in H as ->.
Qed.

(** The operators print the words of the JSON bodies. *)
Lemma printers_agree : (∀ t, print t = redirectTypeToString t) ∧ (∀ s, print s = linkStatusToString s).
Proof. split; by intros []. Qed.
